(* ===== verification/_CoqProject ===== *)
-Q . S2P
Prelude.v
CInt.v
SerBuffer.v
Serialize.v
SerRefine.v
Codec.v
Person.v
Rpc.v
Format.v
PersonDump.v
Printing.v
Logger.v
TransSys.v
JobQueue.v
JobQueueSpec.v
Thpool.v
ThpoolInv.v
ThpoolSafe.v
ThpoolJobs.v
ThpoolUb.v
ThpoolPosix.v
ThpoolWait.v
ThpoolLive.v
ThpoolReturn.v
ThpoolProps.v
ThpoolSpec.v
ThpoolBugs.v
ThpoolFrees.v
ThpoolDestroy.v
ThpoolClient.v
PoolTest.v
PoolTestEnds.v
Threads.v
Libc.v
Mpc.v
MpcInv.v
MpcProps.v
Options.v
Getopt.v
LogTests.v
Pc.v
CommandLine.v
PcProps.v
Explore.v
CondVar.v
Counter.v
Timer.v
Posix.v
StreamTests.v
FileOps.v
FileOpsProps.v
Standalone.v
Pointers.v
Daemon.v
Greetings.v
