(* ===== verification/Prelude.v ===== *)
(** * A verification library for the C_Playground repository

    The repository is a collection of C programs: a small library under src/common/ (a growing
    buffer with a serializer, a logger, a thread pool), programs that use it, and stand-alone
    examples of threads, signals, sockets, files and pointers.  Each modelled program is a shallow
    embedding: C functions become Rocq functions with the same names, and what C leaves undefined
    is an explicit result, so that theorems can say that it does not happen, or exactly when.

    ** How code is modelled

    - Sequential code runs in the monad [cM] of this file: a value and a new state, undefined
      behaviour ([ub]), a call of exit, or a loop out of fuel.  Integers are [Z] in the range of
      their C type (CInt: LP64, conversions wrap, signed overflow is undefined).  What the
      environment decides (malloc, fopen, read, fork) is an input of the definitions.
    - Concurrent code is a transition system (TransSys): a thread is at a control point, a label
      says who moves and what the environment answers, and a step yields the next state, blocks,
      or is undefined ([sres]).  Control points stand between accesses that other threads can
      separate.  Invariants are by rule induction over reachable states; liveness is a bound on
      the length of runs with the fact that a run only stops where it should.
    - Loops that are not structural take fuel.  Theorems on them say what happens for enough fuel:
      RESIZE_FUEL (Serialize) covers every doubling of a 32-bit size; the copy loops of FileOps
      ask for fuel for the length of the file.

    ** Files

    Foundations: Prelude (outcomes, triples, tactics, lists), CInt (integers, bytes of an int),
    TransSys (runs, reachability, measures, sums over threads), Threads (the class [Threads]: the
    step of one thread as the interface between a program and the system it makes; semaphores),
    Explore (checking all states of a finite program), Libc (atoi, rand), Format (printf).

    Serialization, src/common/serialized_buffer.c, serialize.c, deserialize.c:
    - SerBuffer: [_ser_buff_t] in a heap of blocks and every operation on it; Serialize: the
      serializer and deserializer functions over it.
    - SerRefine: the abstract tape with a cursor, and the refinement [buffer_refines_tape]: any
      program of serializing and deserializing calls acts on the buffer as on the tape; the growth
      loop ([serialize_data_total]: how often the size is doubled, what is then in the buffer,
      and the two ways to fail); what a refused realloc and a short read of the NULL mark do.
    - Codec: codecs over the tape; Person: src/common/serialization_test.c with its round trip,
      and the value that the in-band NULL mark loses; PersonDump: its main with what it prints
      to both streams, against a text given independently of the code, in which the addresses
      of a buffer's dump are symbols; Rpc: the client of src/Linux/RPC/simple_rpc.c.

    Logger and command lines, src/common/logger.c and logger.h: Logger (levels, streams, the
    composition of a message in the fixed array, and where that array is overrun); Options (the
    option loop of src/Console/console_template.c and how it configures the logger); Getopt
    (getopt_long as a scan of words, and the grammar it follows); CommandLine (the template and
    src/Pthread/producer_consumer.c from argv to the configured logger); LogTests
    (src/common/logger_test.c and src/Miscs/link_so_test.c).

    Thread pool, src/common/thpool.c:
    - JobQueue: the queue as linked nodes in a heap, [queue_repr]; JobQueueSpec: its well-formed
      states and the list of jobs that it refines; Thpool: all functions as steps
      of client and worker threads, with the three locks, the binary semaphore, the condition
      variables, SIGUSR1, calls with a NULL pool, and a history of the jobs.  Its [step] is what
      the pool does where bsem_reset initialises the initialised mutex and condition variable of
      the semaphore again; POSIX leaves that undefined, and [posix_step] stops there.
    - ThpoolInv, ThpoolSafe, ThpoolJobs, ThpoolUb, ThpoolPosix, ThpoolWait, ThpoolLive,
      ThpoolReturn: the invariants (locks and counters, who owns which node, the array of threads,
      what [posix_step] reaches, a thread inside of thpool_wait, the signals that cannot be lost)
      and the bound for thpool_wait.
    - ThpoolProps: the promises: jobs once and in order, thpool_wait waits and returns, locks,
      and the two undefined steps, both of thpool_destroy.  ThpoolSpec: the abstract pool, a queue
      with workers, and the refinement [thpool_refines]; clients of the pool are verified against
      that specification.
      ThpoolBugs: schedules after which nothing moves: a second waiter, a late pause signal.
    - ThpoolFrees: when thpool_destroy has returned nothing is left allocated; ThpoolDestroy: it
      returns, in runs of [step] in which it posts the semaphore again only when the workers have
      come to rest ([patient_step]; the code sleeps for a second between two posts to that end).
    - ThpoolClient: for a single client, thpool_wait returns when the abstract pool is empty: the
      step that the clients of the specification take.  PoolTest and PoolTestEnds:
      src/common/thpool_test.c over the specification, three jobs that race for a number.

    Threads: Mpc, MpcInv, MpcProps (src/Pthread/multiple_producer_consumer.c: semaphores, each
    number once, completion, capacity 0, the destruction of semaphores in use); Pc, PcProps
    (src/Pthread/producer_consumer.c with its options); CondVar (src/Miscs/condition_variables.c);
    Counter (mutex_example.c and pthread_join_example.c of src/Miscs/, for n threads, the load
    and the store of the increment as steps of their own); Timer
    (src/Linux/Signals/signal_timer_example.c: handlers as frames over main); Greetings
    (src/Linux/Socket/tcp_server.c with tcp_client.c, and src/Miscs/hello_pthread.c); Standalone
    (src/Linux/Socket/tcp_standalone.c: server and client jobs on two pools of ThpoolSpec).

    Files, memory, processes: Posix (descriptors, open file descriptions, files, the umask) with
    FileOps and FileOpsProps (src/POSIX_File/*.c, src/Linux/File/src/lseek.c, src/FileIO/ptr_struct_file.c);
    StreamTests (file_pointer_test.c and buff_type_test.c of src/FileIO/, and
    src/Linux/File/src/fmemopen.c); Pointers (src/Pointers/*.c, free.c, func_arg_ptr.c,
    array_ptr.c and size_t_op.c of src/Miscs/, src/GDB/bug.c, src/Valgrind/*.c); Daemon
    (src/Linux/Daemon/simple_daemon.c); Printing (src/Console/progress_bar.c and
    src/Linux/Syslog/syslog_example.c).

    ** What the theorems show

    - Refinement: [buffer_refines_tape], [thpool_refines], [thpool_wait_empties],
      [jobqueue_well_formed].  Round trip: [test_main_roundtrip].  The command line follows its
      grammar: [getopt_grammar], [template_command_line].
    - Invariants and safety: [thpool_jobs_once], [thpool_locks_and_counters],
      [thpool_wait_waits], [thpool_only_ub], [thpool_destroy_frees], [mpc_semaphores],
      [mpc_each_number_once], [mpc_defined], [timer_no_lost_signal], [pc_result], [pc_memory_safe].
    - Liveness and termination: [thpool_wait_returns], [thpool_destroy_returns], [mpc_completes], [timer_ends],
      [pc_no_deadlock], [counting_finishes], [counter_counts], [tcp_exchange],
      [thpool_test_ends], [serialize_data_total].
    - Functional behaviour: [log_msg_writes_line], [logger_test_file], [main_prints_stored],
      [multiply_rpc_datagram], [cp_copies], [dup_shares_position], [file_pointer_reads],
      [daemon_runs_once], [parse_commands_spec], [free_pointer_correctly_spec],
      [progress_lines], [syslog_sends].
    - Where the code goes wrong, stated as theorems: [serialize_data_realloc_refused],
      [deserialize_null_short], [sentinel_name_lost], [do_log_msg_overflow],
      [thpool_test_range], [mpc_no_capacity], [mpc_destroy_in_use], [second_waiter_hangs],
      [late_signal_holds_worker], [pc_no_room], [size_redirects_log], [polling_size],
      [display_is_usage], [cp_existing_target], [ptr_struct_copies], [file_pointer_short],
      [fmemopen_prints], [buff_type_prints], [standalone_never_completes].

    ** Bounds

    The pool is verified for every number of workers and clients, and fewer than 2^31 - 1 jobs;
    the producers and consumers for every number of threads; Counter for every n up to INT_MAX.
    CondVar, Greetings and Standalone are finite: [Explore] computes a set of states that is
    closed under steps, in at most as many layers as the fuel given there, and [closed] checks
    that it is complete.  Standalone assumes that thpool_init, when it returns a pool, has its
    worker, and that a job's own steps interleave with the pool's as the steps of any thread do;
    so does PoolTest, for its eight workers and the limit of 1000.  PoolTestEnds bounds its runs
    by a measure in base 2003: no value of the number exceeds 2001.  The loop of the progress bar
    has fuel for its 10000 turns.

    ** Not modelled

    - Output that is only shown: the log lines of the concurrent examples, the usage texts of
      console_template.c and multiple_producer_consumer.c, and the pointers inside of
      the FILE structure (get_buffer_size and print_all_info of file_pointer_test.c).
    - src/common/common.h: includes, and two macros that no program uses.  The branches for
      Windows and MinGW.  Code that follows pthread_exit.
    - Weak memory: a data race on a plain variable is an interleaving of its accesses, which is
      more than C promises; the races that matter are among the findings.
    - The timing of sleep, usleep and timers; the scheduler is arbitrary. *)

From stdpp Require Export prelude list gmap relations.
From Stdlib Require Export ZArith Lia.

#[export] Set Default Goal Selector "!".
#[export] Set Warnings "-clear-no-such-hyp".

Declare Scope c_scope.
Delimit Scope c_scope with C.

(** ** Undefined behaviour and outcomes *)

(** The undefined behaviours a modelled function can run into. *)
Inductive ub :=
  | NullDeref
  | OutOfBounds
  | UseAfterFree
  | DoubleFree
  | Uninitialised
  | SignedOverflow
  | NullCall
  | NoReturnValue
  | NotLocked
  | Destroyed
  | InvalidFree
  | Reinitialised.

#[export] Instance ub_eq_dec : EqDecision ub.
Proof. solve_decision. Defined.

(** What running a function in state [s] comes to: a value and the new state, undefined
    behaviour, a call of [exit], or a loop that used up the fuel it was given. *)
Inductive outcome (S A : Type) :=
  | Done (a : A) (s : S)
  | Undef (u : ub)
  | Exited (code : Z) (s : S)
  | NoFuel.
Arguments Done {_ _} _ _.
Arguments Undef {_ _} _.
Arguments Exited {_ _} _ _.
Arguments NoFuel {_ _}.

(** Stateful, fallible computations; the instances give stdpp's [x ← e; k] notation. *)
Definition cM (S A : Type) : Type := S → outcome S A.

#[export] Instance cM_ret S : MRet (cM S) := λ A a s, Done a s.

#[export] Instance cM_bind S : MBind (cM S) := λ A B f m s,
  match m s with
  | Done a s' => f a s'
  | Undef u => Undef u
  | Exited c s' => Exited c s'
  | NoFuel => NoFuel
  end.

Definition get {S} : cM S S := λ s, Done s s.
Definition put {S} (s : S) : cM S unit := λ _, Done tt s.
Definition gets {S A} (f : S → A) : cM S A := λ s, Done (f s) s.
Definition modify {S} (f : S → S) : cM S unit := λ s, Done tt (f s).
Definition undef {S A} (u : ub) : cM S A := λ _, Undef u.
Definition exit {S A} (code : Z) : cM S A := λ s, Exited code s.
Definition out_of_fuel {S A} : cM S A := λ _, NoFuel.
Definition check {S} (b : bool) (u : ub) : cM S unit := if b then mret tt else undef u.

Lemma bind_done {S A B} (m : cM S A) (f : A → cM S B) s a s' :
  m s = Done a s' → (m ≫= f) s = f a s'.
Proof. unfold mbind, cM_bind. by intros ->. Qed.

Lemma bind_undef {S A B} (m : cM S A) (f : A → cM S B) s u :
  m s = Undef u → (m ≫= f) s = Undef u.
Proof. unfold mbind, cM_bind. by intros ->. Qed.

Lemma bind_ret {S A B} (a : A) (f : A → cM S B) s : (mret a ≫= f) s = f a s.
Proof. reflexivity. Qed.

Lemma bind_get {S B} (f : S → cM S B) s : (get ≫= f) s = f s s.
Proof. reflexivity. Qed.

Lemma bind_put {S B} (s' : S) (f : unit → cM S B) s : (put s' ≫= f) s = f tt s'.
Proof. reflexivity. Qed.

(** [cstep H]: execute the first action of a sequence by the equation [H]. *)
Ltac cstep H := rewrite (bind_done _ _ _ _ _ H).

Lemma bind_assoc {S A B C} (m : cM S A) (f : A → cM S B) (g : B → cM S C) s :
  ((m ≫= f) ≫= g) s = (m ≫= (λ a, f a ≫= g)) s.
Proof. unfold mbind, cM_bind. by destruct (m s). Qed.

(** ** Total-correctness triples *)

(** [triple P m Q]: from a state in [P], [m] returns (no undefined behaviour, no exit, no
    lack of fuel) and its value and state are in [Q]. *)
Definition triple {S A} (P : S → Prop) (m : cM S A) (Q : A → S → Prop) : Prop :=
  ∀ s, P s → ∃ a s', m s = Done a s' ∧ Q a s'.

Lemma triple_bind {S A B} (P : S → Prop) (m : cM S A) (R : A → S → Prop)
    (f : A → cM S B) (Q : B → S → Prop) :
  triple P m R → (∀ a, triple (R a) (f a) Q) → triple P (m ≫= f) Q.
Proof.
  intros Hm Hf s HP. destruct (Hm s HP) as (a & s' & Hs & HR).
  destruct (Hf a s' HR) as (b & s'' & Hs' & HQ).
  exists b, s''. by rewrite (bind_done _ _ _ _ _ Hs).
Qed.

Lemma triple_conseq {S A} (P P' : S → Prop) (m : cM S A) (Q Q' : A → S → Prop) :
  triple P' m Q' → (∀ s, P s → P' s) → (∀ a s, Q' a s → Q a s) → triple P m Q.
Proof.
  intros Hm HP HQ s Hs. destruct (Hm s (HP s Hs)) as (a & s' & ? & ?).
  exists a, s'. auto.
Qed.

Lemma triple_ret {S A} (a : A) (Q : A → S → Prop) : triple (Q a) (mret a) Q.
Proof. intros s HQ. by exists a, s. Qed.

(** Sequencing in two steps: a first action that returns, then the rest. *)
Lemma triple_seq {S A B} (P : S → Prop) (m : cM S A) (f : A → cM S B) (Q : B → S → Prop) :
  triple P m (λ a s, ∃ b s', f a s = Done b s' ∧ Q b s') → triple P (m ≫= f) Q.
Proof.
  intros Hm s HP. destruct (Hm s HP) as (a & s' & Hs & b & s'' & Hf & HQ).
  exists b, s''. by rewrite (bind_done _ _ _ _ _ Hs).
Qed.

(** [ends m]: no loop of [m] runs out of fuel, whatever the state. *)
Definition ends {S A} (m : cM S A) : Prop := ∀ s, m s ≠ NoFuel.

Lemma ends_bind {S A B} (m : cM S A) (f : A → cM S B) :
  ends m → (∀ a, ends (f a)) → ends (m ≫= f).
Proof.
  intros Hm Hf s. unfold mbind, cM_bind. specialize (Hm s).
  destruct (m s) as [a s'| | |]; [apply Hf|done..].
Qed.

Lemma ends_ret {S A} (a : A) : ends (mret a : cM S A).
Proof. done. Qed.

Lemma ends_undef {S A} u : ends (undef u : cM S A).
Proof. done. Qed.

Lemma ends_modify {S} (f : S → S) : ends (modify f).
Proof. done. Qed.

Lemma ends_check {S} c u : ends (check (S := S) c u).
Proof. by destruct c. Qed.

Create HintDb cplay discriminated.
#[export] Hint Resolve ends_bind ends_ret ends_undef ends_modify ends_check : cplay.
#[export] Hint Resolve triple_ret : cplay.

(** ** Tactics *)

(** Run the monadic plumbing of a goal as far as it computes. *)
Ltac crun :=
  repeat (first
    [ progress unfold get, put, gets, modify, undef, exit, out_of_fuel, check
    | progress unfold mret, cM_ret, mbind, cM_bind
    | progress cbn beta iota ]).

(** Case analysis on the innermost [match] or [if] of the goal, keeping the equation. *)
Ltac case_goal :=
  match goal with
  | |- context [match ?x with _ => _ end] =>
      lazymatch x with
      | context [match _ with _ => _ end] => fail
      | _ => destruct x eqn:?
      end
  end.

(** The same in a hypothesis. *)
Ltac case_hyp H :=
  match type of H with
  | context [match ?x with _ => _ end] =>
      lazymatch x with
      | context [match _ with _ => _ end] => fail
      | _ => destruct x eqn:?
      end
  end.

(** Turn boolean comparisons of integers in the context into propositions. *)
Ltac zbool :=
  repeat match goal with
  | H : (_ =? _)%Z = true |- _ => apply Z.eqb_eq in H
  | H : (_ =? _)%Z = false |- _ => apply Z.eqb_neq in H
  | H : (_ <? _)%Z = true |- _ => apply Z.ltb_lt in H
  | H : (_ <? _)%Z = false |- _ => apply Z.ltb_ge in H
  | H : (_ <=? _)%Z = true |- _ => apply Z.leb_le in H
  | H : (_ <=? _)%Z = false |- _ => apply Z.leb_gt in H
  | H : (_ && _)%bool = true |- _ => apply andb_true_iff in H; destruct H
  | H : (_ || _)%bool = false |- _ => apply orb_false_iff in H; destruct H
  | H : negb _ = true |- _ => apply negb_true_iff in H
  | H : negb _ = false |- _ => apply negb_false_iff in H
  end.

(** ** Lists *)

Section list_lemmas.
Context {A : Type}.
Implicit Types l : list A.

(** Writing [d] over the cells of [l] that start at index [i]. *)
Definition splice (i : nat) (d l : list A) : list A :=
  take i l ++ d ++ drop (i + length d) l.

Lemma length_splice i d l : i + length d ≤ length l → length (splice i d l) = length l.
Proof.
  intros H. unfold splice. rewrite !length_app, length_take, length_drop. lia.
Qed.

Lemma take_splice i d l :
  i + length d ≤ length l → take (i + length d) (splice i d l) = take i l ++ d.
Proof.
  intros H. unfold splice. rewrite app_assoc, take_app_le.
  - apply take_ge. rewrite length_app, length_take. lia.
  - rewrite length_app, length_take. lia.
Qed.

Lemma drop_splice i d l :
  i + length d ≤ length l → drop (i + length d) (splice i d l) = drop (i + length d) l.
Proof.
  intros H. unfold splice. rewrite app_assoc, drop_app_ge.
  - rewrite length_app, length_take, Nat.min_l by lia.
    by rewrite Nat.sub_diag, drop_0.
  - rewrite length_app, length_take. lia.
Qed.

(** Overwriting a prefix of [l] is overwriting [l]. *)
Lemma splice_prefix i d l k :
  l `prefix_of` k → i ≤ length l → splice i d l `prefix_of` splice i d k.
Proof.
  intros [r ->] Hi. unfold splice. rewrite take_app_le, drop_app by done.
  rewrite !app_assoc. by apply prefix_app_r.
Qed.

(** The [n] cells of [l] from index [i]. *)
Definition slice (i n : nat) l : list A := take n (drop i l).

Lemma length_slice i n l : i + n ≤ length l → length (slice i n l) = n.
Proof. intros H. unfold slice. rewrite length_take, length_drop. lia. Qed.

Lemma slice_prefix i n l k :
  l `prefix_of` k → i + n ≤ length l → slice i n k = slice i n l.
Proof.
  intros [r ->] H. unfold slice. rewrite drop_app_le by lia.
  rewrite take_app_le; [done|]. rewrite length_drop. lia.
Qed.

Lemma slice_app_r (l1 l2 l3 : list A) :
  slice (length l1) (length l2) (l1 ++ l2 ++ l3) = l2.
Proof. unfold slice. by rewrite drop_app_length, take_app_length. Qed.

End list_lemmas.

Lemma splice_fmap {A B} (f : A → B) i (d l : list A) : f <$> splice i d l = splice i (f <$> d) (f <$> l).
Proof. unfold splice. by rewrite !fmap_app, fmap_take, fmap_drop, length_fmap. Qed.

Lemma slice_fmap {A B} (f : A → B) i n (l : list A) : slice i n (f <$> l) = f <$> slice i n l.
Proof. unfold slice. by rewrite fmap_take, fmap_drop. Qed.
