(* ===== verification/CInt.v ===== *)
(** * Machine integers of the LP64 ABI the repository is built for

    [int] and [unsigned int] have 32 bits, [size_t] and [long] have 64.  A value is the
    integer it denotes (a [Z]); conversions wrap, signed arithmetic that leaves the range is
    undefined behaviour.  The little-endian representation of an [int] is what
    [memcpy(dst, &i, sizeof(int))] copies. *)

From coqutil Require Import Word.LittleEndianList Byte.
From S2P Require Import Prelude.

Open Scope Z_scope.

Definition INT_MIN : Z := - 2 ^ 31.
Definition INT_MAX : Z := 2 ^ 31 - 1.
Definition UINT_MAX : Z := 2 ^ 32 - 1.
Definition SIZE_MAX : Z := 2 ^ 64 - 1.

Definition is_int (z : Z) : Prop := INT_MIN <= z <= INT_MAX.

#[export] Instance is_int_dec z : Decision (is_int z).
Proof. unfold is_int. apply _. Defined.

(** Conversions: to [int] (gcc: modulo 2^32), to [unsigned int], to [size_t]. *)
Definition to_int (z : Z) : Z := (z + 2 ^ 31) mod 2 ^ 32 - 2 ^ 31.
Definition to_uint (z : Z) : Z := z mod 2 ^ 32.
Definition to_size (z : Z) : Z := z mod 2 ^ 64.

(** Signed arithmetic: the result when it is an [int]. *)
Definition int_result {S} (z : Z) : cM S Z :=
  if decide (is_int z) then mret z else undef SignedOverflow.
Definition int_add {S} (x y : Z) : cM S Z := int_result (x + y).
Definition int_sub {S} (x y : Z) : cM S Z := int_result (x - y).
Definition int_mul {S} (x y : Z) : cM S Z := int_result (x * y).

(** Bytes in memory; [sizeof(int)] and [sizeof(unsigned int)] are 4. *)
Abbreviation byte := Corelib.Init.Byte.byte.
Definition sizeof_int : Z := 4.
Definition int_bytes (z : Z) : list byte := le_split 4 z.
Definition bytes_int (bs : list byte) : Z := to_int (le_combine bs).
Definition bytes_uint (bs : list byte) : Z := le_combine bs.

Ltac int_unfold := unfold is_int, INT_MIN, INT_MAX, UINT_MAX, SIZE_MAX in *.

Lemma to_int_is_int z : is_int (to_int z).
Proof. unfold to_int. int_unfold. pose proof (Z.mod_pos_bound (z + 2 ^ 31) (2 ^ 32)). lia. Qed.

Lemma to_int_id z : is_int z → to_int z = z.
Proof. int_unfold. intros H. unfold to_int. rewrite Z.mod_small; lia. Qed.

Lemma to_int_to_uint z : to_int (to_uint z) = to_int z.
Proof. unfold to_int, to_uint. by rewrite Zplus_mod_idemp_l. Qed.

Lemma to_uint_range z : 0 <= to_uint z <= UINT_MAX.
Proof. unfold to_uint. int_unfold. pose proof (Z.mod_pos_bound z (2 ^ 32)). lia. Qed.

Lemma to_size_id z : 0 <= z <= SIZE_MAX → to_size z = z.
Proof. int_unfold. intros H. unfold to_size. rewrite Z.mod_small; lia. Qed.

Lemma int_result_ok {S} z (s : S) : is_int z → int_result z s = Done z s.
Proof. intros H. unfold int_result. by rewrite decide_True. Qed.

Lemma ends_int_result {S} z : ends (int_result (S := S) z).
Proof. intros s. unfold int_result. by case_decide. Qed.

#[export] Hint Resolve ends_int_result : cplay.

Lemma length_int_bytes z : length (int_bytes z) = 4%nat.
Proof. apply length_le_split. Qed.

Lemma bytes_uint_int_bytes z : bytes_uint (int_bytes z) = to_uint z.
Proof. unfold bytes_uint, int_bytes. by rewrite le_combine_split. Qed.

Lemma bytes_int_int_bytes z : is_int z → bytes_int (int_bytes z) = z.
Proof.
  intros H. unfold bytes_int. change (le_combine ?x) with (bytes_uint x).
  by rewrite bytes_uint_int_bytes, to_int_to_uint, to_int_id.
Qed.

Lemma int_bytes_bytes_int bs : length bs = 4%nat → int_bytes (bytes_int bs) = bs.
Proof.
  intros Hl. unfold int_bytes, bytes_int.
  rewrite le_split_mod. change (2 ^ (Z.of_nat 4 * 8)) with (2 ^ 32).
  assert (Hb := le_combine_bound bs). rewrite Hl in Hb.
  change (8 * Z.of_nat 4) with 32 in Hb.
  assert (to_int (le_combine bs) mod 2 ^ 32 = le_combine bs) as ->.
  { unfold to_int. rewrite Zminus_mod_idemp_l, Z.add_simpl_r. by apply Z.mod_small. }
  by apply split_le_combine'.
Qed.

(** The little-endian image of [0xFFFFFFFF]. *)
Lemma bytes_uint_inj bs bs' :
  length bs = length bs' → bytes_uint bs = bytes_uint bs' → bs = bs'.
Proof. apply le_combine_inj. Qed.

#[export] Hint Resolve to_int_is_int : cplay.

Arguments int_bytes : simpl never.
Arguments bytes_int : simpl never.
Arguments bytes_uint : simpl never.
