(* ===== verification/SerBuffer.v ===== *)
(** * The serialization buffer: common/serialized_buffer.c

    A buffer is a heap object with a block [b], the allocated size and the cursor [next].
    The block is kept as the cells really allocated, so that a [size] field that runs ahead of
    the block (a failed [realloc]) and an access outside the block are visible.  A cell is
    [None] while its contents are indeterminate (fresh memory from [realloc]).  Which
    allocation requests the C library grants is an input of the model ([grants]). *)

From S2P Require Import Prelude CInt.

Open Scope Z_scope.

(** ** Data *)

Definition cell : Type := option byte.

(** [ser_buff_t] is an opaque pointer, [None] is NULL; so are the function pointers. *)
Definition ser_buff_t : Type := option positive.
Definition fptr_t : Type := option positive.

Definition SERIALIZE_BUFFER_DEFAULT_SIZE : Z := 512.

Record _ser_buff_t := mk_ser_buff {
  b : list cell;
  size : Z;
  next : Z;
  ser_func : fptr_t;
  dser_func : fptr_t;
}.

Definition set_b v x := mk_ser_buff v (size x) (next x) (ser_func x) (dser_func x).
Definition set_size v x := mk_ser_buff (b x) v (next x) (ser_func x) (dser_func x).
Definition set_next v x := mk_ser_buff (b x) (size x) v (ser_func x) (dser_func x).

(** The live buffers, the next address, and the fate of the coming allocation requests (a
    request past the end of the list is granted). *)
Record heap := mk_heap {
  bufs : gmap positive _ser_buff_t;
  brk : positive;
  grants : list bool;
}.

Definition empty_heap (g : list bool) : heap := mk_heap ∅ 1 g.

Definition upd_buf (l : positive) (x : _ser_buff_t) (h : heap) : heap :=
  mk_heap (<[l := x]> (bufs h)) (brk h) (grants h).

(** ** Memory primitives *)

Definition grant : cM heap bool := λ h,
  match grants h with
  | [] => Done true h
  | g :: gs => Done g (mk_heap (bufs h) (brk h) gs)
  end.

Definition new_buf (x : _ser_buff_t) : cM heap positive := λ h,
  Done (brk h) (mk_heap (<[brk h := x]> (bufs h)) (Pos.succ (brk h)) (grants h)).

(** Following the handle: [*_buf]. *)
Definition deref (_buf : ser_buff_t) : cM heap (positive * _ser_buff_t) := λ h,
  match _buf with
  | None => Undef NullDeref
  | Some l =>
      match bufs h !! l with
      | None => Undef UseAfterFree
      | Some x => Done (l, x) h
      end
  end.

Definition store (l : positive) (x : _ser_buff_t) : cM heap unit := modify (upd_buf l x).

Definition free_buf (l : positive) : cM heap unit :=
  modify (λ h, mk_heap (delete l (bufs h)) (brk h) (grants h)).

(** [realloc(p, n)]: NULL with [p] untouched, or a block of [n] cells that starts with the
    old contents. *)
Definition realloc (p : list cell) (n : Z) : cM heap (option (list cell)) :=
  ok ← grant;
  mret (if ok : bool
        then Some (take (Z.to_nat n) p ++ replicate (Z.to_nat n - length p) None)
        else None).

(** [memcpy(SER_POS, data, n)] and [memcpy(dest, SER_POS, n)] at offset [pos] of a block. *)
Definition in_block (p : list cell) (pos n : Z) : bool :=
  (0 <=? pos) && (pos + n <=? Z.of_nat (length p)).

Definition write_cells (p : list cell) (pos : Z) (data : list byte) : cM heap (list cell) :=
  check (in_block p pos (Z.of_nat (length data))) OutOfBounds;;
  mret (splice (Z.to_nat pos) (Some <$> data) p).

Definition read_cells (p : list cell) (pos n : Z) : cM heap (list cell) :=
  check (in_block p pos n) OutOfBounds;;
  mret (slice (Z.to_nat pos) (Z.to_nat n) p).

(** Using a value read from memory: indeterminate cells have none. *)
Definition bytes_of_cells (cs : list cell) : cM heap (list byte) :=
  match mapM id cs with
  | Some bs => mret bs
  | None => undef Uninitialised
  end.

(** ** Operations *)

Definition serialized_buffer_create (fptr dfptr : fptr_t) : cM heap ser_buff_t :=
  ok ← grant;
  if negb ok then mret None
  else
    ok' ← grant;
    if negb ok' then mret None
    else
      l ← new_buf (mk_ser_buff (replicate (Z.to_nat SERIALIZE_BUFFER_DEFAULT_SIZE) (Some Byte.x00))
                     SERIALIZE_BUFFER_DEFAULT_SIZE 0 fptr dfptr);
      mret (Some l).

Definition serialized_buffer_destroy (_buf : ser_buff_t) : cM heap unit :=
  match _buf with
  | None => mret tt
  | Some _ =>
      '(l, _) ← deref _buf;
      free_buf l
  end.

Definition serialized_buffer_size (_buf : ser_buff_t) : cM heap Z :=
  '(_, buf) ← deref _buf; mret (size buf).

Definition serialized_buffer_next (_buf : ser_buff_t) : cM heap Z :=
  '(_, buf) ← deref _buf; mret (next buf).

Definition serialized_buffer_resize (_buf : ser_buff_t) (ratio : Z) : cM heap unit :=
  '(l, buf) ← deref _buf;
  size' ← int_mul (size buf) ratio;
  store l (set_size size' buf);;
  tmp ← realloc (b buf) (to_size size');
  match tmp with
  | None => mret tt
  | Some b' => store l (set_b b' (set_size size' buf))
  end.

(** The fuel of both resize loops: 31 doublings of a positive [int] overflow. *)
Definition RESIZE_FUEL : nat := 32.

Fixpoint skip_grow (fuel : nat) (_buf : ser_buff_t) (available_size sz : Z) : cM heap unit :=
  if available_size <? sz then
    match fuel with
    | O => out_of_fuel
    | S fuel' =>
        serialized_buffer_resize _buf 2;;
        '(_, buf) ← deref _buf;
        available_size' ← int_sub (size buf) (next buf);
        skip_grow fuel' _buf available_size' sz
    end
  else mret tt.

Definition next_add (_buf : ser_buff_t) (n : Z) : cM heap unit :=
  '(l, buf) ← deref _buf;
  next' ← int_add (next buf) n;
  store l (set_next next' buf).

Definition serialized_buffer_skip (_buf : ser_buff_t) (sz : Z) : cM heap unit :=
  '(_, buf) ← deref _buf;
  available_size ← int_sub (size buf) (next buf);
  if sz <=? available_size then next_add _buf sz
  else
    skip_grow RESIZE_FUEL _buf available_size sz;;
    next_add _buf sz.

(** [buf->b]: the block itself stands for the pointer to its start. *)
Definition serialized_buffer_start_pos (_buf : ser_buff_t) : cM heap (list cell) :=
  '(_, buf) ← deref _buf; mret (b buf).

(** [SER_POS]: the block and the offset of the cursor. *)
Definition serialized_buffer_ser_pos (_buf : ser_buff_t) : cM heap (list cell * Z) :=
  '(_, buf) ← deref _buf; mret (b buf, next buf).

(** The parameter is an [int]: a [size_t] argument is converted. *)
Definition serialized_buffer_ser_pos_incr (_buf : ser_buff_t) (sz : Z) : cM heap unit :=
  next_add _buf (to_int sz).

(** What the dump prints of the record, in its order (the address of the block aside). *)
Definition dump_t : Type := Z * Z * fptr_t * fptr_t.
Definition dumps_t : Type := list dump_t.

Definition serialized_buffer_dump (_buf : ser_buff_t) : cM heap dump_t :=
  '(_, buf) ← deref _buf;
  mret (size buf, next buf, ser_func buf, dser_func buf).

Definition serialized_buffer_reset (_buf : ser_buff_t) : cM heap unit :=
  '(l, buf) ← deref _buf;
  store l (set_next 0 buf).

(** The functions that the buffer's function pointers denote, over the objects [any] that
    [any_t] points to ([None]: NULL).  A serializer also returns the dumps that it prints. *)
Class Callbacks (any : Type) := {
  call_ser : positive → ser_buff_t → option any → cM heap dumps_t;
  call_dser : positive → ser_buff_t → cM heap (option any);
}.

Definition serialized_buffer_do_serialize `{Callbacks any} (_buf : ser_buff_t)
    (data : option any) : cM heap dumps_t :=
  '(_, buf) ← deref _buf;
  match ser_func buf with
  | None => undef NullCall
  | Some f => call_ser f _buf data
  end.

Definition serialized_buffer_do_deserialize `{Callbacks any} (_buf : ser_buff_t) :
    cM heap (option any) :=
  '(_, buf) ← deref _buf;
  match dser_func buf with
  | None => undef NullCall
  | Some f => call_dser f _buf
  end.

(** ** The abstract buffer *)

(** What the operations promise: a byte string with a cursor, written and read from the
    cursor on, and the two callbacks the buffer was created with. *)
Record tape := mk_tape { content : list byte; pos : nat; on_ser : fptr_t; on_dser : fptr_t }.

Definition tape_new (fptr dfptr : fptr_t) : tape := mk_tape [] 0 fptr dfptr.
Definition tape_write (data : list byte) (t : tape) : tape :=
  mk_tape (take (pos t) (content t) ++ data ++ drop (pos t + length data) (content t))
    (pos t + length data) (on_ser t) (on_dser t).
Definition tape_seek (i : nat) (t : tape) : tape :=
  mk_tape (content t) i (on_ser t) (on_dser t).
Definition tape_read (n : nat) (t : tape) : list byte := slice (pos t) n (content t).

(** The invariant of a buffer whose allocations succeeded. *)
Record buf_ok (x : _ser_buff_t) : Prop := {
  ok_block : Z.of_nat (length (b x)) = size x;
  ok_next : 0 <= next x <= size x;
  ok_size : SERIALIZE_BUFFER_DEFAULT_SIZE <= size x <= INT_MAX;
}.

(** A buffer implements a tape: the cursors agree and the tape's bytes are in the block. *)
Record repr (x : _ser_buff_t) (t : tape) : Prop := {
  repr_ok : buf_ok x;
  repr_next : next x = Z.of_nat (pos t);
  repr_pos : (pos t <= length (content t))%nat;
  repr_content : (Some <$> content t) `prefix_of` b x;
  repr_ser : ser_func x = on_ser t;
  repr_dser : dser_func x = on_dser t;
}.

(** In a heap that is [h] but for the buffer at [l], that buffer implements [t]; requests are
    granted. *)
Definition holds (l : positive) (t : tape) (h : heap) (s : heap) : Prop :=
  grants h = [] ∧ ∃ x, s = upd_buf l x h ∧ repr x t.

(** ** Lemmas *)

Ltac ser_lia := unfold SERIALIZE_BUFFER_DEFAULT_SIZE in *; int_unfold; lia.

Lemma deref_upd l x h : deref (Some l) (upd_buf l x h) = Done (l, x) (upd_buf l x h).
Proof. unfold deref, upd_buf. cbn. by rewrite lookup_insert_eq. Qed.

Lemma deref_lookup l x h : bufs h !! l = Some x → deref (Some l) h = Done (l, x) h.
Proof. unfold deref. by intros ->. Qed.

Lemma upd_upd l x y h : upd_buf l y (upd_buf l x h) = upd_buf l y h.
Proof. unfold upd_buf. cbn. by rewrite insert_insert_eq. Qed.

Lemma upd_id l x h : bufs h !! l = Some x → upd_buf l x h = h.
Proof. intros H. unfold upd_buf. rewrite insert_id by done. by destruct h. Qed.

Lemma store_upd l x y h : store l y (upd_buf l x h) = Done tt (upd_buf l y h).
Proof. unfold store, modify. by rewrite upd_upd. Qed.

Lemma grant_nil h : grants h = [] → grant h = Done true h.
Proof. unfold grant. by intros ->. Qed.

(** The buffer after a granted [resize] by 2. *)
Definition doubled (x : _ser_buff_t) : _ser_buff_t :=
  set_b (b x ++ replicate (length (b x)) None) (set_size (size x * 2) x).

Lemma resize_granted l x h :
  grants h = [] → buf_ok x → size x <= 2 ^ 30 - 1 →
  serialized_buffer_resize (Some l) 2 (upd_buf l x h) = Done tt (upd_buf l (doubled x) h).
Proof.
  intros Hg [Hb Hn Hs] Hsz. unfold serialized_buffer_resize.
  assert (Hi : is_int (size x * 2)) by ser_lia.
  rewrite (bind_done _ _ _ _ _ (deref_upd l x h)). unfold int_mul.
  rewrite (bind_done _ _ _ (size x * 2) _ (int_result_ok _ _ Hi)).
  rewrite (bind_done _ _ _ _ _ (store_upd l x _ h)). unfold realloc. rewrite bind_assoc.
  rewrite (bind_done _ _ _ _ _ (grant_nil (upd_buf l _ h) Hg)).
  rewrite to_size_id by ser_lia.
  replace (Z.to_nat (size x * 2) - length (b x))%nat with (length (b x)) by lia.
  rewrite take_ge by lia. crun. rewrite store_upd. reflexivity.
Qed.

Lemma doubled_ok x : buf_ok x → size x <= 2 ^ 30 - 1 → buf_ok (doubled x).
Proof.
  intros [Hb Hn Hs] Hsz. constructor; cbn.
  - rewrite length_app, length_replicate. lia.
  - lia.
  - ser_lia.
Qed.

(** A growth step of the block: everything but the spare room is kept. *)
Record grown (x y : _ser_buff_t) : Prop := {
  grown_next : next y = next x;
  grown_ser : ser_func y = ser_func x;
  grown_dser : dser_func y = dser_func x;
  grown_prefix : b x `prefix_of` b y;
}.

#[export] Instance grown_preorder : PreOrder grown.
Proof.
  split.
  - intros x. by split.
  - intros x y z [] []. split; try congruence. by etransitivity.
Qed.

Lemma doubled_grown x : grown x (doubled x).
Proof. split; cbn; [done..|]. by apply prefix_app_r. Qed.

Lemma repr_grown x y t : repr x t → grown x y → buf_ok y → repr y t.
Proof.
  intros [_ Hn Hp Hc Hs Hd] [Hg Hgs Hgd Hb] Hok. constructor; try congruence.
  by etransitivity.
Qed.

#[export] Hint Resolve doubled_grown doubled_ok repr_grown : cplay.

(** The accessors in a heap whose buffer at [l] is [x]. *)
Lemma size_upd l x h :
  serialized_buffer_size (Some l) (upd_buf l x h) = Done (size x) (upd_buf l x h).
Proof. unfold serialized_buffer_size. by rewrite (bind_done _ _ _ _ _ (deref_upd l x h)). Qed.

Lemma next_upd l x h :
  serialized_buffer_next (Some l) (upd_buf l x h) = Done (next x) (upd_buf l x h).
Proof. unfold serialized_buffer_next. by rewrite (bind_done _ _ _ _ _ (deref_upd l x h)). Qed.

Lemma size_lookup l x h :
  bufs h !! l = Some x → serialized_buffer_size (Some l) h = Done (size x) h.
Proof. intros H. rewrite <- (upd_id l x h H) at 1. by rewrite size_upd, (upd_id l x h H). Qed.

Lemma start_pos_lookup l x h :
  bufs h !! l = Some x → serialized_buffer_start_pos (Some l) h = Done (b x) h.
Proof. intros H. unfold serialized_buffer_start_pos. by cstep (deref_lookup l x h H). Qed.

Lemma destroy_lookup l x h :
  bufs h !! l = Some x →
  serialized_buffer_destroy (Some l) h = Done tt (mk_heap (delete l (bufs h)) (brk h) (grants h)).
Proof. intros H. unfold serialized_buffer_destroy. by cstep (deref_lookup l x h H). Qed.

Lemma ser_pos_upd l x h :
  serialized_buffer_ser_pos (Some l) (upd_buf l x h) = Done (b x, next x) (upd_buf l x h).
Proof. unfold serialized_buffer_ser_pos. by rewrite (bind_done _ _ _ _ _ (deref_upd l x h)). Qed.

Lemma next_add_upd l x h n :
  is_int (next x + n) →
  next_add (Some l) n (upd_buf l x h) = Done tt (upd_buf l (set_next (next x + n) x) h).
Proof.
  intros Hi. unfold next_add. rewrite (bind_done _ _ _ _ _ (deref_upd l x h)). unfold int_add.
  by rewrite (bind_done _ _ _ _ _ (int_result_ok _ _ Hi)), store_upd.
Qed.

Lemma ser_pos_incr_upd l x h n :
  is_int n → is_int (next x + n) →
  serialized_buffer_ser_pos_incr (Some l) n (upd_buf l x h)
  = Done tt (upd_buf l (set_next (next x + n) x) h).
Proof.
  intros Hn Hi. unfold serialized_buffer_ser_pos_incr. rewrite to_int_id by done.
  by apply next_add_upd.
Qed.

Lemma reset_upd l x h :
  serialized_buffer_reset (Some l) (upd_buf l x h) = Done tt (upd_buf l (set_next 0 x) h).
Proof.
  unfold serialized_buffer_reset. rewrite (bind_done _ _ _ _ _ (deref_upd l x h)).
  apply store_upd.
Qed.

Lemma write_cells_ok p off data (h : heap) :
  in_block p off (Z.of_nat (length data)) = true →
  write_cells p off data h = Done (splice (Z.to_nat off) (Some <$> data) p) h.
Proof. intros H. unfold write_cells. rewrite H. reflexivity. Qed.

Lemma read_cells_ok p off n (h : heap) :
  in_block p off n = true →
  read_cells p off n h = Done (slice (Z.to_nat off) (Z.to_nat n) p) h.
Proof. intros H. unfold read_cells. rewrite H. reflexivity. Qed.

Lemma bytes_of_cells_ok bs (h : heap) : bytes_of_cells (Some <$> bs) h = Done bs h.
Proof.
  unfold bytes_of_cells. assert (mapM id (Some <$> bs) = Some bs) as ->; [|done].
  induction bs as [|c bs IH]; [done|]. cbn. by rewrite IH.
Qed.

Lemma seek_repr x t i :
  repr x t → (i <= length (content t))%nat →
  repr (set_next (Z.of_nat i) x) (tape_seek i t).
Proof.
  intros [[Hb Hn Hs] Hnx Hp Hc ? ?] Hi. constructor; cbn; [|done..].
  constructor; cbn; [done| |done].
  apply prefix_length in Hc. rewrite length_fmap in Hc. lia.
Qed.

(** The record a granted [serialized_buffer_create] makes. *)
Definition fresh_buf (fptr dfptr : fptr_t) : _ser_buff_t :=
  mk_ser_buff (replicate 512 (Some Byte.x00)) 512 0 fptr dfptr.

Definition bump (h : heap) : heap := mk_heap (bufs h) (Pos.succ (brk h)) (grants h).

Lemma fresh_buf_repr fptr dfptr : repr (fresh_buf fptr dfptr) (tape_new fptr dfptr).
Proof.
  constructor; [|done|cbn; lia|apply prefix_nil|done|done].
  constructor; [reflexivity|cbn; lia|cbn; ser_lia].
Qed.

Lemma create_granted fptr dfptr h :
  grants h = [] →
  serialized_buffer_create fptr dfptr h
  = Done (Some (brk h)) (upd_buf (brk h) (fresh_buf fptr dfptr) (bump h)).
Proof.
  intros Hg. unfold serialized_buffer_create. cstep (grant_nil h Hg). cbn [negb].
  by cstep (grant_nil h Hg).
Qed.

Lemma create_holds fptr dfptr h :
  grants h = [] →
  ∃ s, serialized_buffer_create fptr dfptr h = Done (Some (brk h)) s ∧
       holds (brk h) (tape_new fptr dfptr) (bump h) s.
Proof.
  intros Hg. eexists. split; [by apply create_granted|]. split; [done|].
  eexists. split; [reflexivity|apply fresh_buf_repr].
Qed.

(** A refused request leaves no buffer behind. *)
Lemma create_refused fptr dfptr h g :
  grants h = false :: g ∨ grants h = true :: false :: g →
  serialized_buffer_create fptr dfptr h = Done None (mk_heap (bufs h) (brk h) g).
Proof.
  unfold serialized_buffer_create, grant. intros [H|H]; crun; rewrite H; crun; reflexivity.
Qed.
