(* ===== verification/Serialize.v ===== *)
(** * Writing and reading a buffer: common/serialize.c and common/deserialize.c

    Each call is a computation over the heap of SerBuffer.  The [size] bytes behind a
    [_data] argument are passed as the list of those bytes; what a call stores through a
    [dest] argument is returned. *)

From S2P Require Import Prelude CInt SerBuffer.

Open Scope Z_scope.

(** ** Operations *)

Definition sentinel_value : Z := 0xFFFFFFFF.

(** [SER_BUF_SIZE - SER_BUF_NEXT] as a [size_t]. *)
Definition available (buf : ser_buff_t) : cM heap Z :=
  sz ← serialized_buffer_size buf;
  nx ← serialized_buffer_next buf;
  d ← int_sub sz nx;
  mret (to_size d).

(** The [while (available_size < size)] loop; the result is [is_resized]. *)
Fixpoint serialize_grow (fuel : nat) (buf : ser_buff_t) (available_size size : Z)
    (is_resized : bool) : cM heap bool :=
  if available_size <? size then
    match fuel with
    | O => out_of_fuel
    | S fuel' =>
        serialized_buffer_resize buf 2;;
        available_size' ← available buf;
        serialize_grow fuel' buf available_size' size true
    end
  else mret is_resized.

(** [memcpy(SER_BUF_POS, data, size)]. *)
Definition memcpy_in (buf : ser_buff_t) (data : list byte) : cM heap unit :=
  '(p, off) ← serialized_buffer_ser_pos buf;
  p' ← write_cells p off data;
  '(l, x) ← deref buf;
  store l (set_b p' x).

(** [memcpy(dest, SER_BUF_POS, size)]. *)
Definition memcpy_out (buf : ser_buff_t) (size : Z) : cM heap (list cell) :=
  '(p, off) ← serialized_buffer_ser_pos buf;
  read_cells p off size.

Definition serialize_data (buf : ser_buff_t) (data : list byte) : cM heap unit :=
  match buf with
  | None => mret tt
  | Some _ =>
      let size := Z.of_nat (length data) in
      available_size ← available buf;
      is_resized ← serialize_grow RESIZE_FUEL buf available_size size false;
      if (is_resized : bool) then
        memcpy_in buf data;;
        serialized_buffer_ser_pos_incr buf size
      else
        memcpy_in buf data;;
        serialized_buffer_ser_pos_incr buf size
  end.

Definition serialize_null (_buf : ser_buff_t) : cM heap unit :=
  serialize_data _buf (int_bytes sentinel_value).

Definition serialize `{Callbacks any} (_buf : ser_buff_t) (data : option any) : cM heap dumps_t :=
  match data with
  | None => serialize_data _buf (int_bytes sentinel_value);; mret []
  | Some _ => serialized_buffer_do_serialize _buf data
  end.

Definition serialize_list `{Callbacks any} (_buf : ser_buff_t) (list : option any)
    (ser_list : fptr_t) : cM heap dumps_t :=
  match ser_list with
  | None => undef NullCall
  | Some f => call_ser f _buf list
  end.

Definition serialize_int (_buf : ser_buff_t) (_data : Z) : cM heap unit :=
  serialize_data _buf (int_bytes _data).

(** The cells stored at [dest], [None] when the call returns before its [memcpy]. *)
Definition deserialize_data (buf : ser_buff_t) (size : Z) : cM heap (option (list cell)) :=
  if size =? 0 then mret None
  else
    match buf with
    | None => mret None
    | Some _ =>
        sz ← serialized_buffer_size buf;
        nx ← serialized_buffer_next buf;
        need ← int_add (to_int size) nx;
        if sz <? need then mret None
        else
          cs ← memcpy_out buf size;
          serialized_buffer_ser_pos_incr buf size;;
          mret (Some cs)
    end.

(** The [unsigned int] variable [sentinel], which holds 0 before the call. *)
Definition sentinel_after (r : option (list cell)) : cM heap Z :=
  match r with
  | None => mret 0
  | Some cs => bs ← bytes_of_cells cs; mret (bytes_uint bs)
  end.

Definition deserialize_null (buf : ser_buff_t) : cM heap Z :=
  r ← deserialize_data buf sizeof_int;
  sentinel ← sentinel_after r;
  if sentinel =? sentinel_value then mret (-1)
  else
    serialized_buffer_skip buf (-1 * sizeof_int);;
    mret 0.

Definition deserialize `{Callbacks any} (buf : ser_buff_t) : cM heap (option any) :=
  is_null ← deserialize_null buf;
  if negb (is_null =? 0) then mret None
  else serialized_buffer_do_deserialize buf.

Definition deserialize_int (buf : ser_buff_t) : cM heap Z :=
  sz ← serialized_buffer_size buf;
  nx ← serialized_buffer_next buf;
  need ← int_add sizeof_int nx;
  if sz <? need then mret 0
  else
    cs ← memcpy_out buf sizeof_int;
    serialized_buffer_ser_pos_incr buf sizeof_int;;
    bs ← bytes_of_cells cs;
    mret (bytes_int bs).

(** ** Execution lemmas *)

Lemma available_upd l x h :
  is_int (size x - next x) →
  available (Some l) (upd_buf l x h) = Done (to_size (size x - next x)) (upd_buf l x h).
Proof.
  intros Hi. unfold available. cstep (size_upd l x h). cstep (next_upd l x h). unfold int_sub.
  by cstep (int_result_ok _ (upd_buf l x h) Hi).
Qed.

Lemma available_ok l x h :
  buf_ok x → available (Some l) (upd_buf l x h) = Done (size x - next x) (upd_buf l x h).
Proof.
  intros [Hb Hn Hs]. rewrite available_upd by ser_lia. by rewrite to_size_id by ser_lia.
Qed.

(** The growth loop ends with room for [n] bytes and keeps what was written. *)
Lemma serialize_grow_ok fuel l x h n r :
  grants h = [] → buf_ok x → 0 <= n → next x + n <= 2 ^ 30 →
  next x + n <= size x * 2 ^ Z.of_nat fuel →
  ∃ y r', serialize_grow fuel (Some l) (size x - next x) n r (upd_buf l x h)
            = Done r' (upd_buf l y h) ∧ grown x y ∧ buf_ok y ∧ n <= size y - next y.
Proof.
  intros Hg. revert x r. induction fuel as [|fuel IH]; intros x r Hok Hn Hlim Hfuel; cbn.
  - rewrite (proj2 (Z.ltb_ge _ _)) by lia. exists x, r. split_and!; [done|done|done|lia].
  - destruct (size x - next x <? n) eqn:Hlt; zbool.
    + cstep (resize_granted l x h Hg Hok ltac:(lia)).
      assert (Hok' : buf_ok (doubled x)) by (apply doubled_ok; [done|lia]).
      cstep (available_ok l _ h Hok').
      destruct (IH (doubled x) true Hok' Hn) as (y & r' & Hrun & Hgr & Hoky & Hroom).
      * done.
      * change (size (doubled x)) with (size x * 2). cbn [next doubled set_b set_size].
        rewrite Nat2Z.inj_succ, Z.pow_succ_r in Hfuel by lia. lia.
      * exists y, r'. split_and!; [done| |done|done].
        etransitivity; [apply doubled_grown|done].
    + exists x, r. split_and!; [done|done|done|lia].
Qed.

Lemma memcpy_in_upd l x h data :
  in_block (b x) (next x) (Z.of_nat (length data)) = true →
  memcpy_in (Some l) data (upd_buf l x h)
  = Done tt (upd_buf l (set_b (splice (Z.to_nat (next x)) (Some <$> data) (b x)) x) h).
Proof.
  intros Hin. unfold memcpy_in. cstep (ser_pos_upd l x h).
  cstep (write_cells_ok _ _ data (upd_buf l x h) Hin). cstep (deref_upd l x h).
  apply store_upd.
Qed.

Lemma memcpy_out_upd l x h n :
  in_block (b x) (next x) n = true →
  memcpy_out (Some l) n (upd_buf l x h)
  = Done (slice (Z.to_nat (next x)) (Z.to_nat n) (b x)) (upd_buf l x h).
Proof.
  intros Hin. unfold memcpy_out. cstep (ser_pos_upd l x h). by apply read_cells_ok.
Qed.

(** Writing [data] into a block with room, then moving the cursor behind it. *)
Lemma repr_write x t data :
  repr x t → Z.of_nat (length data) <= size x - next x →
  repr (set_next (next x + Z.of_nat (length data))
          (set_b (splice (Z.to_nat (next x)) (Some <$> data) (b x)) x)) (tape_write data t).
Proof.
  intros [[Hb Hn Hs] Hnx Hp Hc ? ?] Hroom.
  assert (Hlen : length (splice (Z.to_nat (next x)) (Some <$> data) (b x)) = length (b x)).
  { apply length_splice. rewrite length_fmap. lia. }
  constructor; cbn.
  - constructor; cbn; [lia|lia|done].
  - lia.
  - rewrite !length_app, length_take, length_drop. lia.
  - rewrite Hnx, Nat2Z.id. change (?a ++ data ++ ?c) with (splice (pos t) data (content t)).
    rewrite splice_fmap. apply splice_prefix; [done|by rewrite length_fmap].
  - done.
  - done.
Qed.

(** [serialize_data] implements the write of the abstract buffer. *)
Lemma serialize_data_holds l t h data :
  Z.of_nat (pos t + length data) <= 2 ^ 30 →
  triple (holds l t h) (serialize_data (Some l) data) (λ _, holds l (tape_write data t) h).
Proof.
  intros Hlim s (Hg & x & -> & Hr). pose proof Hr as [Hok Hnx Hp Hc _ _].
  pose proof Hok as [Hb Hn Hs]. unfold serialize_data.
  cstep (available_ok l x h Hok).
  destruct (serialize_grow_ok RESIZE_FUEL l x h (Z.of_nat (length data)) false Hg Hok)
    as (y & r & Hrun & Hgr & Hoky & Hroom); [lia|lia| |].
  { change (2 ^ Z.of_nat RESIZE_FUEL) with (2 ^ 32). ser_lia. }
  cstep Hrun. assert (Hry : repr y t) by eauto with cplay.
  pose proof Hry as [_ Hny _ _ _ _]. destruct Hoky as [Hby Hny' Hsy].
  assert (Hin : in_block (b y) (next y) (Z.of_nat (length data)) = true).
  { unfold in_block. apply andb_true_iff. split; apply Z.leb_le; lia. }
  exists tt. eexists. split; [|split; [done|eexists; split; [reflexivity|by apply repr_write]]].
  destruct r; cstep (memcpy_in_upd l y h data Hin);
    rewrite ser_pos_incr_upd by (cbn; ser_lia); reflexivity.
Qed.

(** [deserialize_data] implements the read of the abstract buffer. *)
Lemma deserialize_data_holds l t h n :
  0 < n → (pos t + Z.to_nat n <= length (content t))%nat → n <= 2 ^ 30 →
  triple (holds l t h) (deserialize_data (Some l) n)
    (λ r s, r = Some (Some <$> tape_read (Z.to_nat n) t) ∧
            holds l (tape_seek (pos t + Z.to_nat n) t) h s).
Proof.
  intros Hn Hlen Hlim s (Hg & x & -> & Hr). pose proof Hr as [Hok Hnx Hp Hc _ _].
  pose proof Hok as [Hb Hnr Hs]. pose proof (prefix_length _ _ Hc) as Hcl.
  rewrite length_fmap in Hcl. unfold deserialize_data.
  rewrite (proj2 (Z.eqb_neq n 0)) by lia.
  cstep (size_upd l x h). cstep (next_upd l x h).
  rewrite to_int_id by ser_lia. unfold int_add.
  assert (Hi : is_int (n + next x)) by ser_lia.
  cstep (int_result_ok _ (upd_buf l x h) Hi).
  rewrite (proj2 (Z.ltb_ge _ _)) by lia.
  assert (Hin : in_block (b x) (next x) n = true).
  { unfold in_block. apply andb_true_iff. split; apply Z.leb_le; lia. }
  cstep (memcpy_out_upd l x h n Hin).
  cstep (ser_pos_incr_upd l x h n ltac:(ser_lia) ltac:(ser_lia)).
  eexists _, _. split; [reflexivity|]. split.
  - f_equal. rewrite (slice_prefix _ _ _ _ Hc) by (rewrite length_fmap; lia).
    by rewrite slice_fmap, Hnx, Nat2Z.id.
  - split; [done|]. eexists; split; [reflexivity|].
    replace (next x + n) with (Z.of_nat (pos t + Z.to_nat n)) by lia.
    by apply seek_repr.
Qed.

Lemma reset_holds l t h :
  triple (holds l t h) (serialized_buffer_reset (Some l)) (λ _, holds l (tape_seek 0 t) h).
Proof.
  intros s (Hg & x & -> & Hr). eexists _, _. split; [apply reset_upd|].
  split; [done|]. eexists; split; [reflexivity|]. apply (seek_repr x t 0 Hr). lia.
Qed.

(** Moving the cursor back by [n] bytes that were just read. *)
Lemma skip_back_holds l t h n i :
  0 <= n → pos t = (i + Z.to_nat n)%nat →
  triple (holds l t h) (serialized_buffer_skip (Some l) (- n)) (λ _, holds l (tape_seek i t) h).
Proof.
  intros Hn Hpos s (Hg & x & -> & Hr). pose proof Hr as [[Hb Hnr Hs] Hnx Hp Hc _ _].
  unfold serialized_buffer_skip. cstep (deref_upd l x h). unfold int_sub.
  assert (Hi : is_int (size x - next x)) by ser_lia.
  cstep (int_result_ok _ (upd_buf l x h) Hi).
  rewrite (proj2 (Z.leb_le _ _)) by lia.
  eexists _, _. split; [apply next_add_upd; ser_lia|].
  split; [done|]. eexists; split; [reflexivity|].
  replace (next x + - n) with (Z.of_nat i) by lia. apply seek_repr; [done|lia].
Qed.

Definition is_sentinel (bs : list byte) : bool := bytes_uint bs =? sentinel_value.

Lemma is_sentinel_true : is_sentinel (int_bytes sentinel_value) = true.
Proof. vm_compute. reflexivity. Qed.

(** [deserialize_null] looks at the four bytes at the cursor and consumes them exactly when
    they are the sentinel. *)
Lemma deserialize_null_holds l t h :
  (pos t + 4 <= length (content t))%nat →
  triple (holds l t h) (deserialize_null (Some l))
    (λ r s, if is_sentinel (tape_read 4 t)
            then r = -1 ∧ holds l (tape_seek (pos t + 4) t) h s
            else r = 0 ∧ holds l t h s).
Proof.
  intros Hlen. unfold deserialize_null.
  eapply triple_bind; [apply (deserialize_data_holds l t h sizeof_int); unfold sizeof_int; lia|].
  intros r s [-> Hh]. cbn [sentinel_after].
  assert (Hb : sentinel_after (Some (Some <$> tape_read (Z.to_nat sizeof_int) t)) s
               = Done (bytes_uint (tape_read 4 t)) s).
  { unfold sentinel_after. by cstep (bytes_of_cells_ok (tape_read 4 t) s). }
  cbn [sentinel_after] in Hb. cstep Hb. unfold is_sentinel.
  destruct (_ =? _) eqn:Hs; [by eexists _, _|].
  destruct (skip_back_holds l (tape_seek (pos t + 4) t) h 4 (pos t) ltac:(lia) eq_refl s Hh) as ([] & s' & Hrun & Hh').
  exists 0, s'. change (-1 * sizeof_int) with (-4). cstep Hrun. split; [done|]. split; [done|].
  by destruct t.
Qed.

(** ** The functional and error behaviour of the calls *)

Lemma serialize_int_holds l t h z :
  Z.of_nat (pos t + 4) <= 2 ^ 30 →
  triple (holds l t h) (serialize_int (Some l) z) (λ _, holds l (tape_write (int_bytes z) t) h).
Proof. intros Hlim. apply serialize_data_holds. by rewrite length_int_bytes. Qed.

Lemma deserialize_int_holds l t h :
  (pos t + 4 <= length (content t))%nat →
  triple (holds l t h) (deserialize_int (Some l))
    (λ r s, r = bytes_int (tape_read 4 t) ∧ holds l (tape_seek (pos t + 4) t) h s).
Proof.
  intros Hlen s (Hg & x & -> & Hr). pose proof Hr as [[Hb Hnr Hs] Hnx Hp Hc _ _].
  pose proof (prefix_length _ _ Hc) as Hcl. rewrite length_fmap in Hcl.
  unfold deserialize_int, sizeof_int. cstep (size_upd l x h). cstep (next_upd l x h).
  unfold int_add. assert (Hi : is_int (4 + next x)) by ser_lia.
  cstep (int_result_ok _ (upd_buf l x h) Hi). rewrite (proj2 (Z.ltb_ge _ _)) by lia.
  assert (Hin : in_block (b x) (next x) 4 = true).
  { unfold in_block. apply andb_true_iff. split; apply Z.leb_le; lia. }
  cstep (memcpy_out_upd l x h 4 Hin). cstep (ser_pos_incr_upd l x h 4 ltac:(ser_lia) ltac:(ser_lia)).
  rewrite (slice_prefix _ _ _ _ Hc) by (rewrite length_fmap; lia). rewrite slice_fmap.
  rewrite Hnx, Nat2Z.id. cstep (bytes_of_cells_ok (tape_read 4 t)
    (upd_buf l (set_next (Z.of_nat (pos t) + 4) x) h)).
  eexists _, _. split; [reflexivity|]. split; [done|]. split; [done|].
  eexists; split; [reflexivity|]. replace (Z.of_nat (pos t) + 4) with (Z.of_nat (pos t + 4)) by lia.
  by apply seek_repr.
Qed.

(** A call of [resize] whose [realloc] fails: [size] is doubled, the block is not. *)
Lemma resize_refused l x h g :
  grants h = false :: g → is_int (size x * 2) →
  serialized_buffer_resize (Some l) 2 (upd_buf l x h)
  = Done tt (upd_buf l (set_size (size x * 2) x) (mk_heap (bufs h) (brk h) g)).
Proof.
  intros Hg Hi. unfold serialized_buffer_resize. cstep (deref_upd l x h). unfold int_mul.
  cstep (int_result_ok _ (upd_buf l x h) Hi).
  cstep (store_upd l x (set_size (size x * 2) x) h). unfold realloc. rewrite bind_assoc.
  unfold grant. crun. cbn [grants upd_buf]. by rewrite Hg.
Qed.
