(* ===== verification/SerRefine.v ===== *)
(** * The buffer implements a byte tape

    The contract of the serialization buffer, stated over the abstract [tape] of SerBuffer,
    and the behaviour of the calls outside that contract: a refused allocation, a read past
    the end, the termination of the growth loop. *)

From S2P Require Import Prelude CInt SerBuffer Serialize.

Open Scope Z_scope.

(** ** Programs over a buffer and their specification *)

Inductive tape_op :=
  | TWrite (data : list byte)
  | TInt (z : Z)
  | TNull
  | TRead (n : nat)
  | TGetInt
  | TGetNull
  | TReset.

Inductive tape_out :=
  | OUnit
  | OBytes (bs : list byte)
  | OInt (z : Z).

(** The calls of the code. *)
Definition impl_op (buf : ser_buff_t) (o : tape_op) : cM heap tape_out :=
  match o with
  | TWrite data => serialize_data buf data;; mret OUnit
  | TInt z => serialize_int buf z;; mret OUnit
  | TNull => serialize_null buf;; mret OUnit
  | TRead n =>
      r ← deserialize_data buf (Z.of_nat n);
      match r with
      | None => mret OUnit
      | Some cs => bs ← bytes_of_cells cs; mret (OBytes bs)
      end
  | TGetInt => z ← deserialize_int buf; mret (OInt z)
  | TGetNull => z ← deserialize_null buf; mret (OInt z)
  | TReset => serialized_buffer_reset buf;; mret OUnit
  end.

(** The contract: writes stay below 2^30 bytes, reads stay within what was written. *)
Definition TAPE_MAX : Z := 2 ^ 30.

Definition spec_write (data : list byte) (t : tape) : option (tape_out * tape) :=
  if Z.of_nat (pos t + length data) <=? TAPE_MAX then Some (OUnit, tape_write data t) else None.

Definition spec_read {A} (n : nat) (f : list byte → A) (t : tape) : option A :=
  if (pos t + n <=? length (content t))%nat then Some (f (tape_read n t)) else None.

Definition spec_op (o : tape_op) (t : tape) : option (tape_out * tape) :=
  match o with
  | TWrite data => spec_write data t
  | TInt z => spec_write (int_bytes z) t
  | TNull => spec_write (int_bytes sentinel_value) t
  | TRead n =>
      if (Z.of_nat n <=? 0) || (TAPE_MAX <? Z.of_nat n) then None
      else spec_read n (λ bs, (OBytes bs, tape_seek (pos t + n) t)) t
  | TGetInt => spec_read 4 (λ bs, (OInt (bytes_int bs), tape_seek (pos t + 4) t)) t
  | TGetNull =>
      spec_read 4 (λ bs, if is_sentinel bs then (OInt (-1), tape_seek (pos t + 4) t)
                         else (OInt 0, t)) t
  | TReset => Some (OUnit, tape_seek 0 t)
  end.

Fixpoint impl_run (buf : ser_buff_t) (os : list tape_op) : cM heap (list tape_out) :=
  match os with
  | [] => mret []
  | o :: os' => r ← impl_op buf o; rs ← impl_run buf os'; mret (r :: rs)
  end.

Fixpoint spec_run (os : list tape_op) (t : tape) : option (list tape_out * tape) :=
  match os with
  | [] => Some ([], t)
  | o :: os' =>
      '(r, t') ← spec_op o t; '(rs, t'') ← spec_run os' t'; Some (r :: rs, t'')
  end.

(** ** Lemmas *)

Lemma triple_then {S A B} (P : S → Prop) (m : cM S A) (Q : A → S → Prop) (f : A → B)
    (R : B → S → Prop) :
  triple P m Q → (∀ a s, Q a s → R (f a) s) → triple P (a ← m; mret (f a)) R.
Proof.
  intros Hm HQ. eapply triple_bind; [exact Hm|]. intros a s Hs. exists (f a), s. auto.
Qed.

Lemma impl_op_holds o l t t' h r :
  spec_op o t = Some (r, t') →
  triple (holds l t h) (impl_op (Some l) o) (λ r' s, r' = r ∧ holds l t' h s).
Proof.
  destruct o; cbn [spec_op impl_op]; unfold spec_write, spec_read;
    intros Hs; repeat case_hyp Hs; simplify_eq; zbool; unfold TAPE_MAX in *;
    repeat match goal with
    | H : (_ <=? _)%nat = true |- _ => apply Nat.leb_le in H
    end.
  - eapply triple_then; [apply serialize_data_holds; lia|auto].
  - rewrite length_int_bytes in *. eapply triple_then; [apply serialize_int_holds; lia|auto].
  - eapply triple_then; [apply serialize_data_holds; lia|auto].
  - eapply triple_bind; [apply deserialize_data_holds; lia|]. intros ? s [-> Hh].
    rewrite Nat2Z.id in Hh |- *. eexists _, _.
    cstep (bytes_of_cells_ok (tape_read n t) s). split; [reflexivity|done].
  - eapply triple_then; [apply deserialize_int_holds; lia|]. by intros a s [-> Hh].
  - eapply triple_then; [apply deserialize_null_holds; lia|].
    match goal with H : is_sentinel _ = _ |- _ => rewrite H end. by intros a s [-> Hh].
  - eapply triple_then; [apply deserialize_null_holds; lia|].
    match goal with H : is_sentinel _ = _ |- _ => rewrite H end. by intros a s [-> Hh].
  - eapply triple_then; [apply reset_holds|auto].
Qed.

(** ** The growth loop, whatever the allocator answers *)

(** One round: [size] is doubled; the block only when the request is granted. *)
Definition regrown (x : _ser_buff_t) (granted : bool) : _ser_buff_t :=
  set_b (if granted then b x ++ replicate (Z.to_nat (size x * 2) - length (b x)) None else b x)
    (set_size (size x * 2) x).

Definition after_request (h : heap) : heap := mk_heap (bufs h) (brk h) (tail (grants h)).

Definition granted_at (k : nat) (h : heap) : bool := default true (grants h !! k).

Lemma resize_any l x h :
  0 <= size x → Z.of_nat (length (b x)) <= size x → is_int (size x * 2) →
  serialized_buffer_resize (Some l) 2 (upd_buf l x h)
  = Done tt (upd_buf l (regrown x (granted_at 0 h)) (after_request h)).
Proof.
  intros H0 Hb Hi. unfold serialized_buffer_resize. cstep (deref_upd l x h). unfold int_mul.
  cstep (int_result_ok _ (upd_buf l x h) Hi). cstep (store_upd l x (set_size (size x * 2) x) h).
  unfold realloc, granted_at, after_request, grant, regrown. rewrite bind_assoc.
  rewrite to_size_id by (int_unfold; lia).
  destruct h as [bs k [|[] gs]]; crun; cbn -[Z.mul]; rewrite ?take_ge by lia;
    unfold store, modify, upd_buf; cbn -[Z.mul]; by rewrite ?insert_insert_eq.
Qed.

Lemma resize_overflow l x h :
  ¬ is_int (size x * 2) → serialized_buffer_resize (Some l) 2 (upd_buf l x h) = Undef SignedOverflow.
Proof.
  intros Hi. unfold serialized_buffer_resize. cstep (deref_upd l x h). apply bind_undef.
  unfold int_mul, int_result. by rewrite decide_False.
Qed.

(** [k] is the number of doublings of [sz] that reaches [need]. *)
Definition doublings (sz need : Z) (k : nat) : Prop :=
  need <= sz * 2 ^ Z.of_nat k ∧ ∀ j, (j < k)%nat → sz * 2 ^ Z.of_nat j < need.

Lemma doublings_exists sz need : 0 < sz → ∃ k, doublings sz need k.
Proof.
  intros Hs. assert (Hk : ∃ k, need <= sz * 2 ^ Z.of_nat k).
  { exists (Z.to_nat need). destruct (decide (need <= 0)) as [Hn|Hn].
    - pose proof (Z.pow_nonneg 2 (Z.of_nat (Z.to_nat need))). nia.
    - rewrite Z2Nat.id by lia. pose proof (Z.pow_gt_lin_r 2 need). nia. }
  destruct Hk as [k Hk]. induction k as [|k IH].
  - exists 0%nat. split; [done|]. intros j Hj. lia.
  - destruct (decide (need <= sz * 2 ^ Z.of_nat k)) as [Hle|Hgt]; [by apply IH|].
    exists (S k). split; [done|]. intros j Hj. pose proof (Z.pow_le_mono_r 2 (Z.of_nat j) (Z.of_nat k)). nia.
Qed.

Lemma doublings_zero sz need : need <= sz → doublings sz need 0.
Proof. intros H. split; [cbn; lia|]. intros j Hj. lia. Qed.

Lemma doublings_inv sz need k :
  doublings sz need k → (k = 0%nat ∧ need <= sz) ∨ ∃ k', k = S k' ∧ sz < need ∧ doublings (sz * 2) need k'.
Proof.
  intros [Hn Hl]. destruct k as [|k]; [left; split; [done|cbn in Hn; lia]|]. right. exists k. split_and!; [done| |].
  - specialize (Hl 0%nat ltac:(lia)). cbn in Hl. lia.
  - assert (Hp : ∀ j, sz * 2 ^ Z.of_nat (S j) = sz * 2 * 2 ^ Z.of_nat j).
    { intros j. rewrite Nat2Z.inj_succ, Z.pow_succ_r by lia. lia. }
    split; [by rewrite <- Hp|]. intros j Hj. rewrite <- Hp. apply Hl. lia.
Qed.

(** The buffer record after [k] rounds. *)
Record rounds (k : nat) (h : heap) (x y : _ser_buff_t) : Prop := {
  rd_size : size y = size x * 2 ^ Z.of_nat k;
  rd_next : next y = next x;
  rd_ser : ser_func y = ser_func x;
  rd_dser : dser_func y = dser_func x;
  rd_zero : k = 0%nat → b y = b x;
  rd_block : k ≠ 0%nat → granted_at (k - 1) h = true →
    b y = b x ++ replicate (Z.to_nat (size y) - length (b x)) None;
  rd_short : k ≠ 0%nat → granted_at (k - 1) h = false → Z.of_nat (length (b y)) * 2 <= size y;
}.

Lemma rounds_zero h x : rounds 0 h x x.
Proof. split; try done. cbn. lia. Qed.

Lemma rounds_next k h x y :
  Z.of_nat (length (b x)) <= size x → 0 < size x →
  rounds k (after_request h) (regrown x (granted_at 0 h)) y → rounds (S k) h x y.
Proof.
  intros Hb Hs [H1 H2 H3 H4 H5 H6 H7]. change (size (regrown _ _)) with (size x * 2) in H1.
  assert (Hg : ∀ j, granted_at j (after_request h) = granted_at (S j) h).
  { intros j. unfold granted_at, after_request. cbn. by destruct (grants h). }
  rewrite Hg in H6, H7.
  assert (Hk : 0 < 2 ^ Z.of_nat k) by (apply Z.pow_pos_nonneg; lia).
  assert (Hblock : b (regrown x (granted_at 0 h)) =
    if granted_at 0 h then b x ++ replicate (Z.to_nat (size x * 2) - length (b x)) None else b x) by done.
  split; [rewrite H1, Nat2Z.inj_succ, Z.pow_succ_r by lia; ring|done..| |]; intros _;
    cbn [Nat.sub]; rewrite Nat.sub_0_r; destruct (decide (k = 0%nat)) as [->|Hk0].
  - intros Hr. rewrite (H5 eq_refl), Hblock, Hr, H1. cbn. do 3 f_equal. lia.
  - intros Hr. replace (S (k - 1)) with k in H6 by lia. rewrite (H6 Hk0 Hr), Hblock.
    destruct (granted_at 0 h); [|done]. rewrite <- app_assoc, <- replicate_add. do 2 f_equal.
    rewrite length_app, length_replicate. nia.
  - intros Hr. rewrite (H5 eq_refl), Hblock, Hr, H1. cbn. lia.
  - intros Hr. replace (S (k - 1)) with k in H7 by lia. by apply H7.
Qed.

(** A round of the loop, when the doubled size is an [int]. *)
Lemma grow_round l x h n fuel r :
  Z.of_nat (length (b x)) <= size x → 0 < size x → 0 <= next x <= size x → size x < next x + n →
  is_int (size x * 2) →
  let x' := regrown x (granted_at 0 h) in
  Z.of_nat (length (b x')) <= size x' ∧
  serialize_grow (S fuel) (Some l) (size x - next x) n r (upd_buf l x h) =
    serialize_grow fuel (Some l) (size x' - next x') n true (upd_buf l x' (after_request h)).
Proof.
  intros Hb Hs Hn Hlt Hi x'.
  assert (Hx' : size x' = size x * 2 ∧ next x' = next x) by done. destruct Hx' as [Hsz Hnx]. split.
  - rewrite Hsz. unfold x', regrown. cbn [b set_b]. destruct (granted_at 0 h);
      rewrite ?length_app, ?length_replicate; lia.
  - cbn [serialize_grow]. rewrite (proj2 (Z.ltb_lt _ _)) by lia.
    cstep (resize_any l x h ltac:(lia) Hb Hi). fold x'.
    assert (Hi' : is_int (size x' - next x')) by (int_unfold; lia).
    cstep (available_upd l x' (after_request h) Hi'). by rewrite to_size_id by (int_unfold; lia).
Qed.

Lemma grow_rounds k l x h n fuel r :
  (k <= fuel)%nat → Z.of_nat (length (b x)) <= size x → 0 < size x → 0 <= next x <= size x →
  doublings (size x) (next x + n) k → size x * 2 ^ Z.of_nat k <= INT_MAX →
  ∃ y, rounds k h x y ∧
    serialize_grow fuel (Some l) (size x - next x) n r (upd_buf l x h) =
      Done (r || negb (k =? 0)%nat) (upd_buf l y (mk_heap (bufs h) (brk h) (drop k (grants h)))).
Proof.
  revert x h fuel r. induction k as [|k IH]; intros x h fuel r Hf Hb Hs Hn Hd Hm.
  - exists x. split; [apply rounds_zero|]. apply doublings_inv in Hd as [[_ Hd]|(? & ? & _)]; [|done].
    destruct fuel; cbn; rewrite (proj2 (Z.ltb_ge _ _)) by lia; rewrite orb_false_r; by destruct h.
  - apply doublings_inv in Hd as [[? _]|(k' & Hk & Hlt & Hd)]; [done|]. injection Hk as <-.
    destruct fuel as [|fuel]; [lia|]. rewrite Nat2Z.inj_succ, Z.pow_succ_r in Hm by lia.
    assert (Hk : 0 < 2 ^ Z.of_nat k) by (apply Z.pow_pos_nonneg; lia).
    assert (Hi : is_int (size x * 2)) by (int_unfold; nia).
    destruct (grow_round l x h n fuel r Hb Hs Hn Hlt Hi) as [Hb' ->]. set (x' := regrown x (granted_at 0 h)) in *.
    assert (Hx' : size x' = size x * 2 ∧ next x' = next x) by done. destruct Hx' as [Hsz Hnx].
    destruct (IH x' (after_request h) fuel true) as (y & Hy & ->); [lia|done|lia|lia|by rewrite Hsz, Hnx|rewrite Hsz; lia|].
    exists y. split; [by apply rounds_next|]. rewrite orb_true_l. cbn [negb Nat.eqb]. rewrite orb_true_r.
    unfold after_request. cbn. by destruct (grants h), k.
Qed.

(** Without room below 2^31 the doubling overflows. *)
Lemma grow_overflow k l x h n fuel r :
  is_int (size x) → Z.of_nat (length (b x)) <= size x → 0 < size x → 0 <= next x <= size x →
  doublings (size x) (next x + n) k → INT_MAX < size x * 2 ^ Z.of_nat k → INT_MAX < size x * 2 ^ Z.of_nat fuel →
  serialize_grow fuel (Some l) (size x - next x) n r (upd_buf l x h) = Undef SignedOverflow.
Proof.
  revert x h fuel r. induction k as [|k IH]; intros x h fuel r Hi Hb Hs Hn Hd Hm Hf.
  - exfalso. cbn in Hm. int_unfold. lia.
  - apply doublings_inv in Hd as [[? _]|(k' & Hk & Hlt & Hd)]; [done|]. injection Hk as <-.
    destruct fuel as [|fuel]; [exfalso; cbn in Hf; int_unfold; lia|].
    rewrite Nat2Z.inj_succ, Z.pow_succ_r in Hm, Hf by lia.
    destruct (decide (is_int (size x * 2))) as [Hi2|Hi2].
    + destruct (grow_round l x h n fuel r Hb Hs Hn Hlt Hi2) as [Hb' ->].
      apply IH; cbn [size next regrown set_b set_size]; [done|done|lia|lia|done|lia|lia].
    + cbn [serialize_grow]. rewrite (proj2 (Z.ltb_lt _ _)) by lia. apply bind_undef. by apply resize_overflow.
Qed.

(** What a call of [serialize_data] that succeeds makes of the record, after [k] doublings. *)
Definition written (data : list byte) (k : nat) (x : _ser_buff_t) : _ser_buff_t :=
  let size' := size x * 2 ^ Z.of_nat k in
  set_next (next x + Z.of_nat (length data))
    (set_b (splice (Z.to_nat (next x)) (Some <$> data)
              (b x ++ replicate (Z.to_nat size' - length (b x)) None)) (set_size size' x)).

Lemma rounds_block k h x y :
  Z.of_nat (length (b x)) = size x → 0 < size x → rounds k h x y → k = 0%nat ∨ granted_at (k - 1) h = true →
  y = set_b (b x ++ replicate (Z.to_nat (size x * 2 ^ Z.of_nat k) - length (b x)) None)
        (set_size (size x * 2 ^ Z.of_nat k) x) ∧ Z.of_nat (length (b y)) = size y.
Proof.
  intros Hb Hs [H1 H2 H3 H4 H5 H6 _] Hk. assert (Hp : 0 < 2 ^ Z.of_nat k) by (apply Z.pow_pos_nonneg; lia).
  assert (Hy : b y = b x ++ replicate (Z.to_nat (size x * 2 ^ Z.of_nat k) - length (b x)) None).
  { destruct (decide (k = 0%nat)) as [->|Hk0]; [|rewrite <- H1; apply H6; [done|by destruct Hk]].
    rewrite (H5 eq_refl). replace (Z.to_nat _ - _)%nat with 0%nat by (cbn; lia). by rewrite app_nil_r. }
  split.
  - destruct y, x. cbn in *. by subst.
  - rewrite Hy, H1, length_app, length_replicate. nia.
Qed.

(** ** Properties *)

(** C15: the buffer refines the byte tape: any program of serializing calls, cursor resets and
    deserializing calls that the tape's contract allows returns exactly the tape's outputs,
    without undefined behaviour, and ends in a buffer that implements the tape's final state,
    whatever else is in the heap. *)
Theorem buffer_refines_tape os l t t' h outs :
  spec_run os t = Some (outs, t') →
  triple (holds l t h) (impl_run (Some l) os) (λ r s, r = outs ∧ holds l t' h s).
Proof.
  revert t outs. induction os as [|o os IH]; intros t outs Hrun; cbn in Hrun; simplify_eq.
  { intros s Hs. by exists [], s. }
  destruct (spec_op o t) as [[r t1]|] eqn:Ho; [|done]. cbn in Hrun.
  destruct (spec_run os t1) as [[rs t2]|] eqn:Hos; [|done]. cbn in Hrun. simplify_eq.
  eapply triple_bind; [by apply impl_op_holds|]. intros r' s [-> Hs]. cbn.
  destruct (IH _ _ Hos s Hs) as (rs' & s' & Hrun & -> & Hs').
  exists (r :: rs), s'. by cstep Hrun.
Qed.

Lemma buffer_refines_tape_witness :
  ∃ s0, serialized_buffer_create None None (empty_heap []) = Done (Some 1%positive) s0 ∧
  ∃ r s, impl_run (Some 1%positive) [TInt 7; TNull; TReset; TGetInt; TGetNull] s0 = Done r s ∧
         r = [OUnit; OUnit; OUnit; OInt 7; OInt (-1)] ∧
         holds 1%positive (mk_tape (int_bytes 7 ++ int_bytes sentinel_value) 8 None None)
           (bump (empty_heap [])) s.
Proof.
  destruct (create_holds None None (empty_heap []) eq_refl) as (s0 & Hc & Hh).
  exists s0. split; [exact Hc|].
  refine (buffer_refines_tape _ _ _ _ _ _ _ s0 Hh). vm_compute. reflexivity.
Defined.

(** C27: a call of [serialize_data] on a well-formed buffer, whatever the length of the data and
    the answers of the allocator.  There is a least number k of doublings of the size that makes
    room; the loop does exactly these k rounds and asks for memory k times, and the call writes the
    data behind the cursor.  It does not return normally in two cases: the size would have to leave
    the [int]s (the multiplication in resize overflows), or the last of the k requests is refused
    (the size is doubled all the same and the memcpy leaves the block). *)
Theorem serialize_data_total l x h data :
  bufs h !! l = Some x → buf_ok x →
  ∃ k, doublings (size x) (next x + Z.of_nat (length data)) k ∧
    serialize_data (Some l) data h =
      if decide (INT_MAX < size x * 2 ^ Z.of_nat k) then Undef SignedOverflow
      else if decide (k ≠ 0%nat ∧ granted_at (k - 1) h = false) then Undef OutOfBounds
      else Done tt (upd_buf l (written data k x) (mk_heap (bufs h) (brk h) (drop k (grants h)))).
Proof.
  intros Hl Hok. pose proof Hok as [Hb Hn Hs]. set (n := Z.of_nat (length data)).
  destruct (doublings_exists (size x) (next x + n)) as [k Hk]; [ser_lia|]. exists k. split; [done|].
  rewrite <- (upd_id l x h Hl) at 1. unfold serialize_data. cstep (available_ok l x h Hok). fold n.
  assert (Hfuel : INT_MAX < size x * 2 ^ Z.of_nat RESIZE_FUEL) by (change (2 ^ Z.of_nat RESIZE_FUEL) with (2 ^ 32); ser_lia).
  destruct (decide (INT_MAX < _)) as [Hbig|Hfit].
  { apply bind_undef. apply (grow_overflow k); [ser_lia|lia|ser_lia|done|done|done|done]. }
  assert (Hkf : (k <= RESIZE_FUEL)%nat).
  { destruct (decide (k <= RESIZE_FUEL)%nat) as [|Hgt]; [done|]. exfalso. apply Hfit.
    eapply Z.lt_le_trans; [exact Hfuel|]. apply Z.mul_le_mono_nonneg_l; [ser_lia|]. apply Z.pow_le_mono_r; lia. }
  destruct (grow_rounds k l x h n RESIZE_FUEL false) as (y & Hy & Hrun); [done|lia|ser_lia|done|done|lia|].
  cstep Hrun. set (h' := mk_heap (bufs h) (brk h) (drop k (grants h))).
  assert (Hsame : ∀ (m : cM heap unit) (c : bool) (s : heap), (if c then m else m) s = m s) by by intros ? [].
  rewrite Hsame. destruct Hk as [Hroom Hleast].
  destruct (decide (k ≠ 0%nat ∧ _)) as [[Hk0 Href]|Hgr].
  - apply bind_undef. unfold memcpy_in. cstep (ser_pos_upd l y h'). apply bind_undef. unfold write_cells.
    assert (in_block (b y) (next y) (Z.of_nat (length data)) = false) as ->; [|done].
    unfold in_block. apply andb_false_iff. right. apply Z.leb_gt. fold n. rewrite (rd_next _ _ _ _ Hy).
    pose proof (rd_short _ _ _ _ Hy Hk0 Href) as Hsh. rewrite (rd_size _ _ _ _ Hy) in Hsh.
    specialize (Hleast (k - 1)%nat ltac:(lia)). replace (Z.of_nat k) with (Z.succ (Z.of_nat (k - 1))) in Hsh by lia.
    rewrite Z.pow_succ_r in Hsh by lia. lia.
  - assert (Hgr' : k = 0%nat ∨ granted_at (k - 1) h = true).
    { destruct (decide (k = 0%nat)); [by left|right]. destruct (granted_at (k - 1) h) eqn:?; tauto. }
    destruct (rounds_block k h x y Hb ltac:(ser_lia) Hy Hgr') as [He Hlen].
    pose proof (rd_size _ _ _ _ Hy) as Hsz. pose proof (rd_next _ _ _ _ Hy) as Hnx.
    assert (Hin : in_block (b y) (next y) (Z.of_nat (length data)) = true).
    { unfold in_block. fold n. apply andb_true_iff. split; apply Z.leb_le; lia. }
    cstep (memcpy_in_upd l y h' data Hin). fold n. rewrite ser_pos_incr_upd by (cbn; int_unfold; lia).
    do 2 f_equal. rewrite He. unfold written. by fold n.
Qed.

Lemma serialize_data_total_witness :
  let x := fresh_buf None None in
  let h := upd_buf 1 x (empty_heap [false; true]) in
  (∃ k, doublings (size x) (next x + Z.of_nat (length (replicate 1600 Byte.x01))) k ∧
    serialize_data (Some 1%positive) (replicate 1600 Byte.x01) h =
      if decide (INT_MAX < size x * 2 ^ Z.of_nat k) then Undef SignedOverflow
      else if decide (k ≠ 0%nat ∧ granted_at (k - 1) h = false) then Undef OutOfBounds
      else Done tt (upd_buf 1 (written (replicate 1600 Byte.x01) k x) (mk_heap (bufs h) (brk h) (drop k (grants h))))) ∧
  ∃ s, serialize_data (Some 1%positive) (replicate 1600 Byte.x01) h = Done tt s.
Proof.
  intros x h. split; [|eexists; vm_compute; reflexivity].
  refine (serialize_data_total 1 x h (replicate 1600 Byte.x01) _ _); [reflexivity|apply (repr_ok _ _ (fresh_buf_repr None None))].
Defined.



(** With fewer than four bytes behind the cursor, [deserialize_null] reads nothing, says
    that the next object is not NULL, and moves the cursor four bytes back, onto bytes that
    were already consumed. *)
Theorem deserialize_null_short l x h :
  bufs h !! l = Some x → buf_ok x → size x <= INT_MAX - 4 → size x - next x < 4 →
  deserialize_null (Some l) h = Done 0 (upd_buf l (set_next (next x - 4) x) h) ∧
  0 <= next x - 4 < next x.
Proof.
  intros Hl [Hb Hn Hs] Hmax Hshort. split; [|ser_lia].
  rewrite <- (upd_id l x h Hl) at 1. unfold deserialize_null, deserialize_data.
  change (sizeof_int =? 0) with false. cbn beta iota.
  rewrite bind_assoc. cstep (size_upd l x h). rewrite bind_assoc. cstep (next_upd l x h).
  rewrite to_int_id by done. unfold int_add, sizeof_int. rewrite bind_assoc.
  assert (Hi : is_int (4 + next x)) by ser_lia. cstep (int_result_ok _ (upd_buf l x h) Hi).
  rewrite (proj2 (Z.ltb_lt _ _)) by lia. rewrite bind_ret. cbn [sentinel_after].
  rewrite bind_ret. change (0 =? sentinel_value) with false. cbn beta iota.
  unfold serialized_buffer_skip. rewrite bind_assoc. cstep (deref_upd l x h).
  unfold int_sub. rewrite bind_assoc. assert (Hi' : is_int (size x - next x)) by ser_lia.
  cstep (int_result_ok _ (upd_buf l x h) Hi'). rewrite (proj2 (Z.leb_le _ _)) by lia.
  assert (Hi4 : is_int (next x + -1 * 4)) by ser_lia. cstep (next_add_upd l x h _ Hi4).
  by replace (next x + -1 * 4) with (next x - 4) by lia.
Qed.

Lemma deserialize_null_short_witness :
  let x := set_next 510 (fresh_buf None None) in
  deserialize_null (Some 1%positive) (upd_buf 1 x (empty_heap []))
  = Done 0 (upd_buf 1 (set_next (next x - 4) x) (upd_buf 1 x (empty_heap []))) ∧
  0 <= next x - 4 < next x.
Proof.
  refine (deserialize_null_short 1 _ _ _ _ _ _).
  - reflexivity.
  - constructor; vm_compute; repeat split; discriminate.
  - vm_compute. discriminate.
  - reflexivity.
Defined.
