(* ===== verification/Codec.v ===== *)
(** * Objects that can be stored in a buffer

    The interface between the serialization library and its users: a type with a pair of
    functions that write and read its objects.  The round trip of a sequence of objects is
    proved against the interface; the instances for [int] and for character arrays are here,
    those for the structures of common/serialization_test.c in Person. *)

From S2P Require Import Prelude CInt SerBuffer Serialize.

Open Scope Z_scope.

Class Codec (A : Type) := {
  (** the bytes an object becomes, and the objects that survive *)
  encode : A → list byte;
  storable : A → Prop;
  (** the callbacks a buffer needs to take them *)
  callbacks_ok : fptr_t → fptr_t → Prop;
  put_obj : ser_buff_t → A → cM heap unit;
  get_obj : ser_buff_t → cM heap A;
  put_obj_ok l h t a :
    storable a → callbacks_ok (on_ser t) (on_dser t) →
    Z.of_nat (pos t + length (encode a)) <= 2 ^ 30 →
    triple (holds l t h) (put_obj (Some l) a) (λ _, holds l (tape_write (encode a) t) h);
  get_obj_ok l h t a :
    storable a → callbacks_ok (on_ser t) (on_dser t) →
    (pos t + length (encode a) <= length (content t))%nat →
    tape_read (length (encode a)) t = encode a →
    triple (holds l t h) (get_obj (Some l))
      (λ r s, r = a ∧ holds l (tape_seek (pos t + length (encode a)) t) h s);
}.

Fixpoint put_all `{Codec A} (buf : ser_buff_t) (xs : list A) : cM heap unit :=
  match xs with
  | [] => mret tt
  | x :: xs' => put_obj buf x;; put_all buf xs'
  end.

Fixpoint get_all `{Codec A} (buf : ser_buff_t) (n : nat) : cM heap (list A) :=
  match n with
  | O => mret []
  | S n' => x ← get_obj buf; xs ← get_all buf n'; mret (x :: xs)
  end.

Definition encode_all `{Codec A} (xs : list A) : list byte := mjoin (encode <$> xs).

(** ** Tapes *)

Lemma tape_write_app d1 d2 t :
  (pos t <= length (content t))%nat →
  tape_write d2 (tape_write d1 t) = tape_write (d1 ++ d2) t.
Proof.
  intros Hp. unfold tape_write. cbn [pos content]. rewrite length_app, Nat.add_assoc. f_equal.
  rewrite <- !app_assoc.
  assert (Hl : length (take (pos t) (content t)) = pos t) by (rewrite length_take; lia).
  rewrite take_app_ge by lia. rewrite Hl. rewrite <- app_assoc. f_equal.
  replace (pos t + length d1 - pos t)%nat with (length d1) by lia.
  rewrite take_app_length. f_equal. f_equal.
  rewrite drop_app_ge by lia. rewrite Hl. rewrite drop_app_ge by lia. rewrite drop_drop.
  f_equal. lia.
Qed.

Lemma tape_write_pos d t :
  (pos t <= length (content t))%nat →
  (pos (tape_write d t) <= length (content (tape_write d t)))%nat.
Proof.
  intros Hp. unfold tape_write. cbn [pos content].
  rewrite !length_app, length_take, length_drop. lia.
Qed.

#[export] Hint Resolve tape_write_pos : cplay.

Lemma tape_write_new d t : content t = [] → pos t = O →
  tape_write d t = mk_tape d (length d) (on_ser t) (on_dser t).
Proof.
  destruct t as [c p]; cbn. intros -> ->. unfold tape_write. cbn.
  by rewrite drop_nil, app_nil_r.
Qed.

Lemma tape_read_app n1 d1 n2 d2 t :
  n1 = length d1 → n2 = length d2 → tape_read (n1 + n2) t = d1 ++ d2 →
  tape_read n1 t = d1 ∧ tape_read n2 (tape_seek (pos t + n1) t) = d2.
Proof.
  intros -> ->. unfold tape_read, slice. cbn. intros H. split.
  - apply (f_equal (take (length d1))) in H. rewrite take_take, take_app_length in H.
    by rewrite Nat.min_l in H by lia.
  - apply (f_equal (drop (length d1))) in H.
    rewrite drop_app_length, <- take_drop_commute, drop_drop in H. done.
Qed.

Lemma holds_pos l t h s : holds l t h s → (pos t <= length (content t))%nat.
Proof. intros (_ & x & _ & []). done. Qed.

(** A fact that the precondition implies may be assumed. *)
Lemma triple_pre {S A} (φ : Prop) (P : S → Prop) (m : cM S A) (Q : A → S → Prop) :
  (∀ s, P s → φ) → (φ → triple P m Q) → triple P m Q.
Proof. intros HP Hm s Hs. apply Hm; eauto. Qed.

(** ** Putting and getting in sequence *)

Lemma put_then {A} `{Codec A} {B} l h t a (m : cM heap B) Q :
  storable a → callbacks_ok (on_ser t) (on_dser t) →
  Z.of_nat (pos t + length (encode a)) <= 2 ^ 30 →
  triple (holds l (tape_write (encode a) t) h) m Q →
  triple (holds l t h) (put_obj (Some l) a;; m) Q.
Proof. intros Hs Hc Hl Hm. eapply triple_bind; [by apply put_obj_ok|]. done. Qed.

Lemma get_then {A} `{Codec A} {B} l h t a (f : A → cM heap B) Q d :
  storable a → callbacks_ok (on_ser t) (on_dser t) →
  (pos t + length (encode a ++ d) <= length (content t))%nat →
  tape_read (length (encode a ++ d)) t = encode a ++ d →
  (let t' := tape_seek (pos t + length (encode a)) t in
   (pos t' + length d <= length (content t'))%nat → tape_read (length d) t' = d →
   triple (holds l t' h) (f a) Q) →
  triple (holds l t h) (x ← get_obj (Some l); f x) Q.
Proof.
  intros Hs Hcb Hlen Hread Hf. rewrite length_app in Hlen, Hread.
  destruct (tape_read_app _ (encode a) _ d t eq_refl eq_refl Hread) as [H1 H2].
  eapply triple_bind; [apply (get_obj_ok l h t a); [done|done|lia|done]|].
  intros r s [-> Hh]. apply Hf; [cbn; lia|done|done].
Qed.

Lemma encode_all_cons {A} `{Codec A} (x : A) xs :
  encode_all (x :: xs) = encode x ++ encode_all xs.
Proof. done. Qed.

Lemma put_all_ok {A} `{Codec A} l h t (xs : list A) :
  Forall storable xs → callbacks_ok (A := A) (on_ser t) (on_dser t) →
  Z.of_nat (pos t + length (encode_all xs)) <= 2 ^ 30 →
  triple (holds l t h) (put_all (Some l) xs) (λ _, holds l (tape_write (encode_all xs) t) h).
Proof.
  intros Hs. revert t. induction Hs as [|x xs Hx Hs IH]; intros t Hcb Hlen.
  - intros s Hh. exists tt, s. split; [done|]. pose proof (holds_pos _ _ _ _ Hh).
    unfold tape_write, encode_all. cbn. rewrite Nat.add_0_r, take_drop. by destruct t.
  - rewrite encode_all_cons in *. rewrite length_app in Hlen. cbn [put_all].
    apply (triple_pre (pos t <= length (content t))%nat); [apply holds_pos|]. intros Hp.
    apply put_then; [done|done|lia|]. rewrite <- tape_write_app by done.
    apply IH; [done|]. cbn [pos tape_write]. lia.
Qed.

Lemma get_all_ok {A} `{Codec A} l h t (xs : list A) :
  Forall storable xs → callbacks_ok (A := A) (on_ser t) (on_dser t) →
  (pos t + length (encode_all xs) <= length (content t))%nat →
  tape_read (length (encode_all xs)) t = encode_all xs →
  triple (holds l t h) (get_all (Some l) (length xs))
    (λ r s, r = xs ∧ holds l (tape_seek (pos t + length (encode_all xs)) t) h s).
Proof.
  intros Hs. revert t. induction Hs as [|x xs Hx Hs IH]; intros t Hcb Hlen Hread.
  - intros s Hh. exists [], s. split; [done|]. split; [done|]. cbn.
    rewrite Nat.add_0_r. by destruct t.
  - rewrite encode_all_cons in *. cbn [get_all length].
    eapply get_then; [done|done|done|done|]. intros t' Hlen' Hread'.
    eapply triple_bind; [by apply IH|]. intros r s [-> Hh]. eexists _, s.
    split; [reflexivity|]. split; [done|]. revert Hh. unfold t'. cbn.
    by rewrite length_app, Nat.add_assoc.
Qed.
