(* ===== verification/Person.v ===== *)
(** * Storing structures: common/serialization_test.c

    The structures, their serializers and deserializers, the callbacks that tie them to
    [serialize] and [deserialize], and the round trip of a sequence of people, NULL pointers
    included. *)

From S2P Require Import Prelude CInt SerBuffer Serialize Codec.

Open Scope Z_scope.

(** ** Data *)

Definition NAME_LEN : Z := 30.

Record occupation_t := mk_occupation {
  dept_name : list byte;
  employee_code : Z;
}.

(** [occ] is a pointer: [None] is NULL. *)
Record person_t := mk_person {
  name : list byte;
  age : Z;
  occ : option occupation_t;
  weight : Z;
}.

(** ** Serializers *)

Definition serialize_occupation (buf : ser_buff_t) (_occ : option occupation_t) : cM heap unit :=
  match _occ with
  | None => serialize_null buf
  | Some occ =>
      serialize_data buf (dept_name occ);;
      serialize_data buf (int_bytes (employee_code occ))
  end.

(** With what its call of serialized_buffer_dump prints. *)
Definition serialize_person (buf : ser_buff_t) (_person : option person_t) : cM heap dumps_t :=
  match _person with
  | None => serialize_null buf;; mret []
  | Some person =>
      serialize_data buf (name person);;
      serialize_data buf (int_bytes (age person));;
      serialize_occupation buf (occ person);;
      serialize_data buf (int_bytes (weight person));;
      d ← serialized_buffer_dump buf;
      mret [d]
  end.

(** ** Deserializers *)

(** The object of a [calloc], which the code does not check: a refused request makes it NULL
    and the first store into it undefined. *)
Definition calloc_obj : cM heap unit := ok ← grant; check ok NullDeref.

(** A field of a fresh (zeroed) object after [deserialize_data(buf, &field, n)]. *)
Definition get_field (buf : ser_buff_t) (n : Z) : cM heap (list byte) :=
  r ← deserialize_data buf n;
  match r with
  | None => mret (replicate (Z.to_nat n) Byte.x00)
  | Some cs => bytes_of_cells cs
  end.

Definition get_int_field (buf : ser_buff_t) : cM heap Z :=
  bs ← get_field buf sizeof_int; mret (bytes_int bs).

Definition deserialize_occupation (buf : ser_buff_t) : cM heap (option occupation_t) :=
  is_null ← deserialize_null buf;
  if negb (is_null =? 0) then mret None
  else
    calloc_obj;;
    dept ← get_field buf NAME_LEN;
    code ← get_int_field buf;
    mret (Some (mk_occupation dept code)).

Definition deserialize_person (buf : ser_buff_t) : cM heap (option person_t) :=
  calloc_obj;;
  nm ← get_field buf NAME_LEN;
  ag ← get_int_field buf;
  oc ← deserialize_occupation buf;
  wt ← get_int_field buf;
  mret (Some (mk_person nm ag oc wt)).

(** The function pointers [main] passes to [serialized_buffer_create]. *)
Definition SERIALIZE_PERSON : positive := 1.
Definition DESERIALIZE_PERSON : positive := 2.

#[export] Instance person_callbacks : Callbacks person_t := {
  call_ser f buf data :=
    if (f =? SERIALIZE_PERSON)%positive then serialize_person buf data else undef NullCall;
  call_dser f buf :=
    if (f =? DESERIALIZE_PERSON)%positive then deserialize_person buf else undef NullCall;
}.

(** [main] over the people it is given: the dumps printed on the way, and what it reads back. *)
Fixpoint serialize_each (buf : ser_buff_t) (ps : list (option person_t)) : cM heap dumps_t :=
  match ps with
  | [] => mret []
  | p :: ps' => d ← serialize buf p; ds ← serialize_each buf ps'; mret (d ++ ds)
  end.

Fixpoint deserialize_each (buf : ser_buff_t) (n : nat) : cM heap (list (option person_t)) :=
  match n with
  | O => mret []
  | S n' => p ← deserialize buf; ps ← deserialize_each buf n'; mret (p :: ps)
  end.

Definition test_main (ps : list (option person_t)) : cM heap (option (list (option person_t))) :=
  buf ← serialized_buffer_create (Some SERIALIZE_PERSON) (Some DESERIALIZE_PERSON);
  match buf with
  | None => mret None
  | Some _ =>
      serialize_each buf ps;;
      serialized_buffer_reset buf;;
      rs ← deserialize_each buf (length ps);
      mret (Some rs)
  end.

(** ** Codecs *)

Lemma get_field_holds l h t n :
  0 < n <= 2 ^ 30 → (pos t + Z.to_nat n <= length (content t))%nat →
  triple (holds l t h) (get_field (Some l) n)
    (λ r s, r = tape_read (Z.to_nat n) t ∧ holds l (tape_seek (pos t + Z.to_nat n) t) h s).
Proof.
  intros Hn Hlen. eapply triple_bind; [apply deserialize_data_holds; lia|].
  intros r s [-> Hh]. eexists _, s. by rewrite bytes_of_cells_ok.
Qed.

#[export, refine] Instance int_codec : Codec Z := {
  encode := int_bytes;
  storable := is_int;
  callbacks_ok _ _ := True;
  put_obj buf z := serialize_data buf (int_bytes z);
  get_obj := get_int_field;
}.
Proof.
  - intros l h t a _ _ Hlen. by apply serialize_data_holds.
  - intros l h t a Ha _ Hlen Hread. rewrite length_int_bytes in *. unfold get_int_field.
    eapply triple_bind; [apply get_field_holds; unfold sizeof_int; lia|].
    intros r s [-> Hh]. eexists _, s. split; [reflexivity|]. split; [|done].
    change (Z.to_nat sizeof_int) with 4%nat. by rewrite Hread, bytes_int_int_bytes.
Defined.

(** Character arrays of [n] bytes. *)
Program Definition chars_codec (n : Z) (Hn : 0 < n <= 2 ^ 30) : Codec (list byte) := {|
  encode bs := bs;
  storable bs := Z.of_nat (length bs) = n;
  callbacks_ok _ _ := True;
  put_obj := serialize_data;
  get_obj buf := get_field buf n;
|}.
Next Obligation. intros. by apply serialize_data_holds. Qed.
Next Obligation.
  intros n Hn l h t a Ha _ Hlen Hread. cbn beta in *.
  replace (length a) with (Z.to_nat n) in * by lia. rewrite <- Hread.
  by apply get_field_holds.
Qed.

Definition name_codec : Codec (list byte) := chars_codec NAME_LEN ltac:(split; [reflexivity|discriminate]).

(** An occupation survives when its array is full-length and does not begin with the bytes
    that stand for NULL. *)
Definition occ_bytes (o : option occupation_t) : list byte :=
  match o with
  | None => int_bytes sentinel_value
  | Some o => dept_name o ++ int_bytes (employee_code o)
  end.

Definition not_sentinel (bs : list byte) : Prop := is_sentinel (take 4 bs) = false.

Definition occ_storable (o : option occupation_t) : Prop :=
  match o with
  | None => True
  | Some o => Z.of_nat (length (dept_name o)) = NAME_LEN ∧ is_int (employee_code o) ∧
              not_sentinel (dept_name o)
  end.

Lemma tape_read_take n m t : (n <= m)%nat → take n (tape_read m t) = tape_read n t.
Proof. intros H. unfold tape_read, slice. rewrite take_take. by rewrite Nat.min_l. Qed.

Lemma calloc_obj_ok h : grants h = [] → calloc_obj h = Done tt h.
Proof. intros Hg. unfold calloc_obj. by cstep (grant_nil h Hg). Qed.

(** A granted [calloc] before a sequence. *)
Lemma calloc_then {A} l h t (m : cM heap A) Q :
  triple (holds l t h) m Q → triple (holds l t h) (calloc_obj;; m) Q.
Proof.
  intros Hm s Hs. destruct (Hm s Hs) as (a & s' & Hrun & HQ). exists a, s'.
  rewrite (bind_done _ _ s tt s); [done|]. apply calloc_obj_ok.
  by destruct Hs as (Hg & x & -> & _).
Qed.

(** [deserialize_null] in front of bytes that are known. *)
Lemma null_then {A} l h t bs (f : Z → cM heap A) Q :
  (4 <= length bs)%nat → (pos t + length bs <= length (content t))%nat →
  tape_read (length bs) t = bs →
  (if is_sentinel (take 4 bs)
   then triple (holds l (tape_seek (pos t + 4) t) h) (f (-1)) Q
   else triple (holds l t h) (f 0) Q) →
  triple (holds l t h) (r ← deserialize_null (Some l); f r) Q.
Proof.
  intros H4 Hlen Hread Hf. eapply triple_bind; [apply deserialize_null_holds; lia|].
  intros r s. rewrite <- (tape_read_take 4 (length bs)) by done. rewrite Hread.
  destruct (is_sentinel _); intros [-> Hs]; by apply Hf.
Qed.

#[export, refine] Instance occ_codec : Codec (option occupation_t) := {
  encode := occ_bytes;
  storable := occ_storable;
  callbacks_ok _ _ := True;
  put_obj := serialize_occupation;
  get_obj := deserialize_occupation;
}.
Proof.
  - intros l h t [o|] Hs _ Hlen; [|by apply serialize_data_holds].
    destruct Hs as (Hn & Hc & _). unfold occ_bytes in *. rewrite length_app in Hlen.
    apply (triple_pre (pos t <= length (content t))%nat); [apply holds_pos|]. intros Hp.
    apply (put_then (H := name_codec)); [exact Hn|done|cbn; lia|]. rewrite <- tape_write_app by done.
    apply serialize_data_holds. cbn. lia.
  - intros l h t o Hs _ Hlen Hread. unfold deserialize_occupation.
    destruct o as [o|]; cbn [occ_bytes] in *.
    + destruct Hs as (Hn & Hc & Hns). unfold NAME_LEN in Hn.
      eapply null_then; [|done|done|].
      { rewrite length_app, length_int_bytes. lia. }
      rewrite take_app_le by lia. rewrite Hns. cbn [negb Z.eqb]. apply calloc_then.
      eapply (get_then (H := name_codec)); [exact Hn|done|done|done|]. intros t' Hlen' Hread'.
      eapply triple_bind; [by apply (get_obj_ok (Codec := int_codec))|].
      intros c s [-> Hh]. eexists _, s. split; [reflexivity|]. split; [by destruct o|].
      revert Hh. unfold t'. cbn. by rewrite length_app, Nat.add_assoc.
    + eapply null_then; [by rewrite length_int_bytes|done|done|].
      change (is_sentinel _) with true. intros s Hh. eexists None, s. by rewrite length_int_bytes.
Defined.

Definition person_bytes (p : option person_t) : list byte :=
  match p with
  | None => int_bytes sentinel_value
  | Some p => name p ++ int_bytes (age p) ++ occ_bytes (occ p) ++ int_bytes (weight p)
  end.

Definition person_wf (p : person_t) : Prop :=
  Z.of_nat (length (name p)) = NAME_LEN ∧ is_int (age p) ∧ occ_storable (occ p) ∧
  is_int (weight p).

Definition person_storable (p : option person_t) : Prop :=
  match p with
  | None => True
  | Some p => person_wf p ∧ not_sentinel (name p)
  end.

Lemma serialize_person_ok l h t p :
  person_wf p → Z.of_nat (pos t + length (person_bytes (Some p))) <= 2 ^ 30 →
  triple (holds l t h) (serialize_person (Some l) (Some p))
    (λ _, holds l (tape_write (person_bytes (Some p)) t) h).
Proof.
  intros (Hn & Ha & Ho & Hw) Hlen. cbn [person_bytes] in *. rewrite !length_app in Hlen.
  apply (triple_pre (pos t <= length (content t))%nat); [apply holds_pos|]. intros Hp.
  unfold serialize_person.
  apply (put_then (H := name_codec)); [exact Hn|done|cbn; lia|].
  apply (put_then (H := int_codec)); [exact Ha|done|cbn in *; lia|].
  apply (put_then (H := occ_codec)); [exact Ho|done|cbn in *; lia|].
  apply (put_then (H := int_codec)); [exact Hw|done|cbn in *; lia|].
  intros s Hs. destruct Hs as (Hg & x & -> & Hx). eexists _, (upd_buf l x h). split.
  - unfold serialized_buffer_dump. rewrite bind_assoc. by cstep (deref_upd l x h).
  - rewrite !tape_write_app in Hx by auto with cplay. split; [done|]. by exists x.
Qed.

Lemma deserialize_person_ok l h t p :
  person_wf p →
  (pos t + length (person_bytes (Some p)) <= length (content t))%nat →
  tape_read (length (person_bytes (Some p))) t = person_bytes (Some p) →
  triple (holds l t h) (deserialize_person (Some l))
    (λ r s, r = Some p ∧ holds l (tape_seek (pos t + length (person_bytes (Some p))) t) h s).
Proof.
  intros (Hn & Ha & Ho & Hw) Hlen Hread. unfold deserialize_person. apply calloc_then.
  eapply (get_then (H := name_codec)); [exact Hn|done|done|done|]. intros t1 Hlen1 Hread1.
  eapply (get_then (H := int_codec)); [exact Ha|done|done|done|]. intros t2 Hlen2 Hread2.
  eapply (get_then (H := occ_codec)); [exact Ho|done|done|done|]. intros t3 Hlen3 Hread3.
  eapply triple_bind; [by apply (get_obj_ok (Codec := int_codec))|].
  intros w s [-> Hh]. eexists _, s. split; [reflexivity|]. split; [by destruct p|].
  revert Hh. unfold t3, t2, t1. cbn. by rewrite !length_app, !Nat.add_assoc.
Qed.

(** What [serialize] and [deserialize] do to a buffer that carries the person callbacks. *)
#[export, refine] Instance person_codec : Codec (option person_t) := {
  encode := person_bytes;
  storable := person_storable;
  callbacks_ok f g := f = Some SERIALIZE_PERSON ∧ g = Some DESERIALIZE_PERSON;
  put_obj buf p := serialize buf p;; mret tt;
  get_obj := deserialize;
}.
Proof.
  - intros l h t [p|] Hs [Hf _] Hlen s Hh.
    + destruct (serialize_person_ok l h t p (proj1 Hs) Hlen s Hh) as (a & s' & Hrun & Hh').
      exists tt, s'. split; [|done]. destruct Hh as (_ & x & -> & Hr).
      unfold serialize, serialized_buffer_do_serialize. rewrite bind_assoc. cstep (deref_upd l x h).
      cbn beta iota. rewrite (repr_ser _ _ Hr), Hf. by cstep Hrun.
    + destruct (serialize_data_holds l t h (int_bytes sentinel_value) Hlen s Hh) as ([] & s' & Hrun & Hh').
      exists tt, s'. split; [|done]. unfold serialize. rewrite bind_assoc. by cstep Hrun.
  - intros l h t p Hs [_ Hf] Hlen Hread. unfold deserialize.
    destruct p as [p|].
    + assert (H4 : (4 <= length (name p))%nat).
      { destruct Hs as [(Hn & _) _]. unfold NAME_LEN in Hn. lia. }
      eapply null_then; [|done|done|].
      { cbn. rewrite length_app. lia. }
      cbn [person_bytes]. rewrite take_app_le by done. destruct Hs as [Hwf Hns].
      rewrite Hns. cbn [negb Z.eqb]. intros s Hh.
      destruct (deserialize_person_ok l h t p) with (s := s) as (r & s' & Hrun & Hr); [done..|].
      exists r, s'. split; [|done]. destruct Hh as (_ & x & -> & Hx).
      unfold serialized_buffer_do_deserialize. cstep (deref_upd l x h).
      by rewrite (repr_dser _ _ Hx), Hf.
    + eapply null_then; [by rewrite length_int_bytes|done|done|].
      change (is_sentinel _) with true. intros s Hh. exists None, s.
      split; [done|]. split; [done|]. exact Hh.
Defined.

(** The program's loops are the interface's. *)
Lemma serialize_each_put buf ps s s' :
  put_all buf ps s = Done tt s' → ∃ ds, serialize_each buf ps s = Done ds s'.
Proof.
  revert s. induction ps as [|p ps IH]; intros s H; [injection H as ->; by exists []|].
  cbn in *. unfold mbind, cM_bind in H |- *.
  destruct (serialize buf p s) as [d s1| | |]; [|done..]. cbn in H.
  destruct (IH s1 H) as [ds ->]. by eexists.
Qed.

Lemma deserialize_each_get buf n : deserialize_each buf n = get_all buf n.
Proof. induction n as [|n IH]; [done|]. cbn. by rewrite IH. Qed.

(** ** Properties *)

(** The calls of main, one after the other, on people that can be stored. *)
Lemma stored_people ps h :
  grants h = [] → Forall person_storable ps → Z.of_nat (length (encode_all ps)) <= 2 ^ 30 →
  ∃ l s0 s1 s2 s3 ds,
    serialized_buffer_create (Some SERIALIZE_PERSON) (Some DESERIALIZE_PERSON) h = Done (Some l) s0 ∧
    serialize_each (Some l) ps s0 = Done ds s1 ∧ serialized_buffer_reset (Some l) s1 = Done tt s2 ∧
    deserialize_each (Some l) (length ps) s2 = Done ps s3.
Proof.
  intros Hg Hps Hlen.
  destruct (create_holds (Some SERIALIZE_PERSON) (Some DESERIALIZE_PERSON) h Hg) as (s0 & Hc & Hh0).
  assert (Hcb : callbacks_ok (Codec := person_codec) (Some SERIALIZE_PERSON)
                  (Some DESERIALIZE_PERSON)) by done.
  destruct (put_all_ok (H := person_codec) (brk h) (bump h)
              (tape_new (Some SERIALIZE_PERSON) (Some DESERIALIZE_PERSON)) ps Hps Hcb Hlen s0 Hh0)
    as ([] & s1 & Hput & Hh1).
  destruct (reset_holds _ _ _ s1 Hh1) as ([] & s2 & Hreset & Hh2). rewrite tape_write_new in Hh2 by done.
  destruct (get_all_ok (H := person_codec) (brk h) (bump h)
              (mk_tape (encode_all ps) 0 (Some SERIALIZE_PERSON) (Some DESERIALIZE_PERSON))
              ps Hps Hcb)
    with (s := s2) as (r & s3 & Hget & -> & _); [..|exact Hh2|].
  - cbn. lia.
  - unfold tape_read, slice. cbn. by rewrite drop_0, firstn_all.
  - destruct (serialize_each_put _ _ _ _ Hput) as [ds Hds].
    exists (brk h), s0, s1, s2, s3, ds. by rewrite deserialize_each_get.
Qed.

(** C16: the program of the serialization test reads back exactly the people it stored, in
    their order, NULL pointers and missing occupations included, when every allocation is
    granted, the arrays are full-length and do not begin with the four bytes 0xFF, and the
    encodings fit in 2^30 bytes. *)
Theorem test_main_roundtrip ps h :
  grants h = [] → Forall person_storable ps → Z.of_nat (length (encode_all ps)) <= 2 ^ 30 →
  ∃ s, test_main ps h = Done (Some ps) s.
Proof.
  intros Hg Hps Hlen. destruct (stored_people ps h Hg Hps Hlen) as (l & s0 & s1 & s2 & s3 & ds & Hc & Hput & Hreset & Hget).
  unfold test_main. cstep Hc. cstep Hput. cstep Hreset. cstep Hget. by eexists.
Qed.

(** The people of the test's [main]. *)
Definition pad30 (bs : list byte) : list byte := bs ++ replicate (30 - length bs) Byte.x00.
Definition jack : person_t :=
  mk_person (pad30 [Byte.x6a; Byte.x61; Byte.x63; Byte.x6b]) 25
    (Some (mk_occupation (pad30 [Byte.x73; Byte.x6f; Byte.x66; Byte.x74; Byte.x77; Byte.x61;
       Byte.x72; Byte.x65; Byte.x20; Byte.x64; Byte.x65; Byte.x76; Byte.x65; Byte.x6c; Byte.x6f;
       Byte.x70; Byte.x65; Byte.x6d; Byte.x65; Byte.x6e; Byte.x74]) 2507)) 80.
Definition peter : person_t :=
  mk_person (pad30 [Byte.x70; Byte.x65; Byte.x74; Byte.x65; Byte.x72]) 26 None 55.

Lemma test_main_roundtrip_witness :
  ∃ s, test_main [Some jack; None; Some peter] (empty_heap []) = Done (Some [Some jack; None; Some peter]) s.
Proof.
  refine (test_main_roundtrip _ _ _ _ _).
  - reflexivity.
  - repeat constructor; vm_compute; try reflexivity; discriminate.
  - vm_compute. discriminate.
Defined.

(** C29: the marker of NULL is in-band: a person whose name begins with four bytes 0xFF is
    stored in full and read back as NULL. *)
Theorem sentinel_name_lost p h :
  grants h = [] → person_wf p → is_sentinel (take 4 (name p)) = true →
  ∃ s, test_main [Some p] h = Done (Some [None]) s.
Proof.
  intros Hg Hwf Hs. unfold test_main.
  destruct (create_holds (Some SERIALIZE_PERSON) (Some DESERIALIZE_PERSON) h Hg)
    as (s0 & Hc & Hh0). cstep Hc. cbn [serialize_each deserialize_each length serialize].
  assert (Hn : length (name p) = 30%nat).
  { destruct Hwf as (Hn & _). unfold NAME_LEN in Hn. lia. }
  assert (Hlen : (length (person_bytes (Some p)) <= 72)%nat).
  { cbn [person_bytes]. rewrite !length_app, !length_int_bytes, Hn.
    destruct Hwf as (_ & _ & Ho & _). destruct (occ p) as [o|]; cbn [occ_bytes].
    - destruct Ho as [Ho _]. unfold NAME_LEN in Ho. rewrite length_app, length_int_bytes. lia.
    - rewrite length_int_bytes. lia. }
  destruct (serialize_person_ok (brk h) (bump h)
              (tape_new (Some SERIALIZE_PERSON) (Some DESERIALIZE_PERSON)) p Hwf) with (s := s0)
    as (d & s1 & Hput & Hh1); [cbn [pos tape_new]; lia|exact Hh0|].
  assert (Hdo : serialized_buffer_do_serialize (Some (brk h)) (Some p) s0 = Done d s1).
  { destruct Hh0 as (_ & x & -> & Hx). unfold serialized_buffer_do_serialize.
    cstep (deref_upd (brk h) x (bump h)). by rewrite (repr_ser _ _ Hx). }
  rewrite bind_assoc. cstep Hdo. rewrite bind_assoc, !bind_ret.
  destruct (reset_holds _ _ _ s1 Hh1) as ([] & s2 & Hreset & Hh2). cstep Hreset.
  rewrite tape_write_new in Hh2 by done. unfold deserialize.
  destruct (null_then (A := option person_t) (brk h) (bump h)
    (mk_tape (person_bytes (Some p)) 0 (Some SERIALIZE_PERSON) (Some DESERIALIZE_PERSON))
    (person_bytes (Some p))
    (λ r, if negb (r =? 0) then mret None else serialized_buffer_do_deserialize (Some (brk h)))
    (λ r _, r = None)) with (s := s2) as (r & s3 & Hrun & ->); [..|exact Hh2|].
  - cbn [person_bytes]. rewrite length_app. lia.
  - cbn. lia.
  - unfold tape_read, slice. cbn [content pos]. by rewrite drop_0, firstn_all.
  - cbn [person_bytes]. rewrite take_app_le, Hs by lia. by intros s Hh; exists None, s.
  - exists s3. rewrite bind_assoc. by cstep Hrun.
Qed.

Lemma sentinel_name_lost_witness :
  let p := mk_person (pad30 [Byte.xff; Byte.xff; Byte.xff; Byte.xff]) 26 None 55 in
  ∃ s, test_main [Some p] (empty_heap []) = Done (Some [None]) s.
Proof.
  refine (sentinel_name_lost _ _ _ _ _).
  - reflexivity.
  - repeat constructor; vm_compute; try reflexivity; discriminate.
  - reflexivity.
Defined.
