(* ===== verification/Rpc.v ===== *)
(** * The remote procedure call stub: Linux/RPC/simple_rpc.c

    [multiply_rpc] marshals two integers into a buffer and sends the buffer to a server as a
    datagram.  What the resolver and the socket calls answer is an input of the model. *)

From S2P Require Import Prelude CInt SerBuffer Serialize Codec.

Open Scope Z_scope.

(** ** The world of the client *)

(** The answers of [gethostbyname] (NULL: [None]) and of [socket]. *)
Record net_env := mk_net_env {
  host_addr : option Z;
  socket_fd : Z;
}.

(** The heap and the datagrams handed to [sendto]. *)
Record rpc_world := mk_rpc_world {
  mem : heap;
  sent : list (list cell);
}.

Definition in_mem {A} (m : cM heap A) : cM rpc_world A := λ w,
  match m (mem w) with
  | Done a h => Done a (mk_rpc_world h (sent w))
  | Undef u => Undef u
  | Exited c h => Exited c (mk_rpc_world h (sent w))
  | NoFuel => NoFuel
  end.

Definition sendto (data : list cell) : cM rpc_world unit :=
  modify (λ w, mk_rpc_world (mem w) (sent w ++ [data])).

(** ** Operations *)

(** A pointer-sized argument that carries an [int]. *)
Definition serialize_int_wrapper (buf : ser_buff_t) (dump : Z) : cM heap unit :=
  serialize_int buf (to_int dump).

Definition deserialize_int_wrapper (buf : ser_buff_t) (dump : Z) : cM heap Z :=
  temp ← deserialize_int buf; mret temp.

(** The receiving buffer is not used by the code. *)
Definition rpc_send_recv (env : net_env) (client_send_ser_buffer client_recv_ser_buffer : ser_buff_t)
    : cM rpc_world unit :=
  match host_addr env with
  | None => undef NullDeref
  | Some _ =>
      if socket_fd env =? -1 then mret tt
      else
        start ← in_mem (serialized_buffer_start_pos client_send_ser_buffer);
        n ← in_mem (serialized_buffer_size client_send_ser_buffer);
        data ← in_mem (read_cells start 0 n);
        sendto data
  end.

Definition multiply_client_stub_marshal (a b : Z) : cM heap ser_buff_t :=
  client_send_ser_buff ← serialized_buffer_create None None;
  serialize_int client_send_ser_buff a;;
  serialize_int client_send_ser_buff b;;
  mret client_send_ser_buff.

(** The function ends without a [return]: it has no value, [None]. *)
Definition multiply_rpc (env : net_env) (a b : Z) : cM rpc_world (option Z) :=
  client_send_ser_buffer ← in_mem (multiply_client_stub_marshal a b);
  client_recv_ser_buffer ← in_mem (serialized_buffer_create None None);
  rpc_send_recv env client_send_ser_buffer client_recv_ser_buffer;;
  in_mem (serialized_buffer_destroy client_send_ser_buffer);;
  mret None.

(** [main] prints the value of the call. *)
Definition rpc_main (env : net_env) : cM rpc_world (Z * Z * Z) :=
  let a := 3 in let b := 5 in
  r ← multiply_rpc env a b;
  match r with
  | None => undef NoReturnValue
  | Some v => mret (a, b, v)
  end.

(** ** Lemmas *)

Lemma in_mem_done {A} (m : cM heap A) w a h :
  m (mem w) = Done a h → in_mem m w = Done a (mk_rpc_world h (sent w)).
Proof. unfold in_mem. by intros ->. Qed.

(** The marshalled buffer: the two integers at the start of an otherwise zero block. *)
Definition marshalled (a b : Z) : _ser_buff_t :=
  mk_ser_buff ((Some <$> (int_bytes a ++ int_bytes b)) ++ replicate 504 (Some Byte.x00)) 512 8
    None None.

(** Writing an [int] into a buffer with room. *)
Lemma serialize_int_room l x h z :
  buf_ok x → 4 <= size x - next x →
  serialize_int (Some l) z (upd_buf l x h)
  = Done tt (upd_buf l (set_next (next x + 4)
      (set_b (splice (Z.to_nat (next x)) (Some <$> int_bytes z) (b x)) x)) h).
Proof.
  intros Hok Hroom. pose proof Hok as [Hb Hn Hs]. unfold serialize_int, serialize_data.
  cstep (available_ok l x h Hok). rewrite length_int_bytes. cbn [RESIZE_FUEL serialize_grow].
  rewrite (proj2 (Z.ltb_ge _ _)) by lia. rewrite bind_ret.
  assert (Hin : in_block (b x) (next x) (Z.of_nat (length (int_bytes z))) = true).
  { rewrite length_int_bytes. unfold in_block. apply andb_true_iff. split; apply Z.leb_le; lia. }
  cstep (memcpy_in_upd l x h _ Hin). rewrite ser_pos_incr_upd by (cbn; ser_lia). done.
Qed.

Lemma marshal_ok y z h :
  grants h = [] →
  multiply_client_stub_marshal y z h
  = Done (Some (brk h)) (upd_buf (brk h) (marshalled y z) (bump h)).
Proof.
  intros Hg. unfold multiply_client_stub_marshal. cstep (create_granted None None h Hg).
  assert (Hok : buf_ok (fresh_buf None None)) by apply (repr_ok _ _ (fresh_buf_repr None None)).
  cstep (serialize_int_room (brk h) _ (bump h) y Hok ltac:(by vm_compute)).
  set (x := set_next _ _).
  assert (Hokx : buf_ok x).
  { constructor; [|cbn; lia|apply Hok].
    unfold x. cbn [b size set_next set_b]. rewrite length_splice; [apply Hok|].
    rewrite length_fmap, length_int_bytes. cbn. lia. }
  cstep (serialize_int_room (brk h) x (bump h) z Hokx ltac:(by vm_compute)). reflexivity.
Qed.

(** ** Properties *)

(** C30: with allocations granted, a resolvable host and a socket, [multiply_rpc a b] sends one
    datagram of 512 bytes from which [deserialize_int]'s decoding gives back [a] and [b],
    frees the buffer it marshalled into, leaves the receiving buffer allocated, and returns no
    value, so that [main]'s use of its value is undefined. *)
Theorem multiply_rpc_datagram env addr y z w :
  host_addr env = Some addr → socket_fd env ≠ -1 → grants (mem w) = [] →
  bufs (mem w) !! brk (mem w) = None → is_int y → is_int z →
  ∃ w' d, multiply_rpc env y z w = Done None w' ∧ sent w' = sent w ++ [Some <$> d] ∧
    length d = 512%nat ∧ bytes_int (take 4 d) = y ∧ bytes_int (take 4 (drop 4 d)) = z ∧
    bufs (mem w') = <[Pos.succ (brk (mem w)) := fresh_buf None None]> (bufs (mem w)) ∧
    (y = 3 → z = 5 → rpc_main env w = Undef NoReturnValue).
Proof.
  intros Hh Hfd Hg Hfresh Hy Hz. set (l := brk (mem w)).
  set (d := int_bytes y ++ int_bytes z ++ replicate 504 Byte.x00).
  set (h1 := upd_buf l (marshalled y z) (bump (mem w))).
  set (h2 := upd_buf (brk h1) (fresh_buf None None) (bump h1)).
  assert (Hl : bufs h2 !! l = Some (marshalled y z)).
  { cbn. rewrite lookup_insert_ne by (intros ?; unfold l in *; lia).
    by rewrite lookup_insert_eq. }
  assert (Hb : b (marshalled y z) = Some <$> d).
  { unfold d, marshalled. cbn [b]. rewrite !fmap_app, fmap_replicate, <- app_assoc. done. }
  assert (Hd : length d = 512%nat).
  { unfold d. rewrite !length_app, !length_int_bytes, length_replicate. done. }
  assert (Hread : read_cells (b (marshalled y z)) 0 512 h2 = Done (Some <$> d) h2).
  { rewrite read_cells_ok, Hb by (rewrite Hb; unfold in_block; by rewrite length_fmap, Hd).
    unfold slice. change (Z.to_nat 0) with 0%nat. rewrite drop_0, take_ge; [done|].
    rewrite length_fmap, Hd. done. }
  set (h3 := mk_heap (delete l (bufs h2)) (brk h2) (grants h2)).
  assert (Hrun : multiply_rpc env y z w = Done None (mk_rpc_world h3 (sent w ++ [Some <$> d]))).
  { unfold multiply_rpc. cstep (in_mem_done _ w _ _ (marshal_ok y z (mem w) Hg)).
    cstep (in_mem_done _ (mk_rpc_world h1 (sent w)) _ _ (create_granted None None h1 Hg)).
    assert (Hsend : rpc_send_recv env (Some l) (Some (brk h1)) (mk_rpc_world h2 (sent w))
                    = Done tt (mk_rpc_world h2 (sent w ++ [Some <$> d]))).
    { unfold rpc_send_recv. rewrite Hh, (proj2 (Z.eqb_neq _ _)) by done.
      cstep (in_mem_done _ (mk_rpc_world h2 (sent w)) _ _ (start_pos_lookup l _ h2 Hl)).
      cstep (in_mem_done _ (mk_rpc_world h2 (sent w)) _ _ (size_lookup l _ h2 Hl)).
      by cstep (in_mem_done _ (mk_rpc_world h2 (sent w)) _ _ Hread). }
    cstep Hsend. by cstep (in_mem_done _ (mk_rpc_world h2 (sent w ++ [Some <$> d])) _ _
      (destroy_lookup l _ h2 Hl)). }
  exists (mk_rpc_world h3 (sent w ++ [Some <$> d])), d. split_and!; [done|done|done|..].
  - unfold d. rewrite take_app_le, take_ge by (by rewrite length_int_bytes).
    by apply bytes_int_int_bytes.
  - unfold d. rewrite drop_app_ge, length_int_bytes by (by rewrite length_int_bytes).
    rewrite drop_0, take_app_le, take_ge by (by rewrite length_int_bytes).
    by apply bytes_int_int_bytes.
  - cbn. rewrite delete_insert_ne by (unfold l; lia). by rewrite delete_insert_id.
  - intros -> ->. unfold rpc_main. by cstep Hrun.
Qed.

Lemma multiply_rpc_datagram_witness :
  let w := mk_rpc_world (empty_heap []) [] in
  ∃ w' d, multiply_rpc (mk_net_env (Some 2130706433) 4) 3 5 w = Done None w' ∧
    sent w' = sent w ++ [Some <$> d] ∧
    length d = 512%nat ∧ bytes_int (take 4 d) = 3 ∧ bytes_int (take 4 (drop 4 d)) = 5 ∧
    bufs (mem w') = <[Pos.succ (brk (mem w)) := fresh_buf None None]> (bufs (mem w)) ∧
    (3 = 3 → 5 = 5 → rpc_main (mk_net_env (Some 2130706433) 4) w = Undef NoReturnValue).
Proof.
  refine (multiply_rpc_datagram _ _ _ _ _ _ _ _ _ _ _); try reflexivity;
    vm_compute; try discriminate; split; discriminate.
Defined.
