(* ===== verification/Format.v ===== *)
(** * The part of printf that the repository uses

    Formats are byte strings; the conversions are d, u, s, c and the percent sign, with the
    flags minus and 0, a width and the length modifier l.  A directive without a fitting
    argument makes the call undefined ([None]). *)

From stdpp Require Import pretty.
From Stdlib Require Import String.
From S2P Require Import Prelude CInt.

Open Scope Z_scope.

Definition lit (s : string) : list byte := list_byte_of_string s.

Inductive arg :=
  | AInt (z : Z)
  | AStr (s : list byte).

(** Decimal notation. *)
Definition decimal (z : Z) : list byte := lit (pretty z).

(** A directive being read: the flags and the width so far. *)
Record directive := mk_directive { left_adj : bool; zero_pad : bool; width : nat }.
Definition plain : directive := mk_directive false false 0.

Definition pad (d : directive) (s : list byte) : list byte :=
  let fill c := replicate (width d - length s) c in
  if left_adj d then s ++ fill Byte.x20
  else fill (if zero_pad d then Byte.x30 else Byte.x20) ++ s.

Definition digit (c : byte) : option nat :=
  let n := Byte.to_nat c in
  if (48 <=? n)%nat && (n <=? 57)%nat then Some (n - 48)%nat else None.

(** The conversion [c] of directive [d]: its output and the arguments left. *)
Definition convert (d : directive) (c : byte) (args : list arg) : option (list byte * list arg) :=
  match c, args with
  | Byte.x25, _ => Some ([Byte.x25], args)
  | Byte.x64, AInt z :: args' => Some (pad d (decimal z), args')
  | Byte.x75, AInt z :: args' => Some (pad d (decimal z), args')
  | Byte.x63, AInt z :: args' => Some (pad d (take 1 (int_bytes z)), args')
  | Byte.x73, AStr s :: args' => Some (pad d s, args')
  | _, _ => None
  end.

(** The output of a format. *)
Fixpoint format_from (st : option directive) (f : list byte) (args : list arg) :
    option (list byte) :=
  match f, st with
  | [], None => Some []
  | [], Some _ => None
  | c :: f', None =>
      if Byte.eqb c Byte.x25 then format_from (Some plain) f' args
      else out ← format_from None f' args; Some (c :: out)
  | c :: f', Some d =>
      match c with
      | Byte.x2d => format_from (Some (mk_directive true (zero_pad d) (width d))) f' args
      | Byte.x6c => format_from (Some d) f' args
      | _ =>
          match digit c with
          | Some n =>
              if (n =? 0)%nat && (width d =? 0)%nat
              then format_from (Some (mk_directive (left_adj d) true 0)) f' args
              else format_from (Some (mk_directive (left_adj d) (zero_pad d)
                                        (10 * width d + n))) f' args
          | None =>
              '(s, args') ← convert d c args;
              out ← format_from None f' args';
              Some (s ++ out)
          end
      end
  end.

Definition format (f : string) (args : list arg) : option (list byte) :=
  format_from None (lit f) args.

(** The return value of [snprintf]: the length of the whole output, -1 when no [int] can
    hold it. *)
Definition printf_result (out : list byte) : Z :=
  let n := Z.of_nat (length out) in if n <=? INT_MAX then n else -1.

(** A C string in a character array: the bytes before the first zero. *)
Fixpoint c_string (bs : list byte) : list byte :=
  match bs with
  | [] => []
  | c :: bs' => if Byte.eqb c Byte.x00 then [] else c :: c_string bs'
  end.

Definition no_nul (bs : list byte) : bool := forallb (λ c, negb (Byte.eqb c Byte.x00)) bs.

Lemma c_string_nul bs rest : no_nul bs = true → c_string (bs ++ Byte.x00 :: rest) = bs.
Proof.
  induction bs as [|c bs IH]; intros H; [done|]. cbn in *.
  apply andb_true_iff in H as [Hc%negb_true_iff H]. by rewrite Hc, IH.
Qed.

Lemma no_nul_app a c : no_nul (a ++ c) = no_nul a && no_nul c.
Proof. apply forallb_app. Qed.

Lemma no_nul_take n a : no_nul a = true → no_nul (take n a) = true.
Proof.
  intros H. rewrite <- (take_drop n a), no_nul_app in H. by apply andb_true_iff in H as [? _].
Qed.

Example format_counts :
  format "[%03d,%3d] %-5s|%c%%" [AInt 7; AInt 42; AStr (lit "WARN"); AInt 37]
  = Some (lit "[007, 42] WARN |%%").
Proof. vm_compute. reflexivity. Qed.
