(* ===== verification/PersonDump.v ===== *)
(** * What the serialization test prints: common/serialization_test.c

    dump_person, and main with its output: the composition of the round trip of [Person] with
    the printing of what was read. *)

From stdpp Require Import strings.
From Stdlib Require Import String.
From S2P Require Import Prelude CInt SerBuffer Serialize SerRefine Codec Person Format.

Open Scope string_scope.
Open Scope list_scope.
Open Scope Z_scope.

Definition EXIT_FAILURE : Z := 1.

(** ** Definitions *)

(** The string in an array: [None] when no byte of it is zero. *)
Definition array_string (a : list byte) : option (list byte) := if no_nul a then None else Some (c_string a).

(** dump_person: what goes to the standard error and to the standard output; [None]: a read
    behind an array. *)
Definition dump_person (person : option person_t) : option (list byte * list byte) :=
  match person with
  | None => Some (lit "person is NULL..." ++ [Byte.x0a], [])
  | Some p =>
      nm ← array_string (name p);
      o ← match occ p with
          | Some o =>
              dept ← array_string (dept_name o);
              format "occ    = {%s,%d}" [AStr dept; AInt (employee_code o)]
          | None => format "occ    = (nil)" []
          end;
      n ← format "name   = %s" [AStr nm];
      a ← format "age    = %d" [AInt (age p)];
      w ← format "weight = %d" [AInt (weight p)];
      Some ([], n ++ [Byte.x0a] ++ a ++ [Byte.x0a] ++ o ++ [Byte.x0a] ++ w ++ [Byte.x0a])
  end.

(** What goes to the standard output: bytes, and addresses that [%p] prints, whose digits are not
    modelled: that of the block, those of functions. *)
Inductive address := Block | Function (f : fptr_t).
Definition out_t : Type := list (byte + address).

Definition chars (s : list byte) : out_t := inl <$> s.

(** The lines that serialized_buffer_dump prints. *)
Definition address_line (name : string) (a : address) : option out_t :=
  s ← format "%-15s = " [AStr (lit name)]; Some (chars s ++ [inr a] ++ chars [Byte.x0a]).

Definition int_line (name : string) (z : Z) : option out_t :=
  s ← format "%-15s = %d" [AStr (lit name); AInt z]; Some (chars (s ++ [Byte.x0a])).

Definition dump_output (d : dump_t) : option out_t :=
  let '(size, next, ser_func, dser_func) := d in
  l1 ← address_line "buf->b" Block;
  l2 ← int_line "buf->size" size;
  l3 ← int_line "buf->next" next;
  l4 ← address_line "buf->ser_func" (Function ser_func);
  l5 ← address_line "buf->dser_func" (Function dser_func);
  Some (l1 ++ l2 ++ l3 ++ l4 ++ l5 ++ chars [Byte.x0a]).

Definition print {A} (o : option A) : cM heap A := match o with Some a => mret a | None => undef OutOfBounds end.

(** The lines of main behind the reset, for [n] people. *)
Fixpoint dump_each (buf : ser_buff_t) (n : nat) : cM heap (list (list byte * list byte)) :=
  match n with
  | O => mret []
  | S n' =>
      p ← deserialize buf;
      d ← print (dump_person p);
      ds ← dump_each buf n';
      mret (d :: ds)
  end.

(** main, over the people it stores: what it returns, and what goes to the standard output and
    to the standard error. *)
Definition main_over (ps : list (option person_t)) : cM heap (Z * (out_t * list byte)) :=
  buf ← serialized_buffer_create (Some SERIALIZE_PERSON) (Some DESERIALIZE_PERSON);
  match buf with
  | None => mret (EXIT_FAILURE, ([], []))
  | Some _ =>
      dumps ← serialize_each buf ps;
      shown ← print (mapM dump_output dumps);
      serialized_buffer_reset buf;;
      ds ← dump_each buf (length ps);
      mret (0, (mjoin shown ++ chars (mjoin ds.*2), mjoin ds.*1))
  end.

Definition main : cM heap (Z * (out_t * list byte)) := main_over [Some jack; None; Some peter].

(** ** The text, in plain words *)

Definition nl : list byte := [Byte.x0a].

Definition person_text (p : person_t) : list byte :=
  lit "name   = " ++ c_string (name p) ++ nl ++
  lit "age    = " ++ decimal (age p) ++ nl ++
  match occ p with
  | Some o => lit "occ    = {" ++ c_string (dept_name o) ++ lit "," ++ decimal (employee_code o) ++ lit "}"
  | None => lit "occ    = (nil)"
  end ++ nl ++
  lit "weight = " ++ decimal (weight p) ++ nl.

Definition buffer_text (size next : Z) : out_t :=
  chars (lit "buf->b          = ") ++ [inr Block] ++
  chars (nl ++ lit "buf->size       = " ++ decimal size ++ nl ++
         lit "buf->next       = " ++ decimal next ++ nl ++ lit "buf->ser_func   = ") ++
  [inr (Function (Some SERIALIZE_PERSON))] ++
  chars (nl ++ lit "buf->dser_func  = ") ++ [inr (Function (Some DESERIALIZE_PERSON))] ++ chars (nl ++ nl).

(** The size of the block when the cursor has come to [n]; the bytes that a person becomes. *)
Definition cap (n : Z) : Z := Z.max SERIALIZE_BUFFER_DEFAULT_SIZE (2 ^ Z.log2_up n).

Definition record_size (p : option person_t) : Z :=
  match p with
  | None => 4
  | Some p => match occ p with Some _ => 72 | None => 42 end
  end.

(** What is printed while the people [ps] are stored from position [n] on. *)
Fixpoint storing_text (n : Z) (ps : list (option person_t)) : out_t :=
  match ps with
  | [] => []
  | p :: ps' =>
      let m := n + record_size p in
      match p with Some _ => buffer_text (cap m) m | None => [] end ++ storing_text m ps'
  end.

Definition people_text (ps : list (option person_t)) : list byte :=
  ps ≫= λ p, match p with Some p => person_text p | None => [] end.

Definition people_errors (ps : list (option person_t)) : list byte :=
  ps ≫= λ p, match p with Some _ => [] | None => lit "person is NULL..." ++ nl end.

(** ** The size of the buffer *)

Lemma cap_pow n : ∃ a, 9 <= a ∧ cap n = 2 ^ a ∧ (1 <= n → a = Z.max 9 (Z.log2_up n)).
Proof.
  exists (Z.max 9 (Z.log2_up n)). split_and!; [lia| |done]. unfold cap, SERIALIZE_BUFFER_DEFAULT_SIZE.
  destruct (Z.max_spec 9 (Z.log2_up n)) as [[H ->]|[H ->]].
  - pose proof (Z.pow_lt_mono_r 2 9 (Z.log2_up n)). lia.
  - pose proof (Z.pow_le_mono_r 2 (Z.log2_up n) 9). lia.
Qed.

(** The doublings of serialize_data lead from the size at [n] to the size at [n + m]. *)
Lemma cap_doublings n m k :
  0 <= n → 0 < m → doublings (cap n) (n + m) k → cap n * 2 ^ Z.of_nat k = cap (n + m).
Proof.
  intros Hn Hm [Hr Hl]. unfold cap at 2. destruct (cap_pow n) as (a & Ha & Hc & Hmax). rewrite Hc in *.
  rewrite <- Z.pow_add_r in Hr |- * by lia. unfold SERIALIZE_BUFFER_DEFAULT_SIZE.
  destruct k as [|k].
  - rewrite Z.add_0_r in *. pose proof (Z.log2_up_le_mono _ _ Hr) as Hu. rewrite Z.log2_up_pow2 in Hu by lia.
    pose proof (Z.pow_le_mono_r 2 _ _ ltac:(lia) Hu).
    destruct (decide (1 <= n)) as [H1|H1].
    + pose proof (Z.log2_up_le_mono n (n + m)). rewrite (Hmax H1) in *.
      destruct (Z.max_spec 9 (Z.log2_up n)) as [[H2 H3]|[H2 H3]]; rewrite H3 in *; [|lia].
      replace (Z.log2_up (n + m)) with (Z.log2_up n) by lia.
      pose proof (Z.pow_lt_mono_r 2 9 (Z.log2_up n)). lia.
    + replace n with 0 in * by lia. change (cap 0) with (2 ^ 9) in Hc.
      apply Z.pow_inj_r in Hc; [|lia..]. subst a. lia.
  - specialize (Hl k ltac:(lia)). rewrite <- Z.pow_add_r in Hl by lia.
    rewrite (Z.log2_up_unique (n + m) (a + Z.of_nat (S k))); [|lia|split; [|done]].
    + pose proof (Z.pow_le_mono_r 2 9 (a + Z.of_nat (S k))). lia.
    + replace (Z.pred (a + Z.of_nat (S k))) with (a + Z.of_nat k) by lia. done.
Qed.

(** ** Properties *)

(** Reading and printing in turn is reading everything and printing it. *)
Lemma dump_each_all buf n s ps s' ds :
  deserialize_each buf n s = Done ps s' → mapM dump_person ps = Some ds → dump_each buf n s = Done ds s'.
Proof.
  revert s ps ds. induction n as [|n IH]; intros s ps ds Hd Hm.
  - injection Hd as <- <-. by injection Hm as <-.
  - cbn [deserialize_each dump_each] in *. unfold mbind, cM_bind in Hd |- *.
    destruct (deserialize buf s) as [p s1| | |]; [|done..].
    destruct (deserialize_each buf n s1) as [ps' s2| | |] eqn:Hps; [|done..]. injection Hd as <- <-.
    cbn in Hm. destruct (dump_person p) as [d|]; [|done]. cbn in Hm.
    destruct (mapM dump_person ps') as [ds'|] eqn:Hds; [|done]. injection Hm as <-.
    cbn. by rewrite (IH s1 ps' ds' Hps Hds).
Qed.

(** An array that can be printed holds a zero. *)
Definition printable (p : option person_t) : bool :=
  match p with
  | None => true
  | Some p => negb (no_nul (name p)) && match occ p with Some o => negb (no_nul (dept_name o)) | None => true end
  end.

Lemma person_lines nm dept code z w :
  format "name   = %s" [AStr nm] = Some (lit "name   = " ++ nm ++ []) ∧
  format "age    = %d" [AInt z] = Some (lit "age    = " ++ decimal z ++ []) ∧
  format "occ    = {%s,%d}" [AStr dept; AInt code] = Some (lit "occ    = {" ++ dept ++ lit "," ++ decimal code ++ lit "}") ∧
  format "occ    = (nil)" [] = Some (lit "occ    = (nil)") ∧
  format "weight = %d" [AInt w] = Some (lit "weight = " ++ decimal w ++ []).
Proof. split_and!; reflexivity. Qed.

Lemma dump_printable p :
  printable p = true →
  dump_person p = Some match p with Some p => ([], person_text p) | None => (lit "person is NULL..." ++ nl, []) end.
Proof.
  destruct p as [p|]; [|done]. unfold printable, dump_person, array_string, person_text. cbn -[format no_nul lit].
  destruct (no_nul (name p)); [done|]. cbn -[format no_nul lit].
  destruct (person_lines (c_string (name p)) (c_string (match occ p with Some o => dept_name o | None => [] end))
    (match occ p with Some o => employee_code o | None => 0 end) (age p) (weight p)) as (Hn & Ha & Ho & Hz & Hw).
  destruct (occ p) as [o|].
  - destruct (no_nul (dept_name o)); [done|]. intros _. cbn -[format no_nul lit].
    rewrite Hn, Ha, Ho, Hw. cbn -[format lit]. by rewrite !app_nil_r, <- !app_assoc.
  - intros _. rewrite Hn, Ha, Hz, Hw. cbn -[format lit]. by rewrite !app_nil_r, <- !app_assoc.
Qed.

Lemma dumps_printable ps :
  forallb printable ps = true →
  ∃ ds, mapM dump_person ps = Some ds ∧ mjoin ds.*2 = people_text ps ∧ mjoin ds.*1 = people_errors ps.
Proof.
  induction ps as [|p ps IH]; intros H; [by exists []|]. cbn in H. apply andb_true_iff in H as [Hp Hps].
  destruct (IH Hps) as (ds & Hm & H2 & H1). set (d := match p with Some p => ([], person_text p) | None => (lit "person is NULL..." ++ nl, []) end).
  exists (d :: ds). split_and!.
  - cbn [mapM]. rewrite (dump_printable p Hp). fold d. cbn -[d]. by rewrite Hm.
  - transitivity (d.2 ++ mjoin ds.*2); [done|]. rewrite H2. by destruct p.
  - transitivity (d.1 ++ mjoin ds.*1); [done|]. rewrite H1. by destruct p.
Qed.

(** The lines of the buffer's dump. *)
Lemma chars_app s t : chars (s ++ t) = chars s ++ chars t.
Proof. apply fmap_app. Qed.

Lemma int_line_text nm z s :
  format "%-15s = %d" [AStr (lit nm); AInt z] = Some (s ++ decimal z ++ []) →
  int_line nm z = Some (chars s ++ chars (decimal z) ++ chars nl).
Proof. intros H. unfold int_line. rewrite H, app_nil_r. cbn -[chars]. by rewrite !chars_app, <- app_assoc. Qed.

Lemma address_line_text nm a s :
  format "%-15s = " [AStr (lit nm)] = Some s → address_line nm a = Some (chars s ++ [inr a] ++ chars nl).
Proof. intros H. unfold address_line. by rewrite H. Qed.

Lemma dump_output_text size next :
  dump_output (size, next, Some SERIALIZE_PERSON, Some DESERIALIZE_PERSON) = Some (buffer_text size next).
Proof.
  unfold dump_output.
  rewrite (address_line_text "buf->b" _ (lit "buf->b          = ") eq_refl).
  rewrite (int_line_text "buf->size" size (lit "buf->size       = ")) by (with_strategy opaque [decimal] reflexivity).
  rewrite (int_line_text "buf->next" next (lit "buf->next       = ")) by (with_strategy opaque [decimal] reflexivity).
  rewrite (address_line_text "buf->ser_func" _ (lit "buf->ser_func   = ") eq_refl).
  rewrite (address_line_text "buf->dser_func" _ (lit "buf->dser_func  = ") eq_refl).
  cbn [mbind option_bind]. unfold buffer_text. by rewrite !chars_app, <- !app_assoc.
Qed.

(** ** The state while the people are stored *)

(** The buffer at [l], with the cursor at its end [n]. *)
Definition filled (l : positive) (n : Z) (s : heap) : Prop :=
  grants s = [] ∧ ∃ x, bufs s !! l = Some x ∧ buf_ok x ∧ next x = n ∧ size x = cap n ∧
    ser_func x = Some SERIALIZE_PERSON ∧ dser_func x = Some DESERIALIZE_PERSON.

Lemma filled_write l n data :
  0 <= n → (0 < length data)%nat → n + Z.of_nat (length data) <= 2 ^ 30 →
  triple (filled l n) (serialize_data (Some l) data) (λ _, filled l (n + Z.of_nat (length data))).
Proof.
  intros H0 Hd Hn s (Hg & x & Hl & Hok & Hnx & Hsz & Hf & Hf').
  destruct (serialize_data_total l x s data Hl Hok) as (k & Hk & ->). rewrite Hsz, Hnx in *.
  pose proof (cap_doublings n (Z.of_nat (length data)) k H0 ltac:(lia) Hk) as Hcd. rewrite Hcd.
  set (m := n + Z.of_nat (length data)) in *.
  assert (Hcap : 512 <= cap m <= 2 ^ 30 ∧ m <= cap m).
  { unfold cap, SERIALIZE_BUFFER_DEFAULT_SIZE. pose proof (Z.log2_up_le_mono _ _ Hn) as Hu.
    rewrite Z.log2_up_pow2 in Hu by lia. pose proof (Z.pow_le_mono_r 2 _ _ ltac:(lia) Hu).
    split; [lia|]. destruct (decide (1 < m)) as [H1|H1]; [|lia]. pose proof (Z.log2_up_spec m H1). lia. }
  rewrite decide_False by ser_lia. rewrite decide_False.
  2:{ intros [_ Hr]. unfold granted_at in Hr. by rewrite Hg, lookup_nil in Hr. }
  eexists tt, _. split; [reflexivity|]. split; [cbn; by rewrite Hg, drop_nil|].
  exists (written data k x). split; [apply lookup_insert_eq|]. destruct Hok as [Hb Hnn Hss].
  assert (Hsw : size (written data k x) = cap m).
  { cbn. by rewrite Hsz. }
  assert (Hnw : next (written data k x) = m) by (cbn; by rewrite Hnx).
  split_and!; [|done..]. split; [|rewrite Hnw, Hsw; lia|rewrite Hsw; ser_lia].
  rewrite Hsw. cbn [b written set_next set_b]. rewrite Hsz, Hcd. rewrite length_splice; rewrite length_app, length_replicate; [|rewrite length_fmap, Hnx; lia].
  assert (cap n <= cap m); [|lia]. unfold cap. pose proof (Z.log2_up_le_mono n m ltac:(lia)).
  pose proof (Z.pow_le_mono_r 2 (Z.log2_up n) (Z.log2_up m)). lia.
Qed.

(** The lengths of the fields. *)
Lemma filled_next l n m k data :
  Z.of_nat (length data) = m → 0 <= n → 0 < m → n + m <= 2 ^ 30 → k = n + m →
  triple (filled l n) (serialize_data (Some l) data) (λ _, filled l k).
Proof. intros <- Hn Hm Hle ->. apply filled_write; [done|lia|done]. Qed.

Lemma occupation_filled l n o :
  occ_storable o → 0 <= n → n + match o with Some _ => 34 | None => 4 end <= 2 ^ 30 →
  triple (filled l n) (serialize_occupation (Some l) o)
    (λ _, filled l (n + match o with Some _ => 34 | None => 4 end)).
Proof.
  intros Ho Hn Hle. destruct o as [o|].
  - destruct Ho as (Hd & _). unfold NAME_LEN in Hd. eapply triple_bind; [eapply (filled_next l n 30 (n + 30)); (done || lia)|].
    intros []. eapply (filled_next l (n + 30) 4); (done || lia).
  - eapply (filled_next l n 4); (done || lia).
Qed.

Lemma person_filled l n p :
  person_wf p → 0 <= n → n + record_size (Some p) <= 2 ^ 30 →
  let m := n + record_size (Some p) in
  triple (filled l n) (serialize_person (Some l) (Some p))
    (λ ds s, ds = [(cap m, m, Some SERIALIZE_PERSON, Some DESERIALIZE_PERSON)] ∧ filled l m s).
Proof.
  intros (Hnm & _ & Ho & _) Hn Hle m. unfold NAME_LEN in Hnm. unfold serialize_person. fold m in Hle.
  assert (Hm : m = n + 38 + match occ p with Some _ => 34 | None => 4 end) by (unfold m, record_size; destruct (occ p); lia).
  assert (Hx : 4 <= match occ p with Some _ => 34 | None => 4 end) by by destruct (occ p).
  eapply triple_bind; [eapply (filled_next l n 30 (n + 30)); (done || lia)|]. intros [].
  eapply triple_bind; [eapply (filled_next l (n + 30) 4 (n + 34)); (done || lia)|]. intros [].
  eapply triple_bind; [apply (occupation_filled l (n + 34)); (done || lia)|]. intros [].
  eapply triple_bind; [eapply (filled_next l _ 4 m); (done || lia)|].
  intros [] s Hs. destruct Hs as (Hg & x & Hl & Hok & Hnx & Hz & Hf & Hf').
  eexists _, s. split.
  - unfold serialized_buffer_dump. rewrite bind_assoc. cstep (deref_lookup l x s Hl). reflexivity.
  - split; [by rewrite Hz, Hnx, Hf, Hf'|]. split; [done|]. by exists x.
Qed.

(** The dumps of the people [ps], stored from position [n] on. *)
Fixpoint dumps_of (n : Z) (ps : list (option person_t)) : dumps_t :=
  match ps with
  | [] => []
  | p :: ps' =>
      let m := n + record_size p in
      match p with
      | Some _ => [(cap m, m, Some SERIALIZE_PERSON, Some DESERIALIZE_PERSON)]
      | None => []
      end ++ dumps_of m ps'
  end.

Lemma dumps_text n ps : ∃ os, mapM dump_output (dumps_of n ps) = Some os ∧ mjoin os = storing_text n ps.
Proof.
  revert n. induction ps as [|p ps IH]; intros n; [by exists []|].
  destruct (IH (n + record_size p)) as (os & Hos & Hj). destruct p as [p|].
  - exists (buffer_text (cap (n + record_size (Some p))) (n + record_size (Some p)) :: os). split.
    + cbn [dumps_of app mapM]. rewrite dump_output_text. cbn [mbind option_bind]. by rewrite Hos.
    + exact (f_equal (app _) Hj).
  - by exists os.
Qed.

Fixpoint total_size (ps : list (option person_t)) : Z :=
  match ps with [] => 0 | p :: ps' => record_size p + total_size ps' end.

Lemma record_size_bounds p : 0 < record_size p <= 72.
Proof. unfold record_size. repeat case_match; lia. Qed.

Lemma total_size_nonneg ps : 0 <= total_size ps.
Proof. induction ps as [|p ps IH]; [done|]. cbn. pose proof (record_size_bounds p). lia. Qed.

Lemma each_filled l n ps :
  Forall person_storable ps → 0 <= n → n + total_size ps <= 2 ^ 30 →
  triple (filled l n) (serialize_each (Some l) ps) (λ ds s, ds = dumps_of n ps).
Proof.
  intros Hps. revert n. induction Hps as [|p ps Hp Hps IH]; intros n Hn Hle.
  - intros s Hs. by exists [], s.
  - cbn [serialize_each]. cbn [total_size] in Hle. pose proof (record_size_bounds p). pose proof (total_size_nonneg ps).
    set (m := n + record_size p).
    eapply (triple_bind _ _ (λ ds s, ds = match p with
      | Some _ => [(cap m, m, Some SERIALIZE_PERSON, Some DESERIALIZE_PERSON)] | None => [] end ∧ filled l m s)).
    + destruct p as [p|].
      * intros s Hs. destruct (person_filled l n p) with (s := s) as (ds & s' & Hrun & Hds); [apply Hp|done|lia|done|].
        exists ds, s'. split; [|done]. destruct Hs as (_ & x & Hl & _ & _ & _ & Hf & _).
        unfold serialize, serialized_buffer_do_serialize. cstep (deref_lookup l x s Hl). by rewrite Hf.
      * change (record_size None) with 4 in *. eapply triple_bind; [eapply (filled_next l n 4 m); (done || lia)|]. intros [] s Hs. by exists [], s.
    + intros ds s [-> Hs]. destruct (IH m ltac:(unfold m; lia) ltac:(unfold m; lia) s Hs) as (ds & s' & Hrun & ->).
      eexists _, s'. cstep Hrun. split; [reflexivity|done].
Qed.

Lemma encode_size ps : Forall person_storable ps → Z.of_nat (length (encode_all ps)) = total_size ps.
Proof.
  induction 1 as [|p ps Hp Hps IH]; [done|]. rewrite encode_all_cons, length_app. cbn [total_size].
  rewrite <- IH, Nat2Z.inj_add. f_equal. destruct p as [p|]; [|done].
  destruct Hp as [(Hn & _ & Ho & _) _]. cbn -[Z.of_nat]. unfold NAME_LEN in *.
  rewrite !length_app, !length_int_bytes. unfold occ_bytes. destruct (occ p) as [o|].
  - destruct Ho as (Hd & _). rewrite length_app, length_int_bytes. unfold NAME_LEN in Hd. lia.
  - rewrite length_int_bytes. lia.
Qed.

(** C17: what main prints, in plain text.  To the standard output, first for every person that is
    not NULL the record of the buffer at the end of serialize_person: its size, which is the least
    512 * 2^k that holds what is stored, and the cursor, behind everything stored so far; then for every person
    read back its four lines, in the order of storing, with the fields of the person stored.  To the
    standard error, a line for every NULL.  main returns 0.  This holds when the allocations are
    granted, the people survive the round trip, their encodings fit in 2^30 bytes and no array is
    without a zero. *)
Theorem main_prints_stored ps h :
  grants h = [] → Forall person_storable ps → Z.of_nat (length (encode_all ps)) <= 2 ^ 30 →
  forallb printable ps = true →
  ∃ s, main_over ps h = Done (0, (storing_text 0 ps ++ chars (people_text ps), people_errors ps)) s.
Proof.
  intros Hg Hps Hlen Hpr.
  destruct (stored_people ps h Hg Hps) as (l & s0 & s1 & s2 & s3 & ds & Hc & Hput & Hreset & Hget); [done|].
  destruct (dumps_printable ps Hpr) as (os & Hos & Hout & Herr).
  assert (Hds : ds = dumps_of 0 ps).
  { pose proof (create_granted (Some SERIALIZE_PERSON) (Some DESERIALIZE_PERSON) h Hg) as Hc'.
    rewrite Hc in Hc'. injection Hc' as -> ->.
    destruct (each_filled (brk h) 0 ps Hps ltac:(lia)) with (s := upd_buf (brk h) (fresh_buf (Some SERIALIZE_PERSON) (Some DESERIALIZE_PERSON)) (bump h))
      as (ds' & s' & Hrun & ->).
    - rewrite <- (encode_size ps Hps). lia.
    - split; [done|]. eexists. split; [apply lookup_insert_eq|]. split_and!; try done.
    - rewrite Hput in Hrun. by injection Hrun. }
  destruct (dumps_text 0 ps) as (shown & Hshown & Hj). exists s3. unfold main_over. cstep Hc. cstep Hput.
  rewrite Hds, Hshown. cbn [print]. rewrite bind_ret. cstep Hreset.
  cstep (dump_each_all _ _ _ _ _ _ Hget Hos). by rewrite Hj, Hout, Herr.
Qed.

Definition out_text (ls : list string) : out_t := ls ≫= λ l, chars (lit l ++ nl).

(** The record of the buffer in main: it never grows. *)
Definition small_buffer (next : string) : out_t :=
  chars (lit "buf->b          = ") ++ [inr Block] ++ chars nl ++
  out_text ["buf->size       = 512"; String.append "buf->next       = " next] ++
  chars (lit "buf->ser_func   = ") ++ [inr (Function (Some SERIALIZE_PERSON))] ++ chars nl ++
  chars (lit "buf->dser_func  = ") ++ [inr (Function (Some DESERIALIZE_PERSON))] ++ chars nl ++ chars nl.

Lemma main_prints_stored_witness :
  ∃ s, main (empty_heap []) =
    Done (0, (small_buffer "72" ++ small_buffer "118" ++
              out_text ["name   = jack"; "age    = 25"; "occ    = {software developement,2507}"; "weight = 80";
                        "name   = peter"; "age    = 26"; "occ    = (nil)"; "weight = 55"],
              lit "person is NULL..." ++ nl)) s.
Proof.
  destruct (main_prints_stored [Some jack; None; Some peter] (empty_heap [])) as [s Hs].
  - reflexivity.
  - repeat constructor; vm_compute; try reflexivity; discriminate.
  - vm_compute. discriminate.
  - vm_compute. reflexivity.
  - exists s. unfold main. rewrite Hs. vm_compute. reflexivity.
Defined.
