(* ===== verification/Printing.v ===== *)
(** * Programs that only print: Console/progress_bar.c and Linux/Syslog/syslog_example.c

    The output of the loop of the progress bar, and the messages that pass the priority mask of
    the system log. *)

From stdpp Require Import strings.
From Stdlib Require Import String.
From S2P Require Import Prelude CInt Format.

Open Scope Z_scope.

(** ** Console/progress_bar.c *)

Module Progress.

Definition LOOP : Z := 10000.

(** printf: the output, the state being what was printed so far. *)
Definition printf (f : list byte) (args : list arg) : cM (list byte) unit := λ out,
  match format_from None f args with Some o => Done tt (out ++ o) | None => Undef Uninitialised end.

(** One turn: the line, and the return to its beginning; flushing and sleeping print nothing. *)
Definition turn (i : Z) : cM (list byte) unit :=
  printf (Byte.x08 :: lit "In progress: %3d%c") [AInt (i ÷ (LOOP ÷ 100)); AInt 37];;
  printf [Byte.x0d] [].

(** [for (i = 0; i < LOOP; i++)], from [i] on. *)
Fixpoint loop (fuel : nat) (i : Z) : cM (list byte) unit :=
  match fuel with
  | O => out_of_fuel
  | S fuel => if i <? LOOP then turn i;; (i ← int_add i 1; loop fuel i) else mret tt
  end.

Definition main : cM (list byte) Z := loop (S (Z.to_nat LOOP)) 0;; mret 0.

(** The line that shows [p] percent. *)
Definition bar (p : Z) : list byte :=
  Byte.x08 :: lit "In progress: " ++ pad (mk_directive false false 3) (decimal p) ++ lit "%" ++ [Byte.x0d].

Lemma format_bar z :
  format_from None (Byte.x08 :: lit "In progress: %3d%c") [AInt z; AInt 37]
  = Some (Byte.x08 :: lit "In progress: " ++ pad (mk_directive false false 3) (decimal z) ++ lit "%").
Proof. reflexivity. Qed.

Lemma turn_bar i out : turn i out = Done tt (out ++ bar (i ÷ 100)).
Proof.
  change (i ÷ 100) with (i ÷ (LOOP ÷ 100)). unfold turn, printf, mbind, cM_bind. rewrite format_bar.
  change (format_from None [Byte.x0d] []) with (Some [Byte.x0d]). cbv iota. unfold bar.
  by rewrite <- app_assoc, <- app_comm_cons, <- !app_assoc.
Qed.

Lemma loop_bars n i out :
  0 <= i → LOOP - i <= Z.of_nat n → 
  loop (S n) i out = Done tt (out ++ (seqZ i (LOOP - i) ≫= λ j, bar (j ÷ 100))).
Proof.
  revert i out. induction n as [|n IH]; intros i out Hi Hn.
  - cbn [loop]. rewrite (proj2 (Z.ltb_ge _ _)) by lia. rewrite seqZ_nil by lia. by rewrite app_nil_r.
  - remember (S n) as m. cbn [loop]. destruct (Z.ltb_spec i LOOP) as [Hlt|Hge].
    + rewrite (bind_done _ _ _ _ _ (turn_bar i out)). unfold int_add.
      rewrite (bind_done _ _ _ _ _ (int_result_ok (i + 1) _ ltac:(unfold LOOP in *; int_unfold; lia))).
      subst m. rewrite IH by lia. rewrite <- app_assoc. do 2 f_equal.
      rewrite (seqZ_cons i (LOOP - i)) by lia. cbn. by replace (Z.pred (LOOP - i)) with (LOOP - (i + 1)) by lia.
    + rewrite seqZ_nil by lia. by rewrite app_nil_r.
Qed.

Lemma length_bar p : 0 <= p < 100 → length (bar p) = 19%nat.
Proof.
  intros H. assert (Hall : forallb (λ q, (length (bar q) =? 19)%nat) (seqZ 0 100) = true) by (vm_compute; reflexivity).
  rewrite forallb_forall in Hall. apply Nat.eqb_eq, Hall, list_elem_of_In, elem_of_seqZ. lia.
Qed.

(** The progress bar prints 10000 lines over each other, all of the same length, a hundred
    for each percentage from 0 to 99 in this order, and ends; 100 percent is never shown. *)
Theorem progress_lines :
  main [] = Done 0 (seqZ 0 LOOP ≫= λ i, bar (i ÷ 100)) ∧
  ∀ i, 0 <= i < LOOP → 0 <= i ÷ 100 < 100 ∧ length (bar (i ÷ 100)) = 19%nat.
Proof.
  assert (H : ∀ i, 0 <= i < LOOP → 0 <= i ÷ 100 < 100).
  { intros i Hi. unfold LOOP in Hi. split; [apply Z.quot_pos; lia|apply Z.quot_lt_upper_bound; lia]. }
  split.
  - unfold main. rewrite (bind_done _ _ _ tt (seqZ 0 LOOP ≫= λ i, bar (i ÷ 100))); [done|].
    rewrite (loop_bars (Z.to_nat LOOP) 0 []); [done|lia|unfold LOOP; lia].
  - intros i Hi. split; [by apply H|]. by apply length_bar, H.
Qed.

End Progress.

(** ** Linux/Syslog/syslog_example.c *)

Module Syslog.

Definition LOG_EMERG : Z := 0.
Definition LOG_NOTICE : Z := 5.
Definition LOG_INFO : Z := 6.
Definition LOG_DEBUG : Z := 7.

Definition LOG_MASK (pri : Z) : Z := Z.shiftl 1 pri.

(** The mask of priorities and the messages sent; [ident] is what openlog was given, while the
    log is open. *)
Record syslog_t := mk_syslog {
  ident : option string;
  mask : Z;
  sent : list (Z * string);
}.

(** All priorities pass at the start. *)
Definition syslog0 : syslog_t := mk_syslog None 255 [].

Definition openlog (name : string) : cM syslog_t unit := modify (λ s, mk_syslog (Some name) (mask s) (sent s)).
Definition setlogmask (m : Z) : cM syslog_t unit := modify (λ s, mk_syslog (ident s) (if m =? 0 then mask s else m) (sent s)).
Definition closelog : cM syslog_t unit := modify (λ s, mk_syslog None (mask s) (sent s)).

(** A message whose priority is not in the mask is dropped. *)
Definition syslog (pri : Z) (msg : string) : cM syslog_t unit :=
  modify (λ s, if Z.land (mask s) (LOG_MASK pri) =? 0 then s else mk_syslog (ident s) (mask s) (sent s ++ [(pri, msg)])).

Definition main : cM syslog_t Z :=
  openlog "hello syslog";;
  setlogmask (Z.lor (LOG_MASK LOG_NOTICE) (LOG_MASK LOG_INFO));;
  syslog LOG_EMERG "LOG_EMERG for test";;
  syslog LOG_NOTICE "LOG_NOTICE for test";;
  syslog LOG_INFO "LOG_INFO for test";;
  syslog LOG_DEBUG "LOG_DEBUG for test";;
  closelog;;
  mret 0.

(** A mask made of single priorities lets exactly these pass. *)
Lemma mask_passes a b pri :
  0 <= a → 0 <= b → 0 <= pri →
  (Z.land (Z.lor (LOG_MASK a) (LOG_MASK b)) (LOG_MASK pri) =? 0) = false ↔ pri = a ∨ pri = b.
Proof.
  intros Ha Hb Hp. unfold LOG_MASK. rewrite Z.eqb_neq. rewrite !Z.shiftl_1_l. split.
  - intros H. destruct (decide (pri = a)) as [|Ha']; [by left|]. destruct (decide (pri = b)) as [|Hb']; [by right|].
    destruct H. apply Z.bits_inj'. intros n Hn. rewrite Z.land_spec, Z.lor_spec, !Z.pow2_bits_eqb, Z.bits_0 by done.
    destruct (Z.eqb_spec pri n), (Z.eqb_spec a n), (Z.eqb_spec b n); cbn; congruence || lia.
  - intros H Hz. assert (Hbit : Z.testbit (Z.land (Z.lor (2 ^ a) (2 ^ b)) (2 ^ pri)) pri = true).
    { rewrite Z.land_spec, Z.lor_spec, !Z.pow2_bits_eqb, Z.eqb_refl by done.
      destruct H as [-> | ->]; rewrite Z.eqb_refl; by rewrite ?orb_true_r. }
    by rewrite Hz, Z.bits_0 in Hbit.
Qed.

(** Of the four messages only the notice and the information are sent; the emergency message
    is dropped by the mask, like the one for debugging. *)
Theorem syslog_sends :
  ∃ s, main syslog0 = Done 0 s ∧ ident s = None ∧
    sent s = [(LOG_NOTICE, "LOG_NOTICE for test"); (LOG_INFO, "LOG_INFO for test")]%string ∧
    ∀ pri, 0 <= pri → (Z.land (mask s) (LOG_MASK pri) =? 0) = false ↔ pri = LOG_NOTICE ∨ pri = LOG_INFO.
Proof.
  eexists. split; [vm_compute; reflexivity|]. split_and!; [done|done|].
  intros pri Hp. by apply (mask_passes LOG_NOTICE LOG_INFO pri).
Qed.

End Syslog.
