(* ===== verification/Logger.v ===== *)
(** * The logger: common/logger.c and common/logger.h

    The global level and stream, the streams that are open with what was written to them, and
    the composition of a message in the 8192-byte array [msg] of [do_log_msg]. *)

From stdpp Require Import pretty.
From Stdlib Require Import String.
From S2P Require Import Prelude CInt Format.

Open Scope string_scope.
Open Scope list_scope.
Open Scope Z_scope.

(** ** Data *)

Definition LOG_LEVEL_FATAL : Z := 0.
Definition LOG_LEVEL_ERROR : Z := 1.
Definition LOG_LEVEL_WARN : Z := 2.
Definition LOG_LEVEL_INFO : Z := 3.
Definition LOG_LEVEL_DEBUG : Z := 4.

Definition log_level_string : list string := ["FATAL"; "ERROR"; "WARN"; "INFO"; "DEBUG"].

Definition MSG_LEN : Z := 8192.

(** A [FILE *]: NULL is [None]; [stderr] is a stream like the others. *)
Definition file_t : Type := option positive.
Definition STDERR : positive := 1.

Record logger := mk_logger {
  _default_log_stream : file_t;
  _default_log_level : Z;
  streams : gmap positive (list byte);
}.

(** The state of a program that starts: [stderr] is open. *)
Definition logger_init : logger := mk_logger None LOG_LEVEL_ERROR {[ STDERR := [] ]}.

(** [fprintf(fp, "%s\n", msg)]; a closed stream is no stream. *)
Definition fputs_line (fp : positive) (msg : list byte) : cM logger unit := λ s,
  match streams s !! fp with
  | None => Undef UseAfterFree
  | Some out =>
      Done tt (mk_logger (_default_log_stream s) (_default_log_level s)
                 (<[fp := out ++ msg ++ [Byte.x0a]]> (streams s)))
  end.

(** ** Operations *)

Definition setup_logger (fd : file_t) (log_level : Z) : cM logger Z :=
  modify (λ s, mk_logger (match fd with None => Some STDERR | Some f => Some f end) log_level
                 (streams s));;
  mret 0.

Definition close_logger (fd : file_t) : cM logger unit :=
  match fd with
  | None => mret tt
  | Some f =>
      s ← get;
      check (bool_decide (is_Some (streams s !! f))) UseAfterFree;;
      put (mk_logger (_default_log_stream s) (_default_log_level s) (delete f (streams s)))
  end.

Definition logging_to_file (fp : positive) (level : Z) (msg : list byte) : cM logger unit :=
  fputs_line fp (c_string msg).

Definition logging_to_stderr (msg : list byte) : cM logger unit :=
  fputs_line STDERR (c_string msg).

(** [snprintf(msg + off, n, ...)] with output [out]: [n - 1] bytes of it at most, and a
    zero; nothing when [n] is 0. *)
Definition snprintf_at (msg : list byte) (off n : Z) (out : list byte) :
    cM logger (list byte * Z) :=
  if to_size n =? 0 then mret (msg, printf_result out)
  else
    let kept := take (Z.to_nat (to_size n - 1)) out ++ [Byte.x00] in
    check ((0 <=? off) && (off + Z.of_nat (length kept) <=? Z.of_nat (length msg))) OutOfBounds;;
    mret (splice (Z.to_nat off) kept msg, printf_result out).

(** [msg[i] = '\0']. *)
Definition put_nul (msg : list byte) (i : Z) : cM logger (list byte) :=
  check ((0 <=? i) && (i <? Z.of_nat (length msg))) OutOfBounds;;
  mret (<[Z.to_nat i := Byte.x00]> msg).

(** [msg] is written to [zc], or to [stderr]: the code behind the label [end]. *)
Definition emit (zc : file_t) (level : Z) (msg : list byte) : cM logger unit :=
  match zc with
  | Some fp => logging_to_file fp level msg
  | None => logging_to_stderr msg
  end.

(** The output of a format whose arguments must fit. *)
Definition sprintf (f : string) (args : list arg) : cM logger (list byte) :=
  match format f args with Some out => mret out | None => undef Uninitialised end.

(** The file, line and function of a call; NULL strings are [None]. *)
Record position := mk_position {
  in_file : option (list byte);
  at_line : Z;
  in_func : option (list byte);
}.

Definition do_log_msg (zc : file_t) (level : Z) (p : position) (fmt : string)
    (args : list arg) : cM logger unit :=
  tag ← (if (0 <=? level) && (level <? 5)
         then mret (nth (Z.to_nat level) log_level_string "") else undef OutOfBounds);
  let msg := replicate (Z.to_nat MSG_LEN) Byte.x00 in
  head ← sprintf "[%-5s] " [AStr (lit tag)];
  '(msg, written) ← snprintf_at msg 0 MSG_LEN head;
  if written <? 0 then mret tt
  else
    body ← sprintf fmt args;
    '(msg, r) ← snprintf_at msg written (MSG_LEN - written) body;
    written ← int_add written r;
    if written <? 0 then mret tt
    else if MSG_LEN - 1 <=? written then emit zc level msg
    else
      match in_file p, in_func p with
      | Some file, Some func =>
          if at_line p =? 0 then msg ← put_nul msg written; emit zc level msg
          else
            tail ← sprintf "   (%s:%d:%s)" [AStr file; AInt (at_line p); AStr func];
            '(msg, r) ← snprintf_at msg written (MSG_LEN - written) tail;
            written ← int_add written r;
            if written <? 0 then mret tt
            else msg ← put_nul msg written; emit zc level msg
      | _, _ => msg ← put_nul msg written; emit zc level msg
      end.

Definition log_msg (zc : file_t) (level : Z) (p : position) (fmt : string) (args : list arg) :
    cM logger unit :=
  s ← get;
  if _default_log_level s <? level then mret tt
  else do_log_msg zc level p fmt args.

(** The macros [LOGGING_FATAL] to [LOGGING_DEBUG]: the level and the position of the call are
    filled in, the stream is the default one. *)
Definition LOGGING (level : Z) (file : string) (line : Z) (func fmt : string)
    (args : list arg) : cM logger unit :=
  s ← get;
  log_msg (_default_log_stream s) level
    (mk_position (Some (lit file)) line (Some (lit func))) fmt args.

Definition LOGGING_FATAL := LOGGING LOG_LEVEL_FATAL.
Definition LOGGING_ERROR := LOGGING LOG_LEVEL_ERROR.
Definition LOGGING_WARN := LOGGING LOG_LEVEL_WARN.
Definition LOGGING_INFO := LOGGING LOG_LEVEL_INFO.
Definition LOGGING_DEBUG := LOGGING LOG_LEVEL_DEBUG.

(** ** Lemmas *)

(** The parts of a message. *)
Definition tag_of (level : Z) : list byte := lit (nth (Z.to_nat level) log_level_string "").
Definition head_of (level : Z) : list byte :=
  lit "[" ++ pad (mk_directive true false 5) (tag_of level) ++ lit "] ".
Definition tail_of (file : list byte) (line : Z) (func : list byte) : list byte :=
  lit "   (" ++ file ++ lit ":" ++ decimal line ++ lit ":" ++ func ++ lit ")".

Lemma pad_plain s : pad plain s = s.
Proof. done. Qed.

Lemma format_head level :
  format "[%-5s] " [AStr (tag_of level)] = Some (head_of level).
Proof.
  reflexivity.
Qed.

Lemma format_tail file line func :
  format "   (%s:%d:%s)" [AStr file; AInt line; AStr func] = Some (tail_of file line func).
Proof. reflexivity. Qed.

Lemma length_head level : 0 <= level < 5 → length (head_of level) = 8%nat.
Proof.
  intros H. assert (level = 0 ∨ level = 1 ∨ level = 2 ∨ level = 3 ∨ level = 4)
    as [->|[->|[->|[->| ->]]]] by lia; reflexivity.
Qed.

Lemma length_tail file line func : (4 <= length (tail_of file line func))%nat.
Proof. unfold tail_of. rewrite length_app. change (length (lit "   (")) with 4%nat. lia. Qed.

Lemma no_nul_head level : 0 <= level < 5 → no_nul (head_of level) = true.
Proof.
  intros H. assert (level = 0 ∨ level = 1 ∨ level = 2 ∨ level = 3 ∨ level = 4)
    as [->|[->|[->|[->| ->]]]] by lia; reflexivity.
Qed.

(** The array [msg] with the string [bs] in it and zeros behind. *)
Definition filled (bs : list byte) : list byte :=
  bs ++ replicate (Z.to_nat MSG_LEN - length bs) Byte.x00.

Lemma length_filled bs :
  Z.of_nat (length bs) <= MSG_LEN → Z.of_nat (length (filled bs)) = MSG_LEN.
Proof. intros H. unfold filled. rewrite length_app, length_replicate. lia. Qed.

Lemma filled_nil : replicate (Z.to_nat MSG_LEN) Byte.x00 = filled [].
Proof. unfold filled. by rewrite app_nil_l, Nat.sub_0_r. Qed.

Lemma c_string_filled bs :
  no_nul bs = true → Z.of_nat (length bs) < MSG_LEN → c_string (filled bs) = bs.
Proof.
  intros Hn Hl. unfold filled.
  destruct (Z.to_nat MSG_LEN - length bs)%nat as [|n] eqn:E; [lia|]. by apply c_string_nul.
Qed.

(** An [snprintf] behind the string in [msg] appends as much of its output as fits. *)
Lemma snprintf_append bs out s :
  Z.of_nat (length bs) < MSG_LEN →
  let bs' := bs ++ take (Z.to_nat (MSG_LEN - 1) - length bs) out in
  snprintf_at (filled bs) (Z.of_nat (length bs)) (MSG_LEN - Z.of_nat (length bs)) out s
  = Done (filled bs', printf_result out) s.
Proof.
  intros Hl. unfold snprintf_at.
  assert (Hm : MSG_LEN <= SIZE_MAX) by done.
  rewrite to_size_id by lia. rewrite (proj2 (Z.eqb_neq _ _)) by lia.
  replace (Z.to_nat (MSG_LEN - Z.of_nat (length bs) - 1))
    with (Z.to_nat (MSG_LEN - 1) - length bs)%nat by lia.
  set (k := take _ out). set (kept := k ++ [Byte.x00]).
  assert (Hk : (length k <= Z.to_nat (MSG_LEN - 1) - length bs)%nat).
  { unfold k. rewrite length_take. lia. }
  assert (Hkept : length kept = S (length k)) by (unfold kept; rewrite length_app; cbn; lia).
  rewrite Hkept, length_filled by lia.
  assert (Hb : (0 <=? Z.of_nat (length bs)) && (Z.of_nat (length bs) + Z.of_nat (S (length k))
                 <=? MSG_LEN) = true).
  { apply andb_true_iff. split; apply Z.leb_le; lia. }
  rewrite Hb. unfold check. rewrite bind_ret. do 3 f_equal.
  unfold splice, filled. rewrite Nat2Z.id, Hkept, take_app_length, <- app_assoc. f_equal.
  unfold kept. rewrite <- app_assoc. f_equal. rewrite drop_app_ge by lia.
  rewrite drop_replicate, length_app.
  replace (Z.to_nat MSG_LEN - length bs - (length bs + S (length k) - length bs))%nat
    with (Z.to_nat MSG_LEN - (length bs + length k) - 1)%nat by lia.
  destruct (Z.to_nat MSG_LEN - (length bs + length k))%nat as [|m] eqn:E; [lia|].
  cbn. by rewrite Nat.sub_0_r.
Qed.

Lemma put_nul_filled bs s :
  Z.of_nat (length bs) < MSG_LEN →
  put_nul (filled bs) (Z.of_nat (length bs)) s = Done (filled bs) s.
Proof.
  intros Hl. unfold put_nul. rewrite length_filled by lia.
  rewrite (proj2 (Z.leb_le _ _)), (proj2 (Z.ltb_lt _ _)) by lia. cbn [andb check].
  rewrite bind_ret, Nat2Z.id. unfold mret, cM_ret. f_equal. unfold filled.
  destruct (Z.to_nat MSG_LEN - length bs)%nat as [|m] eqn:E; [lia|].
  apply list_insert_id. by rewrite lookup_app_r, Nat.sub_diag by lia.
Qed.

Lemma printf_result_ok out :
  Z.of_nat (length out) <= INT_MAX → printf_result out = Z.of_nat (length out).
Proof. intros H. unfold printf_result. by rewrite (proj2 (Z.leb_le _ _)). Qed.

(** [out] appended, as a line, to the stream behind [zc]. *)
Definition appended (zc : file_t) (line : list byte) (s : logger) : option logger :=
  let fp := match zc with Some f => f | None => STDERR end in
  old ← streams s !! fp;
  Some (mk_logger (_default_log_stream s) (_default_log_level s)
          (<[fp := old ++ line ++ [Byte.x0a]]> (streams s))).

Lemma emit_filled zc level bs s s' :
  no_nul bs = true → Z.of_nat (length bs) < MSG_LEN → appended zc bs s = Some s' →
  emit zc level (filled bs) s = Done tt s'.
Proof.
  intros Hn Hl Ha. unfold emit, logging_to_file, logging_to_stderr.
  rewrite c_string_filled by done. unfold appended in Ha. destruct zc as [f|];
    unfold fputs_line; destruct (streams s !! _); simplify_eq/=; done.
Qed.

Lemma sprintf_ok fmt args out s : format fmt args = Some out → sprintf fmt args s = Done out s.
Proof. unfold sprintf. by intros ->. Qed.

(** The array behind the level: the call up to the formatting of the message. *)
Lemma do_log_msg_body zc level file line func fmt args body s :
  0 <= level < 5 → line ≠ 0 → format fmt args = Some body →
  Z.of_nat (length body) <= 2 ^ 30 →
  let bs := head_of level ++ take (Z.to_nat (MSG_LEN - 1) - 8) body in
  do_log_msg zc level (mk_position (Some file) line (Some func)) fmt args s
  = if MSG_LEN - 1 <=? 8 + Z.of_nat (length body) then emit zc level (filled bs) s
    else
      ('(msg, r) ← snprintf_at (filled (head_of level ++ body)) (8 + Z.of_nat (length body))
                     (MSG_LEN - (8 + Z.of_nat (length body))) (tail_of file line func);
       written ← int_add (8 + Z.of_nat (length body)) r;
       if written <? 0 then mret tt
       else msg ← put_nul msg written; emit zc level msg) s.
Proof.
  intros Hlev Hline Hfmt Hlen bs. unfold do_log_msg.
  rewrite (proj2 (Z.leb_le 0 level)), (proj2 (Z.ltb_lt level 5)) by lia. cbn [andb].
  rewrite bind_ret, filled_nil. cbn zeta.
  cstep (sprintf_ok _ _ _ s (format_head level)).
  assert (H8 : length (head_of level) = 8%nat) by by apply length_head.
  assert (H0 := snprintf_append [] (head_of level) s ltac:(done)). cbn zeta in H0.
  change (Z.of_nat (length [])) with 0 in H0. rewrite Z.sub_0_r in H0. cstep H0.
  rewrite app_nil_l, take_ge by (rewrite H8; vm_compute; lia).
  rewrite printf_result_ok by (rewrite H8; by vm_compute). rewrite H8.
  change (Z.of_nat 8 <? 0) with false. cbn beta iota. cstep (sprintf_ok _ _ _ s Hfmt).
  assert (H1 := snprintf_append (head_of level) body s ltac:(rewrite H8; done)). cbn zeta in H1.
  rewrite H8 in H1. change (Z.of_nat 8) with 8 in H1 |- *. cstep H1. fold bs.
  rewrite printf_result_ok by (int_unfold; lia). unfold int_add at 1.
  assert (Hi : is_int (8 + Z.of_nat (length body))) by (int_unfold; lia).
  cstep (int_result_ok _ s Hi). rewrite (proj2 (Z.ltb_ge _ 0)) by lia.
  destruct (MSG_LEN - 1 <=? 8 + Z.of_nat (length body)) eqn:Hbig; [done|]. zbool.
  cbn [in_file in_func at_line]. rewrite (proj2 (Z.eqb_neq line 0)) by done.
  cstep (sprintf_ok _ _ _ s (format_tail file line func)). unfold bs. rewrite take_ge; [done|].
  unfold MSG_LEN in *. lia.
Qed.

(** ** Properties *)

Section passing.
Context (zc : file_t) (level : Z) (file : list byte) (line : Z) (func : list byte) (fmt : string) (args : list arg).
Context (body : list byte) (s s' : logger).
Context (Hlev : 0 <= level < 5) (Hpass : level <= _default_log_level s) (Hline : line ≠ 0).
Context (Hfmt : format fmt args = Some body) (Hnb : no_nul body = true) (Hnt : no_nul (tail_of file line func) = true).

Let text : list byte := head_of level ++ body.
Let full : list byte := text ++ tail_of file line func.
Let call : cM logger unit := log_msg zc level (mk_position (Some file) line (Some func)) fmt args.

(** A message that fits with its position. *)
Lemma log_msg_full : Z.of_nat (length full) < MSG_LEN → appended zc full s = Some s' → call s = Done tt s'.
Proof.
  intros Hfull Ha. pose proof (length_head _ Hlev) as H8. pose proof (no_nul_head _ Hlev) as Hnh.
  unfold call, full, text in *. unfold log_msg, get. unfold mbind at 1, cM_bind at 1. rewrite (proj2 (Z.ltb_ge _ _)) by done.
  pose proof (length_tail file line func). rewrite !length_app, H8 in Hfull.
  rewrite (do_log_msg_body zc level file line func fmt args body s) by (done || (unfold MSG_LEN in *; lia)). cbn zeta.
  rewrite (proj2 (Z.leb_gt _ _)) by lia.
  assert (Hi : is_int (8 + Z.of_nat (length body) + Z.of_nat (length (tail_of file line func)))).
  { unfold MSG_LEN in *. int_unfold. lia. }
  assert (Hl : 8 + Z.of_nat (length body) = Z.of_nat (length (head_of level ++ body))).
  { rewrite length_app, H8. lia. }
  assert (Hs := snprintf_append (head_of level ++ body) (tail_of file line func) s).
  cbn zeta in Hs. rewrite Hl. cstep (Hs ltac:(lia)). rewrite take_ge by (rewrite length_app; lia).
  rewrite printf_result_ok by (int_unfold; lia). rewrite Hl in Hi. unfold int_add.
  cstep (int_result_ok _ s Hi). rewrite (proj2 (Z.ltb_ge _ 0)) by lia.
  rewrite <- Nat2Z.inj_add, <- length_app, <- app_assoc. rewrite <- app_assoc in Ha.
  cstep (put_nul_filled (head_of level ++ body ++ tail_of file line func) s
           ltac:(rewrite !length_app, H8; lia)).
  apply emit_filled; [by rewrite !no_nul_app, Hnh, Hnb| |done].
  rewrite !length_app, H8. lia.
Qed.

(** A message that fills the array without its position. *)
Lemma log_msg_cut :
  Z.of_nat (length body) <= 2 ^ 30 → MSG_LEN - 1 <= Z.of_nat (length text) →
  appended zc (take (Z.to_nat (MSG_LEN - 1)) text) s = Some s' → call s = Done tt s'.
Proof.
  intros Hlen Hbig Ha. pose proof (length_head _ Hlev) as H8. pose proof (no_nul_head _ Hlev) as Hnh.
  unfold call, text in *. unfold log_msg, get. unfold mbind at 1, cM_bind at 1. rewrite (proj2 (Z.ltb_ge _ _)) by done.
  rewrite (do_log_msg_body zc level file line func fmt args body s) by done. cbn zeta.
  rewrite length_app, H8 in Hbig. rewrite (proj2 (Z.leb_le _ _)) by lia.
  rewrite take_app_ge, H8 in Ha by (rewrite H8; vm_compute; lia).
  apply emit_filled; [by rewrite no_nul_app, Hnh, no_nul_take| |done].
  rewrite length_app, H8, length_take. unfold MSG_LEN in *. lia.
Qed.

End passing.

(** C25: a message whose level passes the filter is appended, as one line, to the stream that
    was passed (to [stderr] for NULL): the tag and the text, followed by the position when
    everything fits in [MSG_LEN - 1] bytes, and cut at [MSG_LEN - 1] bytes when the text alone
    reaches that size.  Nothing else changes. *)
Theorem log_msg_writes_line zc level file line func fmt args body s s' :
  0 <= level < 5 → level <= _default_log_level s → line ≠ 0 →
  format fmt args = Some body → Z.of_nat (length body) <= 2 ^ 30 →
  no_nul body = true → no_nul (tail_of file line func) = true →
  let text := head_of level ++ body in
  (let full := text ++ tail_of file line func in
   Z.of_nat (length full) < MSG_LEN ∧ appended zc full s = Some s') ∨
  (MSG_LEN - 1 <= Z.of_nat (length text) ∧
   appended zc (take (Z.to_nat (MSG_LEN - 1)) text) s = Some s') →
  log_msg zc level (mk_position (Some file) line (Some func)) fmt args s = Done tt s'.
Proof.
  intros Hlev Hpass Hline Hfmt Hlen Hnb Hnt text [[Hfull Ha]|[Hbig Ha]].
  - by eapply log_msg_full.
  - by eapply log_msg_cut.
Qed.

Lemma log_msg_writes_line_witness :
  let s := mk_logger (Some 2%positive) LOG_LEVEL_DEBUG {[ 2%positive := lit "old." ]} in
  LOGGING_WARN "logger_test.c" 12 "main" "test %d" [AInt 4] s
  = Done tt (mk_logger (Some 2%positive) LOG_LEVEL_DEBUG
      (<[2%positive := lit "old." ++ lit "[WARN ] test 4   (logger_test.c:12:main)" ++ [Byte.x0a]]>
         {[ 2%positive := lit "old." ]})).
Proof.
  cbv zeta. unfold LOGGING_WARN, LOGGING.
  refine (log_msg_writes_line (Some 2%positive) LOG_LEVEL_WARN (lit "logger_test.c") 12
            (lit "main") "test %d" [AInt 4] (lit "test 4") _ _ _ _ _ _ _ _ _ _).
  - done.
  - done.
  - done.
  - vm_compute. reflexivity.
  - vm_compute. discriminate.
  - reflexivity.
  - vm_compute. reflexivity.
  - left. split; vm_compute; reflexivity.
Defined.

(** C26: when the text leaves room in [msg] but the position does not fit, the code stores the
    terminating zero at the index of the whole length, outside the array. *)
Theorem do_log_msg_overflow zc level file line func fmt args body s :
  0 <= level < 5 → level <= _default_log_level s → line ≠ 0 →
  format fmt args = Some body → Z.of_nat (length (tail_of file line func)) <= 2 ^ 30 →
  let text := head_of level ++ body in
  Z.of_nat (length text) < MSG_LEN - 1 →
  MSG_LEN <= Z.of_nat (length (text ++ tail_of file line func)) →
  log_msg zc level (mk_position (Some file) line (Some func)) fmt args s = Undef OutOfBounds.
Proof.
  intros Hlev Hpass Hline Hfmt Htail text Hfit Hover. pose proof (length_head _ Hlev) as H8.
  unfold log_msg, get. unfold mbind at 1, cM_bind at 1.
  rewrite (proj2 (Z.ltb_ge _ _)) by done.
  unfold text in *. rewrite !length_app, H8 in Hover. rewrite length_app, H8 in Hfit.
  unfold MSG_LEN in Hfit.
  rewrite (do_log_msg_body zc level file line func fmt args body s) by (done || lia).
  rewrite (proj2 (Z.leb_gt _ _)) by (unfold MSG_LEN in *; lia).
  assert (Hl : 8 + Z.of_nat (length body) = Z.of_nat (length (head_of level ++ body))).
  { rewrite length_app, H8. lia. }
  assert (Hs := snprintf_append (head_of level ++ body) (tail_of file line func) s).
  cbn zeta in Hs. rewrite Hl. cstep (Hs ltac:(unfold MSG_LEN in *; lia)).
  rewrite printf_result_ok by (int_unfold; lia). unfold int_add.
  assert (Hi : is_int (Z.of_nat (length (head_of level ++ body))
                       + Z.of_nat (length (tail_of file line func)))) by (int_unfold; lia).
  cstep (int_result_ok _ s Hi). rewrite (proj2 (Z.ltb_ge _ 0)) by lia.
  apply bind_undef. unfold put_nul. rewrite length_filled.
  - rewrite (proj2 (Z.ltb_ge _ _)) by lia. by rewrite andb_false_r.
  - rewrite length_app, length_take. unfold MSG_LEN in *. lia.
Qed.

Lemma do_log_msg_overflow_witness :
  log_msg None LOG_LEVEL_ERROR (mk_position (Some (lit "logger_test.c")) 12 (Some (lit "main")))
    "%s" [AStr (replicate (Z.to_nat 8170) Byte.x61)] logger_init = Undef OutOfBounds.
Proof.
  refine (do_log_msg_overflow None LOG_LEVEL_ERROR _ 12 _ "%s" _ (replicate (Z.to_nat 8170) Byte.x61)
            logger_init _ _ _ _ _ _ _).
  - done.
  - done.
  - done.
  - vm_compute. reflexivity.
  - vm_compute. discriminate.
  - vm_compute. reflexivity.
  - vm_compute. discriminate.
Defined.

(** A message above the level of the logger has no effect, whatever its arguments. *)
Theorem log_msg_filtered zc level p fmt args s :
  _default_log_level s < level → log_msg zc level p fmt args s = Done tt s.
Proof. intros H. unfold log_msg, get. crun. by rewrite (proj2 (Z.ltb_lt _ _)). Qed.

Lemma log_msg_filtered_witness :
  log_msg None LOG_LEVEL_DEBUG (mk_position None 0 None) "%s" [] logger_init
  = Done tt logger_init.
Proof. refine (log_msg_filtered _ _ _ _ _ _ _). vm_compute. reflexivity. Defined.
