(* ===== verification/TransSys.v ===== *)
(** * Concurrent programs as labelled step functions

    A multithreaded program is a function that, given a label (which thread moves, and any
    choice the scheduler or the environment makes), either moves a state, or says that the
    thread is blocked, or that the move is undefined behaviour.  Reachability, invariants,
    executable runs, termination by a measure and the threads' shared bookkeeping are here,
    once, for all the programs. *)

From S2P Require Import Prelude.

(** ** Steps *)

Inductive sres (S : Type) :=
  | Next (s : S)
  | Blocked
  | Wrong (u : ub).
Arguments Next {_} _.
Arguments Blocked {_}.
Arguments Wrong {_} _.

#[export] Instance sres_ret : MRet sres := λ A a, Next a.
#[export] Instance sres_bind : MBind sres := λ A B f m,
  match m with Next a => f a | Blocked => Blocked | Wrong u => Wrong u end.

(** A sequential piece of code executed in one step. *)
Definition seq_step {S A} (m : cM S A) (s : S) : sres (A * S) :=
  match m s with
  | Done a s' => Next (a, s')
  | Undef u => Wrong u
  | Exited _ _ | NoFuel => Blocked
  end.

(** A mutex is free or locked; unlocking a free one is undefined. *)
Definition lock (m : bool) : sres unit := if m then Blocked else Next tt.
Definition unlock (m : bool) : sres unit := if m then Next tt else Wrong NotLocked.

Section trans_sys.
Context {S L : Type} (init : S → Prop) (step : L → S → sres S).

Definition moves (s s' : S) : Prop := ∃ l, step l s = Next s'.

Definition reachable (s : S) : Prop := ∃ s0, init s0 ∧ rtc moves s0 s.

(** A state in which some label is undefined behaviour. *)
Definition goes_wrong (s : S) : Prop := ∃ l u, step l s = Wrong u.

(** Running a schedule. *)
Fixpoint run (ls : list L) (s : S) : sres S :=
  match ls with
  | [] => Next s
  | l :: ls' => match step l s with Next s' => run ls' s' | r => r end
  end.

Lemma reachable_init s : init s → reachable s.
Proof. intros H. by exists s. Qed.

Lemma reachable_step l s s' : reachable s → step l s = Next s' → reachable s'.
Proof. intros (s0 & Hi & Hr) Hs. exists s0. split; [done|]. eapply rtc_r; [done|by exists l]. Qed.

(** Rule induction: what holds initially and is kept by every step holds always. *)
Lemma invariant_reachable (I : S → Prop) :
  (∀ s, init s → I s) →
  (∀ l s s', reachable s → I s → step l s = Next s' → I s') →
  ∀ s, reachable s → I s.
Proof.
  intros Hi Hs s (s0 & H0 & Hr).
  assert (reachable s ∧ I s) as [_ H]; [|done].
  revert s Hr. apply (rtc_ind_r (λ s, reachable s ∧ I s) s0).
  - split; [by apply reachable_init|by apply Hi].
  - intros y z _ [l Hl] [Hy IH]. split; [by eapply reachable_step|by eapply Hs].
Qed.

Lemma run_cons l ls s :
  run (l :: ls) s = match step l s with Next s' => run ls s' | r => r end.
Proof. done. Qed.

Lemma run_reachable ls s s' : reachable s → run ls s = Next s' → reachable s'.
Proof.
  revert s. induction ls as [|l ls IH]; intros s Hr H; simplify_eq/=; [done|].
  destruct (step l s) as [s1| |] eqn:Hl; [|done..]. eapply IH; [|done].
  by eapply reachable_step.
Qed.

Lemma run_app ls ls' s s1 : run ls s = Next s1 → run (ls ++ ls') s = run ls' s1.
Proof.
  revert s. induction ls as [|l ls IH]; intros s H; simplify_eq/=; [done|].
  destruct (step l s); [by apply IH|done..].
Qed.

(** A measure that every step decreases bounds the length of every run. *)
Lemma measure_bounds (I : S → Prop) (μ : S → nat) :
  (∀ l s s', I s → step l s = Next s' → I s' ∧ μ s' < μ s) →
  ∀ ls s s', I s → run ls s = Next s' → length ls + μ s' ≤ μ s.
Proof.
  intros Hμ ls. induction ls as [|l ls IH]; intros s s' HI H; simplify_eq/=; [lia|].
  destruct (step l s) as [s1| |] eqn:Hl; [|done..].
  destruct (Hμ _ _ _ HI Hl) as [HI1 Hlt]. specialize (IH _ _ HI1 H). lia.
Qed.

End trans_sys.

Arguments run {S L} step ls s : simpl nomatch.

(** ** Sums over the threads *)

(** The sum of [f] over a list of threads, and what an update of one thread does to it. *)
Definition tsum {A} (f : A → Z) (ts : list A) : Z := foldr (λ t n, (f t + n)%Z) 0%Z ts.

Section tsum.
Context {A : Type}.
Implicit Types (ts : list A) (f : A → Z).

Lemma tsum_cons f t ts : tsum f (t :: ts) = (f t + tsum f ts)%Z.
Proof. done. Qed.

Lemma tsum_insert f ts i t t' :
  ts !! i = Some t → tsum f (<[i := t']> ts) = (tsum f ts - f t + f t')%Z.
Proof.
  revert i. induction ts as [|u ts IH]; intros [|i] H; simplify_eq/=; [lia|].
  unfold tsum in *. rewrite (IH _ H). lia.
Qed.

Lemma tsum_app f ts ts' : tsum f (ts ++ ts') = (tsum f ts + tsum f ts')%Z.
Proof. induction ts as [|u ts IH]; cbn; [done|]. unfold tsum in *. lia. Qed.

Lemma tsum_nonneg f ts : (∀ t, 0 <= f t)%Z → (0 <= tsum f ts)%Z.
Proof. intros Hf. induction ts as [|u ts IH]; cbn; [done|]. specialize (Hf u). unfold tsum in *. lia. Qed.

Lemma tsum_ge f ts i t : (∀ t, 0 <= f t)%Z → ts !! i = Some t → (f t <= tsum f ts)%Z.
Proof.
  intros Hf. revert i. induction ts as [|u ts IH]; intros [|i] H; simplify_eq/=.
  - pose proof (tsum_nonneg f ts Hf). unfold tsum in *. lia.
  - specialize (IH _ H). specialize (Hf u). unfold tsum in *. lia.
Qed.

Lemma tsum_ge2 f ts i j t u :
  (∀ t, 0 <= f t)%Z → i ≠ j → ts !! i = Some t → ts !! j = Some u → (f t + f u <= tsum f ts)%Z.
Proof.
  intros Hf. revert i j. induction ts as [|v ts IH]; intros [|i] [|j] Hne Hi Hj; simplify_eq/=.
  - pose proof (tsum_ge f ts j u Hf Hj). unfold tsum in *. lia.
  - pose proof (tsum_ge f ts i t Hf Hi). unfold tsum in *. lia.
  - specialize (IH i j ltac:(congruence) Hi Hj). specialize (Hf v). unfold tsum in *. lia.
Qed.

(** A positive sum comes from some thread; a zero sum from all of them. *)
Lemma tsum_pos f ts : (0 < tsum f ts)%Z → ∃ i t, ts !! i = Some t ∧ (0 < f t)%Z.
Proof.
  induction ts as [|u ts IH]; cbn; [lia|]. intros H.
  destruct (decide (0 < f u)%Z) as [Hu|Hu]; [by exists 0, u|].
  destruct IH as (i & t & ? & ?); [unfold tsum; lia|]. by exists (S i), t.
Qed.

Lemma tsum_zero f ts i t :
  (∀ t, 0 <= f t)%Z → tsum f ts = 0%Z → ts !! i = Some t → f t = 0%Z.
Proof. intros Hf H0 Ht. pose proof (tsum_ge f ts i t Hf Ht). specialize (Hf t). lia. Qed.

Lemma tsum_ext f g ts : (∀ t, t ∈ ts → f t = g t) → tsum f ts = tsum g ts.
Proof.
  induction ts as [|u ts IH]; intros H; [done|]. cbn. rewrite (H u) by left.
  unfold tsum in IH. rewrite IH; [done|]. intros t Ht. apply H. by right.
Qed.

End tsum.

(** ** What the threads hold *)

(** The concatenation of a list per thread. *)
Definition collect {A B} (f : A → list B) (ts : list A) : list B := mjoin (f <$> ts).

Section collect.
Context {A B : Type}.
Implicit Types (ts : list A) (f : A → list B).

Lemma collect_insert f ts i t t' :
  ts !! i = Some t → collect f (<[i := t']> ts) ++ f t ≡ₚ collect f ts ++ f t'.
Proof.
  unfold collect. revert i. induction ts as [|u ts IH]; intros [|i] H; simplify_eq/=.
  - unfold mjoin. solve_Permutation.
  - specialize (IH _ H). rewrite <- !app_assoc. by apply Permutation_app_head.
Qed.

Lemma collect_insert_same f ts i t t' :
  ts !! i = Some t → f t' = f t → collect f (<[i := t']> ts) = collect f ts.
Proof.
  intros H Hf. unfold collect. rewrite list_fmap_insert, Hf, list_insert_id; [done|].
  by rewrite list_lookup_fmap, H.
Qed.

Lemma collect_app f ts ts' : collect f (ts ++ ts') = collect f ts ++ collect f ts'.
Proof. unfold collect. by rewrite fmap_app, join_app. Qed.

Lemma collect_elem f ts i t x : ts !! i = Some t → x ∈ f t → x ∈ collect f ts.
Proof.
  intros Ht Hx. unfold collect. apply list_elem_of_join. exists (f t). split; [done|].
  apply list_elem_of_fmap. exists t. split; [done|]. by eapply list_elem_of_lookup_2.
Qed.

End collect.

(** Per-thread facts under an update of one thread. *)
Lemma insert_lookup_cases {A} (ts : list A) i j t' u :
  <[i := t']> ts !! j = Some u → (i = j ∧ u = t' ∧ i < length ts) ∨ (i ≠ j ∧ ts !! j = Some u).
Proof.
  intros H. destruct (decide (i = j)) as [->|Hne].
  - left. assert (j < length ts) as Hj.
    { apply lookup_lt_Some in H. by rewrite length_insert in H. }
    rewrite list_lookup_insert_eq in H by done. by simplify_eq.
  - right. by rewrite list_lookup_insert_ne in H.
Qed.
