(* ===== verification/JobQueue.v ===== *)
(** * The job queue of the thread pool: common/thpool.c, lines 24-36 and 313-393

    A singly linked queue of heap nodes.  A node's [prev] points to the node pushed after it;
    [front] is the next node to pull.  The bodies of [jobqueue_push] and [jobqueue_pull] (what
    they do between the lock of [rw_mutex] and its unlock, the post of the semaphore aside)
    are the computations below; Thpool runs them under the lock. *)

From S2P Require Import Prelude CInt.

Open Scope Z_scope.

(** ** Data *)

(** A pointer to a job node; [malloc] leaves one indeterminate. *)
Inductive ptr :=
  | Null
  | Ptr (a : positive)
  | Junk.

#[export] Instance ptr_eq_dec : EqDecision ptr.
Proof. solve_decision. Defined.

Record thpool_job_t := mk_job_node {
  prev : ptr;
  function : positive;
  args : Z;
}.

Definition set_prev (p : ptr) (n : thpool_job_t) : thpool_job_t :=
  mk_job_node p (function n) (args n).

(** The queue, and the heap its nodes are in (with the next address of that heap). *)
Record thpool_job_queue_t := mk_job_queue {
  front : ptr;
  rear : ptr;
  len : Z;
  nodes : gmap positive thpool_job_t;
  fresh : positive;
}.

Definition set_front p q := mk_job_queue p (rear q) (len q) (nodes q) (fresh q).
Definition set_rear p q := mk_job_queue (front q) p (len q) (nodes q) (fresh q).
Definition set_len n q := mk_job_queue (front q) (rear q) n (nodes q) (fresh q).
Definition set_nodes m q := mk_job_queue (front q) (rear q) (len q) m (fresh q).

(** ** Memory *)

Definition malloc_job (f : positive) (x : Z) : cM thpool_job_queue_t positive := λ q,
  Done (fresh q) (mk_job_queue (front q) (rear q) (len q)
                    (<[fresh q := mk_job_node Junk f x]> (nodes q)) (Pos.succ (fresh q))).

Definition load (p : ptr) : cM thpool_job_queue_t (positive * thpool_job_t) := λ q,
  match p with
  | Null => Undef NullDeref
  | Junk => Undef Uninitialised
  | Ptr a => match nodes q !! a with None => Undef UseAfterFree | Some n => Done (a, n) q end
  end.

Definition store_prev (p v : ptr) : cM thpool_job_queue_t unit :=
  '(a, n) ← load p;
  modify (λ q, set_nodes (<[a := set_prev v n]> (nodes q)) q).

Definition free_job (p : ptr) : cM thpool_job_queue_t unit :=
  match p with
  | Null => mret tt
  | _ => '(a, _) ← load p; modify (λ q, set_nodes (delete a (nodes q)) q)
  end.

(** ** Operations *)

(** The queue part of [jobqueue_init] (the heap is the program's, it stays). *)
Definition jobqueue_init : cM thpool_job_queue_t unit :=
  modify (set_len 0);; modify (set_front Null);; modify (set_rear Null).

(** Lines 345-359. *)
Definition jobqueue_push (job : positive) : cM thpool_job_queue_t unit :=
  store_prev (Ptr job) Null;;
  q ← get;
  (if len q =? 0 then
     modify (set_front (Ptr job));;
     modify (set_rear (Ptr job))
   else
     store_prev (rear q) (Ptr job);;
     modify (set_rear (Ptr job)));;
  n ← int_add (len q) 1;
  modify (set_len n).

(** Lines 368-383: the node pulled, and whether the semaphore is posted again. *)
Definition jobqueue_pull : cM thpool_job_queue_t (ptr * bool) :=
  q ← get;
  let job := front q in
  if len q =? 0 then mret (job, false)
  else if len q =? 1 then
    modify (set_front Null);;
    modify (set_rear Null);;
    modify (set_len 0);;
    mret (job, false)
  else
    '(_, n) ← load job;
    modify (set_front (prev n));;
    m ← int_sub (len q) 1;
    modify (set_len m);;
    mret (job, true).

(** The end of [jobqueue_clear], lines 336-339, the semaphore aside. *)
Definition jobqueue_clear_end : cM thpool_job_queue_t unit :=
  modify (set_front Null);; modify (set_rear Null);; modify (set_len 0).

(** ** Representation *)

(** The nodes from [p] on are those at the addresses [l]. *)
Fixpoint chain (m : gmap positive thpool_job_t) (p : ptr) (l : list positive) : Prop :=
  match l with
  | [] => p = Null
  | a :: l' => p = Ptr a ∧ ∃ n, m !! a = Some n ∧ chain m (prev n) l'
  end.

Definition last_ptr (l : list positive) : ptr :=
  match last l with Some a => Ptr a | None => Null end.

Record queue_repr (q : thpool_job_queue_t) (l : list positive) : Prop := {
  repr_front : chain (nodes q) (front q) l;
  repr_rear : rear q = last_ptr l;
  repr_len : len q = Z.of_nat (length l);
  repr_nodup : NoDup l;
}.

Lemma chain_lookup m p l a : chain m p l → a ∈ l → is_Some (m !! a).
Proof.
  revert p. induction l as [|x l IH]; intros p Hc Ha; [by apply elem_of_nil in Ha|].
  destruct Hc as (_ & n & Hn & Hc). apply elem_of_cons in Ha as [->|Ha]; [done|by eapply IH].
Qed.

(** A chain does not depend on the other nodes. *)
Lemma chain_insert m p l a n : a ∉ l → chain m p l → chain (<[a := n]> m) p l.
Proof.
  revert p. induction l as [|x l IH]; intros p Ha Hc; [done|].
  apply not_elem_of_cons in Ha as [Hx Ha]. destruct Hc as (-> & k & Hk & Hc). split; [done|].
  exists k. rewrite lookup_insert_ne by congruence. split; [done|by apply IH].
Qed.

Lemma chain_delete m p l a : a ∉ l → chain m p l → chain (delete a m) p l.
Proof.
  revert p. induction l as [|x l IH]; intros p Ha Hc; [done|].
  apply not_elem_of_cons in Ha as [Hx Ha]. destruct Hc as (-> & k & Hk & Hc). split; [done|].
  exists k. rewrite lookup_delete_ne by congruence. split; [done|by apply IH].
Qed.

(** Linking a node that ends a chain behind the last one. *)
Lemma chain_snoc m p l x a n k :
  NoDup (l ++ [x]) → a ∉ l ++ [x] → chain m p (l ++ [x]) → m !! x = Some n → m !! a = Some k →
  prev k = Null → chain (<[x := set_prev (Ptr a) n]> m) p (l ++ [x] ++ [a]).
Proof.
  intros Hnd Ha Hc Hx Hk Hprev. revert p Hnd Ha Hc.
  induction l as [|y l IH]; intros p Hnd Ha Hc; cbn in *.
  - destruct Hc as (-> & n' & Hn' & Hc). split; [done|].
    exists (set_prev (Ptr a) n). rewrite lookup_insert_eq. split; [done|]. cbn. split; [done|].
    exists k. rewrite lookup_insert_ne by set_solver. done.
  - apply NoDup_cons in Hnd as [Hy Hnd]. destruct Hc as (-> & n' & Hn' & Hc). split; [done|].
    apply not_elem_of_cons in Ha as [Hay Ha]. apply not_elem_of_app in Hy as [Hy Hyx].
    exists n'. rewrite lookup_insert_ne by (intros ->; by apply Hyx; left). split; [done|].
    by apply IH.
Qed.

Lemma last_ptr_snoc l a : last_ptr (l ++ [a]) = Ptr a.
Proof. unfold last_ptr. by rewrite last_snoc. Qed.

(** ** The operations on a represented queue *)

(** The queue after linking node [a], in state [n], behind the nodes [l]. *)
Definition linked (a : positive) (n : thpool_job_t) (l : list positive)
    (q : thpool_job_queue_t) : thpool_job_queue_t :=
  mk_job_queue (match l with [] => Ptr a | _ => front q end) (Ptr a) (len q + 1)
    (match last l with
     | Some x => match (<[a := set_prev Null n]> (nodes q)) !! x with
                 | Some k => <[x := set_prev (Ptr a) k]> (<[a := set_prev Null n]> (nodes q))
                 | None => nodes q
                 end
     | None => <[a := set_prev Null n]> (nodes q)
     end) (fresh q).

Lemma load_ptr a n q : nodes q !! a = Some n → load (Ptr a) q = Done (a, n) q.
Proof. intros H. unfold load. by rewrite H. Qed.

Lemma jobqueue_push_run q l a n :
  queue_repr q l → nodes q !! a = Some n → a ∉ l →
  jobqueue_push a q
  = if decide (is_int (len q + 1)) then Done tt (linked a n l q) else Undef SignedOverflow.
Proof.
  intros [Hf Hr Hl Hnd] Ha Hal. unfold jobqueue_push, store_prev. rewrite bind_assoc.
  cstep (load_ptr a n q Ha). crun. destruct l as [|x l' _] using rev_ind.
  - unfold int_add, int_result. cbn [len set_rear set_front set_nodes length Z.of_nat] in *.
    rewrite Hl. cbn -[is_int decide]. unfold linked. cbn -[is_int decide]. rewrite Hl.
    by case_decide.
  - assert (Hlen : len q = Z.of_nat (length l') + 1) by (rewrite Hl, length_app; cbn; lia).
    rewrite (proj2 (Z.eqb_neq _ _)) by (cbn; lia). cbn [rear len set_nodes].
    rewrite Hr, last_ptr_snoc. assert (a ≠ x) by set_solver.
    assert (is_Some (nodes q !! x)) as [k Hk] by (eapply chain_lookup; [done|set_solver]).
    unfold load. cbn [nodes set_nodes]. rewrite lookup_insert_ne by done. rewrite Hk.
    cbn -[is_int decide]. unfold int_add, int_result. case_decide; [|done].
    unfold linked. rewrite last_snoc, lookup_insert_ne by done. rewrite Hk. cbn -[is_int].
    by destruct l'.
Qed.

Lemma linked_repr q l a n :
  queue_repr q l → nodes q !! a = Some n → a ∉ l → queue_repr (linked a n l q) (l ++ [a]).
Proof.
  intros [Hf Hr Hl Hnd] Ha Hal. constructor.
  - destruct l as [|x l' _] using rev_ind; cbn -[chain].
    + split; [done|]. exists (set_prev Null n). by rewrite lookup_insert_eq.
    + rewrite last_snoc, lookup_insert_ne by set_solver.
      assert (is_Some (nodes q !! x)) as [k Hk] by (eapply chain_lookup; [done|set_solver]).
      rewrite Hk. rewrite <- app_assoc.
      replace (match l' ++ [x] with [] => Ptr a | _ => front q end) with (front q) by by destruct l'.
      apply chain_snoc with (k := set_prev Null n); [done|done| | | |done].
      * by apply chain_insert.
      * by rewrite lookup_insert_ne by set_solver.
      * by rewrite lookup_insert_eq.
  - by rewrite last_ptr_snoc.
  - cbn. rewrite Hl, length_app. cbn. lia.
  - apply NoDup_app. split_and!; [done| |apply NoDup_singleton]. set_solver.
Qed.

(** Linking keeps every other node's payload and no node disappears. *)
Lemma linked_nodes q l a n b :
  queue_repr q l → nodes q !! a = Some n →
  (λ k, (function k, args k)) <$> nodes (linked a n l q) !! b
  = (λ k, (function k, args k)) <$> nodes q !! b.
Proof.
  intros Hq Ha. cbn. destruct (last l) as [x|] eqn:Hx.
  - assert (is_Some (<[a := set_prev Null n]> (nodes q) !! x)) as [k Hk].
    { destruct (decide (a = x)) as [->|]; [rewrite lookup_insert_eq; eauto|].
      rewrite lookup_insert_ne by done. eapply chain_lookup; [apply Hq|].
      by apply last_Some_elem_of. }
    rewrite Hk. destruct (decide (x = b)) as [->|].
    + rewrite lookup_insert_eq. destruct (decide (a = b)) as [->|].
      * rewrite lookup_insert_eq in Hk. simplify_eq. by rewrite Ha.
      * rewrite lookup_insert_ne in Hk by done. by rewrite Hk.
    + rewrite lookup_insert_ne by done. destruct (decide (a = b)) as [->|].
      * rewrite lookup_insert_eq. by rewrite Ha.
      * by rewrite lookup_insert_ne.
  - destruct (decide (a = b)) as [->|].
    + rewrite lookup_insert_eq. by rewrite Ha.
    + by rewrite lookup_insert_ne.
Qed.

Lemma linked_dom q l a n b :
  queue_repr q l → nodes q !! a = Some n →
  is_Some (nodes (linked a n l q) !! b) ↔ is_Some (nodes q !! b).
Proof.
  intros Hq Ha. pose proof (linked_nodes q l a n b Hq Ha) as H.
  destruct (nodes (linked a n l q) !! b), (nodes q !! b); simplify_eq/=; naive_solver.
Qed.

(** The queue after a pull. *)
Definition unlinked (l : list positive) (q : thpool_job_queue_t) : thpool_job_queue_t :=
  match l with
  | [] => q
  | [_] => mk_job_queue Null Null 0 (nodes q) (fresh q)
  | _ :: a :: _ => mk_job_queue (Ptr a) (rear q) (len q - 1) (nodes q) (fresh q)
  end.

Definition head_ptr (l : list positive) : ptr := match l with [] => Null | a :: _ => Ptr a end.
Definition has_more (l : list positive) : bool := match l with _ :: _ :: _ => true | _ => false end.

Lemma jobqueue_pull_run q l :
  queue_repr q l → is_int (len q) →
  jobqueue_pull q = Done (head_ptr l, has_more l) (unlinked l q).
Proof.
  intros [Hf Hr Hl Hnd] Hi. unfold jobqueue_pull. crun. rewrite Hl.
  destruct l as [|a [|x l]]; cbn in Hf.
  - cbn. by rewrite Hf.
  - destruct Hf as [-> _]. reflexivity.
  - destruct Hf as (-> & n & Hn & Hp & _). cbn [length].
    rewrite !(proj2 (Z.eqb_neq _ _)) by lia. unfold load. rewrite Hn. cbn -[is_int].
    unfold int_sub, int_result. rewrite decide_True by (int_unfold; cbn in Hl; lia).
    cbn [length] in Hl. cbn [unlinked]. rewrite Hp, Hl. reflexivity.
Qed.

Lemma unlinked_repr q l : queue_repr q l → queue_repr (unlinked l q) (tail l).
Proof.
  intros [Hf Hr Hl Hnd]. destruct l as [|a [|x l]]; [by split|split; cbn; [done..|constructor]|].
  destruct Hf as (_ & n & Hn & Hp & Hc). split; cbn in *; [done| |lia|].
  - by rewrite Hr.
  - by apply NoDup_cons in Hnd as [_ ?].
Qed.

Lemma unlinked_nodes q l : nodes (unlinked l q) = nodes q.
Proof. by destruct l as [|? [|]]. Qed.

Lemma unlinked_fresh q l : fresh (unlinked l q) = fresh q.
Proof. by destruct l as [|? [|]]. Qed.

(** Changes outside of the chain. *)
Lemma queue_repr_free q l a :
  queue_repr q l → a ∉ l → queue_repr (set_nodes (delete a (nodes q)) q) l.
Proof. intros [] ?. split; cbn; [by apply chain_delete|done..]. Qed.

Lemma queue_repr_malloc q l n :
  queue_repr q l → fresh q ∉ l →
  queue_repr (mk_job_queue (front q) (rear q) (len q) (<[fresh q := n]> (nodes q))
                (Pos.succ (fresh q))) l.
Proof. intros [] ?. split; cbn; [by apply chain_insert|done..]. Qed.

Lemma jobqueue_clear_end_run q : jobqueue_clear_end q = Done tt (set_len 0 (set_rear Null (set_front Null q))).
Proof. done. Qed.

Arguments malloc_job : simpl never.
Arguments load : simpl never.
Arguments free_job : simpl never.
Arguments jobqueue_push : simpl never.
Arguments jobqueue_pull : simpl never.
Arguments jobqueue_clear_end : simpl never.
