(* ===== verification/JobQueueSpec.v ===== *)
(** * The job queue refines a list: common/thpool.c, lines 313-393

    The life of the linked queue of [JobQueue] in the hands of one thread at a time: nodes are
    allocated and pushed as thpool_add_work does it, pulled, read and freed as thread_do does it,
    and cleared as thpool_destroy does it.  The specification is a list of jobs. *)

From S2P Require Import Prelude CInt JobQueue.

Open Scope Z_scope.

(** A job as the caller sees it: the function and its argument. *)
Definition job : Type := positive * Z.

(** ** The operations on the linked queue *)

(** thpool_add_work: the node, and jobqueue_push. *)
Definition add_work (j : job) : cM thpool_job_queue_t unit :=
  a ← malloc_job j.1 j.2; jobqueue_push a.

(** thread_do: jobqueue_pull, the function and the argument read, the node freed. *)
Definition take_work : cM thpool_job_queue_t (option job) :=
  '(p, _) ← jobqueue_pull;
  match p with
  | Null => mret None
  | _ => '(_, n) ← load p; free_job p;; mret (Some (function n, args n))
  end.

(** jobqueue_clear. *)
Fixpoint clear_loop (fuel : nat) : cM thpool_job_queue_t unit :=
  match fuel with
  | O => out_of_fuel
  | S fuel =>
      q ← get;
      if len q =? 0 then mret tt
      else '(p, _) ← jobqueue_pull; free_job p;; clear_loop fuel
  end.

Definition jobqueue_clear (fuel : nat) : cM thpool_job_queue_t unit := clear_loop fuel;; jobqueue_clear_end.

Inductive op := Add (j : job) | Take | Clear.

(** What an operation returns: the job taken. *)
Definition run_op (fuel : nat) (o : op) : cM thpool_job_queue_t (option job) :=
  match o with
  | Add j => add_work j;; mret None
  | Take => take_work
  | Clear => jobqueue_clear fuel;; mret None
  end.

Fixpoint run_ops (fuel : nat) (os : list op) : cM thpool_job_queue_t (list (option job)) :=
  match os with
  | [] => mret []
  | o :: os => r ← run_op fuel o; rs ← run_ops fuel os; mret (r :: rs)
  end.

Definition new_queue : thpool_job_queue_t := mk_job_queue Null Null 0 ∅ 1.

(** ** The specification *)

Definition spec_op (o : op) (l : list job) : option job * list job :=
  match o with
  | Add j => (None, l ++ [j])
  | Take => (head l, tail l)
  | Clear => (None, [])
  end.

Fixpoint spec_ops (os : list op) (l : list job) : list (option job) * list job :=
  match os with
  | [] => ([], l)
  | o :: os => let (r, l) := spec_op o l in let (rs, l) := spec_ops os l in (r :: rs, l)
  end.

Fixpoint count_adds (os : list op) : nat :=
  match os with [] => 0 | Add _ :: os => S (count_adds os) | _ :: os => count_adds os end.

(** ** Well-formed queues *)

Definition job_at (q : thpool_job_queue_t) (a : positive) : option job := (λ n, (function n, args n)) <$> nodes q !! a.

(** The linked nodes are [l]; exactly they are allocated, below the next address; and they
    hold the jobs [js]. *)
Record wf (q : thpool_job_queue_t) (l : list positive) (js : list job) : Prop := {
  wf_repr : queue_repr q l;
  wf_dom : ∀ a, is_Some (nodes q !! a) ↔ a ∈ l;
  wf_fresh : ∀ a, a ∈ l → (a < fresh q)%positive;
  wf_jobs : Forall2 (λ a j, job_at q a = Some j) l js;
}.

Lemma wf_new : wf new_queue [] [].
Proof.
  split; [split; try done; constructor| | |done].
  - intros a. cbn. rewrite lookup_empty, elem_of_nil. split; [by intros [? ?]|done].
  - intros a ?%elem_of_nil. done.
Qed.

Lemma wf_length q l js : wf q l js → length js = length l.
Proof. intros H. by rewrite (Forall2_length _ _ _ (wf_jobs _ _ _ H)). Qed.

Lemma jobs_ext q q' l js :
  (∀ a, a ∈ l → job_at q' a = job_at q a) →
  Forall2 (λ a j, job_at q a = Some j) l js → Forall2 (λ a j, job_at q' a = Some j) l js.
Proof.
  intros H Hj. induction Hj as [|a j l js Ha Hj IH]; constructor; [rewrite H; [done|by left]|].
  apply IH. intros x Hx. apply H. by right.
Qed.

Lemma add_work_ok q l js j :
  wf q l js → len q < INT_MAX →
  ∃ q', add_work j q = Done tt q' ∧ wf q' (l ++ [fresh q]) (js ++ [j]).
Proof.
  intros [Hr Hd Hf Hj] Hlen. set (a := fresh q).
  assert (Ha : a ∉ l) by (intros Hin%Hf; unfold a in *; lia).
  set (q1 := mk_job_queue (front q) (rear q) (len q) (<[a := mk_job_node Junk j.1 j.2]> (nodes q)) (Pos.succ a)).
  assert (Hr1 : queue_repr q1 l) by by apply queue_repr_malloc.
  assert (Hn : nodes q1 !! a = Some (mk_job_node Junk j.1 j.2)) by apply lookup_insert_eq.
  exists (linked a (mk_job_node Junk j.1 j.2) l q1). split.
  - unfold add_work. rewrite (bind_done _ _ _ a q1) by done. rewrite (jobqueue_push_run _ _ _ _ Hr1 Hn Ha).
    rewrite decide_True; [done|]. pose proof (repr_len _ _ Hr). cbn. int_unfold. lia.
  - split.
    + by apply linked_repr.
    + intros x. rewrite linked_dom by done. unfold q1. cbn [nodes]. rewrite elem_of_app, list_elem_of_singleton.
      destruct (decide (a = x)) as [<-|Hne]; [rewrite lookup_insert_eq; split; [by right|by eexists]|].
      rewrite lookup_insert_ne, Hd by done. naive_solver.
    + intros x [Hx%Hf| ->%list_elem_of_singleton]%elem_of_app; cbn; unfold a in *; lia.
    + assert (Hjob : ∀ x, job_at (linked a (mk_job_node Junk j.1 j.2) l q1) x = job_at q1 x) by (intros x; by apply linked_nodes).
      apply Forall2_app; [|constructor; [|constructor]; rewrite Hjob; unfold job_at; rewrite Hn; by destruct j].
      eapply jobs_ext; [|exact Hj]. intros x Hx. rewrite Hjob. unfold job_at, q1. cbn [nodes].
      by rewrite lookup_insert_ne by set_solver.
Qed.

(** A pull and the free of what it returns. *)
Lemma pull_free_ok q a l j js :
  wf q (a :: l) (j :: js) → len q <= INT_MAX →
  ∃ q1 n, jobqueue_pull q = Done (Ptr a, has_more (a :: l)) q1 ∧ load (Ptr a) q1 = Done (a, n) q1 ∧
    (function n, args n) = j ∧ free_job (Ptr a) q1 = Done tt (set_nodes (delete a (nodes q1)) q1) ∧
    wf (set_nodes (delete a (nodes q1)) q1) l js.
Proof.
  intros [Hr Hd Hf Hj] Hlen. assert (is_Some (nodes q !! a)) as [n Hn] by (apply Hd; by left).
  assert (Hal : a ∉ l) by by pose proof (repr_nodup _ _ Hr) as [? _]%NoDup_cons.
  apply Forall2_cons in Hj as [Hj1 Hm]. unfold job_at in Hj1. rewrite Hn in Hj1. injection Hj1 as Hj1.
  exists (unlinked (a :: l) q), n. split_and!; [|by apply load_ptr; rewrite unlinked_nodes|done| |].
  - rewrite (jobqueue_pull_run q (a :: l)); [done|done|]. pose proof (repr_len _ _ Hr). int_unfold. lia.
  - unfold free_job. rewrite (bind_done _ _ _ (a, n) (unlinked (a :: l) q)); [done|]. apply load_ptr. by rewrite unlinked_nodes.
  - rewrite unlinked_nodes. split.
    + apply unlinked_repr in Hr. cbn [tail] in Hr. rewrite <- (unlinked_nodes q (a :: l)). by apply queue_repr_free.
    + intros x. cbn [nodes set_nodes]. destruct (decide (a = x)) as [<-|Hne].
      * rewrite lookup_delete_eq. split; [by intros [? ?]|by intros ?].
      * rewrite lookup_delete_ne, Hd by done. set_solver.
    + intros x Hx. cbn [fresh set_nodes]. rewrite unlinked_fresh. apply Hf. by right.
    + eapply jobs_ext; [|exact Hm]. intros x Hx. unfold job_at. cbn [nodes set_nodes].
      by rewrite lookup_delete_ne by set_solver.
Qed.

Lemma pull_empty q js : wf q [] js → js = [] ∧ jobqueue_pull q = Done (Null, false) q.
Proof.
  intros [Hr _ _ Hj]. split; [by apply Forall2_nil_inv_l in Hj|]. rewrite (jobqueue_pull_run q []); [done|done|].
  pose proof (repr_len _ _ Hr). cbn in *. int_unfold. lia.
Qed.

Lemma wf_cons q l j js : wf q l (j :: js) → ∃ a l', l = a :: l'.
Proof. intros H%wf_length. destruct l as [|a l]; [done|by eexists _, _]. Qed.

Lemma take_work_ok q l js :
  wf q l js → len q <= INT_MAX → ∃ q', take_work q = Done (head js) q' ∧ wf q' (tail l) (tail js).
Proof.
  intros H Hlen. destruct js as [|j js].
  - pose proof (wf_length _ _ _ H). destruct l; [|done]. destruct (pull_empty _ _ H) as [_ Hp]. exists q. split; [|done].
    unfold take_work. by rewrite (bind_done _ _ _ _ _ Hp).
  - destruct (wf_cons _ _ _ _ H) as (a & l' & ->).
    destruct (pull_free_ok q a l' j js H Hlen) as (q1 & n & Hp & Hl & Hj & Hfree & Hwf). eexists. split; [|exact Hwf].
    unfold take_work. rewrite (bind_done _ _ _ _ _ Hp), (bind_done _ _ _ _ _ Hl), (bind_done _ _ _ _ _ Hfree). by rewrite Hj.
Qed.

Lemma clear_ok fuel q l js :
  wf q l js → len q <= INT_MAX → (length l < fuel)%nat → ∃ q', jobqueue_clear fuel q = Done tt q' ∧ wf q' [] [].
Proof.
  intros H Hlen Hfuel. assert (∃ q', clear_loop fuel q = Done tt q' ∧ wf q' [] []) as (q' & Hc & Hwf).
  { revert q l js H Hlen Hfuel. induction fuel as [|fuel IH]; intros q l js H Hlen Hfuel; [lia|].
    pose proof (repr_len _ _ (wf_repr _ _ _ H)) as Hl. pose proof (wf_length _ _ _ H) as Hjl. cbn [clear_loop].
    rewrite bind_get. destruct l as [|a l].
    - rewrite Hl. destruct js; [|done]. by exists q.
    - destruct js as [|j js]; [done|]. destruct (pull_free_ok q a l j js H Hlen) as (q1 & n & Hp & _ & _ & Hfree & Hwf).
      rewrite Hl. cbn [length]. rewrite (proj2 (Z.eqb_neq _ _)) by lia.
      rewrite (bind_done _ _ _ _ _ Hp), (bind_done _ _ _ _ _ Hfree). eapply IH; [exact Hwf| |cbn in Hfuel; lia].
      pose proof (repr_len _ _ (wf_repr _ _ _ Hwf)). cbn [length] in *. lia. }
  unfold jobqueue_clear. rewrite (bind_done _ _ _ _ _ Hc). rewrite jobqueue_clear_end_run. eexists. split; [done|].
  destruct Hwf as [[Hf1 Hf2 Hf3 Hf4] Hd Hfr Hj]. split; try done.
Qed.

Lemma run_ops_ok fuel os q l js :
  wf q l js → Z.of_nat (length l + count_adds os) <= INT_MAX → (length l + count_adds os < fuel)%nat →
  ∃ q' l', run_ops fuel os q = Done (fst (spec_ops os js)) q' ∧ wf q' l' (snd (spec_ops os js)).
Proof.
  revert q l js. induction os as [|o os IH]; intros q l js H Hmax Hfuel; [by exists q, l|].
  pose proof (repr_len _ _ (wf_repr _ _ _ H)) as Hl. pose proof (wf_length _ _ _ H) as Hjl. cbn [run_ops spec_ops].
  assert (∃ q1 l1, run_op fuel o q = Done (fst (spec_op o js)) q1 ∧ wf q1 l1 (snd (spec_op o js)) ∧
    (length l1 + count_adds os <= length l + count_adds (o :: os))%nat) as (q1 & l1 & Hrun & Hwf & Hadds).
  { destruct o as [j| |]; cbn [run_op spec_op fst snd].
    - change (count_adds (Add j :: os)) with (S (count_adds os)) in *.
      destruct (add_work_ok q l js j H) as (q1 & Hadd & Hwf); [lia|]. eexists q1, _. split_and!; [|exact Hwf|rewrite length_app; cbn; lia].
      by rewrite (bind_done _ _ _ _ _ Hadd).
    - change (count_adds (Take :: os)) with (count_adds os) in *.
      destruct (take_work_ok q l js H) as (q1 & Htake & Hwf); [lia|]. exists q1, (tail l). split_and!; [done|done|].
      destruct l; cbn; lia.
    - change (count_adds (Clear :: os)) with (count_adds os) in *.
      destruct (clear_ok fuel q l js H) as (q1 & Hclear & Hwf); [lia|lia|]. exists q1, []. split_and!; [|done|cbn; lia].
      by rewrite (bind_done _ _ _ _ _ Hclear). }
  rewrite (bind_done _ _ _ _ _ Hrun). destruct (IH q1 l1 _ Hwf) as (q2 & l2 & Hrun2 & Hwf2); [lia|lia|].
  destruct (spec_op o js) as [r js1]. cbn [fst snd] in *. destruct (spec_ops os js1) as [rs js2]. cbn [fst snd] in *.
  rewrite (bind_done _ _ _ _ _ Hrun2). by exists q2, l2.
Qed.

(** C9: the linked queue is well-formed under every sequence of operations, and it is a list
    of jobs: whatever is added, taken and cleared in whatever order, as long as no more than
    INT_MAX jobs are added, no operation is undefined, jobs are taken in the order in which they
    were added, taking from the empty queue gives NULL, front, rear, length and the links agree,
    and the allocated nodes are exactly those in the queue: no node is lost, freed twice or used
    after its free. *)
Theorem jobqueue_well_formed os :
  Z.of_nat (count_adds os) <= INT_MAX →
  ∃ q l, run_ops (S (count_adds os)) os new_queue = Done (fst (spec_ops os [])) q ∧
    queue_repr q l ∧ (∀ a, is_Some (nodes q !! a) ↔ a ∈ l) ∧ Forall2 (λ a j, job_at q a = Some j) l (snd (spec_ops os [])).
Proof.
  intros H. destruct (run_ops_ok (S (count_adds os)) os new_queue [] [] wf_new H ltac:(cbn; lia)) as (q & l & Hrun & []).
  by exists q, l.
Qed.

Lemma jobqueue_well_formed_witness :
  let os := [Add (1%positive, 10); Add (2%positive, 20); Take; Add (3%positive, 30); Take; Take; Take; Add (4%positive, 40); Clear; Add (5%positive, 50)] in
  ∃ q l, run_ops 6 os new_queue
    = Done [None; None; Some (1%positive, 10); None; Some (2%positive, 20); Some (3%positive, 30); None; None; None; None] q ∧
    queue_repr q l ∧ (∀ a, is_Some (nodes q !! a) ↔ a ∈ l) ∧ Forall2 (λ a j, job_at q a = Some j) l [(5%positive, 50)].
Proof. intros os. refine (jobqueue_well_formed os _). vm_compute. discriminate. Defined.
