(* ===== verification/Thpool.v ===== *)
(** * The thread pool: common/thpool.c

    The pool as a concurrent program.  Every thread that uses the pool, the clients and the
    workers, has a control point [pc]; a step of the system runs one thread from its control
    point to the next one.  Control points stand between any two accesses of shared data that
    other threads can separate: a critical section whose data is only touched under its lock
    is one step between the step of the lock and the step of the unlock.

    The scheduler is in the labels: which thread moves, which sleeper a signal wakes, spurious
    wakeups, the delivery of signals, the answers of the allocator, and what the clients call.
    The jobs are the clients' functions: calling one is a step, and the lists [submitted],
    [started] and [finished] record the jobs linked into the queue, pulled from it, and
    called. *)

From S2P Require Import Prelude CInt TransSys JobQueue.

Open Scope Z_scope.

(** ** Data *)

(** An element of the array [threads]: NULL (the [malloc] of thread_init failed), freed, or
    the thread object of the thread with this number. *)
Inductive thread_ptr :=
  | TNull
  | TFreed
  | TLive (tid : nat).

(** A job: its node, and the function and argument in it. *)
Definition entry : Type := positive * option (positive * Z).

Definition entry_of (q : thpool_job_queue_t) (a : positive) : entry :=
  (a, (λ n, (function n, args n)) <$> nodes q !! a).

(** The globals [threads_keepalive] and [threads_on_hold], the pool, its queue and its
    semaphore, whether the semaphore and the pool are allocated and whether thpool_init has
    returned the pool to the clients; and the history. *)
Record glob := mk_glob {
  threads_keepalive : Z;
  threads_on_hold : Z;
  threads : list thread_ptr;
  num_threads_alive : Z;
  num_threads_working : Z;
  thcount_lock : bool;
  job_queue : thpool_job_queue_t;
  rw_mutex : bool;
  bsem_mutex : bool;
  bsem_v : Z;
  bsem_live : bool;
  pool_live : bool;
  ready : bool;
  submitted : list entry;
  started : list entry;
  finished : list entry;
}.

Definition set_threads_keepalive v g := mk_glob v (threads_on_hold g) (threads g)
  (num_threads_alive g) (num_threads_working g) (thcount_lock g) (job_queue g) (rw_mutex g)
  (bsem_mutex g) (bsem_v g) (bsem_live g) (pool_live g) (ready g) (submitted g) (started g)
  (finished g).
Definition set_threads_on_hold v g := mk_glob (threads_keepalive g) v (threads g)
  (num_threads_alive g) (num_threads_working g) (thcount_lock g) (job_queue g) (rw_mutex g)
  (bsem_mutex g) (bsem_v g) (bsem_live g) (pool_live g) (ready g) (submitted g) (started g)
  (finished g).
Definition set_threads v g := mk_glob (threads_keepalive g) (threads_on_hold g) v
  (num_threads_alive g) (num_threads_working g) (thcount_lock g) (job_queue g) (rw_mutex g)
  (bsem_mutex g) (bsem_v g) (bsem_live g) (pool_live g) (ready g) (submitted g) (started g)
  (finished g).
Definition set_num_threads_alive v g := mk_glob (threads_keepalive g) (threads_on_hold g)
  (threads g) v (num_threads_working g) (thcount_lock g) (job_queue g) (rw_mutex g)
  (bsem_mutex g) (bsem_v g) (bsem_live g) (pool_live g) (ready g) (submitted g) (started g)
  (finished g).
Definition set_num_threads_working v g := mk_glob (threads_keepalive g) (threads_on_hold g)
  (threads g) (num_threads_alive g) v (thcount_lock g) (job_queue g) (rw_mutex g) (bsem_mutex g)
  (bsem_v g) (bsem_live g) (pool_live g) (ready g) (submitted g) (started g) (finished g).
Definition set_thcount_lock v g := mk_glob (threads_keepalive g) (threads_on_hold g) (threads g)
  (num_threads_alive g) (num_threads_working g) v (job_queue g) (rw_mutex g) (bsem_mutex g)
  (bsem_v g) (bsem_live g) (pool_live g) (ready g) (submitted g) (started g) (finished g).
Definition set_job_queue v g := mk_glob (threads_keepalive g) (threads_on_hold g) (threads g)
  (num_threads_alive g) (num_threads_working g) (thcount_lock g) v (rw_mutex g) (bsem_mutex g)
  (bsem_v g) (bsem_live g) (pool_live g) (ready g) (submitted g) (started g) (finished g).
Definition set_rw_mutex v g := mk_glob (threads_keepalive g) (threads_on_hold g) (threads g)
  (num_threads_alive g) (num_threads_working g) (thcount_lock g) (job_queue g) v (bsem_mutex g)
  (bsem_v g) (bsem_live g) (pool_live g) (ready g) (submitted g) (started g) (finished g).
Definition set_bsem_mutex v g := mk_glob (threads_keepalive g) (threads_on_hold g) (threads g)
  (num_threads_alive g) (num_threads_working g) (thcount_lock g) (job_queue g) (rw_mutex g) v
  (bsem_v g) (bsem_live g) (pool_live g) (ready g) (submitted g) (started g) (finished g).
Definition set_bsem_v v g := mk_glob (threads_keepalive g) (threads_on_hold g) (threads g)
  (num_threads_alive g) (num_threads_working g) (thcount_lock g) (job_queue g) (rw_mutex g)
  (bsem_mutex g) v (bsem_live g) (pool_live g) (ready g) (submitted g) (started g) (finished g).
Definition set_bsem_live v g := mk_glob (threads_keepalive g) (threads_on_hold g) (threads g)
  (num_threads_alive g) (num_threads_working g) (thcount_lock g) (job_queue g) (rw_mutex g)
  (bsem_mutex g) (bsem_v g) v (pool_live g) (ready g) (submitted g) (started g) (finished g).
Definition set_pool_live v g := mk_glob (threads_keepalive g) (threads_on_hold g) (threads g)
  (num_threads_alive g) (num_threads_working g) (thcount_lock g) (job_queue g) (rw_mutex g)
  (bsem_mutex g) (bsem_v g) (bsem_live g) v (ready g) (submitted g) (started g) (finished g).
Definition set_ready v g := mk_glob (threads_keepalive g) (threads_on_hold g) (threads g)
  (num_threads_alive g) (num_threads_working g) (thcount_lock g) (job_queue g) (rw_mutex g)
  (bsem_mutex g) (bsem_v g) (bsem_live g) (pool_live g) v (submitted g) (started g) (finished g).
Definition set_submitted v g := mk_glob (threads_keepalive g) (threads_on_hold g) (threads g)
  (num_threads_alive g) (num_threads_working g) (thcount_lock g) (job_queue g) (rw_mutex g)
  (bsem_mutex g) (bsem_v g) (bsem_live g) (pool_live g) (ready g) v (started g) (finished g).
Definition set_started v g := mk_glob (threads_keepalive g) (threads_on_hold g) (threads g)
  (num_threads_alive g) (num_threads_working g) (thcount_lock g) (job_queue g) (rw_mutex g)
  (bsem_mutex g) (bsem_v g) (bsem_live g) (pool_live g) (ready g) (submitted g) v (finished g).
Definition set_finished v g := mk_glob (threads_keepalive g) (threads_on_hold g) (threads g)
  (num_threads_alive g) (num_threads_working g) (thcount_lock g) (job_queue g) (rw_mutex g)
  (bsem_mutex g) (bsem_v g) (bsem_live g) (pool_live g) (ready g) (submitted g) (started g) v.

(** Control points, by function: [I_] thpool_init, [C_] a client between two calls, [A_]
    thpool_add_work, [W_] thpool_wait, [Z_] thpool_pause, [D_] thpool_destroy, [T_] a worker's
    thread_do.  [k] in [W_] is the number of jobs submitted when the call began. *)
Inductive post_pc := PLock | PBody | PUnlock.

Inductive pc :=
  | I_start (num_threads : Z)
  | I_spawn (n num_threads : Z)
  | I_spin (num_threads : Z)
  | C_null
  | C_ready (ret : Z)
  | C_done
  | A_lock (job : positive)
  | A_body (job : positive)
  | A_post (p : post_pc)
  | A_unlock
  | W_lock (k : nat)
  | W_len (k : nat)
  | W_work (k : nat)
  | W_sleep (k : nat)
  | W_wake (k : nat)
  | W_unlock (k : nat)
  | Z_loop (n : Z)
  | D_first (threads_total : Z)
  | D_second (threads_total : Z)
  | D_post (first : bool) (threads_total : Z) (p : post_pc)
  | D_len (threads_total : Z)
  | D_plock (threads_total : Z)
  | D_pbody (threads_total : Z)
  | D_ppost (threads_total : Z) (p : post_pc) (job : ptr)
  | D_punlock (threads_total : Z) (job : ptr)
  | D_pfree (threads_total : Z) (job : ptr)
  | D_reset (threads_total : Z)
  | D_fbsem (threads_total : Z)
  | D_threads (n threads_total : Z)
  | D_free
  | T_start
  | T_alock
  | T_ainc
  | T_aunlock
  | T_while
  | T_block
  | T_btest
  | T_bsleep
  | T_bwake
  | T_bunlock
  | T_check
  | T_wlock
  | T_winc
  | T_wunlock
  | T_plock
  | T_pbody
  | T_ppost (p : post_pc) (job : ptr)
  | T_punlock (job : ptr)
  | T_run (job : positive)
  | T_free (job : positive)
  | T_dlock
  | T_ddec
  | T_dtest
  | T_dunlock
  | T_elock
  | T_edec
  | T_eunlock
  | T_exit.

(** What a client calls next, and the answers of the environment to a step. *)
Inductive op :=
  | OpAdd (funcptr : positive) (x : Z)
  | OpAddNoMem
  | OpWait
  | OpDestroy
  | OpPause
  | OpResume
  | OpWorking.

Inductive choice :=
  | Go
  | NoMem
  | AttrFails
  | CreateFails
  | Timeout
  | Call (o : op).

(** What a step does to other threads. *)
Inductive effect :=
  | NoEff
  | WakeBsem
  | WakeAllBsem
  | WakeIdle
  | Spawn (n : Z)
  | Kill (tid : nat).

(** ** The code of a thread *)

Definition goto (p : pc) (g : glob) : sres (pc * glob * effect) := Next (p, g, NoEff).

(** A counter of type [int]. *)
Definition int_step (z : Z) : sres Z := if decide (is_int z) then Next z else Wrong SignedOverflow.

(** The locks of the program. *)
Definition lock_thcount (p : pc) (g : glob) :=
  lock (thcount_lock g);; goto p (set_thcount_lock true g).
Definition unlock_thcount (p : pc) (g : glob) :=
  unlock (thcount_lock g);; goto p (set_thcount_lock false g).
Definition lock_rw (p : pc) (g : glob) := lock (rw_mutex g);; goto p (set_rw_mutex true g).
Definition unlock_rw (p : pc) (g : glob) := unlock (rw_mutex g);; goto p (set_rw_mutex false g).
Definition lock_bsem (p : pc) (g : glob) := lock (bsem_mutex g);; goto p (set_bsem_mutex true g).
Definition unlock_bsem (p : pc) (g : glob) :=
  unlock (bsem_mutex g);; goto p (set_bsem_mutex false g).

(** bsem_post ([e] is [WakeBsem]) and bsem_post_all: at [back p] while inside, then [after]. *)
Definition bsem_post (e : effect) (back : post_pc → pc) (after : pc) (p : post_pc) (g : glob) :=
  match p with
  | PLock => lock_bsem (back PBody) g
  | PBody => Next (back PUnlock, set_bsem_v 1 g, e)
  | PUnlock => unlock_bsem after g
  end.

(** [job_queue] after a piece of its code. *)
Definition queue_step {A} (m : cM thpool_job_queue_t A) (g : glob) : sres (A * glob) :=
  '(a, q) ← seq_step m (job_queue g); Next (a, set_job_queue q g).

(** bsem_init on the semaphore of the pool: the value, and what an implementation makes of the
    mutex, a free one, and of the condition variable, on which nobody sleeps any more when
    bsem_reset calls it.  Whether the call is defined at all is the question of [reinitialises]. *)
Definition bsem_init (value : Z) (g : glob) : glob := set_bsem_v value (set_bsem_mutex false g).

(** The pool that thpool_init builds, the globals and the heap aside. *)
Definition new_pool (num_threads : Z) (g : glob) : glob :=
  mk_glob (threads_keepalive g) (threads_on_hold g) (replicate (Z.to_nat num_threads) TNull) 0 0 false
    (set_rear Null (set_front Null (set_len 0 (job_queue g)))) false false 0 true true false
    (submitted g) (started g) (finished g).

Definition start_init (num_threads : Z) (c : choice) (g : glob) :=
  let g := set_threads_keepalive 1 (set_threads_on_hold 0 g) in
  let num_threads := if num_threads <? 0 then 0 else num_threads in
  match c with
  | NoMem => goto C_null g
  | _ => goto (I_spawn 0 num_threads) (new_pool num_threads g)
  end.

(** The loop of lines 109-110 with thread_init. *)
Definition spawn (n num_threads : Z) (c : choice) (g : glob) :=
  if n <? num_threads then
    let next := I_spawn (n + 1) num_threads in
    match c with
    | NoMem => goto next (set_threads (<[Z.to_nat n := TNull]> (threads g)) g)
    | AttrFails => goto next (set_threads (<[Z.to_nat n := TFreed]> (threads g)) g)
    | CreateFails => Wrong Uninitialised
    | _ => Next (next, g, Spawn n)
    end
  else goto (I_spin num_threads) g.

(** The pool is there. *)
Definition pool_ok (g : glob) : sres unit := if pool_live g then Next tt else Wrong UseAfterFree.
Definition bsem_ok (g : glob) : sres unit := if bsem_live g then Next tt else Wrong UseAfterFree.

(** A client calls a function of the pool. *)
Definition call (ret : Z) (c : choice) (g : glob) :=
  match c with
  | Call (OpAdd f x) => '(job, g) ← queue_step (malloc_job f x) g; goto (A_lock job) g
  | Call OpAddNoMem => goto (C_ready (-1)) g
  | Call OpWait => goto (W_lock (length (submitted g))) g
  | Call OpDestroy => pool_ok g;; goto (D_first (num_threads_alive g)) (set_threads_keepalive 0 g)
  | Call OpPause => goto (Z_loop 0) g
  | Call OpResume => goto (C_ready ret) (set_threads_on_hold 0 g)
  | Call OpWorking => pool_ok g;; goto (C_ready (num_threads_working g)) g
  | _ => Blocked
  end.

(** The pool is NULL: thpool_wait and thpool_destroy return at once, thpool_resume does not look
    at it.  The other functions dereference it; a client that makes such a call is not modelled
    here (PoolTest has one). *)
Definition call_null (c : choice) (g : glob) : sres (pc * glob * effect) :=
  match c with
  | Call OpWait | Call OpDestroy => goto C_null g
  | Call OpResume => goto C_null (set_threads_on_hold 0 g)
  | _ => Blocked
  end.

(** Linking the job: the body of jobqueue_push. *)
Definition push_body (job : positive) (g : glob) :=
  let e := entry_of (job_queue g) job in
  '(_, g) ← queue_step (jobqueue_push job) g;
  goto (A_post PLock) (set_submitted (submitted g ++ [e]) g).

(** A turn of the loop of thpool_pause. *)
Definition pause (n : Z) (g : glob) :=
  if n <? num_threads_alive g then
    match threads g !! Z.to_nat n with
    | Some (TLive t) => Next (Z_loop (n + 1), g, Kill t)
    | Some TNull => Wrong NullDeref
    | Some TFreed => Wrong UseAfterFree
    | None => Wrong OutOfBounds
    end
  else goto (C_ready 0) g.

(** jobqueue_pull inside of jobqueue_clear. *)
Definition clear_body (total : Z) (g : glob) :=
  '(job, post, g) ← queue_step jobqueue_pull g;
  goto (if post : bool then D_ppost total PLock job else D_punlock total job) g.

(** A turn of the loop of thread_destroy calls. *)
Definition destroy_threads (n total : Z) (g : glob) :=
  if n <? total then
    match threads g !! Z.to_nat n with
    | Some (TLive _) =>
        goto (D_threads (n + 1) total) (set_threads (<[Z.to_nat n := TFreed]> (threads g)) g)
    | Some TNull => goto (D_threads (n + 1) total) g
    | Some TFreed => Wrong DoubleFree
    | None => Wrong OutOfBounds
    end
  else goto D_free g.

(** The body of jobqueue_pull, called by a worker. *)
Definition pull_body (g : glob) :=
  let q := job_queue g in
  '(job, post, g) ← queue_step jobqueue_pull g;
  let g := match job with
           | Ptr a => set_started (started g ++ [entry_of q a]) g
           | _ => g
           end in
  goto (if post : bool then T_ppost PLock job else T_punlock job) g.

(** The worker has the job it pulled. *)
Definition after_pull (job : ptr) (g : glob) :=
  match job with
  | Ptr a => unlock_rw (T_run a) g
  | Null => unlock_rw T_dlock g
  | Junk => Wrong Uninitialised
  end.

(** The call of the job's function. *)
Definition run_job (job : positive) (g : glob) :=
  let e := entry_of (job_queue g) job in
  '(_, g) ← queue_step (load (Ptr job)) g;
  goto (T_free job) (set_finished (finished g ++ [e]) g).

(** The control points whose step reads or writes the pool, or its semaphore. *)
Definition uses_pool (p : pc) : bool :=
  match p with
  | I_start _ | C_null | C_ready _ | C_done | T_start | T_while | T_btest | T_bsleep | T_bwake
  | T_bunlock | T_check | T_run _ | T_free _ | T_exit => false
  | _ => true
  end.

Definition uses_bsem (p : pc) : bool :=
  match p with
  | A_post _ | D_post _ _ _ | D_ppost _ _ _ | D_reset _ | D_fbsem _ | T_block | T_btest | T_bsleep
  | T_bwake | T_bunlock | T_ppost _ _ => true
  | _ => false
  end.

(** thpool_init, thpool_add_work, thpool_wait and thpool_pause. *)
Definition client_step (c : choice) (p : pc) (g : glob) : sres (pc * glob * effect) :=
  match p with
  | I_start num_threads => start_init num_threads c g
  | I_spawn n num_threads => spawn n num_threads c g
  | I_spin num_threads =>
      if num_threads_alive g =? num_threads then goto (C_ready 0) (set_ready true g)
      else goto (I_spin num_threads) g
  | C_null => call_null c g
  | C_ready ret => if ready g then call ret c g else Blocked
  | A_lock job => lock_rw (A_body job) g
  | A_body job => push_body job g
  | A_post p => bsem_post WakeBsem A_post A_unlock p g
  | A_unlock => unlock_rw (C_ready 0) g
  | W_lock k => lock_thcount (W_len k) g
  | W_len k => if len (job_queue g) =? 0 then goto (W_work k) g else unlock_thcount (W_sleep k) g
  | W_work k =>
      if num_threads_working g =? 0 then goto (W_unlock k) g else unlock_thcount (W_sleep k) g
  | W_wake k => lock_thcount (W_len k) g
  | W_unlock k => unlock_thcount (C_ready 0) g
  | Z_loop n => pause n g
  | _ => Blocked
  end.

(** thpool_destroy, with jobqueue_destroy and jobqueue_clear. *)
Definition destroy_step (c : choice) (p : pc) (g : glob) : sres (pc * glob * effect) :=
  match p with
  | D_first total =>
      match c with
      | Timeout => goto (D_second total) g
      | _ => if num_threads_alive g =? 0 then goto (D_second total) g
             else goto (D_post true total PLock) g
      end
  | D_second total =>
      if num_threads_alive g =? 0 then goto (D_len total) g
      else goto (D_post false total PLock) g
  | D_post first total p =>
      bsem_post WakeAllBsem (D_post first total) (if first then D_first total else D_second total)
        p g
  | D_len total =>
      if len (job_queue g) =? 0 then goto (D_reset total) g else goto (D_plock total) g
  | D_plock total => lock_rw (D_pbody total) g
  | D_pbody total => clear_body total g
  | D_ppost total p job =>
      bsem_post WakeBsem (λ p, D_ppost total p job) (D_punlock total job) p g
  | D_punlock total job => unlock_rw (D_pfree total job) g
  | D_pfree total job => '(_, g) ← queue_step (free_job job) g; goto (D_len total) g
  | D_reset total =>
      '(_, g) ← queue_step jobqueue_clear_end g; goto (D_fbsem total) (bsem_init 0 g)
  | D_fbsem total => goto (D_threads 0 total) (set_bsem_live false g)
  | D_threads n total => destroy_threads n total g
  | D_free => goto C_done (set_pool_live false g)
  | _ => Blocked
  end.

(** thread_do. *)
Definition thread_do (p : pc) (g : glob) : sres (pc * glob * effect) :=
  match p with
  | T_start => goto T_alock g
  | T_alock => lock_thcount T_ainc g
  | T_ainc => n ← int_step (num_threads_alive g + 1); goto T_aunlock (set_num_threads_alive n g)
  | T_aunlock => unlock_thcount T_while g
  | T_while => goto (if threads_keepalive g =? 0 then T_elock else T_block) g
  | T_block => lock_bsem T_btest g
  | T_btest => if bsem_v g =? 1 then goto T_bunlock (set_bsem_v 0 g) else unlock_bsem T_bsleep g
  | T_bwake => lock_bsem T_btest g
  | T_bunlock => unlock_bsem T_check g
  | T_check => goto (if threads_keepalive g =? 0 then T_while else T_wlock) g
  | T_wlock => lock_thcount T_winc g
  | T_winc =>
      n ← int_step (num_threads_working g + 1); goto T_wunlock (set_num_threads_working n g)
  | T_wunlock => unlock_thcount T_plock g
  | T_plock => lock_rw T_pbody g
  | T_pbody => pull_body g
  | T_ppost p job => bsem_post WakeBsem (λ p, T_ppost p job) (T_punlock job) p g
  | T_punlock job => after_pull job g
  | T_run job => run_job job g
  | T_free job => '(_, g) ← queue_step (free_job (Ptr job)) g; goto T_dlock g
  | T_dlock => lock_thcount T_ddec g
  | T_ddec =>
      n ← int_step (num_threads_working g - 1); goto T_dtest (set_num_threads_working n g)
  | T_dtest =>
      if num_threads_working g =? 0 then Next (T_dunlock, g, WakeIdle) else goto T_dunlock g
  | T_dunlock => unlock_thcount T_while g
  | T_elock => lock_thcount T_edec g
  | T_edec => n ← int_step (num_threads_alive g - 1); goto T_eunlock (set_num_threads_alive n g)
  | T_eunlock => unlock_thcount T_exit g
  | _ => Blocked
  end.

Definition is_worker (p : pc) : bool :=
  match p with
  | T_start | T_alock | T_ainc | T_aunlock | T_while | T_block | T_btest | T_bsleep | T_bwake
  | T_bunlock | T_check | T_wlock | T_winc | T_wunlock | T_plock | T_pbody | T_ppost _ _
  | T_punlock _ | T_run _ | T_free _ | T_dlock | T_ddec | T_dtest | T_dunlock | T_elock | T_edec
  | T_eunlock | T_exit => true
  | _ => false
  end.

Definition is_destroy (p : pc) : bool :=
  match p with
  | D_first _ | D_second _ | D_post _ _ _ | D_len _ | D_plock _ | D_pbody _ | D_ppost _ _ _
  | D_punlock _ _ | D_pfree _ _ | D_reset _ | D_fbsem _ | D_threads _ _ | D_free => true
  | _ => false
  end.

Definition exec (c : choice) (p : pc) (g : glob) : sres (pc * glob * effect) :=
  (if uses_pool p then pool_ok g else Next tt);;
  (if uses_bsem p then bsem_ok g else Next tt);;
  if is_worker p then thread_do p g
  else if is_destroy p then destroy_step c p g
  else client_step c p g.

(** ** The system *)

(** A thread: where it is, whether a SIGUSR1 is pending for it, and whether it is in the
    handler [thread_hold]. *)
Record thread := mk_thread {
  at_pc : pc;
  pending : bool;
  held : bool;
}.

Definition set_pc (p : pc) (t : thread) : thread := mk_thread p (pending t) (held t).

Record sys := mk_sys {
  thr : list thread;
  glb : glob;
}.

(** Where a sleeper on the semaphore's condition variable, or on [threads_all_idle], goes. *)
Definition wake_bsem (p : pc) : option pc :=
  match p with T_bsleep => Some T_bwake | _ => None end.
Definition wake_idle (p : pc) : option pc :=
  match p with W_sleep k => Some (W_wake k) | _ => None end.

(** pthread_cond_signal: one sleeper, [w], if there is one. *)
Definition signal (f : pc → option pc) (w : option nat) (ts : list thread) : sres (list thread) :=
  match w with
  | Some j =>
      match ts !! j with
      | Some t => match f (at_pc t) with
                  | Some p => Next (<[j := set_pc p t]> ts)
                  | None => Blocked
                  end
      | None => Blocked
      end
  | None => if existsb (λ t, bool_decide (is_Some (f (at_pc t)))) ts then Blocked else Next ts
  end.

Definition broadcast (f : pc → option pc) (ts : list thread) : list thread :=
  (λ t, match f (at_pc t) with Some p => set_pc p t | None => t end) <$> ts.

Definition apply_effect (e : effect) (w : option nat) (s : sys) : sres sys :=
  match e with
  | NoEff => Next s
  | WakeBsem => ts ← signal wake_bsem w (thr s); Next (mk_sys ts (glb s))
  | WakeAllBsem => Next (mk_sys (broadcast wake_bsem (thr s)) (glb s))
  | WakeIdle => ts ← signal wake_idle w (thr s); Next (mk_sys ts (glb s))
  | Spawn n =>
      let g := glb s in
      Next (mk_sys (thr s ++ [mk_thread T_start false false])
              (set_threads (<[Z.to_nat n := TLive (length (thr s))]> (threads g)) g))
  | Kill i =>
      match thr s !! i with
      | Some t => Next (mk_sys (<[i := mk_thread (at_pc t) true (held t)]> (thr s)) (glb s))
      | None => Next s
      end
  end.

(** A thread runs; a sleeper wakes up without a signal; a pending SIGUSR1 is delivered and the
    handler stores 1 into [threads_on_hold]; the handler finds 0 there and returns. *)
Inductive label :=
  | Thr (i : nat) (c : choice) (w : option nat)
  | Spurious (i : nat)
  | Deliver (i : nat)
  | Leave (i : nat).

Definition step_thread (i : nat) (t : thread) (c : choice) (w : option nat) (s : sys) : sres sys :=
  if held t then Blocked
  else
    '(p, g, e) ← exec c (at_pc t) (glb s);
    apply_effect e w (mk_sys (<[i := set_pc p t]> (thr s)) g).

Definition spurious (i : nat) (t : thread) (s : sys) : sres sys :=
  match wake_bsem (at_pc t), wake_idle (at_pc t) with
  | Some p, _ | _, Some p => Next (mk_sys (<[i := set_pc p t]> (thr s)) (glb s))
  | None, None => Blocked
  end.

Definition deliver (i : nat) (t : thread) (s : sys) : sres sys :=
  if pending t && negb (held t) then
    Next (mk_sys (<[i := mk_thread (at_pc t) false true]> (thr s)) (set_threads_on_hold 1 (glb s)))
  else Blocked.

Definition leave (i : nat) (t : thread) (s : sys) : sres sys :=
  if held t && (threads_on_hold (glb s) =? 0) then
    Next (mk_sys (<[i := mk_thread (at_pc t) (pending t) false]> (thr s)) (glb s))
  else Blocked.

Definition step (l : label) (s : sys) : sres sys :=
  let on i k := match thr s !! i with Some t => k t | None => Blocked end in
  match l with
  | Thr i c w => on i (λ t, step_thread i t c w s)
  | Spurious i => on i (λ t, spurious i t s)
  | Deliver i => on i (λ t, deliver i t s)
  | Leave i => on i (λ t, leave i t s)
  end.

(** bsem_reset, called by jobqueue_clear in thpool_destroy, calls bsem_init once more: it
    initialises the mutex and the condition variable of a semaphore that is initialised, which POSIX
    leaves undefined.  [step] goes on as implementations do; [posix_step] stops there. *)
Definition reinitialises (p : pc) (g : glob) : bool :=
  match p with D_reset _ => pool_live g && bsem_live g | _ => false end.

Definition posix_step (l : label) (s : sys) : sres sys :=
  match l with
  | Thr i _ _ =>
      match thr s !! i with
      | Some t => if negb (held t) && reinitialises (at_pc t) (glb s) then Wrong Reinitialised else step l s
      | None => Blocked
      end
  | _ => step l s
  end.

(** Thread 0 calls [thpool_init(num_threads)]; [others] more clients wait for the pool. *)
Definition empty_queue : thpool_job_queue_t := mk_job_queue Null Null 0 ∅ 1.

Definition glob0 : glob :=
  mk_glob 0 0 [] 0 0 false empty_queue false false 0 false false false [] [] [].

Definition idle_thread (p : pc) : thread := mk_thread p false false.

Definition sys0 (num_threads : Z) (others : nat) : sys :=
  mk_sys (idle_thread (I_start num_threads) :: replicate others (idle_thread (C_ready 0))) glob0.
