(* ===== verification/ThpoolInv.v ===== *)
(** * The thread pool's locks, counters and life cycle

    Invariants of every reachable state of the pool, stated as equations between the shared
    variables and the numbers of threads in parts of the code, and what they say: the locks
    exclude each other's critical sections, the two counters count, and the only undefined
    behaviour of [step] is the one of thpool_destroy. *)

From Stdlib Require Import ZifyBool.
From S2P Require Import Prelude CInt TransSys JobQueue Thpool.

Open Scope Z_scope.

(** ** Counting threads *)

Definition count (f : pc → Z) (s : sys) : Z := tsum (λ t, f (at_pc t)) (thr s).

(** The number of threads in the part [b] of the code. *)
Definition cnt (b : pc → bool) (s : sys) : Z := count (λ p, Z.b2z (b p)) s.

(** [f] does not see a sleeper woken up. *)
Definition insens {A} (f : pc → A) : Prop :=
  f T_bwake = f T_bsleep ∧ ∀ k, f (W_wake k) = f (W_sleep k).

(** The workers a step creates. *)
Definition spawned (e : effect) : Z := match e with Spawn _ => 1 | _ => 0 end.

Lemma count_ge f s i t : (∀ p, 0 <= f p) → thr s !! i = Some t → f (at_pc t) <= count f s.
Proof. intros Hf Ht. by apply (tsum_ge (λ t, f (at_pc t)) _ i). Qed.

Lemma count_nonneg f s : (∀ p, 0 <= f p) → 0 <= count f s.
Proof. intros Hf. by apply tsum_nonneg. Qed.

Lemma count_plus f g h s : (∀ p, f p = g p + h p) → count f s = count g s + count h s.
Proof.
  intros H. unfold count. induction (thr s) as [|t ts IH]; [done|].
  rewrite !tsum_cons, H. lia.
Qed.

Lemma count_le f g s : (∀ p, f p <= g p) → count f s <= count g s.
Proof.
  intros H. unfold count. induction (thr s) as [|t ts IH]; [done|].
  rewrite !tsum_cons. specialize (H (at_pc t)). lia.
Qed.

Lemma count_move f ts g g' i t p :
  ts !! i = Some t → count f (mk_sys (<[i := set_pc p t]> ts) g')
  = count f (mk_sys ts g) - f (at_pc t) + f p.
Proof. intros Ht. unfold count. cbn [thr]. by rewrite (tsum_insert _ _ _ _ _ Ht). Qed.

Lemma count_env f ts g g' i t x y :
  ts !! i = Some t → count f (mk_sys (<[i := mk_thread (at_pc t) x y]> ts) g')
  = count f (mk_sys ts g).
Proof. intros Ht. unfold count. cbn [thr]. rewrite (tsum_insert _ _ _ _ _ Ht). cbn [at_pc]. lia. Qed.

Lemma count_signal f h w ts ts' g g' :
  (∀ p p', h p = Some p' → f p' = f p) → signal h w ts = Next ts' →
  count f (mk_sys ts' g') = count f (mk_sys ts g).
Proof.
  intros Hh. unfold signal. destruct w as [j|]; [|by case_match; intros; simplify_eq].
  destruct (ts !! j) as [u|] eqn:Hu; [|done]. destruct (h (at_pc u)) as [p'|] eqn:Hp; [|done].
  intros. simplify_eq. rewrite (count_move f ts g g' _ _ _ Hu), (Hh _ _ Hp). lia.
Qed.

Lemma count_broadcast f h ts g g' :
  (∀ p p', h p = Some p' → f p' = f p) →
  count f (mk_sys (broadcast h ts) g') = count f (mk_sys ts g).
Proof.
  intros Hh. unfold count. cbn [thr]. induction ts as [|t ts IH]; [done|].
  unfold broadcast in *. rewrite fmap_cons, !tsum_cons, IH.
  destruct (h (at_pc t)) as [p'|] eqn:Hp; [|done]. cbn. by rewrite (Hh _ _ Hp).
Qed.

Lemma insens_bsem {A} (f : pc → A) p p' : insens f → wake_bsem p = Some p' → f p' = f p.
Proof. intros [? _]. destruct p; cbn; intros; by simplify_eq. Qed.

Lemma insens_idle {A} (f : pc → A) p p' : insens f → wake_idle p = Some p' → f p' = f p.
Proof. intros [_ ?]. destruct p; cbn; intros; by simplify_eq. Qed.

(** The globals after an effect: only a created thread is recorded there. *)
Definition after_effect (e : effect) (n : nat) (g : glob) : glob :=
  match e with Spawn k => set_threads (<[Z.to_nat k := TLive n]> (threads g)) g | _ => g end.

Lemma apply_effect_count f e w s s' :
  insens f → apply_effect e w s = Next s' →
  count f s' = count f s + spawned e * f T_start ∧ glb s' = after_effect e (length (thr s)) (glb s).
Proof.
  intros Hf. destruct s as [ts g]. unfold apply_effect. cbn [thr glb].
  destruct e; cbn -[signal broadcast count]; intros H.
  - simplify_eq. split; [lia|done].
  - destruct (signal _ _ _) as [ts'| |] eqn:Hs; [|done..]. cbn in H. simplify_eq.
    rewrite (count_signal f wake_bsem w ts ts' g g); [split; [lia|done]| |done].
    intros ??. by apply insens_bsem.
  - simplify_eq. rewrite (count_broadcast f wake_bsem ts g g); [split; [lia|done]|].
    intros ??. by apply insens_bsem.
  - destruct (signal _ _ _) as [ts'| |] eqn:Hs; [|done..]. cbn in H. simplify_eq.
    rewrite (count_signal f wake_idle w ts ts' g g); [split; [lia|done]| |done].
    intros ??. by apply insens_idle.
  - simplify_eq. split; [|done]. unfold count. cbn [thr]. rewrite tsum_app, tsum_cons. cbn. lia.
  - destruct (ts !! tid) as [t|] eqn:Ht; simplify_eq; [|split; [lia|done]].
    rewrite (count_env f ts g g _ _ _ _ Ht). split; [lia|done].
Qed.

(** What the threads hold, under an effect. *)
Definition held_by (f : pc → list positive) (s : sys) : list positive :=
  collect (λ t, f (at_pc t)) (thr s).

Lemma held_signal (f : pc → list positive) h w ts ts' :
  (∀ p p', h p = Some p' → f p' = f p) → signal h w ts = Next ts' →
  collect (λ t, f (at_pc t)) ts' = collect (λ t, f (at_pc t)) ts.
Proof.
  intros Hh. unfold signal. destruct w as [j|]; [|by case_match; intros; simplify_eq].
  destruct (ts !! j) as [u|] eqn:Hu; [|done]. destruct (h (at_pc u)) as [p'|] eqn:Hp; [|done].
  intros. simplify_eq. apply (collect_insert_same _ _ _ _ _ Hu). by apply Hh.
Qed.

Lemma held_broadcast (f : pc → list positive) h ts :
  (∀ p p', h p = Some p' → f p' = f p) →
  collect (λ t, f (at_pc t)) (broadcast h ts) = collect (λ t, f (at_pc t)) ts.
Proof.
  intros Hh. unfold collect, broadcast. f_equal. rewrite <- list_fmap_compose.
  apply list_fmap_ext. intros ? t _. cbn. destruct (h (at_pc t)) as [p'|] eqn:Hp; [|done].
  by apply Hh.
Qed.

Lemma apply_effect_held f e w s s' :
  insens f → f T_start = [] → apply_effect e w s = Next s' → held_by f s' = held_by f s.
Proof.
  intros Hf Hs. destruct s as [ts g]. unfold apply_effect, held_by. cbn [thr glb].
  destruct e; cbn -[signal broadcast collect]; intros H.
  - by simplify_eq.
  - destruct (signal _ _ _) as [ts'| |] eqn:Hw; [|done..]. cbn -[collect] in H. simplify_eq.
    eapply held_signal; [|done]. intros ??. by apply insens_bsem.
  - simplify_eq. apply held_broadcast. intros ??. by apply insens_bsem.
  - destruct (signal _ _ _) as [ts'| |] eqn:Hw; [|done..]. cbn -[collect] in H. simplify_eq.
    eapply held_signal; [|done]. intros ??. by apply insens_idle.
  - simplify_eq. cbn [thr]. rewrite collect_app. cbn. by rewrite Hs, app_nil_r.
  - destruct (ts !! tid) as [t|] eqn:Ht; simplify_eq; [|done].
    by apply (collect_insert_same _ _ _ _ _ Ht).
Qed.

(** ** The steps, for counting *)

(** A step is one of a thread, whose code moves it from [p] to [p'], or it only changes
    [threads_on_hold]; in both cases wakeups aside. *)
Inductive stepped (s s' : sys) : Prop :=
  | by_thread c p p' g e :
      (∃ i t, thr s !! i = Some t ∧ at_pc t = p) →
      exec c p (glb s) = Next (p', g, e) →
      glb s' = after_effect e (length (thr s)) g →
      (∀ f : pc → Z, insens f → count f s' = count f s - f p + f p' + spawned e * f T_start) →
      (∀ f : pc → list positive, insens f → f T_start = [] →
         held_by f s' ++ f p ≡ₚ held_by f s ++ f p') →
      stepped s s'
  | by_env v :
      glb s' = set_threads_on_hold v (glb s) →
      (∀ f : pc → Z, insens f → count f s' = count f s) →
      (∀ f : pc → list positive, insens f → held_by f s' = held_by f s) →
      stepped s s'.

Lemma set_on_hold_id g : set_threads_on_hold (threads_on_hold g) g = g.
Proof. by destruct g. Qed.

Lemma step_stepped l s s' : step l s = Next s' → stepped s s'.
Proof.
  destruct s as [ts g].
  destruct l as [i c w|i|i|i]; cbn; destruct (ts !! i) as [t|] eqn:Ht; try done; intros H.
  - unfold step_thread in H. destruct (held t); [done|]. cbn -[exec] in H.
    destruct (exec c (at_pc t) g) as [[[p' g'] e]| |] eqn:He; [|done..]. cbn -[apply_effect] in H.
    eapply by_thread; [by exists i, t|exact He| | |].
    + destruct (apply_effect_count (λ _, 0) e w _ s' (conj eq_refl (λ _, eq_refl)) H) as [_ ->]. cbn.
      by rewrite length_insert.
    + intros f Hf. destruct (apply_effect_count f e w _ s' Hf H) as [-> _].
      rewrite (count_move f ts g g' _ _ _ Ht). lia.
    + intros f Hf Hs. rewrite (apply_effect_held f e w _ s' Hf Hs H).
      apply (collect_insert (λ t, f (at_pc t)) ts i t (set_pc p' t) Ht).
  - unfold spurious in H.
    destruct (wake_bsem (at_pc t)) as [p|] eqn:Hb;
      [|destruct (wake_idle (at_pc t)) as [p|] eqn:Hw; [|done]]; simplify_eq;
      (apply (by_env _ _ (threads_on_hold g)); [by rewrite set_on_hold_id| |]).
    + intros f Hf. rewrite (count_move f ts g g _ _ _ Ht), (insens_bsem f _ _ Hf Hb). lia.
    + intros f Hf. apply (collect_insert_same _ _ _ _ _ Ht). by apply insens_bsem.
    + intros f Hf. rewrite (count_move f ts g g _ _ _ Ht), (insens_idle f _ _ Hf Hw). lia.
    + intros f Hf. apply (collect_insert_same _ _ _ _ _ Ht). by apply insens_idle.
  - unfold deliver in H. case_match; [|done]. simplify_eq. apply (by_env _ _ 1); [done| |].
    + intros f _. by rewrite (count_env f ts g _ _ _ _ _ Ht).
    + intros f _. by apply (collect_insert_same _ _ _ _ _ Ht).
  - unfold leave in H. case_match; [|done]. simplify_eq.
    apply (by_env _ _ (threads_on_hold g)); [by rewrite set_on_hold_id| |].
    + intros f _. by rewrite (count_env f ts g _ _ _ _ _ Ht).
    + intros f _. by apply (collect_insert_same _ _ _ _ _ Ht).
Qed.

(** ** Parts of the code *)

(** Holding thcount_lock, rw_mutex and the mutex of the semaphore. *)
Definition holds_th (p : pc) : bool :=
  match p with
  | W_len _ | W_work _ | W_unlock _ | T_ainc | T_aunlock | T_winc | T_wunlock | T_ddec | T_dtest
  | T_dunlock | T_edec | T_eunlock => true
  | _ => false
  end.

Definition holds_rw (p : pc) : bool :=
  match p with
  | A_body _ | A_post _ | A_unlock | D_pbody _ | D_ppost _ _ _ | D_punlock _ _ | T_pbody
  | T_ppost _ _ | T_punlock _ => true
  | _ => false
  end.

Definition in_post (p : post_pc) : bool := match p with PLock => false | _ => true end.

Definition holds_bs (p : pc) : bool :=
  match p with
  | A_post x | D_post _ _ x | D_ppost _ x _ | T_ppost x _ => in_post x
  | T_btest | T_bunlock => true
  | _ => false
  end.

(** Counted in num_threads_alive and in num_threads_working; not yet counted alive. *)
Definition is_alive (p : pc) : bool :=
  match p with T_start | T_alock | T_ainc | T_eunlock | T_exit => false | _ => is_worker p end.

Definition is_working (p : pc) : bool :=
  match p with
  | T_wunlock | T_plock | T_pbody | T_ppost _ _ | T_punlock _ | T_run _ | T_free _ | T_dlock
  | T_ddec => true
  | _ => false
  end.

Definition is_new (p : pc) : bool := match p with T_start | T_alock | T_ainc => true | _ => false end.
Definition is_gone (p : pc) : bool := match p with T_eunlock | T_exit => true | _ => false end.
Definition is_leaving (p : pc) : bool :=
  match p with T_elock | T_edec | T_eunlock | T_exit => true | _ => false end.

Definition is_client (p : pc) : bool := negb (is_worker p).
Definition is_start (p : pc) : bool := match p with I_start _ => true | _ => false end.
Definition is_null (p : pc) : bool := match p with C_null => true | _ => false end.
Definition is_done (p : pc) : bool := match p with C_done => true | _ => false end.
Definition is_init (p : pc) : bool :=
  match p with I_start _ | I_spawn _ _ | I_spin _ => true | _ => false end.

(** A client inside of a call on the pool. *)
Definition is_busy (p : pc) : bool :=
  match p with C_ready _ | C_null => false | _ => is_client p && negb (is_init p) end.

(** In thpool_destroy or behind it; behind its loops; behind the free of the semaphore. *)
Definition destroying (p : pc) : bool := is_destroy p || is_done p.
Definition past_loops (p : pc) : bool :=
  match p with
  | D_len _ | D_plock _ | D_pbody _ | D_ppost _ _ _ | D_punlock _ _ | D_pfree _ _ | D_reset _
  | D_fbsem _ | D_threads _ _ | D_free | C_done => true
  | _ => false
  end.
Definition past_bsem (p : pc) : bool :=
  match p with D_threads _ _ | D_free | C_done => true | _ => false end.

(** The workers that thpool_init may have created. *)
Definition created (N : Z) (p : pc) : Z :=
  match p with I_spawn n _ => Z.max 0 (Z.min N n) | I_spin n => Z.max 0 (Z.min N n) | _ => 0 end.

(** Wrong parameters of control points, for a pool of [N] threads. *)
Definition bad (N : Z) (p : pc) : bool :=
  match p with
  | I_start n => negb (Z.max 0 n =? N)
  | I_spawn k n => negb ((n =? N) && (0 <=? k) && (k <=? N))
  | I_spin n => negb (n =? N)
  | D_threads k n => negb ((n =? N) && (0 <=? k) && (k <=? N))
  | Z_loop k => negb (0 <=? k)
  | D_first n | D_second n | D_post _ n _ | D_len n | D_plock n | D_pbody n | D_ppost n _ _
  | D_punlock n _ | D_pfree n _ | D_reset n | D_fbsem n => negb (n =? N)
  | _ => false
  end.

(** ** The invariants *)

(** Runs in which thpool_destroy is called by the only client, or not at all. *)
Definition calm (s : sys) : Prop := cnt is_client s = 1 ∨ cnt destroying s = 0.

Record pool_inv (N : Z) (s : sys) : Prop := {
  i_th : cnt holds_th s = Z.b2z (thcount_lock (glb s));
  i_rw : cnt holds_rw s = Z.b2z (rw_mutex (glb s));
  i_bs : cnt holds_bs s = Z.b2z (bsem_mutex (glb s));
  i_alive : num_threads_alive (glb s) = cnt is_alive s;
  i_working : num_threads_working (glb s) = cnt is_working s;
  i_phase : Z.b2z (ready (glb s)) + cnt is_init s + cnt is_null s = 1;
  i_pool : Z.b2z (pool_live (glb s)) + cnt is_start s + cnt is_null s + cnt is_done s = 1;
  i_bsem : Z.b2z (bsem_live (glb s)) + cnt is_start s + cnt is_null s + cnt past_bsem s = 1;
  i_new : ready (glb s) = true → cnt is_new s = 0;
  i_created : ready (glb s) = false → cnt is_worker s <= count (created N) s;
  i_workers : cnt is_worker s <= N;
  i_unready : ready (glb s) = false → cnt destroying s = 0;
  i_past : cnt past_loops s = 0 ∨ cnt is_alive s = 0;
  i_keep : cnt destroying s = 0 → cnt is_start s = 0 → threads_keepalive (glb s) = 1;
  i_dead : cnt destroying s = 0 ∨ threads_keepalive (glb s) = 0;
  i_leaving : threads_keepalive (glb s) = 1 → cnt is_leaving s = 0;
  i_full : ready (glb s) = true → cnt is_worker s = N;
  i_bad : cnt (bad N) s = 0;
  i_idle : ready (glb s) = false → cnt is_busy s = 0;
  i_v : bsem_v (glb s) = 0 ∨ bsem_v (glb s) = 1;
}.

(** ** Every step keeps them *)

Lemma b2z_nonneg (b : pc → bool) p : 0 <= Z.b2z (b p).
Proof. destruct (b p); cbn; lia. Qed.

Lemma cnt_nonneg b s : 0 <= cnt b s.
Proof. apply count_nonneg. intros p. apply b2z_nonneg. Qed.

(** Linear facts of the parts hold for the numbers of threads in them. *)
Lemma count_add f g s : count (λ p, f p + g p) s = count f s + count g s.
Proof. by apply count_plus. Qed.

Lemma count_scale n f s : count (λ p, n * f p) s = n * count f s.
Proof.
  unfold count. induction (thr s) as [|t ts IH]; [cbn; lia|]. rewrite !tsum_cons, IH. lia.
Qed.

Lemma created_nonneg N p : 0 <= created N p.
Proof. destruct p; cbn; lia. Qed.

#[export] Hint Resolve b2z_nonneg created_nonneg : cplay.

(** The code of one thread, executed symbolically. *)
Ltac run_exec H :=
  cbn in H;
  cbv beta delta [pool_ok bsem_ok queue_step seq_step lock_thcount unlock_thcount lock_rw unlock_rw
    lock_bsem unlock_bsem lock unlock goto int_step bsem_post start_init spawn call call_null push_body pause
    clear_body destroy_threads pull_body after_pull run_job new_pool bsem_init] in H;
  cbn in H;
  repeat (case_hyp H; cbn in H; try discriminate H);
  try discriminate H; simplify_eq; zbool.

Definition is_ready (p : pc) : bool := match p with C_ready _ => true | _ => false end.
Definition is_body (p : pc) : bool := match p with A_body _ => true | _ => false end.
Definition is_active (p : pc) : bool := is_busy p && negb (is_done p).
Definition uses_bsem_client (p : pc) : bool := uses_bsem p && is_client p.
Definition is_spawn (p : pc) : bool :=
  match p with I_spawn _ _ | I_spin _ => true | _ => false end.
Definition is_winc (p : pc) : bool := match p with T_winc => true | _ => false end.
Definition is_waiting (p : pc) : bool :=
  match p with W_lock _ | W_len _ | W_work _ | W_sleep _ | W_wake _ | W_unlock _ => true | _ => false end.
Definition is_pausing (p : pc) : bool := match p with Z_loop _ => true | _ => false end.
Definition is_reset (p : pc) : bool := match p with D_reset _ => true | _ => false end.

(** How the parts relate. *)
Record parts (s : sys) : Prop := {
  p_worker : cnt is_worker s = cnt is_new s + cnt is_alive s + cnt is_gone s;
  p_working : cnt is_working s <= cnt is_alive s;
  p_leaving : cnt is_gone s <= cnt is_leaving s;
  p_th : cnt holds_th s <= cnt is_worker s + cnt is_busy s;
  p_rw : cnt holds_rw s <= cnt is_alive s + cnt is_busy s;
  p_bs : cnt holds_bs s <= cnt is_alive s + cnt is_busy s;
  p_reset : cnt holds_bs s + cnt is_reset s <= cnt is_alive s + cnt is_client s;
  p_client : cnt is_init s + cnt is_null s + cnt is_busy s <= cnt is_client s;
  p_busy : cnt destroying s <= cnt is_busy s;
  p_past : cnt past_loops s <= cnt destroying s;
  p_bsem : cnt past_bsem s <= cnt past_loops s;
  p_done : cnt is_done s <= cnt past_bsem s;
  p_start : cnt is_start s <= cnt is_init s;
  p_reset_past : cnt is_reset s <= cnt past_loops s;
  p_ready : cnt is_ready s + cnt destroying s <= cnt is_client s;
  p_body : cnt is_body s + cnt past_loops s <= cnt is_client s;
  p_active : cnt is_done s + cnt is_active s <= cnt is_busy s;
  p_bsem_active : cnt past_bsem s + cnt uses_bsem_client s <= cnt is_client s;
  p_winc : cnt is_working s + cnt is_winc s <= cnt is_alive s;
  p_wait : cnt is_waiting s + cnt past_loops s <= cnt is_client s;
  p_pause : cnt is_pausing s + cnt destroying s <= cnt is_client s;
  p_spawn : cnt is_start s + cnt is_spawn s <= cnt is_init s;
  p_leaving_le : cnt is_leaving s <= cnt is_worker s;
}.

Lemma parts_hold s : parts s.
Proof.
  split; unfold cnt; rewrite <- ?count_add; try apply Z.le_antisymm;
    apply count_le; intros []; cbn; repeat case_match; cbn; lia.
Qed.

Lemma created_le N s :
  0 <= N → count (created N) s + N * cnt is_start s <= N * cnt is_init s.
Proof.
  intros HN. unfold cnt. rewrite <- !count_scale, <- count_add. apply count_le.
  intros []; cbn; lia.
Qed.

(** What a state in [pool_inv] allows a thread to be at. *)
Lemma at_start N s :
  0 <= N → pool_inv N s → 0 < cnt is_start s →
  ready (glb s) = false ∧ cnt is_worker s = 0 ∧ cnt is_busy s = 0.
Proof.
  intros HN HI Hs. pose proof (p_start _ (parts_hold s)). pose proof (created_le N s HN) as Hcr.
  pose proof (cnt_nonneg is_null s). pose proof (cnt_nonneg is_worker s).
  pose proof (i_phase _ _ HI) as Hp.
  destruct (ready (glb s)) eqn:Hr; cbn in Hp; [lia|].
  pose proof (i_created _ _ HI Hr). pose proof (i_idle _ _ HI Hr).
  assert (Hi : cnt is_init s = 1) by lia. assert (Hj : cnt is_start s = 1) by lia.
  rewrite Hi, Hj in Hcr. lia.
Qed.

Lemma none_busy s :
  cnt is_worker s = 0 → cnt is_busy s = 0 →
  cnt holds_th s = 0 ∧ cnt holds_rw s = 0 ∧ cnt holds_bs s = 0 ∧ cnt is_alive s = 0 ∧
  cnt is_working s = 0 ∧ cnt destroying s = 0 ∧ cnt is_leaving s = 0.
Proof.
  intros Hw Hb. destruct (parts_hold s).
  pose proof (cnt_nonneg is_new s). pose proof (cnt_nonneg is_gone s).
  pose proof (cnt_nonneg is_alive s). pose proof (cnt_nonneg is_working s).
  pose proof (cnt_nonneg holds_th s). pose proof (cnt_nonneg holds_rw s).
  pose proof (cnt_nonneg holds_bs s). pose proof (cnt_nonneg destroying s). lia.
Qed.

Lemma at_reset N s :
  calm s → pool_inv N s → 0 < cnt is_reset s → cnt holds_bs s = 0.
Proof.
  intros Hcalm HI Hr. destruct (parts_hold s). pose proof (i_past _ _ HI).
  pose proof (cnt_nonneg holds_bs s). destruct Hcalm; lia.
Qed.

Lemma calm_client s : calm s → 0 < cnt destroying s → cnt is_client s = 1 ∧ cnt is_busy s = 1.
Proof.
  intros Hcalm Hd. destruct (parts_hold s).
  pose proof (cnt_nonneg is_init s). pose proof (cnt_nonneg is_null s).
  destruct Hcalm; lia.
Qed.

Lemma at_destroy N s : pool_inv N s → 0 < cnt destroying s → cnt is_new s = 0.
Proof.
  intros HI Hd. destruct (ready (glb s)) eqn:Hr; [by eapply i_new|].
  apply (i_unready _ _ HI) in Hr. lia.
Qed.

Lemma not_leaving N s :
  0 <= N → pool_inv N s → cnt destroying s = 0 → cnt is_leaving s = 0.
Proof.
  intros HN HI Hd. pose proof (cnt_nonneg is_start s).
  destruct (decide (cnt is_start s = 0)) as [Hs|Hs].
  - by eapply i_leaving, i_keep.
  - destruct (at_start N s HN HI ltac:(lia)) as (_ & Hw & Hb). by apply none_busy.
Qed.

Lemma workers_le N s :
  0 <= N → Z.b2z (ready (glb s)) + cnt is_init s + cnt is_null s = 1 →
  (ready (glb s) = false → cnt is_worker s <= count (created N) s) →
  (ready (glb s) = true → cnt is_worker s = N) → cnt is_worker s <= N.
Proof.
  intros HN Hp Hcr Hf. pose proof (created_le N s HN). pose proof (cnt_nonneg is_null s).
  pose proof (cnt_nonneg is_start s). pose proof (cnt_nonneg is_init s).
  destruct (ready (glb s)); cbn in Hp; [specialize (Hf eq_refl)|specialize (Hcr eq_refl)]; nia.
Qed.

Section keep.
Context (N : Z) (s s' : sys) (c : choice) (p p' : pc) (g0 g : glob) (e : effect).
Hypothesis Hge : ∀ f : pc → Z, (∀ q, 0 <= f q) → f p <= count f s.
Hypothesis Hc : ∀ f : pc → Z, insens f → count f s' = count f s - f p + f p' + spawned e * f T_start.
Hypothesis He : exec c p g0 = Next (p', g, e).

(** The moving thread is counted before, and moved from one part to another. *)
Lemma moved (b : pc → bool) :
  b T_bwake = b T_bsleep → (∀ k, b (W_wake k) = b (W_sleep k)) →
  0 <= Z.b2z (b p) <= cnt b s ∧
  cnt b s' = cnt b s - Z.b2z (b p) + Z.b2z (b p') + spawned e * Z.b2z (b T_start).
Proof.
  intros H1 H2. split; [split; [apply b2z_nonneg|]|].
  - apply (Hge (λ q, Z.b2z (b q))). intros q. apply b2z_nonneg.
  - apply (Hc (λ q, Z.b2z (b q))). split; [by rewrite H1|intros k; by rewrite H2].
Qed.

Ltac follow b :=
  let G := fresh "G" in let C := fresh "C" in
  destruct (moved b) as [G C]; [done|done|].
Ltac by_exec :=
  clear Hge Hc; destruct g0; destruct p; try discriminate He; cbn -[Z.eqb Z.leb Z.max] in *;
  run_exec He; cbn -[Z.eqb Z.leb Z.max] in *; try lia.

Lemma keep_th :
  (is_start p = true → cnt holds_th s = 0) →
  cnt holds_th s = Z.b2z (thcount_lock g0) → cnt holds_th s' = Z.b2z (thcount_lock g).
Proof. intros H1 H2. follow holds_th. by_exec. Qed.

Lemma keep_rw :
  (is_start p = true → cnt holds_rw s = 0) →
  cnt holds_rw s = Z.b2z (rw_mutex g0) → cnt holds_rw s' = Z.b2z (rw_mutex g).
Proof. intros H1 H2. follow holds_rw. by_exec. Qed.

Lemma keep_bs :
  (is_start p = true ∨ is_reset p = true → cnt holds_bs s = 0) →
  cnt holds_bs s = Z.b2z (bsem_mutex g0) → cnt holds_bs s' = Z.b2z (bsem_mutex g).
Proof. intros H1 H2. follow holds_bs. by_exec. Qed.

Lemma keep_alive :
  (is_start p = true → cnt is_alive s = 0) →
  num_threads_alive g0 = cnt is_alive s → num_threads_alive g = cnt is_alive s'.
Proof. intros H1 H2. follow is_alive. by_exec. Qed.

Lemma keep_working :
  (is_start p = true → cnt is_working s = 0) →
  num_threads_working g0 = cnt is_working s → num_threads_working g = cnt is_working s'.
Proof. intros H1 H2. follow is_working. by_exec. Qed.

Lemma keep_phase :
  (is_start p = true → ready g0 = false) →
  Z.b2z (ready g0) + cnt is_init s + cnt is_null s = 1 →
  Z.b2z (ready g) + cnt is_init s' + cnt is_null s' = 1.
Proof. intros H1 H2. follow is_init. follow is_null. by_exec. Qed.

Lemma keep_pool :
  Z.b2z (pool_live g0) + cnt is_start s + cnt is_null s + cnt is_done s = 1 →
  Z.b2z (pool_live g) + cnt is_start s' + cnt is_null s' + cnt is_done s' = 1.
Proof. intros H1. follow is_start. follow is_null. follow is_done. by_exec. Qed.

Lemma keep_bsem :
  Z.b2z (bsem_live g0) + cnt is_start s + cnt is_null s + cnt past_bsem s = 1 →
  Z.b2z (bsem_live g) + cnt is_start s' + cnt is_null s' + cnt past_bsem s' = 1.
Proof. intros H1. follow is_start. follow is_null. follow past_bsem. by_exec. Qed.

(** A step of thpool_init is before [ready], the calls on the pool are behind it. *)
Lemma phases :
  Z.b2z (ready g0) + cnt is_init s + cnt is_null s = 1 →
  (ready g0 = false → cnt is_busy s = 0) →
  (is_init p = true → ready g0 = false) ∧ (is_busy p = true → ready g0 = true).
Proof.
  intros H1 H2. follow is_init. follow is_busy. clear Hge Hc.
  pose proof (cnt_nonneg is_null s).
  split; intros Hp; rewrite Hp in *; destruct (ready g0); cbn in *; try done; lia.
Qed.

Lemma keep_created :
  (is_init p = true → ready g0 = false) →
  (is_start p = true → cnt is_worker s = 0) → bad N p = false → 0 <= N →
  (ready g0 = false → cnt is_worker s <= count (created N) s) →
  ready g = false → cnt is_worker s' <= count (created N) s'.
Proof.
  intros H1 H2 H3 H4 H5. follow is_worker.
  assert (G1 := Hge (created N) (created_nonneg N)).
  assert (C1 := Hc (created N) ltac:(by split)). by_exec.
Qed.

Lemma keep_full :
  (is_init p = true → ready g0 = false) → bad N p = false →
  num_threads_alive g0 = cnt is_alive s → cnt is_worker s <= N → parts s →
  (ready g0 = true → cnt is_worker s = N ∧ cnt is_new s = 0) →
  ready g = true → cnt is_worker s' = N ∧ cnt is_new s' = 0.
Proof.
  intros H1 H2 H3 H4 H5%p_worker H6. follow is_worker. follow is_new.
  follow is_alive. pose proof (cnt_nonneg is_gone s). by_exec.
Qed.

Lemma keep_unready :
  (is_start p = true → ready g0 = false) →
  (is_busy p = true → ready g0 = true) →
  (ready g0 = false → cnt destroying s = 0 ∧ cnt is_busy s = 0) →
  ready g = false → cnt destroying s' = 0 ∧ cnt is_busy s' = 0.
Proof. intros H0 H1 H2. follow destroying. follow is_busy. by_exec. Qed.

Lemma keep_past :
  num_threads_alive g0 = cnt is_alive s → (is_destroy p = true → cnt is_new s = 0) →
  (0 < cnt past_loops s → cnt is_new s = 0) →
  cnt past_loops s = 0 ∨ cnt is_alive s = 0 → cnt past_loops s' = 0 ∨ cnt is_alive s' = 0.
Proof.
  intros H1 H2 H3 H4. follow past_loops. follow is_alive. follow is_new. by_exec.
Qed.

Lemma keep_keep :
  (cnt destroying s = 0 → cnt is_start s = 0 → threads_keepalive g0 = 1) →
  cnt destroying s' = 0 → cnt is_start s' = 0 → threads_keepalive g = 1.
Proof. intros H1. follow destroying. follow is_start. by_exec. Qed.

Lemma keep_dead :
  (is_start p = true → cnt destroying s = 0) →
  cnt destroying s = 0 ∨ threads_keepalive g0 = 0 →
  cnt destroying s' = 0 ∨ threads_keepalive g = 0.
Proof. intros H0 H1. follow destroying. by_exec. Qed.

Lemma keep_leaving :
  (is_start p = true → cnt is_leaving s = 0) →
  (threads_keepalive g0 = 1 → cnt is_leaving s = 0) →
  threads_keepalive g = 1 → cnt is_leaving s' = 0.
Proof. intros H0 H1. follow is_leaving. by_exec. Qed.

Lemma keep_bad :
  0 <= N → num_threads_alive g0 = cnt is_alive s → calm s' → parts s →
  (ready g0 = true → cnt is_worker s = N ∧ cnt is_new s = 0) →
  (cnt destroying s = 0 → cnt is_leaving s = 0) →
  cnt (bad N) s = 0 → cnt (bad N) s' = 0.
Proof.
  intros H0 H1 H2 Hp H3 H4 H5. follow (bad N). follow is_ready. follow is_client.
  follow destroying. pose proof (p_worker _ Hp). pose proof (p_leaving _ Hp).
  pose proof (p_ready _ Hp). pose proof (cnt_nonneg is_gone s). unfold calm in H2. by_exec.
Qed.

(** Who is behind the loops of thpool_destroy stays behind them. *)
Lemma keep_before_past : cnt past_loops s' = 0 → cnt past_loops s = 0.
Proof. intros H1. follow past_loops. by_exec. Qed.

Lemma keep_calm : calm s' → calm s.
Proof. unfold calm. intros H1. follow is_client. follow destroying. by_exec. Qed.

Lemma keep_v :
  bsem_v g0 = 0 ∨ bsem_v g0 = 1 → bsem_v g = 0 ∨ bsem_v g = 1.
Proof. intros H1. by_exec. Qed.

End keep.
