(* ===== verification/ThpoolSafe.v ===== *)
(** * The thread pool: what holds of every reachable state

    The lemmas of ThpoolInv put together: the invariant of the pool is kept by every step, the
    locks exclude, the counters count, and undefined behaviour is where thpool_destroy lets it. *)

From Stdlib Require Import ZifyBool.
From S2P Require Import Prelude CInt TransSys JobQueue Thpool ThpoolInv.

Open Scope Z_scope.

Lemma glb_after e n g :
  thcount_lock (after_effect e n g) = thcount_lock g ∧ rw_mutex (after_effect e n g) = rw_mutex g ∧
  bsem_mutex (after_effect e n g) = bsem_mutex g ∧
  num_threads_alive (after_effect e n g) = num_threads_alive g ∧
  num_threads_working (after_effect e n g) = num_threads_working g ∧
  ready (after_effect e n g) = ready g ∧ pool_live (after_effect e n g) = pool_live g ∧
  bsem_live (after_effect e n g) = bsem_live g ∧
  threads_keepalive (after_effect e n g) = threads_keepalive g ∧
  bsem_v (after_effect e n g) = bsem_v g.
Proof. by destruct e. Qed.

Lemma inv_thread N c p p' g e s s' :
  (∀ f, (∀ q, 0 <= f q) → f p <= count f s) →
  (∀ f : pc → Z, insens f → count f s' = count f s - f p + f p' + spawned e * f T_start) →
  exec c p (glb s) = Next (p', g, e) →
  glb s' = after_effect e (length (thr s)) g →
  0 <= N → calm s' → pool_inv N s → pool_inv N s'.
Proof.
  intros Hge Hc He Hg HN Hcalm HI.
  assert (Hcs : calm s) by by eapply keep_calm.
  assert (HP := parts_hold s). assert (HI' := HI). destruct HI'.
  assert (Hone : ∀ b, b p = true → 0 < cnt b s).
  { intros b Hb. pose proof (Hge (λ q, Z.b2z (b q)) ltac:(intros q; apply b2z_nonneg)) as H.
    cbn in H. rewrite Hb in H. unfold cnt. cbn in H. lia. }
  destruct (phases s s' p p' (glb s) e Hge Hc i_phase i_idle) as [Hinit Hbusy].
  assert (Hst : is_start p = true → ready (glb s) = false ∧ cnt is_worker s = 0 ∧ cnt is_busy s = 0).
  { intros H. eapply at_start; [done..|by apply Hone]. }
  assert (Hno : is_start p = true →
    cnt holds_th s = 0 ∧ cnt holds_rw s = 0 ∧ cnt holds_bs s = 0 ∧ cnt is_alive s = 0 ∧
    cnt is_working s = 0 ∧ cnt destroying s = 0 ∧ cnt is_leaving s = 0).
  { intros (_ & ? & ?)%Hst. by apply none_busy. }
  assert (Hbad : bad N p = false).
  { destruct (bad N p) eqn:Hb; [|done]. apply Hone in Hb. lia. }
  assert (Hfull : ready g = true → cnt is_worker s' = N ∧ cnt is_new s' = 0).
  { eapply keep_full; [done..|]. intros Hr. split; [by apply i_full|by apply i_new]. }
  assert (Hun : ready g = false → cnt destroying s' = 0 ∧ cnt is_busy s' = 0).
  { eapply keep_unready; [done..| |done|]; [by intros (? & _)%Hst|].
    intros Hr. split; [by apply i_unready|by apply i_idle]. }
  destruct (glb_after e (length (thr s)) g) as (E1 & E2 & E3 & E4 & E5 & E6 & E7 & E8 & E9 & E10).
  rewrite <- Hg in *.
  assert (Hph : Z.b2z (ready g) + cnt is_init s' + cnt is_null s' = 1).
  { eapply keep_phase; [done..| |done]. by intros (? & ? & ?)%Hst. }
  assert (Hcr : ready g = false → cnt is_worker s' <= count (created N) s').
  { eapply keep_created; [done..| |done|done|done]. by intros (? & ? & ?)%Hst. }
  split; rewrite ?E1, ?E2, ?E3, ?E4, ?E5, ?E6, ?E7, ?E8, ?E9, ?E10; try done.
  - eapply keep_th; [done..| |done]. apply Hno.
  - eapply keep_rw; [done..| |done]. apply Hno.
  - eapply keep_bs; [done..| |done]. intros [?|?%Hone]; [by apply Hno|by eapply at_reset].
  - eapply keep_alive; [done..| |done]. apply Hno.
  - eapply keep_working; [done..| |done]. apply Hno.
  - by eapply keep_pool.
  - by eapply keep_bsem.
  - apply Hfull.
  - apply workers_le; rewrite ?E6; [done..|apply Hfull].
  - apply Hun.
  - eapply keep_past; [done..| | |done].
    + intros Hd. apply (at_destroy N); [done|]. apply Hone. unfold destroying. by rewrite Hd.
    + intros Hd. apply (at_destroy N); [done|]. pose proof (p_past _ HP). by eapply Z.lt_le_trans.
  - eapply keep_keep; done.
  - eapply keep_dead; [done..| |done]. apply Hno.
  - eapply keep_leaving; [done..| |done]. apply Hno.
  - apply Hfull.
  - eapply keep_bad; [done..| | |done].
    + intros Hr. split; [by apply i_full|by apply i_new].
    + by apply (not_leaving N).
  - apply Hun.
  - by eapply keep_v.
Qed.

Lemma inv_env N v s s' :
  glb s' = set_threads_on_hold v (glb s) → (∀ f : pc → Z, insens f → count f s' = count f s) →
  calm s' → pool_inv N s → pool_inv N s'.
Proof.
  intros Hg Hc Hcalm [].
  assert (E : ∀ b, b T_bwake = b T_bsleep → (∀ k, b (W_wake k) = b (W_sleep k)) →
                   cnt b s' = cnt b s).
  { intros b H1 H2. apply (Hc (λ q, Z.b2z (b q))). split; [by rewrite H1|intros; by rewrite H2]. }
  split; rewrite ?Hg; cbn; rewrite ?E by done; try done.
  rewrite (Hc (created N)); done.
Qed.

Lemma calm_mono s s' : stepped s s' → calm s' → calm s.
Proof.
  intros [c p p' g e (i & t & Ht & Hp) He Hg Hc _|v Hg Hc _] Hcalm.
  - eapply (keep_calm s s' c p p' (glb s) g e); [|done..].
    intros f Hf. rewrite <- Hp. by apply (count_ge f s i).
  - unfold calm, cnt in *. rewrite !Hc in Hcalm by done. done.
Qed.

(** ** Reachable states *)

Definition pool_init (num_threads : Z) (others : nat) (s : sys) : Prop := s = sys0 num_threads others.

(** The states that a program which calls [thpool_init(num_threads)] and has [others] more
    clients can reach. *)
Definition pool_reachable (num_threads : Z) (others : nat) : sys → Prop :=
  reachable (pool_init num_threads others) step.

Lemma count_idle f n : count f (mk_sys (replicate n (idle_thread (C_ready 0))) glob0)
  = Z.of_nat n * f (C_ready 0).
Proof.
  unfold count. cbn [thr]. induction n as [|n IH]; [done|].
  cbn [replicate]. rewrite tsum_cons, IH. cbn [at_pc idle_thread]. lia.
Qed.

Lemma count_sys0 f n others :
  count f (sys0 n others) = f (I_start n) + Z.of_nat others * f (C_ready 0).
Proof.
  rewrite <- count_idle. unfold count, sys0. cbn [thr]. by rewrite tsum_cons.
Qed.

Lemma inv_init n others : pool_inv (Z.max 0 n) (sys0 n others).
Proof.
  split; unfold cnt; rewrite ?count_sys0; cbn -[Z.mul Z.eqb Z.max]; lia.
Qed.

Lemma pool_inv_reachable n others s :
  pool_reachable n others s → calm s → pool_inv (Z.max 0 n) s.
Proof.
  apply (invariant_reachable _ _ (λ s, calm s → pool_inv (Z.max 0 n) s)).
  - intros ? -> _. apply inv_init.
  - intros l s1 s2 _ IH Hs Hcalm. apply step_stepped in Hs as Hst.
    assert (Hc1 := calm_mono _ _ Hst Hcalm). specialize (IH Hc1).
    destruct Hst as [c p p' g e (i & t & Ht & Hp) He Hg Hc _|v Hg Hc _]; [|by eapply inv_env].
    eapply inv_thread; [|done..|lia|done|done]. intros f Hf. rewrite <- Hp.
    by apply (count_ge f s1 i).
Qed.
