(* ===== verification/ThpoolJobs.v ===== *)
(** * The thread pool: every job once, in order

    Which thread holds which job node, and what the queue, the heap of job nodes and the
    history have to do with each other in every reachable state. *)

From Stdlib Require Import ZifyBool.
From S2P Require Import Prelude CInt TransSys JobQueue Thpool ThpoolInv ThpoolSafe.

Open Scope Z_scope.

(** ** The nodes that threads hold *)

Definition ptr_list (p : ptr) : list positive := match p with Ptr a => [a] | _ => [] end.

Definition own (p : pc) : list positive :=
  match p with
  | A_lock a | A_body a | T_run a | T_free a => [a]
  | T_ppost _ j | T_punlock j | D_ppost _ _ j | D_punlock _ j | D_pfree _ j => ptr_list j
  | _ => []
  end.

(** The jobs pulled by a worker and not yet called. *)
Definition running (p : pc) : list positive :=
  match p with
  | T_ppost _ j | T_punlock j => ptr_list j
  | T_run a => [a]
  | _ => []
  end.

(** A pulled pointer is never indeterminate. *)
Definition junk (j : ptr) : bool := match j with Junk => true | _ => false end.
Definition is_junk (p : pc) : bool :=
  match p with
  | T_ppost _ j | T_punlock j | D_ppost _ _ j | D_punlock _ j | D_pfree _ j => junk j
  | _ => false
  end.

Lemma running_own s a : a ∈ held_by running s → a ∈ held_by own s.
Proof.
  unfold held_by, collect. intros (k & Ha & Hk)%list_elem_of_join.
  apply list_elem_of_fmap in Hk as (t & -> & Ht).
  apply list_elem_of_join. exists (own (at_pc t)). split.
  - destruct (at_pc t); cbn in *; try done; by apply elem_of_nil in Ha.
  - apply list_elem_of_fmap. by exists t.
Qed.

(** ** The invariant *)

(** [l] are the nodes in the queue; [dropped] the jobs that thpool_destroy pulled. *)
Record jobs_inv (s : sys) (l : list positive) (dropped : list entry) : Prop := {
  j_repr : queue_repr (job_queue (glb s)) l;
  j_len : is_int (len (job_queue (glb s)));
  j_nodup : NoDup (l ++ held_by own s);
  j_dom : ∀ a, a ∈ l ++ held_by own s ↔ is_Some (nodes (job_queue (glb s)) !! a);
  j_fresh : ∀ a, is_Some (nodes (job_queue (glb s)) !! a) → (a < fresh (job_queue (glb s)))%positive;
  j_sub : submitted (glb s) = started (glb s) ++ dropped ++ (entry_of (job_queue (glb s)) <$> l);
  j_drop : cnt past_loops s = 0 → dropped = [];
  j_run : finished (glb s) ++ (entry_of (job_queue (glb s)) <$> held_by running s)
          ≡ₚ started (glb s);
  j_ready : ready (glb s) = false → nodes (job_queue (glb s)) = ∅;
  j_reset : 0 < cnt is_reset s → l = [];
  j_junk : cnt is_junk s = 0;
}.

(** Steps that leave the queue and the history alone. *)
Lemma jobs_same s s' l d :
  job_queue (glb s') = job_queue (glb s) → submitted (glb s') = submitted (glb s) →
  started (glb s') = started (glb s) → finished (glb s') = finished (glb s) →
  (ready (glb s') = false → ready (glb s) = false) →
  held_by own s' ≡ₚ held_by own s → held_by running s' ≡ₚ held_by running s →
  (cnt past_loops s' = 0 → cnt past_loops s = 0) →
  (0 < cnt is_reset s' → 0 < cnt is_reset s ∨ len (job_queue (glb s)) = 0) →
  cnt is_junk s' <= cnt is_junk s → jobs_inv s l d → jobs_inv s' l d.
Proof.
  intros Hq Hsu Hst Hfi Hre Hown Hrun Hpast Hreset Hjunk [Jrepr Jlen Jnd Jdom Jfresh Jsub Jdrop Jrun Jready Jreset Jjunk].
  split; rewrite ?Hq, ?Hsu, ?Hst, ?Hfi; auto; try (pose proof (cnt_nonneg is_junk s'); lia).
  - by rewrite Hown.
  - intros a. by rewrite Hown.
  - by rewrite Hrun.
  - intros [H|H]%Hreset; [by apply Jreset|].
    rewrite (repr_len _ _ Jrepr) in H. by destruct l.
Qed.

(** The payload of the nodes survives a change of the queue. *)
Lemma entries_same q q' (l : list positive) :
  (∀ a, a ∈ l → entry_of q' a = entry_of q a) → entry_of q' <$> l = entry_of q <$> l.
Proof. intros H. apply list_fmap_ext. intros i a Ha. apply H. by eapply list_elem_of_lookup_2. Qed.

Lemma entry_linked q l a n b :
  queue_repr q l → nodes q !! a = Some n → entry_of (linked a n l q) b = entry_of q b.
Proof. intros. unfold entry_of. f_equal. by apply linked_nodes. Qed.

Lemma entry_nodes q q' a : nodes q' !! a = nodes q !! a → entry_of q' a = entry_of q a.
Proof. unfold entry_of. by intros ->. Qed.

(** A client allocates a node. *)
Lemma jobs_malloc s s' l d f x q' a :
  malloc_job f x (job_queue (glb s)) = Done a q' → job_queue (glb s') = q' →
  submitted (glb s') = submitted (glb s) → started (glb s') = started (glb s) →
  finished (glb s') = finished (glb s) → ready (glb s') = true →
  held_by own s' ≡ₚ held_by own s ++ [a] → held_by running s' ≡ₚ held_by running s →
  cnt past_loops s' = cnt past_loops s → cnt is_reset s' = cnt is_reset s →
  cnt is_junk s' <= cnt is_junk s →
  jobs_inv s l d → jobs_inv s' l d.
Proof.
  intros Hm Hq Hsu Hst Hfi Hre Hown Hrun Hpast Hreset Hjunk [Jrepr Jlen Jnd Jdom Jfresh Jsub Jdrop Jrun Jready Jreset Jjunk].
  unfold malloc_job in Hm. injection Hm as <- <-. set (q := job_queue (glb s)) in *.
  assert (Hfr : ¬ is_Some (nodes q !! fresh q)) by (intros ?%Jfresh; lia).
  assert (Hne : ∀ b, b ∈ l ++ held_by own s → b ≠ fresh q) by (intros b ?%Jdom ->; done).
  assert (Hen : ∀ k : list positive, (∀ b, b ∈ k → b ≠ fresh q) →
    entry_of (mk_job_queue (front q) (rear q) (len q) (<[fresh q:=mk_job_node Junk f x]> (nodes q))
                (Pos.succ (fresh q))) <$> k = entry_of q <$> k).
  { intros k Hk. apply entries_same. intros b Hb%Hk. apply entry_nodes. cbn.
    by rewrite lookup_insert_ne. }
  split; rewrite ?Hq, ?Hsu, ?Hst, ?Hfi, ?Hre, ?Hpast, ?Hreset; auto; try (pose proof (cnt_nonneg is_junk s'); lia).
  - apply queue_repr_malloc; [done|]. intros H. eapply Hne; [|done]. set_solver.
  - rewrite Hown, app_assoc. apply NoDup_app. split_and!; [done| |apply NoDup_singleton].
    intros b Hb ->%list_elem_of_singleton. by eapply Hne.
  - intros b. rewrite Hown. cbn. destruct (decide (b = fresh q)) as [->|Hb].
    + rewrite lookup_insert_eq. set_solver.
    + rewrite lookup_insert_ne by done. rewrite <- Jdom. set_solver.
  - intros b. cbn. destruct (decide (b = fresh q)) as [->|Hb]; [lia|].
    rewrite lookup_insert_ne by done. intros ?%Jfresh. lia.
  - rewrite Hen; [done|]. intros b Hb. apply Hne. set_solver.
  - rewrite Hrun, Hen; [done|]. intros b Hb. apply Hne. apply running_own in Hb. set_solver.
Qed.

(** A client links its node. *)
Lemma jobs_push s s' l d a q' u :
  jobqueue_push a (job_queue (glb s)) = Done u q' → job_queue (glb s') = q' →
  submitted (glb s') = submitted (glb s) ++ [entry_of (job_queue (glb s)) a] →
  started (glb s') = started (glb s) → finished (glb s') = finished (glb s) →
  ready (glb s') = true →
  held_by own s' ++ [a] ≡ₚ held_by own s → held_by running s' ≡ₚ held_by running s →
  cnt past_loops s' = 0 → cnt past_loops s = 0 → cnt is_reset s' = 0 →
  cnt is_junk s' <= cnt is_junk s →
  jobs_inv s l d → jobs_inv s' (l ++ [a]) d.
Proof.
  intros Hm Hq Hsu Hst Hfi Hre Hown Hrun Hpast Hpast' Hreset Hjunk
    [Jrepr Jlen Jnd Jdom Jfresh Jsub Jdrop Jrun Jready Jreset Jjunk].
  set (q := job_queue (glb s)) in *.
  assert (Hp : (l ++ [a]) ++ held_by own s' ≡ₚ l ++ held_by own s).
  { rewrite <- Hown. solve_Permutation. }
  rewrite <- Hp in Jnd. assert (Hal : a ∉ l).
  { apply NoDup_app in Jnd as (Jnd & _ & _). apply NoDup_app in Jnd as (_ & H & _).
    intros Ha. apply (H a Ha). by left. }
  assert (is_Some (nodes q !! a)) as [n Hn].
  { apply Jdom. rewrite <- Hp. set_solver. }
  rewrite (jobqueue_push_run q l a n Jrepr Hn Hal) in Hm. case_decide as Hi; [|done].
  injection Hm as _ Hq'. rewrite <- Hq' in Hq. clear Hq'.
  assert (He : ∀ b, entry_of (linked a n l q) b = entry_of q b) by (intros; by apply entry_linked).
  split; rewrite ?Hq, ?Hsu, ?Hst, ?Hfi, ?Hre, ?Hreset; try done; try (pose proof (cnt_nonneg is_junk s'); lia).
  - by apply linked_repr.
  - intros b. rewrite Hp, Jdom. by rewrite linked_dom.
  - intros b. rewrite linked_dom by done. apply Jfresh.
  - rewrite Jsub, fmap_app. rewrite (entries_same q (linked a n l q) l) by done. cbn.
    by rewrite He, <- !app_assoc.
  - intros _. by apply Jdrop.
  - rewrite Hrun, (entries_same q) by done. done.
Qed.

(** A node leaves the queue, pulled by a worker ([w]) or by thpool_destroy. *)
Lemma jobs_pull (w : bool) s s' l d job post q' :
  jobqueue_pull (job_queue (glb s)) = Done (job, post) q' → job_queue (glb s') = q' →
  submitted (glb s') = submitted (glb s) →
  started (glb s')
  = started (glb s) ++ (if w then entry_of (job_queue (glb s)) <$> ptr_list job else []) →
  finished (glb s') = finished (glb s) →
  (ready (glb s') = false → ready (glb s) = false) →
  held_by own s' ≡ₚ held_by own s ++ ptr_list job →
  held_by running s' ≡ₚ held_by running s ++ (if w then ptr_list job else []) →
  (if w then cnt past_loops s' = 0 ∧ cnt past_loops s = 0 else cnt past_loops s' ≠ 0) →
  (0 < cnt is_reset s' → 0 < cnt is_reset s) →
  cnt is_junk s' <= cnt is_junk s + Z.b2z (junk job) →
  jobs_inv s l d → ∃ l' d', jobs_inv s' l' d'.
Proof.
  intros Hm Hq Hsu Hst Hfi Hre Hown Hrun Hpast Hreset Hjunk
    [Jrepr Jlen Jnd Jdom Jfresh Jsub Jdrop Jrun Jready Jreset Jjunk].
  set (q := job_queue (glb s)) in *.
  rewrite (jobqueue_pull_run q l Jrepr Jlen) in Hm. injection Hm as <- <- Hq'.
  rewrite <- Hq' in Hq. clear Hq'. set (x := head_ptr l) in *.
  assert (Hl : l = ptr_list x ++ tail l) by by destruct l.
  assert (Hp : tail l ++ held_by own s' ≡ₚ l ++ held_by own s).
  { rewrite Hl at 2. rewrite Hown. solve_Permutation. }
  assert (He : ∀ k : list positive, entry_of (unlinked l q) <$> k = entry_of q <$> k).
  { intros k. apply entries_same. intros b _. apply entry_nodes. by rewrite unlinked_nodes. }
  exists (tail l), (if w then d else d ++ (entry_of q <$> ptr_list x)).
  split; rewrite ?Hq, ?He, ?unlinked_nodes, ?unlinked_fresh; auto; try (pose proof (cnt_nonneg is_junk s'); lia).
  - by apply unlinked_repr.
  - destruct l as [|? [|? ?]]; cbn in *; [done|done|]. pose proof (repr_len _ _ Jrepr) as Hlen.
    cbn in Hlen. int_unfold. lia.
  - by rewrite Hp.
  - intros b. by rewrite Hp.
  - rewrite Hsu, Jsub, Hst. rewrite Hl at 1. rewrite fmap_app.
    destruct w; [destruct Hpast as [_ ->%Jdrop]|]; rewrite ?app_nil_r, <- ?app_assoc; done.
  - destruct w; [intros _; apply Jdrop; tauto|done].
  - rewrite Hfi, Hst, Hrun, fmap_app, app_assoc, Jrun. by destruct w.
  - intros H%Hreset%Jreset. by rewrite H.
  - pose proof (cnt_nonneg is_junk s'). assert (junk x = false) as Hx by by destruct l.
    rewrite Hx in Hjunk. cbn in Hjunk. lia.
Qed.

(** A worker calls the job. *)
Lemma jobs_run s s' l d a :
  job_queue (glb s') = job_queue (glb s) → submitted (glb s') = submitted (glb s) →
  started (glb s') = started (glb s) →
  finished (glb s') = finished (glb s) ++ [entry_of (job_queue (glb s)) a] →
  (ready (glb s') = false → ready (glb s) = false) →
  held_by own s' ≡ₚ held_by own s → held_by running s' ++ [a] ≡ₚ held_by running s →
  cnt past_loops s' = cnt past_loops s → cnt is_reset s' = cnt is_reset s →
  cnt is_junk s' <= cnt is_junk s →
  jobs_inv s l d → jobs_inv s' l d.
Proof.
  intros Hq Hsu Hst Hfi Hre Hown Hrun Hpast Hreset Hjunk
    [Jrepr Jlen Jnd Jdom Jfresh Jsub Jdrop Jrun Jready Jreset Jjunk].
  split; rewrite ?Hq, ?Hsu, ?Hst, ?Hfi, ?Hpast, ?Hreset; auto; try (pose proof (cnt_nonneg is_junk s'); lia).
  - by rewrite Hown.
  - intros b. by rewrite Hown.
  - rewrite <- Jrun, <- Hrun, fmap_app. cbn. solve_Permutation.
Qed.

(** A node is freed. *)
Lemma jobs_free s s' l d a q' u :
  free_job (Ptr a) (job_queue (glb s)) = Done u q' → job_queue (glb s') = q' →
  submitted (glb s') = submitted (glb s) → started (glb s') = started (glb s) →
  finished (glb s') = finished (glb s) → (ready (glb s') = false → ready (glb s) = false) →
  held_by own s' ++ [a] ≡ₚ held_by own s → held_by running s' ≡ₚ held_by running s →
  cnt past_loops s' = cnt past_loops s → cnt is_reset s' = cnt is_reset s →
  cnt is_junk s' <= cnt is_junk s →
  jobs_inv s l d → jobs_inv s' l d.
Proof.
  intros Hm Hq Hsu Hst Hfi Hre Hown Hrun Hpast Hreset Hjunk
    [Jrepr Jlen Jnd Jdom Jfresh Jsub Jdrop Jrun Jready Jreset Jjunk].
  set (q := job_queue (glb s)) in *.
  assert (Hp : (l ++ held_by own s') ++ [a] ≡ₚ l ++ held_by own s).
  { rewrite <- Hown. solve_Permutation. }
  rewrite <- Hp in Jnd. apply NoDup_app in Jnd as (Jnd & Hna & _).
  assert (Ha : ∀ b, b ∈ l ++ held_by own s' → b ≠ a).
  { intros b Hb ->. apply (Hna a Hb). by left. }
  unfold free_job in Hm. assert (is_Some (nodes q !! a)) as [n Hn].
  { apply Jdom. rewrite <- Hp. set_solver. }
  rewrite (bind_done _ _ _ _ _ (load_ptr a n q Hn)) in Hm. injection Hm as _ Hq'.
  rewrite <- Hq' in Hq. clear Hq'.
  assert (He : ∀ k : list positive, (∀ b, b ∈ k → b ≠ a) →
    entry_of (set_nodes (delete a (nodes q)) q) <$> k = entry_of q <$> k).
  { intros k Hk. apply entries_same. intros b Hb%Hk. apply entry_nodes. cbn.
    by rewrite lookup_delete_ne. }
  split; rewrite ?Hq, ?Hsu, ?Hst, ?Hfi, ?Hpast, ?Hreset; auto; try (pose proof (cnt_nonneg is_junk s'); lia).
  - apply queue_repr_free; [done|]. intros Hal. eapply Ha; [|done]. set_solver.
  - intros b. cbn. destruct (decide (b = a)) as [->|Hb].
    + rewrite lookup_delete_eq. split; [intros H%Ha; congruence|by intros [? ?]].
    + rewrite lookup_delete_ne by done. rewrite <- Jdom, <- Hp. set_solver.
  - intros b. cbn. intros [m [_ Hm]%lookup_delete_Some]. apply Jfresh. by exists m.
  - rewrite He; [done|]. intros b Hb. apply Ha. set_solver.
  - rewrite Hrun, He; [done|]. intros b Hb. apply Ha. rewrite <- Hrun in Hb.
    apply running_own in Hb. set_solver.
  - intros H%Hre%Jready. cbn. rewrite H. apply delete_empty.
Qed.

(** thpool_init and jobqueue_clear store an empty queue where there is one. *)
Lemma jobs_emptied s s' d :
  front (job_queue (glb s')) = Null → rear (job_queue (glb s')) = Null →
  len (job_queue (glb s')) = 0 → nodes (job_queue (glb s')) = nodes (job_queue (glb s)) →
  fresh (job_queue (glb s')) = fresh (job_queue (glb s)) →
  submitted (glb s') = submitted (glb s) → started (glb s') = started (glb s) →
  finished (glb s') = finished (glb s) → (ready (glb s') = false → ready (glb s) = false) →
  held_by own s' ≡ₚ held_by own s → held_by running s' ≡ₚ held_by running s →
  (cnt past_loops s' = 0 → cnt past_loops s = 0) → cnt is_junk s' <= cnt is_junk s →
  jobs_inv s [] d → jobs_inv s' [] d.
Proof.
  intros Hf Hr Hl Hn Hfr Hsu Hst Hfi Hre Hown Hrun Hpast Hjunk
    [Jrepr Jlen Jnd Jdom Jfresh Jsub Jdrop Jrun Jready Jreset Jjunk].
  assert (He : ∀ k : list positive,
    entry_of (job_queue (glb s')) <$> k = entry_of (job_queue (glb s)) <$> k).
  { intros k. apply entries_same. intros b _. apply entry_nodes. by rewrite Hn. }
  split; rewrite ?He, ?Hn, ?Hsu, ?Hst, ?Hfi, ?Hfr; auto; try (pose proof (cnt_nonneg is_junk s'); lia).
  - split; [done|done|by rewrite Hl|constructor].
  - by rewrite Hl.
  - by rewrite Hown.
  - intros b. by rewrite Hown.
  - by rewrite Hrun.
Qed.

Lemma jobs_unready s l d : ready (glb s) = false → jobs_inv s l d → jobs_inv s [] d.
Proof.
  intros Hr Hj. assert (l = []) as ->; [|done].
  destruct l as [|a l]; [done|]. assert (is_Some (nodes (job_queue (glb s)) !! a)) as [n Hn].
  { apply (j_dom _ _ _ Hj). by left. }
  by rewrite (j_ready _ _ _ Hj Hr), lookup_empty in Hn.
Qed.

(** ** Every step keeps it *)

Lemma at_body s : calm s → 0 < cnt is_body s → cnt past_loops s = 0 ∧ cnt is_reset s = 0.
Proof.
  intros Hcalm Hb. destruct (parts_hold s). pose proof (cnt_nonneg past_loops s).
  pose proof (cnt_nonneg is_reset s). destruct Hcalm; lia.
Qed.

Lemma at_alive N s : pool_inv N s → 0 < cnt is_alive s → cnt past_loops s = 0.
Proof. intros HI Ha. destruct (i_past _ _ HI); [done|lia]. Qed.

Lemma load_same p q x q' : load p q = Done x q' → q' = q.
Proof. unfold load. repeat case_match; intros; by simplify_eq. Qed.

(** What a step of a thread says of [own], [running], the history and the parts of the code. *)
Ltac jobs_facts :=
  cbn; rewrite ?app_nil_r;
  first [done |
    match goal with H : held_by ?f _ ++ _ ≡ₚ _ |- ?x ≡ₚ _ =>
      lazymatch x with context [held_by f _] => idtac end;
      cbn in H; rewrite ?app_nil_r in H; first [exact H | by apply Permutation_app_inv_r in H]
    end | assumption | (intros; first [assumption | discriminate]) | lia | (intros; lia) ].

Lemma jobs_thread N c p p' g e s s' l d :
  (∀ f : pc → Z, (∀ q, 0 <= f q) → f p <= count f s) →
  (∀ f : pc → Z, insens f → count f s' = count f s - f p + f p' + spawned e * f T_start) →
  (∀ f : pc → list positive, insens f → f T_start = [] →
     held_by f s' ++ f p ≡ₚ held_by f s ++ f p') →
  exec c p (glb s) = Next (p', g, e) →
  glb s' = after_effect e (length (thr s)) g →
  0 <= N → calm s → pool_inv N s → jobs_inv s l d → ∃ l' d', jobs_inv s' l' d'.
Proof.
  intros Hge Hc Hl He Hg HN Hcalm HI HJ.
  assert (Hone : ∀ b, b p = true → 0 < cnt b s).
  { intros b Hb. pose proof (Hge (λ q, Z.b2z (b q)) ltac:(intros q; apply b2z_nonneg)) as H.
    cbn in H. rewrite Hb in H. unfold cnt. cbn in H. lia. }
  assert (Hst : is_start p = true → ready (glb s) = false ∧ jobs_inv s [] d).
  { intros H%Hone%(at_start N); [|done..]. destruct H as (H & _). split; [done|].
    by eapply jobs_unready. }
  assert (Hbo : is_body p = true →
    ready (glb s) = true ∧ cnt past_loops s = 0 ∧ cnt is_reset s = 0).
  { intros H. split; [|by apply at_body, Hone].
    eapply phases; [done..|by apply (i_phase N)|by apply (i_idle N)|by destruct p]. }
  assert (Hal : is_alive p = true → cnt past_loops s = 0).
  { intros H%Hone. by eapply at_alive. }
  assert (Hrs : is_reset p = true → jobs_inv s [] d).
  { intros H%Hone. by rewrite <- (j_reset _ _ _ HJ H). }
  destruct (moved s s' p p' e Hge Hc past_loops) as [Gp Cp]; [done|done|].
  destruct (moved s s' p p' e Hge Hc is_reset) as [Gr Cr]; [done|done|].
  destruct (moved s s' p p' e Hge Hc is_junk) as [Gj Cj]; [done|done|].
  assert (Lo := Hl own ltac:(by split) eq_refl).
  assert (Lr := Hl running ltac:(by split) eq_refl). clear Hge Hc Hl Hone HI Hcalm.
  destruct p; try discriminate He; cbn in Gp, Gr, Gj, Cp, Cr, Cj.
  all: run_exec He; cbn in Cp, Cr, Cj.
  all: try match goal with H : load _ _ = Done _ ?q |- _ =>
    pose proof (load_same _ _ _ _ H) as Hq'; subst q end.
  all: try match goal with H : free_job ?j _ = Done _ _ |- _ => is_var j; destruct j; try discriminate H end.
  all: lazymatch type of Lo with
    | _ ++ own (I_start _) ≡ₚ _ ++ own (I_spawn _ _) =>
        destruct (Hst eq_refl); exists [], d; apply (jobs_emptied s s')
    | _ ++ own (D_reset _) ≡ₚ _ =>
        assert (Hrs0 := Hrs eq_refl); exists [], d; apply (jobs_emptied s s')
    | _ ++ own (C_ready _) ≡ₚ _ ++ own (A_lock _) =>
        exists l, d; eapply (jobs_malloc s s'); [eassumption|..]
    | _ ++ own (A_body _) ≡ₚ _ =>
        destruct (Hbo eq_refl) as (? & ? & ?); eexists _, d; eapply (jobs_push s s'); [eassumption|..]
    | _ ++ own (D_pbody _) ≡ₚ _ => eapply (jobs_pull false s s' l d); [eassumption|..]
    | _ ++ own T_pbody ≡ₚ _ =>
        assert (Hal0 := Hal eq_refl); eapply (jobs_pull true s s' l d); [eassumption|..]
    | _ ++ own (T_run ?a) ≡ₚ _ => exists l, d; apply (jobs_run s s' l d a)
    | _ ++ own (T_free _) ≡ₚ _ => exists l, d; eapply (jobs_free s s'); [eassumption|..]
    | _ ++ own (D_pfree _ (Ptr _)) ≡ₚ _ =>
        exists l, d; eapply (jobs_free s s'); [eassumption|..]
    | _ => exists l, d; apply (jobs_same s s')
    end; clear Hst Hbo Hal Hrs; rewrite ?Hg; try (jobs_facts; fail).
  all: match goal with
    | H : free_job Null ?q = ?r |- _ => change (Done tt q = r) in H
    | H : jobqueue_clear_end _ = Done _ _ |- _ => rewrite jobqueue_clear_end_run in H
    end.
  all: match goal with H : Done _ _ = Done _ _ |- _ => injection H as _ <- end; reflexivity.
Qed.

Lemma jobs_env v s s' l d :
  glb s' = set_threads_on_hold v (glb s) → (∀ f : pc → Z, insens f → count f s' = count f s) →
  (∀ f : pc → list positive, insens f → held_by f s' = held_by f s) →
  jobs_inv s l d → jobs_inv s' l d.
Proof.
  intros Hg Hc Hl. assert (E : ∀ b, b T_bwake = b T_bsleep → (∀ k, b (W_wake k) = b (W_sleep k)) →
                   cnt b s' = cnt b s).
  { intros b H1 H2. apply (Hc (λ q, Z.b2z (b q))). split; [by rewrite H1|intros; by rewrite H2]. }
  apply jobs_same; rewrite ?Hg; try done; rewrite ?Hl, ?E by done; auto; try (pose proof (cnt_nonneg is_junk s'); lia).
Qed.

Lemma jobs_init n others : jobs_inv (sys0 n others) [] [].
Proof.
  assert (Hh : ∀ f : pc → list positive, f (I_start n) = [] → f (C_ready 0) = [] →
    held_by f (sys0 n others) = []).
  { intros f H1 H2. unfold held_by, sys0, collect. cbn [thr fmap list_fmap at_pc idle_thread].
    cbn. rewrite H1. cbn. induction others as [|k IH]; [done|]. cbn. by rewrite H2. }
  assert (Hj : cnt is_junk (sys0 n others) = 0) by (unfold cnt; rewrite count_sys0; cbn; lia).
  split; rewrite ?Hh by done; try exact Hj; cbn; try done.
  - by split; [| | |constructor].
  - constructor.
  - intros a. rewrite lookup_empty. split; [by intros ?%elem_of_nil|by intros []].
  - intros a. rewrite lookup_empty. by intros [].
Qed.

Lemma jobs_reachable n others s :
  pool_reachable n others s → calm s → ∃ l d, jobs_inv s l d.
Proof.
  apply (invariant_reachable _ _ (λ s, calm s → ∃ l d, jobs_inv s l d)).
  - intros s0 Hs0 _. unfold pool_init in Hs0. subst s0. exists [], []. apply jobs_init.
  - intros lb s1 s2 Hr IH Hs Hcalm. apply step_stepped in Hs as Hst.
    assert (Hc1 := calm_mono _ _ Hst Hcalm). destruct (IH Hc1) as (l & d & HJ).
    destruct Hst as [c p p' g e (i & t & Ht & Hp) He Hg Hc Hl|v Hg Hc Hl].
    + eapply (jobs_thread (Z.max 0 n)); [|done..|lia|done|by eapply pool_inv_reachable|done].
      intros f Hf. rewrite <- Hp. by apply (count_ge f s1 i).
    + exists l, d. by eapply jobs_env.
Qed.
