(* ===== verification/ThpoolUb.v ===== *)
(** * The thread pool: undefined behaviour

    The array of thread objects, and that no [step] of a run in which thpool_destroy is called by
    the only client or not at all is undefined, but for one (ThpoolPosix has the other, of
    [posix_step]): a worker that unlocks
    [thcount_lock] for the last time after thpool_destroy has freed the pool. *)

From Stdlib Require Import ZifyBool.
From S2P Require Import Prelude CInt TransSys JobQueue Thpool ThpoolInv ThpoolSafe ThpoolJobs.

Open Scope Z_scope.

(** ** One thread in a part of the code *)

Lemma tsum_none {A} (f g : A → Z) ts :
  (∀ t, 0 <= g t) → (∀ t, g t = 0 → f t = 0) → tsum g ts <= 0 → tsum f ts = 0.
Proof.
  intros Hg Hf. induction ts as [|t ts IH]; [done|]. rewrite !tsum_cons. intros H.
  pose proof (Hg t). pose proof (tsum_nonneg g ts Hg). rewrite (Hf t), IH; lia.
Qed.

Lemma tsum_unique {A} (f g : A → Z) ts i t :
  (∀ t, 0 <= g t) → (∀ t, g t = 0 → f t = 0) → ts !! i = Some t → g t = 1 → tsum g ts <= 1 →
  tsum f ts = f t.
Proof.
  intros Hg Hf. revert i. induction ts as [|u ts IH]; intros [|i] Ht H1 Hs; try done;
    rewrite tsum_cons in *; cbn in Ht; simplify_eq.
  - rewrite (tsum_none f g ts Hg Hf); lia.
  - pose proof (Hg u). pose proof (tsum_ge g ts i t Hg Ht).
    rewrite (IH i Ht H1), (Hf u); lia.
Qed.

Lemma count_unique f (b : pc → bool) s i t :
  (∀ q, b q = false → f q = 0) → thr s !! i = Some t → b (at_pc t) = true → cnt b s <= 1 →
  count f s = f (at_pc t).
Proof.
  intros Hf Ht Hb Hs. apply (tsum_unique (λ t, f (at_pc t)) (λ t, Z.b2z (b (at_pc t))) _ i);
    [intros; apply b2z_nonneg| |done|by rewrite Hb|done].
  intros u Hu. apply Hf. destruct (b (at_pc u)); [done|done].
Qed.

(** ** The array of threads *)

Definition is_live (x : thread_ptr) : bool := match x with TLive _ => true | _ => false end.
Definition lives (l : list thread_ptr) : Z := tsum (λ x, Z.b2z (is_live x)) l.

(** The thread objects that thpool_destroy has freed. *)
Definition freed (N : Z) (p : pc) : Z :=
  match p with D_threads n _ => Z.max 0 (Z.min N n) | D_free | C_done => N | _ => 0 end.

Record arr_inv (N : Z) (s : sys) : Prop := {
  a_len : cnt is_start s = 0 → cnt is_null s = 0 → Z.of_nat (length (threads (glb s))) = N;
  a_null : ready (glb s) = false → ∀ (k : nat) x,
    count (created N) s <= Z.of_nat k → threads (glb s) !! k = Some x → x = TNull;
  a_live : cnt past_bsem s = 0 → lives (threads (glb s)) = cnt is_worker s;
  a_all : ready (glb s) = true → ∀ k : nat,
    count (freed N) s <= Z.of_nat k < N → ∃ t, threads (glb s) !! k = Some (TLive t);
}.

Lemma lives_insert l n x y :
  l !! n = Some x → lives (<[n := y]> l) = lives l - Z.b2z (is_live x) + Z.b2z (is_live y).
Proof. intros H. unfold lives. by rewrite (tsum_insert _ _ _ _ _ H). Qed.

(** An array with as many live entries as entries has only live ones. *)
Lemma lives_le l : lives l <= Z.of_nat (length l).
Proof.
  induction l as [|x l IH]; [done|]. unfold lives in *. rewrite tsum_cons. cbn [length].
  destruct x; cbn [is_live Z.b2z]; lia.
Qed.

Lemma lives_all l k :
  lives l = Z.of_nat (length l) → (k < length l)%nat → ∃ t, l !! k = Some (TLive t).
Proof.
  revert k. induction l as [|x l IH]; intros k H Hk; [cbn in Hk; lia|].
  pose proof (lives_le l). unfold lives in *. rewrite tsum_cons in H. cbn [length] in *.
  destruct x as [| |t]; cbn [is_live Z.b2z] in H; try lia.
  destruct k as [|k]; [by exists t|]. apply IH; lia.
Qed.

Lemma arr_same N s s' :
  threads (glb s') = threads (glb s) →
  (cnt is_start s' = 0 → cnt is_null s' = 0 → cnt is_start s = 0 ∧ cnt is_null s = 0) →
  (ready (glb s') = false → ready (glb s) = false) →
  count (created N) s <= count (created N) s' →
  (cnt past_bsem s' = 0 → cnt past_bsem s = 0) → cnt is_worker s' = cnt is_worker s →
  (ready (glb s') = true → ready (glb s) = true) → count (freed N) s <= count (freed N) s' →
  arr_inv N s → arr_inv N s'.
Proof.
  intros Ht H1 H2 H3 H4 H5 H6 H7 HA. split; rewrite Ht, ?H5.
  - intros Hs Hn. destruct (H1 Hs Hn). by apply (a_len _ _ HA).
  - intros Hr k x Hk. apply (a_null _ _ HA); [auto|lia].
  - intros Hp. apply (a_live _ _ HA). auto.
  - intros Hr k Hk. apply (a_all _ _ HA); [auto|lia].
Qed.

(** thpool_init stores the entry of one thread, [d] workers are created with it. *)
Lemma arr_spawn N s s' n x :
  threads (glb s') = <[Z.to_nat n := x]> (threads (glb s)) → 0 <= n < N →
  count (created N) s = n → count (created N) s' = n + 1 →
  cnt is_start s = 0 → cnt is_null s = 0 → ready (glb s) = false → ready (glb s') = false →
  cnt past_bsem s = 0 → cnt is_worker s' = cnt is_worker s + Z.b2z (is_live x) →
  arr_inv N s → arr_inv N s'.
Proof.
  intros Ht Hn Hc Hc' Hs Hu Hr Hr' Hp Hw HA.
  pose proof (a_len _ _ HA Hs Hu) as Hlen.
  assert (is_Some (threads (glb s) !! Z.to_nat n)) as [y Hy] by (apply lookup_lt_is_Some; lia).
  assert (y = TNull) as -> by (apply (a_null _ _ HA Hr (Z.to_nat n)); [lia|done]).
  split; rewrite Ht.
  - intros _ _. by rewrite length_insert.
  - intros _ k z Hk. rewrite list_lookup_insert_ne by lia. apply (a_null _ _ HA Hr). lia.
  - intros _. rewrite (lives_insert _ _ _ _ Hy), (a_live _ _ HA Hp), Hw. cbn. lia.
  - by rewrite Hr'.
Qed.

(** thpool_destroy frees the object of one thread. *)
Lemma arr_free N s s' n :
  threads (glb s') = <[Z.to_nat n := TFreed]> (threads (glb s)) → 0 <= n →
  count (freed N) s = n → count (freed N) s' = n + 1 → cnt past_bsem s' ≠ 0 →
  ready (glb s) = true → ready (glb s') = true →
  (cnt is_start s' = 0 → cnt is_null s' = 0 → cnt is_start s = 0 ∧ cnt is_null s = 0) →
  arr_inv N s → arr_inv N s'.
Proof.
  intros Ht Hn Hf Hf' Hp Hr Hr' Hs HA. split; rewrite Ht.
  - intros H1 H2. destruct (Hs H1 H2). rewrite length_insert. by apply (a_len _ _ HA).
  - by rewrite Hr'.
  - done.
  - intros _ k Hk. rewrite list_lookup_insert_ne by lia. apply (a_all _ _ HA Hr). lia.
Qed.

Lemma freed_nonneg N p : 0 <= N → 0 <= freed N p.
Proof. destruct p; cbn; lia. Qed.

Lemma lives_replicate n : lives (replicate n TNull) = 0.
Proof. induction n as [|n IH]; [done|]. unfold lives in *. cbn [replicate]. by rewrite tsum_cons, IH. Qed.

(** The array that thpool_init allocates. *)
Lemma arr_new N s' :
  0 <= N → threads (glb s') = replicate (Z.to_nat N) TNull → ready (glb s') = false →
  cnt is_worker s' = 0 → arr_inv N s'.
Proof.
  intros HN Ht Hr Hw. split; rewrite Ht, ?Hr; try done.
  - intros _ _. rewrite length_replicate. lia.
  - intros _ k x _ [-> _]%lookup_replicate. done.
  - intros _. by rewrite lives_replicate, Hw.
Qed.

(** thpool_init returns: every entry is live. *)
Lemma arr_ready N s s' :
  threads (glb s') = threads (glb s) → ready (glb s') = true → cnt past_bsem s = 0 →
  cnt is_worker s = N → cnt is_worker s' = N → cnt is_start s = 0 → cnt is_null s = 0 →
  0 <= count (freed N) s' → cnt past_bsem s' = 0 → arr_inv N s → arr_inv N s'.
Proof.
  intros Ht Hr Hp Hw Hw' Hs Hn Hf Hp' HA. pose proof (a_len _ _ HA Hs Hn) as Hlen.
  pose proof (a_live _ _ HA Hp) as Hl. split; rewrite Ht.
  - done.
  - by rewrite Hr.
  - intros _. lia.
  - intros _ k Hk. apply lives_all; lia.
Qed.

Lemma arr_thread N c i t p' g e s s' :
  thr s !! i = Some t →
  (∀ f : pc → Z, insens f →
     count f s' = count f s - f (at_pc t) + f p' + spawned e * f T_start) →
  exec c (at_pc t) (glb s) = Next (p', g, e) →
  glb s' = after_effect e (length (thr s)) g →
  0 <= N → calm s → pool_inv N s → arr_inv N s → arr_inv N s'.
Proof.
  intros Ht Hc He Hg HN Hcalm HI HA.
  assert (Hge : ∀ f : pc → Z, (∀ q, 0 <= f q) → f (at_pc t) <= count f s).
  { intros f Hf. by apply (count_ge f s i). }
  pose proof (i_phase _ _ HI) as Hph. pose proof (parts_hold s) as HP.
  pose proof (cnt_nonneg is_null s). pose proof (cnt_nonneg is_init s).
  assert (Hbad : bad N (at_pc t) = false).
  { destruct (bad N (at_pc t)) eqn:Hb; [|done]. pose proof (i_bad _ _ HI) as Hb0.
    pose proof (Hge (λ q, Z.b2z (bad N q)) ltac:(intros; apply b2z_nonneg)) as H1.
    cbn in H1. rewrite Hb in H1. unfold cnt in Hb0. rewrite Hb0 in H1. cbn in H1. lia. }
  assert (Hin : is_init (at_pc t) = true → count (created N) s = created N (at_pc t)).
  { intros Hi. apply (count_unique _ is_init s i t); [by intros []|done|done|].
    destruct (ready (glb s)); cbn in Hph; lia. }
  assert (Hpb : past_bsem (at_pc t) = true → count (freed N) s = freed N (at_pc t)).
  { intros Hi. apply (count_unique _ past_bsem s i t); [by intros []|done|done|].
    assert (0 < cnt past_bsem s).
    { pose proof (Hge (λ q, Z.b2z (past_bsem q)) ltac:(intros; apply b2z_nonneg)) as H1.
      cbn in H1. rewrite Hi in H1. unfold cnt. cbn in H1. lia. }
    destruct (calm_client s Hcalm) as [Hcl Hbu]; destruct HP; lia. }
  assert (Hone : ∀ b, b (at_pc t) = true → 0 < cnt b s).
  { intros b Hb. pose proof (Hge (λ q, Z.b2z (b q)) ltac:(intros q; apply b2z_nonneg)) as H1.
    cbn in H1. rewrite Hb in H1. unfold cnt. cbn in H1. lia. }
  assert (Hst : is_start (at_pc t) = true → cnt is_worker s = 0).
  { intros H1%Hone. by destruct (at_start N s HN HI H1) as (_ & ? & _). }
  assert (Hsp : is_spawn (at_pc t) = true →
    ready (glb s) = false ∧ cnt is_start s = 0 ∧ cnt is_null s = 0 ∧ cnt past_bsem s = 0).
  { intros H1%Hone. pose proof (cnt_nonneg is_start s). pose proof (cnt_nonneg past_bsem s).
    pose proof (p_spawn _ HP).
    assert (Hr : ready (glb s) = false) by (destruct (ready (glb s)); cbn in Hph; [lia|done]).
    pose proof (i_unready _ _ HI Hr). pose proof (p_past _ HP). pose proof (p_bsem _ HP). lia. }
  assert (Hal : num_threads_alive (glb s) = N → cnt is_worker s = N).
  { intros H1. rewrite (i_alive _ _ HI) in H1. pose proof (i_workers _ _ HI).
    pose proof (p_worker _ HP). pose proof (cnt_nonneg is_new s). pose proof (cnt_nonneg is_gone s).
    lia. }
  pose proof (count_nonneg (freed N) s' ltac:(intros q; by apply freed_nonneg)) as Hfr.
  destruct (phases s s' (at_pc t) p' (glb s) e Hge Hc Hph (i_idle _ _ HI)) as [Hinit Hbusy].
  assert (Cc := Hc (created N) ltac:(by split)). assert (Cf := Hc (freed N) ltac:(by split)).
  destruct (moved s s' (at_pc t) p' e Hge Hc is_start) as [Gs Cs]; [done|done|].
  destruct (moved s s' (at_pc t) p' e Hge Hc is_null) as [Gn Cn]; [done|done|].
  destruct (moved s s' (at_pc t) p' e Hge Hc past_bsem) as [Gb Cb]; [done|done|].
  destruct (moved s s' (at_pc t) p' e Hge Hc is_worker) as [Gw Cw]; [done|done|].
  clear Hge Hc Hcalm Hone HI HP Hph.
  set (p := at_pc t) in *. clearbody p.
  destruct p; try discriminate He; cbn -[Z.eqb Z.leb Z.max Z.min] in *.
  all: run_exec He; cbn -[Z.eqb Z.leb Z.max Z.min] in *.
  all: try (apply (arr_same N s s'); rewrite ?Hg; cbn;
            first [done | lia | (intros; lia) | (intros; done)]; fail).
  all: try (specialize (Hst eq_refl); apply arr_new;
            [done|rewrite Hg; first [replace N with 0 by lia; done | replace N with num_threads by lia; done]
            |by rewrite Hg|lia]; fail).
  all: try (destruct (Hsp eq_refl) as (? & ? & ? & ?); specialize (Hin eq_refl);
            eapply (arr_spawn N s s' n); [rewrite Hg; reflexivity|..];
            rewrite ?Hg; cbn; first [done|lia]; fail).
  all: try (destruct (Hsp eq_refl) as (? & ? & ? & ?);
            apply (arr_ready N s s'); rewrite ?Hg; cbn; first [done|lia]; fail).
  specialize (Hpb eq_refl). specialize (Hbusy eq_refl).
  apply (arr_free N s s' n); rewrite ?Hg; cbn; first [done|lia].
Qed.

Lemma arr_env N v s s' :
  glb s' = set_threads_on_hold v (glb s) → (∀ f : pc → Z, insens f → count f s' = count f s) →
  arr_inv N s → arr_inv N s'.
Proof.
  intros Hg Hc. assert (E : ∀ b, b T_bwake = b T_bsleep → (∀ k, b (W_wake k) = b (W_sleep k)) →
                   cnt b s' = cnt b s).
  { intros b H1 H2. apply (Hc (λ q, Z.b2z (b q))). split; [by rewrite H1|intros; by rewrite H2]. }
  apply arr_same; rewrite ?Hg; try done; rewrite ?E by done; rewrite ?Hc by done; done.
Qed.

Lemma arr_reachable n others s :
  pool_reachable n others s → calm s → arr_inv (Z.max 0 n) s.
Proof.
  apply (invariant_reachable _ _ (λ s, calm s → arr_inv (Z.max 0 n) s)).
  - intros s0 Hs0 _. unfold pool_init in Hs0. subst s0.
    assert (E : ∀ b, cnt b (sys0 n others) = Z.b2z (b (I_start n)) + Z.of_nat others * Z.b2z (b (C_ready 0)))
      by (intros b; unfold cnt; by rewrite count_sys0).
    split; rewrite ?E; cbn -[Z.mul]; [lia| |lia|done]. intros _ k x _ H. by rewrite lookup_nil in H.
  - intros lb s1 s2 Hr IH Hs Hcalm. apply step_stepped in Hs as Hst.
    assert (Hc1 := calm_mono _ _ Hst Hcalm). specialize (IH Hc1).
    destruct Hst as [c p p' g e (i & t & Ht & <-) He Hg Hc Hl|v Hg Hc Hl].
    + eapply (arr_thread (Z.max 0 n)); [done..|lia|done|by eapply pool_inv_reachable|done].
    + by eapply arr_env.
Qed.

(** ** No step is undefined *)

Definition is_last (p : pc) : bool := match p with T_eunlock => true | _ => false end.

Section wrong.
Context (N : Z) (s : sys) (i : nat) (t : thread) (l : list positive) (d : list entry).
Hypothesis (HN : 0 <= N <= INT_MAX) (Hcalm : calm s) (HI : pool_inv N s) (HA : arr_inv N s).
Hypothesis (HJ : jobs_inv s l d) (Ht : thr s !! i = Some t).
Hypothesis (Hjobs : Z.of_nat (length (submitted (glb s))) < INT_MAX).

Lemma one b : b (at_pc t) = true → 0 < cnt b s.
Proof.
  intros Hb. pose proof (count_ge (λ q, Z.b2z (b q)) s i t ltac:(intros; apply b2z_nonneg) Ht) as H.
  cbn in H. rewrite Hb in H. unfold cnt. cbn in H. lia.
Qed.

Lemma no_start_worker : is_worker (at_pc t) = true → cnt is_start s = 0 ∧ cnt is_null s = 0.
Proof.
  intros Hw%one. pose proof (cnt_nonneg is_start s). pose proof (cnt_nonneg is_null s).
  pose proof (cnt_nonneg is_init s). pose proof (i_phase _ _ HI) as Hp.
  destruct (ready (glb s)) eqn:Hr; cbn in Hp.
  - pose proof (p_start _ (parts_hold s)). lia.
  - pose proof (i_created _ _ HI Hr). pose proof (created_le N s ltac:(lia)).
    assert (cnt is_start s <= cnt is_init s) by apply (p_start _ (parts_hold s)).
    destruct (decide (cnt is_init s = 0)) as [E|E].
    + rewrite E in *. lia.
    + assert (E1 : cnt is_init s = 1) by lia. rewrite E1 in *.
      split; [|lia]. destruct (decide (cnt is_start s = 0)); [done|].
      assert (E2 : cnt is_start s = 1) by lia. rewrite E2 in *. lia.
Qed.

Lemma no_start_client :
  is_busy (at_pc t) = true ∨ ready (glb s) = true →
  cnt is_start s = 0 ∧ cnt is_null s = 0 ∧ ready (glb s) = true.
Proof.
  intros Hb. pose proof (cnt_nonneg is_start s). pose proof (cnt_nonneg is_null s).
  pose proof (cnt_nonneg is_init s). pose proof (i_phase _ _ HI) as Hp.
  pose proof (p_start _ (parts_hold s)).
  destruct (ready (glb s)) eqn:Hr; cbn in Hp; [split_and!; [lia|lia|done]|].
  destruct Hb as [Hb%one|]; [|done]. pose proof (i_idle _ _ HI Hr). lia.
Qed.

Lemma no_start_spawn : is_spawn (at_pc t) = true → cnt is_start s = 0 ∧ cnt is_null s = 0 ∧ cnt is_done s = 0.
Proof.
  intros Hb%one. destruct (parts_hold s). pose proof (cnt_nonneg is_start s).
  pose proof (cnt_nonneg is_null s). pose proof (cnt_nonneg is_done s).
  pose proof (i_phase _ _ HI) as Hp. pose proof (i_unready _ _ HI) as Hu.
  destruct (ready (glb s)) eqn:Hr; cbn in Hp; [lia|]. specialize (Hu eq_refl). lia.
Qed.

Lemma gone_worker : 0 < cnt is_done s → is_worker (at_pc t) = true → is_gone (at_pc t) = true.
Proof.
  intros Hd Hw. destruct (parts_hold s). pose proof (cnt_nonneg is_new s).
  assert (Hn : cnt is_new s = 0) by (apply (at_destroy N); [done|lia]).
  assert (Ha : cnt is_alive s = 0) by (destruct (i_past _ _ HI); lia).
  destruct (is_gone (at_pc t)) eqn:Hg; [done|].
  assert (is_new (at_pc t) = true ∨ is_alive (at_pc t) = true) as [H1%one|H1%one]; [|lia..].
  destruct (at_pc t); cbn in *; naive_solver.
Qed.

(** Only a worker's last step finds the pool freed. *)
Lemma pool_there :
  pool_live (glb s) = false → uses_pool (at_pc t) = true → is_last (at_pc t) = true.
Proof.
  intros Hl Hu. pose proof (i_pool _ _ HI) as Hp. rewrite Hl in Hp. cbn in Hp.
  destruct (is_worker (at_pc t)) eqn:Hw.
  - destruct (no_start_worker Hw). apply gone_worker in Hw; [|lia].
    destruct (at_pc t); cbn in *; done.
  - destruct (is_spawn (at_pc t)) eqn:Hs; [destruct (no_start_spawn Hs); lia|].
    assert (Hb : is_active (at_pc t) = true) by (destruct (at_pc t); cbn in *; done).
    assert (Hb' : is_busy (at_pc t) = true) by (destruct (at_pc t); cbn in *; done).
    destruct (no_start_client (or_introl Hb')) as (? & ? & _). apply one in Hb.
    destruct (parts_hold s). destruct (calm_client s Hcalm); lia.
Qed.

Lemma bsem_there : bsem_live (glb s) = false → uses_bsem (at_pc t) = true → False.
Proof.
  intros Hl Hu. pose proof (i_bsem _ _ HI) as Hp. rewrite Hl in Hp. cbn in Hp.
  destruct (is_worker (at_pc t)) eqn:Hw.
  - destruct (no_start_worker Hw). destruct (parts_hold s).
    assert (Ha : cnt is_alive s = 0) by (destruct (i_past _ _ HI); lia).
    assert (H1 : is_alive (at_pc t) = true) by (destruct (at_pc t); cbn in *; done).
    apply one in H1. lia.
  - assert (Hb : is_busy (at_pc t) = true) by (destruct (at_pc t); cbn in *; done).
    destruct (no_start_client (or_introl Hb)) as (? & ? & _).
    assert (H1 : uses_bsem_client (at_pc t) = true) by (destruct (at_pc t); cbn in *; done).
    apply one in H1. destruct (parts_hold s). destruct (calm_client s Hcalm); lia.
Qed.

Lemma pool_ready : is_ready (at_pc t) = true → ready (glb s) = true → pool_live (glb s) = true.
Proof.
  intros H1%one H2. destruct (no_start_client (or_intror H2)) as (? & ? & _).
  pose proof (i_pool _ _ HI) as Hp. destruct (pool_live (glb s)); [done|]. cbn in Hp.
  destruct (parts_hold s). destruct (calm_client s Hcalm); lia.
Qed.

Lemma locked :
  (holds_th (at_pc t) = true → thcount_lock (glb s) = true) ∧
  (holds_rw (at_pc t) = true → rw_mutex (glb s) = true) ∧
  (holds_bs (at_pc t) = true → bsem_mutex (glb s) = true).
Proof.
  split_and!; intros H%one.
  - rewrite (i_th _ _ HI) in H. by destruct (thcount_lock (glb s)).
  - rewrite (i_rw _ _ HI) in H. by destruct (rw_mutex (glb s)).
  - rewrite (i_bs _ _ HI) in H. by destruct (bsem_mutex (glb s)).
Qed.

(** The counters stay in range. *)
Lemma counters_fit :
  (is_new (at_pc t) = true → is_int (num_threads_alive (glb s) + 1)) ∧
  (is_alive (at_pc t) = true → is_int (num_threads_alive (glb s) - 1)) ∧
  (is_winc (at_pc t) = true → is_int (num_threads_working (glb s) + 1)) ∧
  (is_working (at_pc t) = true → is_int (num_threads_working (glb s) - 1)).
Proof.
  rewrite (i_alive _ _ HI), (i_working _ _ HI). pose proof (i_workers _ _ HI).
  pose proof (p_worker _ (parts_hold s)). pose proof (p_winc _ (parts_hold s)).
  pose proof (cnt_nonneg is_new s). pose proof (cnt_nonneg is_alive s).
  pose proof (cnt_nonneg is_gone s). pose proof (cnt_nonneg is_working s).
  pose proof (cnt_nonneg is_winc s). pose proof (p_working _ (parts_hold s)).
  split_and!; intros H8%one; int_unfold; lia.
Qed.

(** The queue of a thread's step does not fail. *)
Lemma node_there a : a ∈ own (at_pc t) → ∃ n, nodes (job_queue (glb s)) !! a = Some n ∧ a ∉ l.
Proof.
  clear - HJ Ht.
  intros Ha. assert (H : a ∈ held_by own s) by by eapply (collect_elem (λ t, own (at_pc t))).
  pose proof (j_nodup _ _ _ HJ) as Hnd. apply NoDup_app in Hnd as (_ & Hnd & _).
  assert (is_Some (nodes (job_queue (glb s)) !! a)) as [n Hn].
  { apply (j_dom _ _ _ HJ). set_solver. }
  exists n. split; [done|]. intros Hl. by apply (Hnd a).
Qed.

Lemma push_ok a u : own (at_pc t) = [a] → jobqueue_push a (job_queue (glb s)) ≠ Undef u.
Proof.
  intros Ho. destruct (node_there a) as (n & Hn & Hl); [rewrite Ho; by left|].
  rewrite (jobqueue_push_run _ l a n (j_repr _ _ _ HJ) Hn Hl). case_decide as Hi; [done|].
  exfalso. apply Hi. rewrite (repr_len _ _ (j_repr _ _ _ HJ)).
  pose proof (j_sub _ _ _ HJ) as Hs. apply (f_equal length) in Hs.
  rewrite !length_app, length_fmap in Hs. int_unfold. lia.
Qed.

Lemma pull_ok u : jobqueue_pull (job_queue (glb s)) ≠ Undef u.
Proof. by rewrite (jobqueue_pull_run _ l (j_repr _ _ _ HJ) (j_len _ _ _ HJ)). Qed.

Lemma load_ok a u : own (at_pc t) = [a] → load (Ptr a) (job_queue (glb s)) ≠ Undef u.
Proof.
  intros Ho. destruct (node_there a) as (n & Hn & _); [rewrite Ho; by left|].
  by rewrite (load_ptr a n).
Qed.

Lemma free_ok a u : own (at_pc t) = [a] → free_job (Ptr a) (job_queue (glb s)) ≠ Undef u.
Proof.
  intros Ho. destruct (node_there a) as (n & Hn & _); [rewrite Ho; by left|].
  unfold free_job. by rewrite (bind_done _ _ _ _ _ (load_ptr a n _ Hn)).
Qed.

Lemma not_junk : is_junk (at_pc t) = false.
Proof.
  destruct (is_junk (at_pc t)) eqn:Hj; [|done]. apply one in Hj. rewrite (j_junk _ _ _ HJ) in Hj. lia.
Qed.

(** The entry that thpool_pause reads; the one that thpool_destroy frees. *)
Lemma not_bad : bad N (at_pc t) = false.
Proof.
  destruct (bad N (at_pc t)) eqn:Hb; [|done]. apply one in Hb. rewrite (i_bad _ _ HI) in Hb. lia.
Qed.

Lemma pause_entry n :
  at_pc t = Z_loop n → n < num_threads_alive (glb s) →
  ∃ x, threads (glb s) !! Z.to_nat n = Some (TLive x).
Proof.
  intros Hp Hn. assert (H0 : 0 < cnt is_pausing s) by (apply one; by rewrite Hp).
  assert (Hbz : is_busy (at_pc t) = true) by by rewrite Hp.
  destruct (no_start_client (or_introl Hbz)) as (_ & _ & Hr).
  pose proof not_bad as Hb. rewrite Hp in Hb. cbn in Hb. pose proof (p_pause _ (parts_hold s)).
  assert (Hd : cnt destroying s = 0).
  { pose proof (cnt_nonneg destroying s). destruct Hcalm; lia. }
  assert (count (freed N) s <= N * cnt destroying s).
  { unfold cnt. rewrite <- count_scale. apply count_le. intros []; cbn; lia. }
  apply (a_all _ _ HA Hr). rewrite (i_alive _ _ HI) in Hn. rewrite Hd in *.
  pose proof (p_worker _ (parts_hold s)). pose proof (cnt_nonneg is_new s).
  pose proof (cnt_nonneg is_gone s). pose proof (i_workers _ _ HI). lia.
Qed.

Lemma destroy_entry n m :
  at_pc t = D_threads n m → n < m → ∃ x, threads (glb s) !! Z.to_nat n = Some (TLive x).
Proof.
  intros Hp Hn. assert (H0 : 0 < cnt past_bsem s) by (apply one; by rewrite Hp).
  assert (Hbz : is_busy (at_pc t) = true) by by rewrite Hp.
  destruct (no_start_client (or_introl Hbz)) as (_ & _ & Hr).
  pose proof not_bad as Hb. rewrite Hp in Hb. cbn in Hb. apply (a_all _ _ HA Hr).
  rewrite (count_unique (freed N) past_bsem s i t); [|by intros []|done|by rewrite Hp|].
  - rewrite Hp. cbn. lia.
  - destruct (parts_hold s). destruct (calm_client s Hcalm); lia.
Qed.

(** The steps of the code that are undefined. *)
Lemma exec_wrong c u :
  c ≠ CreateFails → exec c (at_pc t) (glb s) = Wrong u →
  is_last (at_pc t) = true ∧ u = UseAfterFree ∧ pool_live (glb s) = false.
Proof.
  intros Hc He. destruct locked as (L1 & L2 & L3). destruct counters_fit as (C1 & C2 & C3 & C4).
  pose proof pool_there as P1. pose proof bsem_there as P2. pose proof pool_ready as P3.
  pose proof not_junk as P4. pose proof push_ok as P5. pose proof pull_ok as P6.
  pose proof load_ok as P7. pose proof free_ok as P8. pose proof pause_entry as P9.
  pose proof destroy_entry as P10.
  clear HN Hcalm HI HA HJ Ht Hjobs.
  destruct (at_pc t); try discriminate He; cbn -[Z.eqb Z.leb Z.ltb is_int] in *.
  all: run_exec He; cbn -[Z.eqb Z.leb Z.ltb is_int] in *.
  all: try congruence.
  all: try (exfalso; first
    [ (specialize (P1 ltac:(first [reflexivity|assumption]) eq_refl); discriminate P1)
    | exact (P2 ltac:(first [reflexivity|assumption]) eq_refl)
    | (specialize (L1 eq_refl); congruence) | (specialize (L2 eq_refl); congruence)
    | (specialize (L3 eq_refl); congruence) | (specialize (C1 eq_refl); contradiction)
    | (specialize (C2 eq_refl); contradiction) | (specialize (C3 eq_refl); contradiction)
    | (specialize (C4 eq_refl); contradiction) | (specialize (P3 eq_refl ltac:(first [reflexivity|assumption])); congruence)
    | (eapply P5; [reflexivity|eassumption]) | (eapply P6; eassumption)
    | (eapply P7; [reflexivity|eassumption]) | (eapply P8; [reflexivity|eassumption])
    | (match goal with H : ?x < _ |- _ => destruct (P9 _ eq_refl H); congruence end)
    | (match goal with H : ?x < _ |- _ => destruct (P10 _ _ eq_refl H); congruence end) ]; fail).
  - exfalso. destruct job; [discriminate Heqo|eapply P8; [reflexivity|eassumption]|discriminate P4].
  - done.
Qed.

End wrong.

(** The effects of a step are never undefined. *)
Lemma signal_not_wrong f w ts u : signal f w ts ≠ Wrong u.
Proof. unfold signal. repeat case_match; done. Qed.

Lemma effect_not_wrong e w s u : apply_effect e w s ≠ Wrong u.
Proof.
  unfold apply_effect. destruct e; try done.
  - cbn -[signal]. destruct (signal _ _ _) as [| |v] eqn:E; try done. by apply signal_not_wrong in E.
  - cbn -[signal]. destruct (signal _ _ _) as [| |v] eqn:E; try done. by apply signal_not_wrong in E.
  - by case_match.
Qed.

Lemma step_wrong l s u :
  step l s = Wrong u →
  ∃ i c w t, l = Thr i c w ∧ thr s !! i = Some t ∧ exec c (at_pc t) (glb s) = Wrong u.
Proof.
  destruct l as [i c w|i|i|i]; cbn; destruct (thr s !! i) as [t|] eqn:Ht; try done; intros H.
  - unfold step_thread in H. destruct (held t); [done|]. cbn -[exec] in H.
    destruct (exec c (at_pc t) (glb s)) as [[[p' g'] e]| |v] eqn:He; try done.
    + cbn -[apply_effect] in H. by apply effect_not_wrong in H.
    + cbn in H. exists i, c, w, t. by simplify_eq.
  - unfold spurious in H. by repeat case_match.
  - unfold deliver in H. by case_match.
  - unfold leave in H. by case_match.
Qed.
