(* ===== verification/ThpoolPosix.v ===== *)
(** * The thread pool: bsem_reset

    [posix_step] stops where bsem_reset initialises the semaphore a second time.  As every
    thpool_destroy comes there, none returns in a run without undefined behaviour. *)

From S2P Require Import Prelude CInt TransSys JobQueue Thpool ThpoolInv ThpoolSafe ThpoolJobs ThpoolUb.

Open Scope Z_scope.

(** The states that runs without the undefined initialisation can reach. *)
Definition posix_reachable (num_threads : Z) (others : nat) : sys → Prop :=
  reachable (pool_init num_threads others) posix_step.

(** Behind bsem_reset. *)
Definition past_reset (p : pc) : bool :=
  match p with D_fbsem _ | D_threads _ _ | D_free | C_done => true | _ => false end.

Lemma past_reset_insens : insens (λ p, Z.b2z (past_reset p)).
Proof. by split. Qed.

(** Only bsem_reset leads there. *)
Lemma exec_past_reset c p g p' g' e :
  exec c p g = Next (p', g', e) → past_reset p' = true → past_reset p = true ∨ reinitialises p g = true.
Proof.
  intros He Hp. destruct g, p; try discriminate He; cbn -[Z.eqb Z.leb Z.max] in *; try (by left);
    run_exec He; try discriminate Hp; try (by left); try (by right).
Qed.

Lemma posix_step_step l s s' : posix_step l s = Next s' → step l s = Next s'.
Proof.
  unfold posix_step. destruct l as [i c w|i|i|i]; try done. cbn. destruct (thr s !! i) as [t|]; [|done].
  by case_match.
Qed.

Lemma posix_wrong l s u :
  posix_step l s = Wrong u →
  (∃ i c w t, l = Thr i c w ∧ thr s !! i = Some t ∧ (∃ total, at_pc t = D_reset total) ∧ u = Reinitialised) ∨
  step l s = Wrong u.
Proof.
  unfold posix_step. destruct l as [i c w|i|i|i]; [|by right..]. destruct (thr s !! i) as [t|] eqn:Ht; [|done].
  case_match eqn:Hr; [|by right]. intros [= <-]. left. exists i, c, w, t. split_and!; [done|done| |done].
  apply andb_true_iff in Hr as [_ Hr]. destruct (at_pc t); try done. by eexists.
Qed.

Lemma posix_step_past l s s' : posix_step l s = Next s' → cnt past_reset s = 0 → cnt past_reset s' = 0.
Proof.
  intros Hs H0. pose proof (posix_step_step _ _ _ Hs) as Hst.
  pose proof past_reset_insens as Hin. set (f := λ p, Z.b2z (past_reset p)) in *.
  change (count f s = 0) in H0. change (count f s' = 0).
  destruct s as [ts g]. destruct l as [i c w|i|i|i]; cbn in Hs, Hst; destruct (ts !! i) as [t|] eqn:Ht; try done.
  - destruct (negb (held t) && reinitialises (at_pc t) g) eqn:Hr; [done|].
    unfold step_thread in Hst. destruct (held t); [done|]. cbn in Hr. cbn -[exec] in Hst.
    destruct (exec c (at_pc t) g) as [[[p' g'] e]| |] eqn:He; [|done..]. cbn -[apply_effect] in Hst.
    destruct (apply_effect_count f e w _ s' Hin Hst) as [-> _]. rewrite (count_move f ts g g' i t p' Ht), H0.
    pose proof (count_ge f (mk_sys ts g) i t ltac:(intros; apply b2z_nonneg) Ht) as Hge. rewrite H0 in Hge.
    assert (Hp : past_reset (at_pc t) = false) by (unfold f in Hge; destruct (past_reset (at_pc t)); [cbn in Hge; lia|done]).
    destruct (past_reset p') eqn:Hp'; [|unfold f; rewrite Hp, Hp'; cbn; lia].
    destruct (exec_past_reset _ _ _ _ _ _ He Hp'); congruence.
  - unfold spurious in Hst. destruct (wake_bsem (at_pc t)) as [p|] eqn:Hb;
      [|destruct (wake_idle (at_pc t)) as [p|] eqn:Hw; [|done]]; simplify_eq;
      rewrite (count_move f ts g g _ _ _ Ht), H0;
      [rewrite (insens_bsem f _ _ Hin Hb)|rewrite (insens_idle f _ _ Hin Hw)]; lia.
  - unfold deliver in Hst. case_match; [|done]. simplify_eq. by rewrite (count_env f ts g _ _ _ _ _ Ht).
  - unfold leave in Hst. case_match; [|done]. simplify_eq. by rewrite (count_env f ts g _ _ _ _ _ Ht).
Qed.

Lemma posix_not_done n others s : posix_reachable n others s → cnt is_done s = 0.
Proof.
  intros H. assert (Hp : cnt past_reset s = 0).
  { revert s H. apply (invariant_reachable _ _ (λ s, cnt past_reset s = 0)).
    - intros ? ->. unfold cnt. rewrite count_sys0. cbn. lia.
    - intros l s s' _ H0 Hs. by eapply posix_step_past. }
  pose proof (cnt_nonneg is_done s).
  assert (cnt is_done s <= cnt past_reset s); [|lia]. apply count_le. by intros [].
Qed.

(** A thread at bsem_reset finds the semaphore initialised. *)
Lemma reset_reinitialises n others s i t total :
  pool_reachable n others s → calm s → thr s !! i = Some t → at_pc t = D_reset total →
  reinitialises (at_pc t) (glb s) = true.
Proof.
  intros Hr Hc Ht Hp. pose proof (pool_inv_reachable n others s Hr Hc) as HI. rewrite Hp. cbn.
  assert (Hone : ∀ b, b (D_reset total) = true → 0 < cnt b s).
  { intros b Hb. pose proof (count_ge (λ q, Z.b2z (b q)) s i t ltac:(intros; apply b2z_nonneg) Ht) as H.
    cbn in H. rewrite Hp, Hb in H. unfold cnt. cbn in H. lia. }
  pose proof (Hone is_busy eq_refl) as H1. pose proof (Hone is_reset eq_refl) as H2. pose proof (parts_hold s) as HP.
  pose proof (cnt_nonneg is_start s). pose proof (cnt_nonneg is_null s). pose proof (cnt_nonneg is_init s).
  pose proof (cnt_nonneg past_bsem s). pose proof (cnt_nonneg is_done s).
  pose proof (i_phase _ _ HI). pose proof (i_pool _ _ HI). pose proof (i_bsem _ _ HI).
  pose proof (p_start _ HP). pose proof (p_done _ HP).
  assert (Hb0 : cnt past_bsem s = 0).
  { pose proof (Hone uses_bsem_client eq_refl). pose proof (p_bsem_active _ HP).
    pose proof (p_reset_past _ HP). pose proof (p_past _ HP). destruct Hc as [Hc|Hc]; lia. }
  assert (Hready : ready (glb s) = true).
  { destruct (ready (glb s)) eqn:E; [done|]. pose proof (i_idle _ _ HI E). lia. }
  rewrite Hready in *. destruct (pool_live (glb s)), (bsem_live (glb s)); cbn in *; try done; lia.
Qed.
