(* ===== verification/ThpoolWait.v ===== *)
(** * The thread pool: thpool_wait waits

    One thread followed through a run, and what the jobs submitted before its call of
    thpool_wait have come to when the call returns. *)

From Stdlib Require Import ZifyBool.
From S2P Require Import Prelude CInt TransSys JobQueue Thpool ThpoolInv ThpoolSafe ThpoolJobs.

Open Scope Z_scope.

(** ** The history only grows *)

Record extends (g g' : glob) : Prop := {
  ext_submitted : submitted g `prefix_of` submitted g';
  ext_started : started g `prefix_of` started g';
  ext_finished : finished g `prefix_of` finished g';
}.

#[export] Instance extends_preorder : PreOrder extends.
Proof.
  split; [by intros g; split|]. intros g1 g2 g3 [] []. split; by etransitivity.
Qed.

Lemma exec_extends c p p' g g' e : exec c p g = Next (p', g', e) → extends g g'.
Proof.
  intros He. destruct p; try discriminate He; run_exec He; split; cbn;
    first [done | by apply prefix_app_r].
Qed.

Lemma step_extends l s s' : step l s = Next s' → extends (glb s) (glb s').
Proof.
  intros H%step_stepped. destruct H as [c p p' g e _ He Hg _ _|v Hg _ _].
  - apply exec_extends in He as [? ? ?]. rewrite Hg. destruct e; by split.
  - rewrite Hg. by split.
Qed.

Lemma run_extends ls s s' : run step ls s = Next s' → extends (glb s) (glb s').
Proof.
  revert s. induction ls as [|l ls IH]; intros s H; [by injection H as ->|].
  rewrite run_cons in H.   destruct (step l s) as [s1| |] eqn:Hl; [|discriminate..]. etransitivity; [by eapply step_extends|by apply IH].
Qed.

(** ** Following a thread *)

(** A wakeup of a thread. *)
Definition woken (p p' : pc) : Prop := wake_bsem p = Some p' ∨ wake_idle p = Some p'.

Lemma signal_at (f : pc → option pc) w ts ts' j u :
  (∀ p p', f p = Some p' → woken p p') → signal f w ts = Next ts' → ts !! j = Some u →
  ∃ u', ts' !! j = Some u' ∧ (at_pc u' = at_pc u ∨ woken (at_pc u) (at_pc u')).
Proof.
  intros Hf. unfold signal. destruct w as [k|].
  - destruct (ts !! k) as [x|] eqn:Hk; [|done]. destruct (f (at_pc x)) as [p|] eqn:Hp; [|done].
    intros H Hj. simplify_eq. destruct (decide (k = j)) as [->|Hne].
    + rewrite list_lookup_insert_eq by by eapply lookup_lt_Some. simplify_eq.
      eexists. split; [done|]. right. by apply Hf.
    + rewrite list_lookup_insert_ne by done. exists u. by split; [|left].
  - case_match; [done|]. intros ? Hj. simplify_eq. exists u. by split; [|left].
Qed.

Lemma effect_at e w s s' j u :
  apply_effect e w s = Next s' → thr s !! j = Some u →
  ∃ u', thr s' !! j = Some u' ∧ (at_pc u' = at_pc u ∨ woken (at_pc u) (at_pc u')).
Proof.
  destruct s as [ts g]. unfold apply_effect. cbn [thr glb]. intros H Hj.
  destruct e; cbn -[signal broadcast] in H.
  - simplify_eq. exists u. by split; [|left].
  - destruct (signal _ _ _) as [ts'| |] eqn:Hs; [|done..]. cbn in H. simplify_eq.
    eapply signal_at; [|done..]. by left.
  - simplify_eq. cbn [thr]. unfold broadcast. rewrite list_lookup_fmap, Hj. cbn.
    eexists. split; [done|]. destruct (wake_bsem (at_pc u)) as [p|] eqn:Hp; [by right; left|by left].
  - destruct (signal _ _ _) as [ts'| |] eqn:Hs; [|done..]. cbn in H. simplify_eq.
    eapply signal_at; [|done..]. by right.
  - simplify_eq. cbn [thr]. exists u. split; [|by left]. by apply lookup_app_l_Some.
  - destruct (ts !! tid) as [x|] eqn:Hx; simplify_eq; cbn [thr]; [|exists u; by split; [|left]].
    destruct (decide (tid = j)) as [->|Hne].
    + rewrite list_lookup_insert_eq by by eapply lookup_lt_Some. simplify_eq.
      eexists. split; [done|by left].
    + rewrite list_lookup_insert_ne by done. exists u. by split; [|left].
Qed.

(** After a step, a thread is where it was, or woken up, or it is the one that moved. *)
Lemma step_at l s s' j u :
  step l s = Next s' → thr s !! j = Some u →
  ∃ u', thr s' !! j = Some u' ∧
    (at_pc u' = at_pc u ∨ woken (at_pc u) (at_pc u') ∨
     ∃ c w g e p, l = Thr j c w ∧ exec c (at_pc u) (glb s) = Next (p, g, e) ∧
       glb s' = after_effect e (length (thr s)) g ∧ (at_pc u' = p ∨ woken p (at_pc u'))).
Proof.
  destruct s as [ts g].
  destruct l as [i c w|i|i|i]; cbn; destruct (ts !! i) as [t|] eqn:Ht; try done; intros H Hj.
  - unfold step_thread in H. destruct (held t); [done|]. cbn -[exec] in H.
    destruct (exec c (at_pc t) g) as [[[p' g'] e]| |] eqn:He; [|done..]. cbn -[apply_effect] in H.
    destruct (decide (i = j)) as [->|Hne].
    + assert (t = u) as -> by congruence. destruct (effect_at _ _ _ _ j (set_pc p' u) H) as (u' & Hu' & Hw).
      { cbn. apply list_lookup_insert_eq. by eapply lookup_lt_Some. }
      exists u'. split; [done|]. right. right. exists c, w, g', e, p'. split_and!; [done..| |done].
      destruct (apply_effect_count (λ _, 0) e w _ s' (conj eq_refl (λ _, eq_refl)) H) as [_ ->]. cbn.
      by rewrite length_insert.
    + destruct (effect_at _ _ _ _ j u H) as (u' & Hu' & Hw); [cbn; by rewrite list_lookup_insert_ne|].
      exists u'. split; [done|]. destruct Hw; auto.
  - unfold spurious in H.
    destruct (decide (i = j)) as [->|Hne].
    + assert (t = u) as -> by congruence. destruct (wake_bsem (at_pc u)) as [p|] eqn:Hb;
        [|destruct (wake_idle (at_pc u)) as [p|] eqn:Hw; [|done]]; simplify_eq; cbn;
        rewrite list_lookup_insert_eq by (by eapply lookup_lt_Some);
        (eexists; split; [done|]); right; left; [by left|by right].
    + exists u. split; [|by left]. repeat case_match; simplify_eq; cbn; by rewrite list_lookup_insert_ne.
  - unfold deliver in H. case_match; [|done]. simplify_eq. cbn. destruct (decide (i = j)) as [->|Hne].
    + rewrite list_lookup_insert_eq by (by eapply lookup_lt_Some). assert (t = u) as -> by congruence.
      eexists. by split; [|left].
    + exists u. split; [|by left]. by rewrite list_lookup_insert_ne.
  - unfold leave in H. case_match; [|done]. simplify_eq. cbn. destruct (decide (i = j)) as [->|Hne].
    + rewrite list_lookup_insert_eq by (by eapply lookup_lt_Some). assert (t = u) as -> by congruence.
      eexists. by split; [|left].
    + exists u. split; [|by left]. by rewrite list_lookup_insert_ne.
Qed.

(** ** A call of thpool_wait *)

(** The first [k] jobs submitted have been called. *)
Definition called (k : nat) (g : glob) : Prop :=
  (k <= length (submitted g))%nat ∧ ∃ rest, finished g ≡ₚ take k (submitted g) ++ rest.

(** Where a call that began after [k] submissions stands. *)
Definition wait_at (k : nat) (g : glob) (p : pc) : Prop :=
  match p with
  | W_lock k' | W_len k' | W_sleep k' | W_wake k' => k' = k ∧ (k <= length (submitted g))%nat
  | W_work k' => k' = k ∧ (k <= length (started g))%nat
  | W_unlock k' => k' = k ∧ called k g
  | C_ready _ => called k g
  | _ => False
  end.

Lemma take_prefix {A} (l l' : list A) k : l `prefix_of` l' → (k <= length l)%nat → take k l' = take k l.
Proof. intros [r ->] H. by rewrite take_app_le. Qed.

Lemma called_extends k g g' : extends g g' → called k g → called k g'.
Proof.
  intros [Hs _ [r Hf]] [Hk [rest Hr]]. split.
  - apply prefix_length in Hs. lia.
  - exists (rest ++ r). by rewrite (take_prefix _ _ _ Hs Hk), Hf, Hr, app_assoc.
Qed.

Lemma wait_at_extends k g g' p : extends g g' → wait_at k g p → wait_at k g' p.
Proof.
  intros He. pose proof He as [Hs%prefix_length Hst%prefix_length _].
  destruct p; cbn; try done; try (intros [-> ?]; split; [done|lia]).
  - by apply called_extends.
  - intros [-> ?]. split; [done|by eapply called_extends].
Qed.

Lemma wait_at_woken k g p p' : woken p p' → wait_at k g p → wait_at k g p'.
Proof. intros [H|H]; destruct p; cbn in *; simplify_eq; done. Qed.

(** With nobody working, no job is between its pull and its call. *)
Lemma none_running s : cnt is_working s = 0 → held_by running s = [].
Proof.
  intros H. unfold held_by, collect, cnt, count in *. induction (thr s) as [|t ts IH]; [done|].
  rewrite tsum_cons in H. cbn. change (mjoin _) with (mjoin ((λ t, running (at_pc t)) <$> ts)).
  pose proof (b2z_nonneg is_working (at_pc t)).
  pose proof (tsum_nonneg (λ t, Z.b2z (is_working (at_pc t))) ts ltac:(intros; apply b2z_nonneg)).
  rewrite IH by lia. destruct (at_pc t); cbn in *; done || lia.
Qed.

Lemma wait_at_exec N k c p p' g e s l d :
  pool_inv N s → jobs_inv s l d → (is_waiting p = true → cnt past_loops s = 0) →
  (∀ o, c ≠ Call o) → exec c p (glb s) = Next (p', g, e) →
  wait_at k (glb s) p → wait_at k g p'.
Proof.
  intros HI HJ Hp Hc He Hw. pose proof (exec_extends _ _ _ _ _ _ He) as Hx.
  destruct p; cbn in Hw; try done.
  - exfalso. run_exec He; by eapply Hc.
  - run_exec He. done.
  - destruct Hw as [-> Hk]. specialize (Hp eq_refl). run_exec He; [|done].
    split; [done|]. rewrite (j_sub _ _ _ HJ), (j_drop _ _ _ HJ Hp) in Hk.
    match goal with H : len _ = 0 |- _ => rewrite (repr_len _ _ (j_repr _ _ _ HJ)) in H end.
    destruct l; [|cbn in *; lia]. rewrite !app_nil_r in Hk. done.
  - destruct Hw as [-> Hk]. run_exec He; cbn.
    + split; [done|]. match goal with H : num_threads_working _ = 0 |- _ =>
        rewrite (i_working _ _ HI) in H; apply none_running in H; rename H into Hr end.
      pose proof (j_run _ _ _ HJ) as Hf. rewrite Hr, app_nil_r in Hf.
      pose proof (j_sub _ _ _ HJ) as Hs. split; [rewrite Hs, length_app; lia|].
      exists (drop k (started (glb s))). rewrite Hs, take_app_le by done. by rewrite take_drop.
    + split; [done|]. rewrite (j_sub _ _ _ HJ), length_app. lia.
  - by run_exec He.
  - run_exec He. done.
  - destruct Hw as [-> Hk]. run_exec He. done.
Qed.

Lemma wait_at_step N k lb s s' i t l d :
  calm s → pool_inv N s → jobs_inv s l d → step lb s = Next s' → (∀ o w, lb ≠ Thr i (Call o) w) →
  thr s !! i = Some t → wait_at k (glb s) (at_pc t) →
  ∃ t', thr s' !! i = Some t' ∧ wait_at k (glb s') (at_pc t').
Proof.
  intros Hcalm HI HJ Hs Hlb Ht Hw. pose proof (step_extends _ _ _ Hs) as Hx.
  destruct (step_at _ _ _ _ _ Hs Ht) as (t' & Ht' & [Heq|[Hwk|Hmv]]); exists t'; (split; [done|]).
  - rewrite Heq. by eapply wait_at_extends.
  - eapply wait_at_extends; [done|]. by eapply wait_at_woken.
  - destruct Hmv as (c & w & g & e & p & -> & He & Hg & Hp).
    assert (wait_at k g p) as Hwp.
    { eapply wait_at_exec; [done..| | |done|done].
      - intros Hwt. pose proof (count_ge (λ q, Z.b2z (is_waiting q)) s i t ltac:(intros; apply b2z_nonneg) Ht) as H1.
        cbn in H1. rewrite Hwt in H1. pose proof (p_wait _ (parts_hold s)) as H2.
        pose proof (cnt_nonneg past_loops s). pose proof (p_past _ (parts_hold s)).
        unfold calm in Hcalm. unfold cnt in H1, H2, Hcalm |- *. cbn in H1. destruct Hcalm; unfold cnt in *; lia.
      - intros o ->. by eapply Hlb. }
    assert (wait_at k (glb s') p) as Hws.
    { eapply wait_at_extends; [|exact Hwp]. rewrite Hg. destruct e; by split. }
    destruct Hp as [->|Hp]; [done|]. by eapply wait_at_woken.
Qed.
