(* ===== verification/ThpoolLive.v ===== *)
(** * The thread pool: thpool_wait returns

    With one client and no signals: no wakeup of a worker or of the waiting client is lost, every
    step of the pool uses up a bounded resource, and so every run of the pool ends with the
    client back from thpool_wait. *)

From Stdlib Require Import ZifyBool.
From S2P Require Import Prelude CInt TransSys JobQueue Thpool ThpoolInv ThpoolSafe ThpoolJobs.
From S2P Require Import ThpoolUb.

Open Scope Z_scope.

(** ** Steps with their wakeups *)

Definition is_bsleep (p : pc) : bool := match p with T_bsleep => true | _ => false end.
Definition is_wsleep (p : pc) : bool := match p with W_sleep _ => true | _ => false end.

(** What an effect adds to the number of threads in a part of the code. *)
Definition effect_counts (e : effect) (s : sys) (δ : (pc → Z) → Z) : Prop :=
  match e with
  | NoEff | Kill _ => ∀ f, δ f = 0
  | Spawn _ => ∀ f, δ f = f T_start
  | WakeBsem => (cnt is_bsleep s = 0 ∧ ∀ f, δ f = 0) ∨ (∀ f, δ f = f T_bwake - f T_bsleep)
  | WakeIdle =>
      (cnt is_wsleep s = 0 ∧ ∀ f, δ f = 0) ∨ (∃ k, ∀ f, δ f = f (W_wake k) - f (W_sleep k))
  | WakeAllBsem => True
  end.

Lemma signal_counts (h : pc → option pc) (b : pc → bool) w ts ts' g :
  (∀ p, b p = bool_decide (is_Some (h p))) → signal h w ts = Next ts' →
  (cnt b (mk_sys ts g) = 0 ∧ ts' = ts) ∨
  ∃ p p', h p = Some p' ∧ ∀ f, count f (mk_sys ts' g) = count f (mk_sys ts g) + f p' - f p.
Proof.
  intros Hb. unfold signal. destruct w as [j|].
  - destruct (ts !! j) as [u|] eqn:Hu; [|done]. destruct (h (at_pc u)) as [p'|] eqn:Hp; [|done].
    intros. simplify_eq. right. exists (at_pc u), p'. split; [done|]. intros f.
    rewrite (count_move f ts g g _ _ _ Hu). lia.
  - case_match eqn:He; [done|]. intros. simplify_eq. left. split; [|done].
    unfold cnt, count. cbn [thr]. clear -Hb He. induction ts' as [|t ts IH]; [done|].
    cbn in He. apply orb_false_iff in He as [He1 He2]. rewrite tsum_cons, Hb, He1, IH; done.
Qed.

Lemma apply_effect_counts e w s s' :
  apply_effect e w s = Next s' → e ≠ WakeAllBsem →
  ∃ δ, effect_counts e s δ ∧ ∀ f, count f s' = count f s + δ f.
Proof.
  destruct s as [ts g]. unfold apply_effect. cbn [thr glb]. intros H He.
  destruct e; cbn -[signal] in H; [| |done| | |].
  - simplify_eq. exists (λ _, 0). split; [done|]. intros f. lia.
  - destruct (signal _ _ _) as [ts'| |] eqn:Hs; [|done..]. cbn in H. simplify_eq.
    destruct (signal_counts wake_bsem is_bsleep w ts ts' g ltac:(by intros []) Hs)
      as [[H0 ->]|(p & p' & Hp & Hc)].
    + exists (λ _, 0). split; [by left|]. intros f. lia.
    + exists (λ f, f T_bwake - f T_bsleep). split; [by right|]. intros f. rewrite Hc.
      destruct p; cbn in Hp; simplify_eq. lia.
  - destruct (signal _ _ _) as [ts'| |] eqn:Hs; [|done..]. cbn in H. simplify_eq.
    destruct (signal_counts wake_idle is_wsleep w ts ts' g ltac:(by intros []) Hs)
      as [[H0 ->]|(p & p' & Hp & Hc)].
    + exists (λ _, 0). split; [by left|]. intros f. lia.
    + assert (∃ k, p = W_sleep k) as [k ->] by (destruct p; cbn in Hp; try done; by eexists).
      cbn in Hp. simplify_eq.
      exists (λ f, f (W_wake k) - f (W_sleep k)). split; [right; by exists k|]. intros f.
      rewrite Hc. lia.
  - simplify_eq. exists (λ f, f T_start). split; [done|]. intros f. unfold count. cbn [thr].
    rewrite tsum_app, tsum_cons. cbn. lia.
  - exists (λ _, 0). split; [done|]. intros f.
    destruct (ts !! tid) as [t|] eqn:Ht; simplify_eq; [|lia].
    rewrite (count_env f ts g _ _ _ _ _ Ht). lia.
Qed.

Lemma exec_no_broadcast c p g p' g' e :
  exec c p g = Next (p', g', e) → is_destroy p = false → e ≠ WakeAllBsem.
Proof.
  intros He Hd. destruct p; try discriminate He; try discriminate Hd; run_exec He; done.
Qed.

(** A step of a thread, bsem_post_all aside. *)
Lemma step_counts i c w s s' :
  step (Thr i c w) s = Next s' →
  ∃ t p' g e, thr s !! i = Some t ∧ exec c (at_pc t) (glb s) = Next (p', g, e) ∧
    glb s' = after_effect e (length (thr s)) g ∧
    (e ≠ WakeAllBsem → ∃ δ,
      effect_counts e (mk_sys (<[i := set_pc p' t]> (thr s)) g) δ ∧
      (∀ f, count f (mk_sys (<[i := set_pc p' t]> (thr s)) g) = count f s - f (at_pc t) + f p') ∧
      (∀ f, count f s' = count f s - f (at_pc t) + f p' + δ f)).
Proof.
  destruct s as [ts g]. cbn -[count step_thread]. destruct (ts !! i) as [t|] eqn:Ht; [|done]. intros H.
  unfold step_thread in H. destruct (held t); [done|]. cbn -[exec] in H.
  destruct (exec c (at_pc t) g) as [[[p' g'] e]| |] eqn:He; [|done..]. cbn -[apply_effect] in H.
  exists t, p', g', e. split_and!; [done|done| |].
  - destruct (apply_effect_count (λ _, 0) e w _ s' (conj eq_refl (λ _, eq_refl)) H) as [_ ->]. cbn.
    by rewrite length_insert.
  - intros Hne. destruct (apply_effect_counts _ _ _ _ H Hne) as (δ & Hδ & Hc). exists δ. cbn [thr]. split_and!; [done| |].
    + intros f. by rewrite (count_move f ts g g' _ _ _ Ht).
    + intros f. by rewrite Hc, (count_move f ts g g' _ _ _ Ht).
Qed.

(** ** No wakeup is lost *)

Definition is_waker (p : pc) : bool := match p with T_bwake | T_btest => true | _ => false end.

(** A worker that took the semaphore and has not pulled yet, or a thread about to post it. *)
Definition has_token (p : pc) : bool :=
  match p with
  | T_bunlock | T_check | T_wlock | T_winc | T_wunlock | T_plock | T_pbody => true
  | A_post PLock | A_post PBody | T_ppost PLock _ | T_ppost PBody _ => true
  | _ => false
  end.

Definition is_dtest (p : pc) : bool := match p with T_dtest => true | _ => false end.

Record live_inv (s : sys) : Prop := {
  l_bsem : bsem_v (glb s) = 1 → 0 < cnt is_bsleep s → 0 < cnt is_waker s;
  l_token : 0 < len (job_queue (glb s)) → bsem_v (glb s) = 1 ∨ 0 < cnt has_token s;
  l_idle : 0 < cnt is_wsleep s →
    0 < len (job_queue (glb s)) ∨ 0 < num_threads_working (glb s) ∨ 0 < cnt is_dtest s;
}.

Lemma len_nonneg s l d : jobs_inv s l d → 0 <= len (job_queue (glb s)).
Proof. intros HJ. rewrite (repr_len _ _ (j_repr _ _ _ HJ)). lia. Qed.

(** The length of the queue under its operations. *)
Lemma push_len s l d i t a u q' :
  jobs_inv s l d → thr s !! i = Some t → own (at_pc t) = [a] →
  jobqueue_push a (job_queue (glb s)) = Done u q' → len q' = len (job_queue (glb s)) + 1.
Proof.
  intros HJ Ht Ho Hp. destruct (node_there s i t l d HJ Ht a) as (n & Hn & Hl); [rewrite Ho; by left|].
  rewrite (jobqueue_push_run _ l a n (j_repr _ _ _ HJ) Hn Hl) in Hp. case_decide; [|done].
  by injection Hp as _ <-.
Qed.

Lemma pull_len s l d job post q' :
  jobs_inv s l d → jobqueue_pull (job_queue (glb s)) = Done (job, post) q' →
  (post = true ∧ 2 <= len (job_queue (glb s)) ∧ len q' = len (job_queue (glb s)) - 1) ∨
  (post = false ∧ len q' = 0).
Proof.
  intros HJ Hp. rewrite (jobqueue_pull_run _ l (j_repr _ _ _ HJ) (j_len _ _ _ HJ)) in Hp.
  injection Hp as _ <- <-. pose proof (repr_len _ _ (j_repr _ _ _ HJ)) as Hl.
  destruct l as [|? [|? ?]]; cbn in *; [by right|by right|left]. split_and!; [done|lia|lia].
Qed.

Lemma load_len p q x q' : load p q = Done x q' → len q' = len q.
Proof. by intros ->%load_same. Qed.

Lemma free_len p q u q' : free_job p q = Done u q' → len q' = len q.
Proof.
  unfold free_job, load. destruct p as [|a|]; crun; intros H; [by injection H as _ <-| |done].
  destruct (nodes q !! a); [|done]. by injection H as _ <-.
Qed.

Lemma malloc_len f x q a q' : malloc_job f x q = Done a q' → len q' = len q.
Proof. unfold malloc_job. intros. by simplify_eq. Qed.

Lemma clear_len u q q' : jobqueue_clear_end q = Done u q' → len q' = 0.
Proof. rewrite jobqueue_clear_end_run. intros. by simplify_eq. Qed.

Lemma moved_to (b : pc → bool) s s1 p p' :
  (∀ f, count f s1 = count f s - f p + f p') → cnt b s1 = cnt b s - Z.b2z (b p) + Z.b2z (b p').
Proof. intros H. apply H. Qed.

Lemma moved_eff (b : pc → bool) s s' p p' δ :
  (∀ f, count f s' = count f s - f p + f p' + δ f) →
  cnt b s' = cnt b s - Z.b2z (b p) + Z.b2z (b p') + δ (λ q, Z.b2z (b q)).
Proof. intros H. apply H. Qed.

Ltac queue_lens :=
  repeat match goal with
  | H : load _ _ = Done _ _ |- _ => apply load_len in H
  | H : free_job _ _ = Done _ _ |- _ => apply free_len in H
  | H : malloc_job _ _ _ = Done _ _ |- _ => apply malloc_len in H
  | H : jobqueue_clear_end _ = Done _ _ |- _ => apply clear_len in H
  end.

Lemma live_thread N i c w s s' l d :
  step (Thr i c w) s = Next s' → cnt is_client s = 1 → cnt is_client s' = 1 →
  cnt destroying s = 0 →
  cnt destroying s' = 0 → 0 <= N → pool_inv N s → jobs_inv s l d →
  live_inv s → live_inv s'.
Proof.
  intros Hs Hcl0 Hcl Hd Hd' HN HI HJ [L1 L2 L3].
  destruct (step_counts _ _ _ _ _ Hs) as (t & p' & g & e & Ht & He & Hg & Hcount).
  pose proof (len_nonneg _ _ _ HJ) as Hlen.
  assert (Hge : ∀ b, Z.b2z (b (at_pc t)) <= cnt b s).
  { intros b. apply (count_ge (λ q, Z.b2z (b q)) s i t); [intros; apply b2z_nonneg|done]. }
  assert (Hnd : is_destroy (at_pc t) = false).
  { destruct (is_destroy (at_pc t)) eqn:Hi; [|done]. specialize (Hge destroying).
    unfold destroying in Hge at 1. rewrite Hi in Hge. cbn in Hge. lia. }
  destruct (Hcount (exec_no_broadcast _ _ _ _ _ _ He Hnd)) as (δ & Heff & Hc1 & Hc). clear Hcount.
  set (s1 := mk_sys _ _) in *.
  assert (Hw : 0 <= num_threads_working (glb s)) by (rewrite (i_working _ _ HI); apply cnt_nonneg).
  assert (Hws : cnt is_wsleep s' <= 1).
  { rewrite <- Hcl. apply count_le. intros []; cbn; lia. }
  assert (Hws0 : cnt is_wsleep s <= 1).
  { rewrite <- Hcl0. apply count_le. intros []; cbn; lia. }
  pose proof (Hge is_working) as G1. rewrite <- (i_working _ _ HI) in G1.
  pose proof (push_len s l d i t) as Hpush. specialize (Hpush) with (1 := HJ) (2 := Ht).
  pose proof (pull_len s l d) as Hpull. specialize (Hpull) with (1 := HJ).
  assert (Hka : cnt is_start s = 0 → threads_keepalive (glb s) = 1) by by apply (i_keep _ _ HI).
  assert (Hst : is_worker (at_pc t) = true → cnt is_start s = 0).
  { intros Hwk. specialize (Hge is_worker). rewrite Hwk in Hge. cbn in Hge.
    pose proof (cnt_nonneg is_start s). destruct (decide (cnt is_start s = 0)); [done|].
    destruct (at_start N s HN HI ltac:(lia)) as (_ & ? & _). lia. }
  assert (Hsw : is_start (at_pc t) = true → cnt is_wsleep s = 0).
  { intros Hwk. specialize (Hge is_start). rewrite Hwk in Hge. cbn in Hge.
    destruct (at_start N s HN HI ltac:(lia)) as (_ & _ & Hb).
    assert (cnt is_wsleep s <= cnt is_busy s) by (apply count_le; intros []; cbn; lia).
    pose proof (cnt_nonneg is_wsleep s). lia. }
  pose proof (cnt_nonneg is_bsleep s'). pose proof (cnt_nonneg is_bsleep s).
  pose proof (cnt_nonneg is_waker s). pose proof (cnt_nonneg has_token s).
  pose proof (cnt_nonneg is_wsleep s). pose proof (cnt_nonneg is_dtest s).
  pose proof (moved_to is_bsleep _ _ _ _ Hc1) as B1. pose proof (moved_to is_wsleep _ _ _ _ Hc1) as B2.
  pose proof (moved_eff is_bsleep _ _ _ _ _ Hc) as C1. pose proof (moved_eff is_waker _ _ _ _ _ Hc) as C2.
  pose proof (moved_eff has_token _ _ _ _ _ Hc) as C3. pose proof (moved_eff is_wsleep _ _ _ _ _ Hc) as C4.
  pose proof (moved_eff is_dtest _ _ _ _ _ Hc) as C5.
  pose proof (Hge is_waker) as G2. pose proof (Hge has_token) as G3. pose proof (Hge is_dtest) as G4.
  pose proof (Hge is_bsleep) as G5. pose proof (Hge is_wsleep) as G6.
  clear Hge Hc Hc1 HI HJ Hs Ht Hcl Hcl0 Hd Hd' HN. clearbody s1.
  destruct (at_pc t); try discriminate He; try discriminate Hnd; cbn -[Z.eqb Z.add Z.sub] in *.
  all: run_exec He; cbn -[Z.eqb Z.add Z.sub] in *.
  all: try (specialize (Hst eq_refl); specialize (Hka Hst)); try lia.
  all: try specialize (Hsw eq_refl); clear Hst Hka.
  all: try match goal with H : jobqueue_push _ _ = _ |- _ => apply (Hpush _ _ _ eq_refl) in H end.
  all: try pose proof (Hpull _ _ _ eq_refl) as Hpl.
  all: clear Hpush Hpull; queue_lens.
  all: lazymatch type of Heff with _ ∨ _ => destruct Heff as [[Hz Heff]|Heff] | _ => idtac end.
  all: try destruct Heff as [k' Heff].
  all: rewrite !Heff in *; cbn -[Z.eqb Z.add Z.sub] in *; clear Heff.
  all: split; rewrite ?Hg; cbn -[Z.eqb Z.add Z.sub]; clear Hg.
  all: try (clear L2 L3; intros; lia).
  all: try (clear L1 L3; intros; lia).
  all: clear L1 L2; intros; lia.
Qed.

(** A thread stays on its side, and never leaves thpool_destroy. *)
Lemma exec_sides c p g p' g' e :
  exec c p g = Next (p', g', e) →
  is_client p' = is_client p ∧ (destroying p = true → destroying p' = true).
Proof. intros He. destruct p; try discriminate He; run_exec He; done. Qed.

Lemma step_sides l s s' :
  step l s = Next s' →
  cnt is_client s' = cnt is_client s ∧ cnt destroying s <= cnt destroying s'.
Proof.
  intros H%step_stepped. destruct H as [c p p' g e _ He _ Hc _|v _ Hc _].
  - destruct (exec_sides _ _ _ _ _ _ He) as [H1 H2]. unfold cnt. rewrite !Hc by done.
    rewrite H1. pose proof (b2z_nonneg destroying p').
    destruct (destroying p); [rewrite H2 by done|]; cbn -[destroying Z.mul]; cbn [destroying is_destroy is_done orb]; lia.
  - unfold cnt. rewrite !Hc by done. lia.
Qed.

Lemma live_spurious i t s s' :
  thr s !! i = Some t → spurious i t s = Next s' → live_inv s → live_inv s'.
Proof.
  destruct s as [ts g]. intros Ht H [L1 L2 L3]. unfold spurious in H. cbn [thr glb] in *.
  pose proof (cnt_nonneg is_waker (mk_sys ts g)).
  destruct (wake_bsem (at_pc t)) as [p|] eqn:Hb;
    [|destruct (wake_idle (at_pc t)) as [p|] eqn:Hw; [|done]]; simplify_eq.
  - assert (E : ∀ b : pc → bool, cnt b (mk_sys (<[i:=set_pc p t]> ts) g)
      = cnt b (mk_sys ts g) - Z.b2z (b (at_pc t)) + Z.b2z (b p)).
    { intros b. unfold cnt. apply (count_move (λ q, Z.b2z (b q)) ts g g _ _ _ Ht). }
    split; rewrite !E; destruct (at_pc t); cbn in Hb; simplify_eq; cbn -[cnt]; intros; [lia| |].
    + destruct (L2 ltac:(lia)); lia.
    + destruct (L3 ltac:(lia)) as [|[|]]; lia.
  - assert (E : ∀ b : pc → bool, cnt b (mk_sys (<[i:=set_pc p t]> ts) g)
      = cnt b (mk_sys ts g) - Z.b2z (b (at_pc t)) + Z.b2z (b p)).
    { intros b. unfold cnt. apply (count_move (λ q, Z.b2z (b q)) ts g g _ _ _ Ht). }
    split; rewrite !E; destruct (at_pc t); cbn in Hw; simplify_eq; cbn -[cnt]; intros.
    + destruct (L1 ltac:(lia) ltac:(lia)); lia.
    + destruct (L2 ltac:(lia)); lia.
    + destruct (L3 ltac:(lia)) as [|[|]]; lia.
Qed.

Lemma live_same ts ts' g g' :
  (∀ f, count f (mk_sys ts' g') = count f (mk_sys ts g)) → bsem_v g' = bsem_v g →
  job_queue g' = job_queue g → num_threads_working g' = num_threads_working g →
  live_inv (mk_sys ts g) → live_inv (mk_sys ts' g').
Proof.
  intros Hc H1 H2 H3 [L1 L2 L3]. cbn [glb] in *.
  assert (E : ∀ b, cnt b (mk_sys ts' g') = cnt b (mk_sys ts g)) by (intros b; apply Hc).
  split; cbn [glb]; rewrite ?E, ?H1, ?H2, ?H3; done.
Qed.

Lemma live_reachable n s :
  pool_reachable n 0 s → cnt is_client s = 1 ∧ (cnt destroying s = 0 → live_inv s).
Proof.
  apply (invariant_reachable _ _ (λ s, cnt is_client s = 1 ∧ (cnt destroying s = 0 → live_inv s))).
  - intros s0 Hs0. unfold pool_init in Hs0. subst s0.
    assert (E : ∀ b, cnt b (sys0 n 0) = Z.b2z (b (I_start n)) + Z.of_nat 0 * Z.b2z (b (C_ready 0)))
      by (intros b; unfold cnt; by rewrite count_sys0).
    split; [by rewrite E|]. intros _. split; rewrite ?E; cbn; lia.
  - intros lb s1 s' Hr [Hcl IH] Hs. clear s. rename s1 into s. destruct (step_sides _ _ _ Hs) as [E1 E2].
    split; [lia|]. intros Hd'. pose proof (cnt_nonneg destroying s).
    specialize (IH ltac:(lia)). assert (Hcalm : calm s) by by left.
    destruct (jobs_reachable n 0 s Hr Hcalm) as (l & d & HJ).
    pose proof (pool_inv_reachable n 0 s Hr Hcalm) as HI. destruct s as [ts g].
    destruct lb as [i c w|i|i|i].
    + eapply (live_thread (Z.max 0 n)); [exact Hs|done|lia|lia|done|lia|done..].
    + cbn -[spurious deliver leave] in Hs. destruct (ts !! i) as [t|] eqn:Ht; [|done]. apply (live_spurious i t (mk_sys ts g) _ Ht Hs IH).
    + cbn -[spurious deliver leave] in Hs. destruct (ts !! i) as [t|] eqn:Ht; [|done]. unfold deliver in Hs.
      case_match; [|done]. simplify_eq. eapply (live_same ts _ g); [|done..|exact IH].
      intros f. by apply count_env.
    + cbn -[spurious deliver leave] in Hs. destruct (ts !! i) as [t|] eqn:Ht; [|done]. unfold leave in Hs.
      case_match; [|done]. simplify_eq. eapply (live_same ts _ g); [|done..|exact IH].
      intros f. by apply count_env.
Qed.
