(* ===== verification/ThpoolReturn.v ===== *)
(** * The thread pool: every run of thpool_wait ends

    The steps that the pool and the waiting client take by themselves, [istep]: some step is
    possible as long as the client waits, and a potential bounds how many there are. *)

From Stdlib Require Import ZifyBool.
From S2P Require Import Prelude CInt TransSys JobQueue Thpool ThpoolInv ThpoolSafe ThpoolJobs.
From S2P Require Import ThpoolUb ThpoolWait ThpoolLive.

Open Scope Z_scope.

(** Thread [fst l] goes on; [snd l] is the sleeper its signal wakes. *)
Definition istep (l : nat * option nat) (s : sys) : sres sys := step (Thr (fst l) Go (snd l)) s.

(** No signal is pending or being handled. *)
Definition quiet (s : sys) : Prop := Forall (λ t, pending t = false ∧ held t = false) (thr s).

Definition stuck (s : sys) : Prop := ∀ l s', istep l s ≠ Next s'.

(** ** Some thread can move *)

(** Where a thread is blocked. *)
Definition blocks (p : pc) (g : glob) : bool :=
  match p with
  | A_lock _ | T_plock => rw_mutex g
  | W_lock _ | W_wake _ | T_alock | T_wlock | T_dlock | T_elock => thcount_lock g
  | A_post PLock | T_ppost PLock _ | T_block | T_bwake => bsem_mutex g
  | W_sleep _ | T_bsleep | C_null | C_done | C_ready _ | T_exit => true
  | _ => false
  end.

(** Straight-line code returns or is undefined. *)
Definition straight {S A} (m : cM S A) : Prop := ∀ s, (∃ a s', m s = Done a s') ∨ ∃ u, m s = Undef u.

Lemma straight_bind {S A B} (m : cM S A) (f : A → cM S B) :
  straight m → (∀ a, straight (f a)) → straight (m ≫= f).
Proof.
  intros Hm Hf s. destruct (Hm s) as [(a & s' & H)|(u & H)].
  - rewrite (bind_done _ _ _ _ _ H). apply Hf.
  - rewrite (bind_undef _ _ _ _ H). right. by exists u.
Qed.

Lemma straight_ret {S A} (a : A) : straight (mret a : cM S A).
Proof. intros s. left. by exists a, s. Qed.
Lemma straight_modify {S} (f : S → S) : straight (modify f).
Proof. intros s. left. by exists tt, (f s). Qed.
Lemma straight_get {S} : straight (get (S := S)).
Proof. intros s. left. by exists s, s. Qed.
Lemma straight_int {S} z : straight (int_result (S := S) z).
Proof. intros s. unfold int_result. case_decide; [left; by exists z, s|right; by exists SignedOverflow]. Qed.
Lemma straight_load p : straight (load p).
Proof.
  intros q. unfold load. destruct p; [right; by eexists| |right; by eexists].
  destruct (nodes q !! a); [left; by eexists _, _|right; by eexists].
Qed.
Lemma straight_malloc f x : straight (malloc_job f x).
Proof. intros q. left. by eexists _, _. Qed.

#[export] Hint Resolve straight_bind straight_ret straight_modify straight_get straight_int
  straight_load straight_malloc : cplay.

Lemma straight_store p v : straight (store_prev p v).
Proof. unfold store_prev. apply straight_bind; [apply straight_load|]. intros [a n]. apply straight_modify. Qed.

Lemma straight_free p : straight (free_job p).
Proof.
  unfold free_job. destruct p; [apply straight_ret|..];
    (apply straight_bind; [apply straight_load|]; intros [b n]; apply straight_modify).
Qed.

Lemma straight_push a : straight (jobqueue_push a).
Proof.
  unfold jobqueue_push. apply straight_bind; [apply straight_store|]. intros _.
  apply straight_bind; [apply straight_get|]. intros q. apply straight_bind.
  - destruct (len q =? 0); (apply straight_bind; [|intros _; apply straight_modify]);
      [apply straight_modify|apply straight_store].
  - intros _. apply straight_bind; [apply straight_int|]. intros m. apply straight_modify.
Qed.

Lemma straight_pull : straight jobqueue_pull.
Proof.
  unfold jobqueue_pull. apply straight_bind; [apply straight_get|]. intros q.
  destruct (len q =? 0); [apply straight_ret|]. destruct (len q =? 1).
  - repeat (apply straight_bind; [apply straight_modify|intros _]). apply straight_ret.
  - apply straight_bind; [apply straight_load|]. intros [a n].
    apply straight_bind; [apply straight_modify|]. intros _.
    apply straight_bind; [apply straight_int|]. intros m.
    apply straight_bind; [apply straight_modify|]. intros _. apply straight_ret.
Qed.

Ltac not_straight H L :=
  let H1 := fresh in pose proof L as H1;
  destruct H1 as [(? & ? & H1)|(? & H1)]; rewrite H1 in H; discriminate H.

Lemma exec_blocked p g :
  is_destroy p = false → exec Go p g = Blocked → blocks p g = true.
Proof.
  intros Hd He. destruct p; try discriminate Hd; cbn -[Z.eqb] in *; try done.
  all: run_exec He; try done.
  all: match goal with
    | H : jobqueue_push _ _ = _ |- _ => not_straight H (straight_push job (job_queue g))
    | H : jobqueue_pull _ = _ |- _ => not_straight H (straight_pull (job_queue g))
    | H : load _ _ = _ |- _ => not_straight H (straight_load (Ptr job) (job_queue g))
    | H : free_job _ _ = _ |- _ => not_straight H (straight_free (Ptr job) (job_queue g))
    end.
Qed.

Lemma existsb_lookup {A} (f : A → bool) l : existsb f l = true → ∃ i x, l !! i = Some x ∧ f x = true.
Proof.
  intros (x & Hx & Hf)%existsb_exists. apply list_elem_of_In, list_elem_of_lookup in Hx as [i Hi].
  by exists i, x.
Qed.

Lemma signal_enabled f ts : ∃ w ts', signal f w ts = Next ts'.
Proof.
  destruct (existsb (λ t, bool_decide (is_Some (f (at_pc t)))) ts) eqn:He.
  - apply existsb_lookup in He as (j & t & Ht & [p Hp]%bool_decide_eq_true).
    exists (Some j). unfold signal. rewrite Ht, Hp. by eexists.
  - exists None. unfold signal. rewrite He. by eexists.
Qed.

Lemma effect_enabled e s : ∃ w s', apply_effect e w s = Next s'.
Proof.
  unfold apply_effect. destruct e; try (exists None; by eexists).
  - destruct (signal_enabled wake_bsem (thr s)) as (w & ts' & Hs). exists w. rewrite Hs. by eexists.
  - destruct (signal_enabled wake_idle (thr s)) as (w & ts' & Hs). exists w. rewrite Hs. by eexists.
  - exists None. case_match; by eexists.
Qed.

Lemma stuck_blocks s i t :
  stuck s → quiet s → thr s !! i = Some t → is_destroy (at_pc t) = false →
  (∀ u, exec Go (at_pc t) (glb s) ≠ Wrong u) → blocks (at_pc t) (glb s) = true.
Proof.
  intros Hst Hq Ht Hd Hw.
  destruct (exec Go (at_pc t) (glb s)) as [[[p g] e]| |u] eqn:He.
  - exfalso. destruct (effect_enabled e (mk_sys (<[i:=set_pc p t]> (thr s)) g)) as (w & s' & Hs).
    apply (Hst (i, w) s'). unfold istep. cbn [fst snd step]. rewrite Ht. unfold step_thread.
    assert (held t = false) as -> by (by eapply (Forall_lookup_1 _ _ _ _ Hq Ht)).
    rewrite He. exact Hs.
  - by apply exec_blocked.
  - by destruct (Hw u).
Qed.

Lemma cnt_pos (b : pc → bool) s : 0 < cnt b s → ∃ i t, thr s !! i = Some t ∧ b (at_pc t) = true.
Proof.
  intros H. destruct (tsum_pos (λ t, Z.b2z (b (at_pc t))) (thr s) H) as (i & t & Ht & Hb).
  exists i, t. split; [done|]. by destruct (b (at_pc t)).
Qed.

Lemma cnt_none (b : pc → bool) s :
  (∀ i t, thr s !! i = Some t → b (at_pc t) = false) → cnt b s = 0.
Proof.
  intros H. pose proof (cnt_nonneg b s). destruct (decide (0 < cnt b s)) as [Hp|]; [|lia].
  apply cnt_pos in Hp as (i & t & Ht & Hb). by rewrite (H i t Ht) in Hb.
Qed.

(** When nothing can move, the client is not in thpool_wait. *)
Section stuck.
Context (N : Z) (s : sys).
Hypothesis (HN : 0 < N <= INT_MAX) (HI : pool_inv N s) (HL : live_inv s).
Hypothesis (Hready : ready (glb s) = true) (Hnd : cnt destroying s = 0).
Hypothesis (Hb : ∀ i t, thr s !! i = Some t → blocks (at_pc t) (glb s) = true).

Lemma free_bsem : bsem_mutex (glb s) = false.
Proof.
  destruct (bsem_mutex (glb s)) eqn:Hm; [|done]. pose proof (i_bs _ _ HI) as H. rewrite Hm in H.
  destruct (cnt_pos holds_bs s ltac:(cbn in H; lia)) as (i & t & Ht & Hh). pose proof (Hb i t Ht) as Hbi.
  assert (is_destroy (at_pc t) = false).
  { destruct (is_destroy (at_pc t)) eqn:Hd; [|done]. by destruct (at_pc t). }
  destruct (at_pc t); cbn in *; try done; by destruct p.
Qed.

Lemma free_rw : rw_mutex (glb s) = false.
Proof.
  destruct (rw_mutex (glb s)) eqn:Hm; [|done]. pose proof (i_rw _ _ HI) as H. rewrite Hm in H.
  destruct (cnt_pos holds_rw s ltac:(cbn in H; lia)) as (i & t & Ht & Hh). pose proof (Hb i t Ht) as Hbi.
  pose proof free_bsem as Hf. destruct (at_pc t); cbn in *; try done; destruct p; congruence.
Qed.

Lemma free_th : thcount_lock (glb s) = false.
Proof.
  destruct (thcount_lock (glb s)) eqn:Hm; [|done]. pose proof (i_th _ _ HI) as H. rewrite Hm in H.
  destruct (cnt_pos holds_th s ltac:(cbn in H; lia)) as (i & t & Ht & Hh). pose proof (Hb i t Ht) as Hbi.
  by destruct (at_pc t).
Qed.

(** Everybody sleeps, or is a client between two calls. *)
Lemma all_asleep i t :
  thr s !! i = Some t → is_bsleep (at_pc t) = true ∨ is_wsleep (at_pc t) = true ∨
    is_client (at_pc t) = true ∧ is_waiting (at_pc t) = false.
Proof.
  intros Ht. pose proof (Hb i t Ht) as Hbi. pose proof free_bsem. pose proof free_rw. pose proof free_th.
  assert (is_leaving (at_pc t) = false).
  { destruct (is_leaving (at_pc t)) eqn:Hl; [|done].
    pose proof (count_ge (λ q, Z.b2z (is_leaving q)) s i t ltac:(intros; apply b2z_nonneg) Ht) as H2.
    cbn in H2. rewrite Hl in H2. assert (H3 : cnt is_leaving s = 0).
    { apply (not_leaving N); [lia|done|done]. }
    unfold cnt in H3. rewrite H3 in H2. cbn in H2. lia. }
  destruct (at_pc t); cbn in *; try done; try tauto; try congruence;
    try (destruct p; cbn in *; congruence).
Qed.

Lemma nobody (b : pc → bool) :
  (∀ p, b p = true → is_worker p = true ∧ is_bsleep p = false ∨ is_waiting p = true ∧ is_wsleep p = false) →
  cnt b s = 0.
Proof.
  intros H. apply cnt_none. intros i t Ht. destruct (b (at_pc t)) eqn:Hp; [|done]. exfalso.
  destruct (H _ Hp) as [[H1 H2]|[H1 H2]];
    destruct (all_asleep i t Ht) as [H3|[H3|[H3 H4]]]; destruct (at_pc t); cbn in *; congruence.
Qed.

Lemma nobody_waits i t : thr s !! i = Some t → is_waiting (at_pc t) = false.
Proof.
  intros Ht. destruct (is_waiting (at_pc t)) eqn:Hw; [|done]. exfalso.
  assert (Hsl : is_wsleep (at_pc t) = true).
  { destruct (all_asleep i t Ht) as [H|[H|[_ H]]]; destruct (at_pc t); cbn in *; congruence. }
  assert (Hone : 0 < cnt is_wsleep s).
  { pose proof (count_ge (λ q, Z.b2z (is_wsleep q)) s i t ltac:(intros; apply b2z_nonneg) Ht) as H2.
    cbn in H2. rewrite Hsl in H2. unfold cnt. cbn in H2. lia. }
  assert (Hwk : cnt is_working s = 0) by (apply nobody; intros []; cbn; try done; auto).
  assert (Hdt : cnt is_dtest s = 0) by (apply nobody; intros []; cbn; try done; auto).
  assert (Hwr : cnt is_waker s = 0) by (apply nobody; intros []; cbn; try done; auto).
  assert (Htk : cnt has_token s = 0).
  { apply cnt_none. intros j u Hu. destruct (has_token (at_pc u)) eqn:Hp; [|done]. exfalso.
    pose proof (Hb j u Hu) as Hbi. pose proof free_bsem. pose proof free_rw. pose proof free_th.
    destruct (at_pc u); cbn in *; try congruence; destruct p; cbn in *; congruence. }
  assert (Hbs : 0 < cnt is_bsleep s).
  { pose proof (i_full _ _ HI Hready) as Hf.
    destruct (cnt_pos is_worker s ltac:(lia)) as (j & u & Hu & Hwo).
    destruct (all_asleep j u Hu) as [H|[H|[H _]]].
    - pose proof (count_ge (λ q, Z.b2z (is_bsleep q)) s j u ltac:(intros; apply b2z_nonneg) Hu) as H2.
      cbn in H2. rewrite H in H2. unfold cnt. cbn in H2. lia.
    - by destruct (at_pc u).
    - by destruct (at_pc u). }
  destruct (l_idle _ HL Hone) as [Hl|[Hl|Hl]]; [|rewrite (i_working _ _ HI) in Hl; lia|lia].
  destruct (l_token _ HL Hl) as [Hv|Hv]; [|lia].
  pose proof (l_bsem _ HL Hv Hbs). lia.
Qed.

End stuck.

(** ** A potential that every step uses up *)

(** What a thread at [p] may still do by itself, at most. *)
Definition weight (p : pc) : Z :=
  match p with
  | A_lock _ => 55 | A_body _ => 54 | A_post PLock => 27 | A_post PBody => 26 | A_post PUnlock => 2
  | A_unlock => 1
  | W_lock _ | W_wake _ => 4 | W_len _ => 3 | W_work _ => 2 | W_unlock _ => 1
  | T_start => 7 | T_alock => 6 | T_ainc => 5 | T_aunlock => 4
  | T_while => 3 | T_block => 2 | T_btest => 1 | T_bsleep => 0 | T_bwake => 2
  | T_bunlock => 21 | T_check => 20 | T_wlock => 19 | T_winc => 18 | T_wunlock => 17
  | T_plock => 16 | T_pbody => 15
  | T_ppost PLock _ => 40 | T_ppost PBody _ => 39 | T_ppost PUnlock _ => 15
  | T_punlock _ => 14 | T_run _ => 13 | T_free _ => 12 | T_dlock => 11 | T_ddec => 10
  | T_dtest => 9 | T_dunlock => 4
  | _ => 0
  end.

(** A job in the queue is worth 26 steps, a posted semaphore 21. *)
Definition potential (s : sys) : Z :=
  26 * len (job_queue (glb s)) + 21 * bsem_v (glb s) + count weight s.

Lemma weight_nonneg p : 0 <= weight p.
Proof. destruct p; cbn; try lia; destruct p; lia. Qed.

(** A client that waits, or is between two calls. *)
Definition is_idle_client (p : pc) : bool := is_waiting p || is_ready p.

Record waiting_state (n : Z) (s : sys) : Prop := {
  ws_reach : pool_reachable n 0 s;
  ws_ready : ready (glb s) = true;
  ws_client : cnt is_idle_client s = 1;
  ws_jobs : Z.of_nat (length (submitted (glb s))) < INT_MAX;
  ws_quiet : quiet s;
}.

(** Where the one client is in thpool_wait. *)
Lemma waiting_state_intro n s i t :
  pool_reachable n 0 s → Z.of_nat (length (submitted (glb s))) < INT_MAX → quiet s →
  ready (glb s) = true → thr s !! i = Some t → is_waiting (at_pc t) = true → waiting_state n s.
Proof.
  intros Hr Hj Hq Hre Ht Hw. split; try done. destruct (live_reachable n s Hr) as [Hcl _].
  pose proof (count_ge (λ q, Z.b2z (is_waiting q)) s i t ltac:(intros; apply b2z_nonneg) Ht) as H2.
  cbn in H2. rewrite Hw in H2.
  assert (cnt is_waiting s <= cnt is_idle_client s) by (apply count_le; intros []; cbn; lia).
  assert (cnt is_idle_client s <= cnt is_client s) by (apply count_le; intros []; cbn; lia).
  unfold cnt in *. cbn in H2. lia.
Qed.

Lemma quiet_insert ts i t p g :
  ts !! i = Some t → held t = false → quiet (mk_sys ts g) → quiet (mk_sys (<[i:=set_pc p t]> ts) g).
Proof.
  intros Ht Hh Hq. unfold quiet in *. cbn [thr] in *. apply Forall_insert; [done|].
  by apply (Forall_lookup_1 _ _ _ _ Hq Ht).
Qed.

Lemma signal_quiet f w ts ts' g g' :
  signal f w ts = Next ts' → quiet (mk_sys ts g) → quiet (mk_sys ts' g').
Proof.
  unfold signal. intros H Hq. destruct w as [j|]; [|by case_match; simplify_eq].
  destruct (ts !! j) as [u|] eqn:Hu; [|done]. destruct (f (at_pc u)) as [p|]; [|done]. simplify_eq.
  apply (quiet_insert ts j u p g'); [done|by apply (Forall_lookup_1 _ _ _ _ Hq Hu)|done].
Qed.

Lemma effect_quiet e w s s' :
  apply_effect e w s = Next s' → e ≠ WakeAllBsem → (∀ i, e ≠ Kill i) → quiet s → quiet s'.
Proof.
  destruct s as [ts g]. unfold apply_effect. cbn [thr glb]. intros H He Hk Hq.
  destruct e; cbn -[signal] in H; try done.
  - by simplify_eq.
  - destruct (signal _ _ _) as [ts'| |] eqn:Hs; [|done..]. cbn in H. simplify_eq.
    by eapply signal_quiet.
  - destruct (signal _ _ _) as [ts'| |] eqn:Hs; [|done..]. cbn in H. simplify_eq.
    by eapply signal_quiet.
  - simplify_eq. unfold quiet in *. cbn [thr] in *. apply Forall_app. by split; [|repeat constructor].
  - by destruct (Hk tid).
Qed.

(** The moves that are left: of workers, and of the client in thpool_wait. *)
Definition moves_alone (p : pc) : bool := is_worker p || is_waiting p.

Lemma exec_alone p g p' g' e :
  exec Go p g = Next (p', g', e) → moves_alone p = true →
  is_idle_client p' = is_idle_client p ∧ ready g' = ready g ∧ submitted g' = submitted g ∧
  (∀ i, e ≠ Kill i) ∧ (∀ i, e ≠ Spawn i).
Proof.
  intros He Hp. destruct p; try discriminate Hp; try discriminate He; run_exec He; done.
Qed.

Lemma waiting_alone n s i t p g e :
  waiting_state n s → thr s !! i = Some t → exec Go (at_pc t) (glb s) = Next (p, g, e) →
  moves_alone (at_pc t) = true.
Proof.
  intros [Hr Hre Hc Hjb Hq] Ht He. destruct (live_reachable n s Hr) as [Hcl _].
  destruct (moves_alone (at_pc t)) eqn:Hm; [done|]. exfalso. unfold moves_alone in Hm.
  apply orb_false_iff in Hm as [Hw Hwt].
  assert (is_ready (at_pc t) = false).
  { destruct (at_pc t); try done. cbn in He. by rewrite Hre in He. }
  set (b := λ p : pc, is_client p && negb (is_idle_client p)).
  assert (Hb : b (at_pc t) = true) by (unfold b, is_client, is_idle_client; by rewrite Hw, Hwt, H).
  pose proof (count_ge (λ q, Z.b2z (b q)) s i t ltac:(intros; apply b2z_nonneg) Ht) as H2.
  cbn in H2. rewrite Hb in H2.
  assert (cnt b s + cnt is_idle_client s <= cnt is_client s).
  { unfold cnt. rewrite <- count_add. apply count_le. intros []; cbn; lia. }
  unfold cnt in *. cbn in H2. lia.
Qed.

Lemma waiting_calm n s :
  waiting_state n s → calm s ∧ cnt is_client s = 1 ∧ cnt destroying s = 0 ∧ cnt is_start s = 0.
Proof.
  intros [Hr Hre Hc Hjb Hq]. destruct (live_reachable n s Hr) as [Hcl _].
  assert (H1 : cnt destroying s + cnt is_idle_client s <= cnt is_client s).
  { unfold cnt. rewrite <- count_add. apply count_le. intros []; cbn; lia. }
  assert (H2 : cnt is_start s + cnt is_idle_client s <= cnt is_client s).
  { unfold cnt. rewrite <- count_add. apply count_le. intros []; cbn; lia. }
  pose proof (cnt_nonneg destroying s). pose proof (cnt_nonneg is_start s).
  split_and!; [by left|lia..].
Qed.

Lemma potential_exec N i s s' t p' g e δ l d :
  pool_inv N s → jobs_inv s l d → threads_keepalive (glb s) = 1 →
  is_leaving (at_pc t) = false → thr s !! i = Some t → moves_alone (at_pc t) = true →
  exec Go (at_pc t) (glb s) = Next (p', g, e) → glb s' = after_effect e (length (thr s)) g →
  effect_counts e (mk_sys (<[i := set_pc p' t]> (thr s)) g) δ →
  count weight s' = count weight s - weight (at_pc t) + weight p' + δ weight →
  potential s' < potential s.
Proof.
  intros HI HJ Hka Hlv Ht Hm He Hg Heff Hc. unfold potential. rewrite Hg, Hc. clear Hc Hg.
  pose proof (i_v _ _ HI) as Hv. pose proof (len_nonneg _ _ _ HJ) as Hlen.
  pose proof (pull_len s l d) as Hpull. specialize (Hpull) with (1 := HJ).
  assert (Hδ : e = WakeBsem → δ weight <= 2).
  { intros ->. destruct Heff as [[_ H]|H]; rewrite H; cbn; lia. }
  assert (Hδ' : e = WakeIdle → δ weight <= 4).
  { intros ->. destruct Heff as [[_ H]|[k H]]; rewrite H; cbn; lia. }
  assert (Hδ0 : e = NoEff → δ weight = 0).
  { intros ->. apply Heff. }
  clear HI HJ Ht Heff. destruct (at_pc t); try discriminate Hm; try discriminate He; try discriminate Hlv;
    cbn -[Z.eqb Z.add Z.sub Z.mul] in *.
  all: run_exec He; cbn -[Z.eqb Z.add Z.sub Z.mul] in *.
  all: try specialize (Hδ eq_refl); try specialize (Hδ' eq_refl); try specialize (Hδ0 eq_refl).
  all: try pose proof (Hpull _ _ _ eq_refl) as Hpl; clear Hpull; queue_lens; try lia.
Qed.

Lemma effect_idle_client e s δ :
  effect_counts e s δ → e ≠ WakeAllBsem → δ (λ q, Z.b2z (is_idle_client q)) = 0.
Proof.
  destruct e; cbn; intros H He; try done; try (by rewrite H); destruct H as [[_ H]|H];
    try (by rewrite H); destruct H as [k H]; by rewrite H.
Qed.

(** A step of the pool keeps the client waiting or between two calls, and uses up potential. *)
Lemma waiting_step n l s s' :
  0 <= n → waiting_state n s → istep l s = Next s' → waiting_state n s' ∧ potential s' < potential s.
Proof.
  intros Hn Hws Hs. destruct (waiting_calm n s Hws) as (Hcalm & Hcl & Hd & Hst).
  pose proof Hws as [Hr Hre Hc Hjb Hq]. pose proof (pool_inv_reachable n 0 s Hr Hcalm) as HI.
  destruct (jobs_reachable n 0 s Hr Hcalm) as (q & d & HJ). pose proof (i_keep _ _ HI Hd Hst) as Hka.
  destruct (step_counts _ _ _ _ _ Hs) as (t & p' & g & e & Ht & He & Hg & Hcount).
  pose proof (waiting_alone _ _ _ _ _ _ _ Hws Ht He) as Hm.
  destruct (exec_alone _ _ _ _ _ He Hm) as (Hid & Hrg & Hsub & Hk & Hsp).
  assert (Hnd : is_destroy (at_pc t) = false) by by destruct (at_pc t).
  pose proof (exec_no_broadcast _ _ _ _ _ _ He Hnd) as Hnb.
  destruct (Hcount Hnb) as (δ & Heff & _ & Hct).
  assert (Hlv : is_leaving (at_pc t) = false).
  { destruct (is_leaving (at_pc t)) eqn:Hl; [|done].
    pose proof (count_ge (λ q, Z.b2z (is_leaving q)) s _ t ltac:(intros; apply b2z_nonneg) Ht) as H2.
    cbn in H2. rewrite Hl in H2. pose proof (i_leaving _ _ HI Hka) as H3. unfold cnt in H3.
    cbn in H2. lia. }
  split; [split|].
  - exact (reachable_step _ _ _ _ _ Hr Hs).
  - rewrite Hg. transitivity (ready g); [by destruct e|by rewrite Hrg].
  - rewrite <- Hc. unfold cnt. rewrite Hct, Hid, (effect_idle_client _ _ _ Heff Hnb). lia.
  - rewrite Hg. replace (submitted _) with (submitted g) by by destruct e. by rewrite Hsub.
  - unfold istep in Hs. cbn [step] in Hs. rewrite Ht in Hs. unfold step_thread in Hs.
    assert (Hh : held t = false) by by apply (Forall_lookup_1 _ _ _ _ Hq Ht).
    rewrite Hh, He in Hs. cbn -[apply_effect] in Hs. eapply effect_quiet; [exact Hs|done|done|].
    apply (quiet_insert (thr s) (fst l) t p' g); [done|done|]. by destruct s.
  - by eapply potential_exec.
Qed.

Lemma potential_nonneg n s : waiting_state n s → 0 <= potential s.
Proof.
  intros Hws. destruct (waiting_calm n s Hws) as (Hcalm & _). destruct Hws as [Hr _ _ _ _].
  destruct (jobs_reachable n 0 s Hr Hcalm) as (q & d & HJ). pose proof (len_nonneg _ _ _ HJ).
  pose proof (i_v _ _ (pool_inv_reachable n 0 s Hr Hcalm)).
  pose proof (count_nonneg weight s weight_nonneg). unfold potential. lia.
Qed.

(** The client is one thread throughout. *)
Lemma waiting_client n l s s' i t :
  waiting_state n s → istep l s = Next s' → thr s !! i = Some t → is_idle_client (at_pc t) = true →
  ∃ t', thr s' !! i = Some t' ∧ is_idle_client (at_pc t') = true.
Proof.
  intros Hws Hs Ht Hc. assert (Hwk : ∀ p p', woken p p' → is_idle_client p' = is_idle_client p).
  { intros p p' [H|H]; destruct p; cbn in H; by simplify_eq. }
  destruct (step_at _ _ _ _ _ Hs Ht) as (t' & Ht' & [Heq|[Hw|Hmv]]); exists t'; (split; [done|]).
  - by rewrite Heq.
  - by rewrite (Hwk _ _ Hw).
  - destruct Hmv as (c & w & g & e & p & Hl & He & Hg & Hp). injection Hl as Hi <- _.
    pose proof (waiting_alone _ _ _ _ _ _ _ Hws Ht He) as Hm.
    destruct (exec_alone _ _ _ _ _ He Hm) as (Hid & _).
    destruct Hp as [->|Hp]; [|rewrite (Hwk _ _ Hp)]; by rewrite Hid.
Qed.

Lemma waiting_run n ls s s' i t :
  0 <= n → waiting_state n s → run istep ls s = Next s' → thr s !! i = Some t →
  is_idle_client (at_pc t) = true →
  waiting_state n s' ∧ ∃ t', thr s' !! i = Some t' ∧ is_idle_client (at_pc t') = true.
Proof.
  intros Hn. revert s t. induction ls as [|l ls IH]; intros s t Hws Hrun Ht Hc.
  - injection Hrun as ->. split; [done|]. by exists t.
  - rewrite run_cons in Hrun. destruct (istep l s) as [s1| |] eqn:Hl; [|done..].
    destruct (waiting_client _ _ _ _ _ _ Hws Hl Ht Hc) as (t1 & Ht1 & Hc1).
    destruct (waiting_step _ _ _ _ Hn Hws Hl) as [Hws1 _]. by eapply IH.
Qed.

(** When nothing moves any more, the client is back. *)
Lemma waiting_end n s i t :
  1 <= n <= INT_MAX → waiting_state n s → stuck s → thr s !! i = Some t →
  is_idle_client (at_pc t) = true → is_ready (at_pc t) = true.
Proof.
  intros Hn Hws Hst Ht Hc. destruct (waiting_calm n s Hws) as (Hcalm & Hcl & Hd & Hst0).
  pose proof Hws as [Hr Hre _ Hjb Hq]. pose proof (pool_inv_reachable n 0 s Hr Hcalm) as HI.
  destruct (jobs_reachable n 0 s Hr Hcalm) as (q & d & HJ).
  destruct (live_reachable n s Hr) as [_ HL]. pose proof (arr_reachable n 0 s Hr Hcalm) as HA.
  assert (HN : 0 <= Z.max 0 n <= INT_MAX) by lia.
  pose proof (not_leaving _ _ (proj1 HN) HI Hd) as Hlv.
  assert (Hno : ∀ b : pc → bool, cnt b s = 0 → ∀ j u, thr s !! j = Some u → b (at_pc u) = false).
  { intros b Hb j u Hu. destruct (b (at_pc u)) eqn:Hbu; [|done].
    pose proof (count_ge (λ q, Z.b2z (b q)) s j u ltac:(intros; apply b2z_nonneg) Hu) as H2.
    cbn in H2. rewrite Hbu in H2. unfold cnt in Hb. rewrite Hb in H2. cbn in H2. lia. }
  assert (Hb : ∀ j u, thr s !! j = Some u → blocks (at_pc u) (glb s) = true).
  { intros j u Hu. eapply stuck_blocks; [done..| |].
    - pose proof (Hno destroying Hd j u Hu) as Hdu. unfold destroying in Hdu.
      by apply orb_false_iff in Hdu as [-> _].
    - intros v Hv. pose proof (Hno is_leaving Hlv j u Hu) as Hlu.
      destruct (exec_wrong _ _ _ _ _ _ HN Hcalm HI HA HJ Hu Hjb Go v ltac:(done) Hv) as (Hla & _).
      by destruct (at_pc u). }
  pose proof (nobody_waits (Z.max 0 n) s ltac:(lia) HI (HL Hd) Hre Hd Hb i t Ht) as Hw.
  unfold is_idle_client in Hc. by rewrite Hw in Hc.
Qed.
