(* ===== verification/ThpoolProps.v ===== *)
(** * The thread pool: properties

    What the pool promises, of every state that any schedule can reach: each job once and in
    order, thpool_wait, mutual exclusion and the counters, and where undefined behaviour is. *)

From Stdlib Require Import ZifyBool.
From S2P Require Import Prelude CInt TransSys JobQueue Thpool ThpoolInv ThpoolSafe ThpoolJobs.
From S2P Require Import ThpoolUb ThpoolPosix ThpoolWait ThpoolLive ThpoolReturn.

Open Scope Z_scope.

(** ** A run, for the witnesses *)

(** One client, one worker: the client submits a job and waits for it. *)
Definition steps (i n : nat) : list label := replicate n (Thr i Go None).

Definition boot : list label := steps 0 3 ++ steps 1 7 ++ steps 0 1.
Definition submit (x : Z) (sleeper : option nat) : list label :=
  [Thr 0 (Call (OpAdd 7 x)) None] ++ steps 0 3 ++ [Thr 0 Go sleeper] ++ steps 0 2.
Definition await : list label := [Thr 0 (Call OpWait) None] ++ steps 0 2.
Definition serve : list label :=
  steps 1 14 ++ [Thr 1 Go (Some 0%nat)] ++ steps 1 1 ++ steps 0 4.

Definition state_after (ls : list label) : sys :=
  match run step ls (sys0 1 0) with Next s => s | _ => sys0 1 0 end.

Lemma state_after_reachable ls : pool_reachable 1 0 (state_after ls).
Proof.
  unfold state_after. destruct (run step ls (sys0 1 0)) as [s| |] eqn:Hr.
  - eapply run_reachable; [by apply reachable_init|done].
  - by apply reachable_init.
  - by apply reachable_init.
Qed.

(** A run from a reachable state, with the invariants at its ends. *)
Lemma calm_run ls s s' : run step ls s = Next s' → calm s' → calm s.
Proof.
  revert s. induction ls as [|l ls IH]; intros s H Hc; [by injection H as ->|].
  rewrite run_cons in H.   destruct (step l s) as [s1| |] eqn:Hl; [|done..].
  eapply calm_mono; [by eapply step_stepped|]. by eapply IH.
Qed.

Lemma wait_at_run n others k i ls s s' t :
  pool_reachable n others s → run step ls s = Next s' → calm s' →
  Forall (λ l, ∀ o w, l ≠ Thr i (Call o) w) ls →
  thr s !! i = Some t → wait_at k (glb s) (at_pc t) →
  ∃ t', thr s' !! i = Some t' ∧ wait_at k (glb s') (at_pc t').
Proof.
  revert s t. induction ls as [|l ls IH]; intros s t Hr Hrun Hcalm Hls Ht Hw.
  - injection Hrun as ->. by exists t.
  - assert (Hc : calm s) by by eapply calm_run. rewrite run_cons in Hrun.
    destruct (step l s) as [s1| |] eqn:Hl; [|done..]. apply Forall_cons in Hls as [Hl1 Hls].
    destruct (jobs_reachable n others s Hr Hc) as (q & d & HJ).
    destruct (wait_at_step (Z.max 0 n) k l s s1 i t q d) as (t1 & Ht1 & Hw1); try done.
    { by apply (pool_inv_reachable n others). }
    eapply IH; [by eapply reachable_step|done..].
Qed.

(** C4: every job is called once, in the order of submission: as long as thpool_destroy has not
    begun to clear the queue, the jobs submitted are those pulled by workers followed by those
    that the linked queue holds, in order, and the jobs pulled are those called together with
    those in the hands of a worker. *)
Theorem thpool_jobs_once n others s :
  pool_reachable n others s → calm s → cnt past_loops s = 0 →
  ∃ pending, queue_repr (job_queue (glb s)) pending ∧
    submitted (glb s) = started (glb s) ++ (entry_of (job_queue (glb s)) <$> pending) ∧
    finished (glb s) ++ (entry_of (job_queue (glb s)) <$> held_by running s) ≡ₚ started (glb s).
Proof.
  intros Hr Hc Hp. destruct (jobs_reachable n others s Hr Hc) as (l & d & HJ).
  exists l. split_and!; [apply HJ| |apply HJ].
  rewrite (j_sub _ _ _ HJ). by rewrite (j_drop _ _ _ HJ Hp).
Qed.

Lemma thpool_jobs_once_witness :
  let s := state_after (boot ++ submit 1 (Some 1%nat) ++ submit 2 None ++ submit 3 None ++ steps 1 9) in
  (length (submitted (glb s)) = 3 ∧ length (started (glb s)) = 1)%nat ∧
  ∃ pending, queue_repr (job_queue (glb s)) pending ∧
    submitted (glb s) = started (glb s) ++ (entry_of (job_queue (glb s)) <$> pending) ∧
    finished (glb s) ++ (entry_of (job_queue (glb s)) <$> held_by running s) ≡ₚ started (glb s).
Proof.
  intros s. assert (calm s) by (left; vm_compute; reflexivity).
  split; [vm_compute; split; reflexivity|].
  refine (thpool_jobs_once 1 0 s _ _ _); [apply state_after_reachable|done|vm_compute; reflexivity].
Defined.

(** C5: when a call of thpool_wait returns, every job submitted before the call has been called:
    from any reachable state in which a client calls thpool_wait, along any run in which that
    client makes no further call, once the client is back the jobs called are those submitted
    before its call and possibly more. *)
Theorem thpool_wait_waits n others i w ls s s1 s2 t0 t2 :
  pool_reachable n others s → thr s !! i = Some t0 → is_ready (at_pc t0) = true →
  step (Thr i (Call OpWait) w) s = Next s1 → run step ls s1 = Next s2 →
  Forall (λ l, ∀ o w, l ≠ Thr i (Call o) w) ls → calm s2 →
  thr s2 !! i = Some t2 → is_ready (at_pc t2) = true →
  ∃ rest, finished (glb s2) ≡ₚ submitted (glb s) ++ rest.
Proof.
  intros Hr Ht H0 Hs Hrun Hls Hcalm Ht2 Hback. set (k := length (submitted (glb s))).
  assert (Hx : extends (glb s) (glb s1)) by by eapply step_extends.
  assert (∃ t1, thr s1 !! i = Some t1 ∧ wait_at k (glb s1) (at_pc t1)) as (t1 & Ht1 & Hw1).
  { cbn in Hs. rewrite Ht in Hs. unfold step_thread in Hs. destruct (held t0); [done|].
    destruct (at_pc t0); try done. cbn in Hs.
    destruct (ready (glb s)); [|done]. cbn in Hs. simplify_eq. cbn [thr glb].
    rewrite list_lookup_insert_eq by by eapply lookup_lt_Some. by eexists. }
  destruct (wait_at_run n others k i ls s1 s2 t1) as (t & Ht' & Hw); try done.
  { by eapply reachable_step. }
  assert (t2 = t) as -> by congruence. destruct (at_pc t); try done. destruct Hw as [Hk [rest Hf]]. exists rest.
  rewrite Hf. f_equiv. apply run_extends in Hrun. destruct Hrun as [Hs2 _ _].
  destruct Hx as [Hs1 _ _]. rewrite (take_prefix (submitted (glb s)) (submitted (glb s2)) k); [|by etransitivity|done].
  by rewrite take_ge.
Qed.

Lemma thpool_wait_waits_witness :
  let s := state_after (boot ++ submit 1 (Some 1%nat) ++ submit 2 None) in
  let ls := steps 0 2 ++ steps 1 17 ++ [Thr 1 Go (Some 0%nat)] ++ steps 1 18 ++ steps 0 4 in
  let s1 := match step (Thr 0 (Call OpWait) None) s with Next s' => s' | _ => s end in
  let s2 := match run step ls s1 with Next s' => s' | _ => s1 end in
  finished (glb s2) ≠ [] ∧ ∃ rest, finished (glb s2) ≡ₚ submitted (glb s) ++ rest.
Proof.
  intros s ls s1 s2. split; [vm_compute; discriminate|].
  refine (thpool_wait_waits 1 0 0 None ls s s1 s2 (mk_thread (C_ready 0) false false) (mk_thread (C_ready 0) false false) _ _ _ _ _ _ _ _ _);
    [apply state_after_reachable | vm_compute; reflexivity | reflexivity | vm_compute; reflexivity
    | vm_compute; reflexivity | repeat (constructor; [by intros|]); constructor
    | left; vm_compute; reflexivity | vm_compute; reflexivity | reflexivity].
Defined.





(** C8: the three locks exclude, and the counters count: no two threads are inside of critical
    sections of the same lock; num_threads_alive and num_threads_working are the numbers of
    threads between the statements that count them, at most as many as thpool_init was asked
    for; and once thpool_init has returned that many workers exist. *)
Theorem thpool_locks_and_counters n others s i j t u :
  pool_reachable n others s → calm s → i ≠ j → thr s !! i = Some t → thr s !! j = Some u →
  ¬ (holds_th (at_pc t) = true ∧ holds_th (at_pc u) = true) ∧
  ¬ (holds_rw (at_pc t) = true ∧ holds_rw (at_pc u) = true) ∧
  ¬ (holds_bs (at_pc t) = true ∧ holds_bs (at_pc u) = true) ∧
  num_threads_alive (glb s) = cnt is_alive s ∧ num_threads_working (glb s) = cnt is_working s ∧
  0 <= num_threads_working (glb s) <= num_threads_alive (glb s) ∧
  num_threads_alive (glb s) <= Z.max 0 n ∧
  (ready (glb s) = true → cnt is_worker s = Z.max 0 n).
Proof.
  intros Hr Hc Hij Ht Hu. pose proof (pool_inv_reachable n others s Hr Hc) as HI.
  assert (Hex : ∀ (b : pc → bool) (m : bool), cnt b s = Z.b2z m →
    ¬ (b (at_pc t) = true ∧ b (at_pc u) = true)).
  { intros b m Hm [H1 H2].
    pose proof (tsum_ge2 (λ t, Z.b2z (b (at_pc t))) (thr s) i j t u
                  ltac:(intros; apply b2z_nonneg) Hij Ht Hu) as H.
    cbn in H. rewrite H1, H2 in H. change (tsum _ _) with (cnt b s) in H.
    rewrite Hm in H. destruct m; cbn in H; lia. }
  destruct (parts_hold s). pose proof (i_workers _ _ HI). pose proof (cnt_nonneg is_working s).
  pose proof (cnt_nonneg is_new s). pose proof (cnt_nonneg is_gone s).
  rewrite (i_alive _ _ HI), (i_working _ _ HI).
  split_and!; try done; try lia; [by eapply Hex, (i_th _ _ HI)|by eapply Hex, (i_rw _ _ HI)
    |by eapply Hex, (i_bs _ _ HI)|apply (i_full _ _ HI)].
Qed.

Lemma thpool_locks_and_counters_witness :
  let s := state_after (boot ++ submit 1 (Some 1%nat) ++ steps 1 5) in
  0 <= num_threads_working (glb s) <= num_threads_alive (glb s).
Proof.
  intros s.
  refine (proj1 (proj2 (proj2 (proj2 (proj2 (proj2 (thpool_locks_and_counters 1 0 s 0 1
    (mk_thread (C_ready 0) false false) (mk_thread T_winc false false) _ _ _ _ _)))))));
    [apply state_after_reachable | left; vm_compute; reflexivity | discriminate
    | vm_compute; reflexivity | vm_compute; reflexivity].
Defined.

(** C2: thpool_wait returns.  One client, at least one worker, and no signal outstanding: while
    the client is in thpool_wait and does nothing else, the runs of the pool are bounded, however
    the scheduler picks the threads and the sleepers that signals wake; and when no thread can move
    any more, the client is back from thpool_wait. *)
Theorem thpool_wait_returns n s i t :
  pool_reachable n 0 s → 1 <= n <= INT_MAX → Z.of_nat (length (submitted (glb s))) < INT_MAX →
  quiet s → ready (glb s) = true → thr s !! i = Some t → is_waiting (at_pc t) = true →
  (∀ ls s', run istep ls s = Next s' → (length ls <= Z.to_nat (potential s))%nat) ∧
  (∀ ls s', run istep ls s = Next s' → stuck s' →
    ∃ t', thr s' !! i = Some t' ∧ is_ready (at_pc t') = true).
Proof.
  intros Hr Hn Hjb Hq Hre Ht Hw. assert (Hws : waiting_state n s) by by eapply waiting_state_intro.
  split.
  - intros ls s' Hrun.
    enough ((length ls + Z.to_nat (potential s') <= Z.to_nat (potential s))%nat) by lia.
    apply (measure_bounds istep (waiting_state n) (λ s, Z.to_nat (potential s))); [|done..].
    intros l s1 s2 H1 H2. destruct (waiting_step n l s1 s2 ltac:(lia) H1 H2) as [H3 H4].
    pose proof (potential_nonneg n s2 H3). split; [done|]. cbn beta. lia.
  - intros ls s' Hrun Hst.
    destruct (waiting_run n ls s s' i t ltac:(lia) Hws Hrun Ht) as (Hws' & t' & Ht' & Hc').
    { unfold is_idle_client. by rewrite Hw. }
    exists t'. split; [done|]. by eapply waiting_end.
Qed.

Lemma thpool_wait_returns_witness :
  let s := state_after (boot ++ submit 1 (Some 1%nat) ++ submit 2 None ++ await) in
  potential s = 75 ∧ ∀ ls s', run istep ls s = Next s' → (length ls <= 75)%nat.
Proof.
  intros s. split; [vm_compute; reflexivity|].
  refine (proj1 (thpool_wait_returns 1 s 0 (mk_thread (W_sleep 2) false false) _ _ _ _ _ _ _));
    [apply state_after_reachable | vm_compute; split; discriminate | vm_compute; reflexivity
    | by apply (bool_decide_unpack (Forall _ _)); vm_compute | vm_compute; reflexivity | vm_compute; reflexivity | reflexivity].
Defined.
