(* ===== verification/ThpoolSpec.v ===== *)
(** * The thread pool refines a queue with workers

    What a client has to know of the pool: a queue of submitted jobs, the jobs in the hands of
    the workers, and the jobs done.  Every run of the detailed system, as long as
    thpool_destroy has not begun to clear the queue, is a run of this specification. *)

From Stdlib Require Import ZifyBool.
From S2P Require Import Prelude CInt TransSys JobQueue Thpool ThpoolInv ThpoolSafe ThpoolJobs ThpoolProps.

(** ** The specification *)

Record apool (J : Type) := mk_apool {
  queue : list J;
  in_hand : list J;
  completed : list J;
}.
Arguments mk_apool {J} queue in_hand completed.
Arguments queue {J} a.
Arguments in_hand {J} a.
Arguments completed {J} a.

Section spec.
Context {J : Type} `{EqDecision J} (workers : nat).
Implicit Types (p q : apool J) (j : J).

(** [l] without one [j]. *)
Fixpoint take_out (j : J) (l : list J) : option (list J) :=
  match l with
  | [] => None
  | x :: l => if decide (j = x) then Some l else cons x <$> take_out j l
  end.

Lemma take_out_some j l k : take_out j l = Some k → l ≡ₚ j :: k.
Proof.
  revert k. induction l as [|x l IH]; intros k H; [done|]. cbn in H. case_decide; [by simplify_eq|].
  destruct (take_out j l) as [k'|]; [|done]. cbn in H. simplify_eq. rewrite (IH k' eq_refl). apply Permutation_swap.
Qed.

Lemma take_out_perm j l k : l ≡ₚ j :: k → ∃ k', k ≡ₚ k' ∧ take_out j l = Some k'.
Proof.
  intros H. assert (Hin : j ∈ l) by (rewrite H; set_solver).
  assert (Hsome : is_Some (take_out j l)).
  { clear H. induction l as [|x l IH]; [by apply elem_of_nil in Hin|]. cbn. case_decide; [done|].
    apply elem_of_cons in Hin as [?|Hin]; [done|]. destruct (IH Hin) as [k' ->]. done. }
  destruct Hsome as [k' Hk]. exists k'. split; [|done]. apply take_out_some in Hk.
  apply (Permutation_cons_inv (a := j)). by rewrite <- H, <- Hk.
Qed.

(** Which worker has which job does not matter. *)
#[export] Instance apool_equiv : Equiv (apool J) := λ p q,
  queue p = queue q ∧ in_hand p ≡ₚ in_hand q ∧ completed p = completed q.

#[export] Instance apool_equivalence : Equivalence (≡@{apool J}).
Proof.
  split.
  - by intros p.
  - intros p q (H1 & H2 & H3). split_and!; by symmetry.
  - intros p q r (H1 & H2 & H3) (K1 & K2 & K3). split_and!; by etransitivity.
Qed.

Definition apool0 : apool J := mk_apool [] [] [].

Definition submit j p : apool J := mk_apool (queue p ++ [j]) (in_hand p) (completed p).

(** A free worker takes the first job. *)
Definition start p : option (J * apool J) :=
  match queue p with
  | j :: rest =>
      if decide (length (in_hand p) < workers)%nat then Some (j, mk_apool rest (j :: in_hand p) (completed p)) else None
  | [] => None
  end.

Definition finish j p : option (apool J) :=
  hand ← take_out j (in_hand p); Some (mk_apool (queue p) hand (completed p ++ [j])).

Definition all_done p : bool := match queue p, in_hand p with [], [] => true | _, _ => false end.

Inductive spec_step p : apool J → Prop :=
  | spec_same q : q ≡ p → spec_step p q
  | spec_submit j q : q ≡ submit j p → spec_step p q
  | spec_start j p' q : start p = Some (j, p') → q ≡ p' → spec_step p q
  | spec_finish j p' q : finish j p = Some p' → q ≡ p' → spec_step p q.

(** Equivalent pools make equivalent steps. *)
#[export] Instance spec_step_proper : Proper ((≡) ==> (≡) ==> iff) spec_step.
Proof.
  assert (Hone : ∀ p p' q q', p ≡ p' → q ≡ q' → spec_step p q → spec_step p' q').
  { intros p p' q q' Hp Hq Hs. pose proof Hp as (Hp1 & Hp2 & Hp3). destruct Hs as [q Hs|j q Hs|j r q Hr Hs|j r q Hr Hs].
    - apply spec_same. by rewrite <- Hq, Hs.
    - apply spec_submit with j. rewrite <- Hq, Hs. unfold submit. split_and!; cbn; by rewrite ?Hp1, ?Hp3.
    - unfold start in Hr. rewrite Hp1 in Hr. destruct (queue p') as [|j' rest] eqn:Hqu; [done|].
      case_decide as Hl; [|done]. simplify_eq.
      apply spec_start with j (mk_apool rest (j :: in_hand p') (completed p')).
      + unfold start. rewrite Hqu, decide_True; [done|]. by rewrite <- Hp2.
      + rewrite <- Hq, Hs. split_and!; cbn; [done|by rewrite Hp2|done].
    - unfold finish in Hr. destruct (take_out j (in_hand p)) as [hand|] eqn:Hh; [|done]. cbn in Hr. simplify_eq.
      apply take_out_some in Hh. rewrite Hp2 in Hh. apply take_out_perm in Hh as (hand' & Hh & Hr).
      apply spec_finish with j (mk_apool (queue p') hand' (completed p' ++ [j])).
      + unfold finish. by rewrite Hr.
      + rewrite <- Hq, Hs. split_and!; cbn; by rewrite ?Hp1, ?Hp3. }
  intros p p' Hp q q' Hq. split; by apply Hone.
Qed.

End spec.

Arguments apool0 {J}.

(** ** The pool's history in steps *)

(** A step adds at most one job to one of the three lists. *)
Definition grows (g g' : glob) : Prop :=
  ∃ a b c, submitted g' = submitted g ++ a ∧ started g' = started g ++ b ∧ finished g' = finished g ++ c ∧
  (length a + length b + length c <= 1)%nat.

Lemma grows_same g g' :
  submitted g' = submitted g → started g' = started g → finished g' = finished g → grows g g'.
Proof. intros H1 H2 H3. exists [], [], []. rewrite H1, H2, H3, !app_nil_r. split_and!; try done; cbn; lia. Qed.

Lemma exec_grows c p p' g g' e : exec c p g = Next (p', g', e) → grows g g'.
Proof.
  intros He. destruct p; try discriminate He; run_exec He; cbn; try by apply grows_same.
  - eexists [_], [], []. cbn. rewrite !app_nil_r. split_and!; done || lia.
  - eexists [], [_], []. cbn. rewrite !app_nil_r. split_and!; done || lia.
  - eexists [], [_], []. cbn. rewrite !app_nil_r. split_and!; done || lia.
  - eexists [], [], [_]. cbn. rewrite !app_nil_r. split_and!; done || lia.
Qed.

Lemma step_grows l s s' : step l s = Next s' → grows (glb s) (glb s').
Proof.
  intros H%step_stepped. destruct H as [c p p' g e _ He Hg _ _|v Hg _ _].
  - apply exec_grows in He as (a & b & k & H1 & H2 & H3 & H4). exists a, b, k. rewrite Hg. by destruct e.
  - rewrite Hg. by apply grows_same.
Qed.

(** The pool serves: thpool_destroy has not begun to clear the queue. *)
Definition serving (s : sys) : Prop := calm s ∧ cnt past_loops s = 0.

Lemma serving_step l s s' : step l s = Next s' → serving s' → serving s.
Proof.
  intros Hs%step_stepped [Hc Hp]. split; [by eapply calm_mono|].
  destruct Hs as [c p p' g e (i & t & Ht & Hpc) He Hg Hcnt _|v Hg Hcnt _].
  - eapply (keep_before_past s s' c p p' (glb s) g e); [|done..].
    intros f Hf. rewrite <- Hpc. by apply (count_ge f s i t).
  - unfold cnt in *. rewrite Hcnt in Hp by done. done.
Qed.

(** ** The refinement *)

Definition workers_of (n : Z) : nat := Z.to_nat n.

(** What a state of the pool is for a client. *)
Definition abs (s : sys) (p : apool entry) : Prop :=
  ∃ pending, queue_repr (job_queue (glb s)) pending ∧ queue p = entry_of (job_queue (glb s)) <$> pending ∧
    in_hand p ≡ₚ entry_of (job_queue (glb s)) <$> held_by running s ∧ completed p = finished (glb s).

Lemma abs_exists n others s : pool_reachable n others s → serving s → ∃ p, abs s p.
Proof.
  intros Hr [Hc Hp]. destruct (jobs_reachable n others s Hr Hc) as (l & d & HJ).
  exists (mk_apool (entry_of (job_queue (glb s)) <$> l) (entry_of (job_queue (glb s)) <$> held_by running s) (finished (glb s))).
  exists l. split_and!; [apply HJ|done..].
Qed.

(** The linked queue determines the list of its nodes. *)
Lemma chain_unique m p l l' : length l = length l' → chain m p l → chain m p l' → l = l'.
Proof.
  revert p l'. induction l as [|a l IH]; intros p [|a' l'] Hl H H'; try done.
  destruct H as (-> & x & Hx & H), H' as ([= ->] & x' & Hx' & H'). f_equal. simplify_eq. by eapply IH.
Qed.

Lemma repr_unique q l l' : queue_repr q l → queue_repr q l' → l = l'.
Proof.
  intros H H'. eapply chain_unique; [|apply H|apply H']. pose proof (repr_len _ _ H). pose proof (repr_len _ _ H'). lia.
Qed.

(** The lists of the history determine the abstract pool. *)
Lemma abs_history n others s p :
  pool_reachable n others s → serving s → abs s p →
  submitted (glb s) = started (glb s) ++ queue p ∧ finished (glb s) ++ in_hand p ≡ₚ started (glb s).
Proof.
  intros Hr [Hc Hp] (pending & Hq & Hqu & Hin & Hco). destruct (jobs_reachable n others s Hr Hc) as (l & d & HJ).
  assert (pending = l) as -> by (eapply repr_unique; [done|apply HJ]).
  split; [|by rewrite Hin; apply HJ]. rewrite (j_sub _ _ _ HJ), (j_drop _ _ _ HJ Hp), Hqu. done.
Qed.

(** Each worker has at most one job in its hands. *)
Lemma in_hand_workers n others s p :
  pool_reachable n others s → serving s → abs s p → (length (in_hand p) <= workers_of n)%nat.
Proof.
  intros Hr [Hc _] (pending & _ & _ & Hin & _). rewrite Hin, length_fmap.
  pose proof (pool_inv_reachable n others s Hr Hc) as HI. destruct (parts_hold s).
  assert (Hl : Z.of_nat (length (held_by running s)) <= cnt is_working s).
  { unfold held_by, collect, cnt, count. induction (thr s) as [|t ts IH]; [done|].
    rewrite tsum_cons. cbn. rewrite length_app. 
    change (mjoin _) with (mjoin ((λ t, running (at_pc t)) <$> ts)).
    assert (Z.of_nat (length (running (at_pc t))) <= Z.b2z (is_working (at_pc t))); [|lia].
    destruct (at_pc t); cbn; try lia; destruct job; cbn; lia. }
  pose proof (i_workers _ _ HI). unfold workers_of. pose proof (cnt_nonneg is_new s). pose proof (cnt_nonneg is_gone s). lia.
Qed.

(** One step of the code is one step of the specification, or none. *)
Lemma spec_simulates n others l s s' p p' :
  pool_reachable n others s → serving s' → step l s = Next s' → abs s p → abs s' p' → spec_step (workers_of n) p p'.
Proof.
  intros Hr Hse' Hs Ha Ha'. assert (Hse : serving s) by by eapply serving_step.
  assert (Hr' : pool_reachable n others s') by by eapply reachable_step.
  destruct (abs_history n others s p Hr Hse Ha) as [Hsub Hfin].
  destruct (abs_history n others s' p' Hr' Hse' Ha') as [Hsub' Hfin'].
  pose proof (in_hand_workers n others s' p' Hr' Hse' Ha') as Hw.
  destruct Ha as (_ & _ & _ & _ & Hco), Ha' as (_ & _ & _ & _ & Hco').
  destruct (step_grows l s s' Hs) as (a & b & c & H1 & H2 & H3 & Hlen).
  rewrite H1, H2, Hsub, <- !app_assoc in Hsub'. apply app_inv_head in Hsub'. rewrite H2, H3 in Hfin'.
  destruct a as [|j a]; [destruct b as [|j b]; [destruct c as [|j c]|]|].
  - rewrite !app_nil_r in *. apply spec_same. split_and!; [done| |congruence].
    rewrite <- Hfin in Hfin'. by apply Permutation_app_inv_l in Hfin'.
  - destruct c; [|cbn in Hlen; lia]. rewrite !app_nil_r in *. rewrite <- Hfin, <- app_assoc in Hfin'.
    apply Permutation_app_inv_l in Hfin'. symmetry in Hfin'. destruct (take_out_perm j _ _ Hfin') as (k & Hk & Ht).
    apply spec_finish with j (mk_apool (queue p) k (completed p ++ [j])); [unfold finish; by rewrite Ht|].
    split_and!; cbn; [done|done|]. by rewrite Hco', H3, Hco.
  - destruct b, c; try (cbn in Hlen; lia). rewrite !app_nil_r in *. cbn in Hsub'.
    assert (Hh : in_hand p' ≡ₚ j :: in_hand p).
    { rewrite <- Hfin, <- app_assoc in Hfin'. apply Permutation_app_inv_l in Hfin'. rewrite Hfin'. by rewrite Permutation_app_comm. }
    apply spec_start with j (mk_apool (queue p') (j :: in_hand p) (completed p)).
    + unfold start. rewrite Hsub'. rewrite decide_True; [done|]. rewrite Hh in Hw. cbn in Hw. lia.
    + split_and!; cbn; [done|done|]. by rewrite Hco', H3, Hco.
  - destruct a, b, c; try (cbn in Hlen; lia). rewrite !app_nil_r in *. cbn in Hsub'.
    apply spec_submit with j. split_and!; cbn; [done| |congruence].
    rewrite <- Hfin in Hfin'. by apply Permutation_app_inv_l in Hfin'.
Qed.

Lemma run_last ls l s s' : run step (ls ++ [l]) s = Next s' → ∃ s1, run step ls s = Next s1 ∧ step l s1 = Next s'.
Proof.
  revert s. induction ls as [|k ls IH]; intros s H.
  - exists s. split; [done|]. rewrite app_nil_l, run_cons in H. destruct (step l s); [by simplify_eq|done..].
  - rewrite <- app_comm_cons, run_cons in H. rewrite run_cons. destruct (step k s); [by apply IH|done..].
Qed.

(** C1: the pool refines its specification: as long as thpool_destroy has not begun to clear the
    queue, every run of the clients and workers from thpool_init on, with all their locks,
    signals and linked nodes, is a run of a queue with n workers: each step submits a job at
    the end, lets a free worker take the first one, completes one that a worker has, or changes
    nothing; and the reached abstract pool is the linked queue, the nodes in the hands of the
    workers and the jobs called. *)
Theorem thpool_refines n others ls s :
  run step ls (sys0 n others) = Next s → serving s →
  ∃ p, rtc (spec_step (workers_of n)) apool0 p ∧ abs s p.
Proof.
  intros Hrun Hse. revert s Hrun Hse. induction ls as [|l ls IH] using rev_ind; intros s Hrun Hse.
  - injection Hrun as <-. exists apool0. split; [done|]. exists []. cbn.
    assert (Hr : pool_reachable n others (sys0 n others)) by by apply reachable_init.
    destruct (abs_exists n others _ Hr Hse) as [p Hp].
    destruct (abs_history n others _ p Hr Hse Hp) as [_ Hfin]. destruct Hp as (pending & Hq & _ & Hin & _).
    split_and!; [split; try done; constructor|done| |done]. cbn in Hfin. by rewrite <- Hin, Hfin.
  - apply run_last in Hrun as (s1 & Hls & Hl).
    assert (Hse1 : serving s1) by by eapply serving_step.
    assert (Hr1 : pool_reachable n others s1) by (eapply run_reachable; [by apply reachable_init|done]).
    destruct (IH s1 Hls Hse1) as (p1 & Hp1 & Ha1).
    assert (Hr : pool_reachable n others s) by by eapply reachable_step.
    destruct (abs_exists n others s Hr Hse) as [p Hp]. exists p. split; [|done].
    eapply rtc_r; [done|]. exact (spec_simulates n others l s1 s p1 p Hr1 Hse Hl Ha1 Hp).
Qed.

(** Two jobs submitted, the first in the hands of the worker. *)
Lemma thpool_refines_witness :
  let ls := boot ++ ThpoolProps.submit 1 (Some 1%nat) ++ ThpoolProps.submit 2 None ++ steps 1 12 in
  let s := state_after ls in
  (length (started (glb s)) = 1)%nat ∧ ∃ p, rtc (spec_step (workers_of 1)) apool0 p ∧ abs s p.
Proof.
  intros ls s. split; [vm_compute; reflexivity|].
  refine (thpool_refines 1 0 ls s _ _); [vm_compute; reflexivity|].
  split; [left; vm_compute; reflexivity|vm_compute; reflexivity].
Defined.
