(* ===== verification/ThpoolBugs.v ===== *)
(** * The thread pool: runs that go wrong

    Schedules of the pool that its users do not expect: a second waiter that is never woken, a
    worker that is held after thpool_resume, and thpool_init without memory for a thread. *)

From Stdlib Require Import ZifyBool.
From S2P Require Import Prelude CInt TransSys JobQueue Thpool ThpoolInv ThpoolSafe ThpoolReturn ThpoolProps.

Open Scope Z_scope.

(** ** Two clients in thpool_wait *)

(** Clients 0 and 1, worker 2: client 0 submits a job, both wait, the worker runs the job and
    signals client 0. *)
Definition two_waiters : list label :=
  steps 0 3 ++ steps 2 7 ++ steps 0 1 ++
  [Thr 0 (Call (OpAdd 7 1)) None] ++ steps 0 3 ++ [Thr 0 Go (Some 2%nat)] ++ steps 0 2 ++
  [Thr 0 (Call OpWait) None] ++ steps 0 2 ++ [Thr 1 (Call OpWait) None] ++ steps 1 2 ++
  steps 2 14 ++ [Thr 2 Go (Some 0%nat)] ++ steps 2 4 ++ steps 0 4.

Definition after (n : Z) (others : nat) (ls : list label) : sys :=
  match run step ls (sys0 n others) with Next s => s | _ => sys0 n others end.

(** Nothing moves but by a new call or a spurious wakeup. *)
Definition dead (s : sys) : Prop :=
  stuck s ∧ ∀ i s', step (Leave i) s ≠ Next s' ∧ step (Deliver i) s ≠ Next s'.

(** No step of a thread that does not exist. *)
Lemma dead_intro s :
  (∀ i, (i < length (thr s))%nat → ∀ w s', istep (i, w) s ≠ Next s' ∧ step (Leave i) s ≠ Next s' ∧ step (Deliver i) s ≠ Next s') →
  dead s.
Proof.
  intros H. assert (Ho : ∀ i, (length (thr s) <= i)%nat → thr s !! i = None) by (intros i; apply lookup_ge_None_2).
  split.
  - intros [i w] s'. destruct (decide (i < length (thr s))%nat) as [Hi|Hi]; [by apply (H i Hi w s')|].
    unfold istep, step. cbn [fst snd]. rewrite Ho by lia. done.
  - intros i s'. destruct (decide (i < length (thr s))%nat) as [Hi|Hi]; [split; apply (H i Hi None s')|].
    unfold step. rewrite Ho by lia. done.
Qed.

(** C13: two clients in thpool_wait: pthread_cond_signal wakes one of them; there is a run of
    one worker and two clients after which the queue is empty, no worker is working, one client
    is back, and the other one sleeps in thpool_wait with nothing that could wake it. *)
Theorem second_waiter_hangs :
  ∃ ls s, run step ls (sys0 1 1) = Next s ∧ len (job_queue (glb s)) = 0 ∧ num_threads_working (glb s) = 0 ∧
    (at_pc <$> thr s) = [C_ready 0; W_sleep 1; T_bsleep] ∧ dead s.
Proof.
  exists two_waiters, (after 1 1 two_waiters). split_and!; [vm_compute; reflexivity..|].
  apply dead_intro. intros i Hi w s'. vm_compute in Hi.
  destruct i as [|[|[|i]]]; [split_and!; vm_compute; discriminate..|lia].
Qed.

(** ** A late signal *)

(** thpool_pause signals the idle worker, thpool_resume follows, and then the signal is
    delivered. *)
Definition late_signal : list label :=
  boot ++ [Thr 0 (Call OpPause) None] ++ steps 0 2 ++ [Thr 0 (Call OpResume) None; Deliver 1] ++
  [Thr 0 (Call (OpAdd 7 1)) None] ++ steps 0 3 ++ [Thr 0 Go (Some 1%nat)] ++ steps 0 2 ++
  [Thr 0 (Call OpWait) None] ++ steps 0 2.

(** C14: thread_hold sets the flag that it waits on, so a SIGUSR1 of thpool_pause that is
    delivered after thpool_resume holds the worker all the same: there is a run in which the
    client pauses and resumes the pool, submits a job and waits for it, and then nothing moves
    any more, with the job in the queue and the only worker in the handler. *)
Theorem late_signal_holds_worker :
  ∃ ls s, run step ls (sys0 1 0) = Next s ∧ len (job_queue (glb s)) = 1 ∧ threads_on_hold (glb s) = 1 ∧
    thr s = [mk_thread (W_sleep 1) false false; mk_thread T_bwake false true] ∧ dead s.
Proof.
  exists late_signal, (after 1 0 late_signal). split_and!; [vm_compute; reflexivity..|].
  apply dead_intro. intros i Hi w s'. vm_compute in Hi.
  destruct i as [|[|i]]; [split_and!; vm_compute; discriminate..|lia].
Qed.

(** ** No memory for a thread *)

(** The malloc of thread_init fails: thpool_init spins, as its counter never reaches 1. *)
Definition no_thread : list label := [Thr 0 Go None; Thr 0 NoMem None; Thr 0 Go None].

Lemma thpool_init_spins :
  ∃ s, run step no_thread (sys0 1 0) = Next s ∧ (∀ w, istep (0%nat, w) s = Next s) ∧
    ∀ i w s', i ≠ 0%nat → istep (i, w) s ≠ Next s'.
Proof.
  exists (after 1 0 no_thread). split_and!; [vm_compute; reflexivity|intros w; vm_compute; reflexivity|].
  intros [|i] w s' Hi; [done|]. vm_compute. discriminate.
Qed.
