(* ===== verification/ThpoolFrees.v ===== *)
(** * The thread pool: what thpool_destroy leaves behind

    Behind the loops of thpool_destroy the queue is emptied and the thread objects are freed one
    after the other: when the call returns, nothing of the pool is left allocated. *)

From Stdlib Require Import ZifyBool.
From S2P Require Import Prelude CInt TransSys JobQueue Thpool ThpoolInv ThpoolSafe ThpoolJobs.
From S2P Require Import ThpoolUb ThpoolLive ThpoolReturn ThpoolProps.

Open Scope Z_scope.

(** ** The end of thpool_destroy *)

(** Inside of jobqueue_clear, about to pull; behind the end of jobqueue_clear. *)
Definition is_pulling (p : pc) : bool := match p with D_plock _ | D_pbody _ => true | _ => false end.
Definition past_reset (p : pc) : bool :=
  match p with D_fbsem _ | D_threads _ _ | D_free | C_done => true | _ => false end.

Record frees_inv (N : Z) (s : sys) : Prop := {
  f_some : 0 < cnt is_pulling s → 0 < len (job_queue (glb s));
  f_empty : 0 < cnt past_reset s → len (job_queue (glb s)) = 0;
  f_freed : ∀ k : nat, Z.of_nat k < count (freed N) s → threads (glb s) !! k = Some TFreed;
}.

Definition clearing (p : pc) : bool := is_pulling p || past_reset p.

Lemma clearing_parts s :
  cnt clearing s = cnt is_pulling s + cnt past_reset s ∧ cnt clearing s <= cnt past_loops s.
Proof.
  unfold cnt. rewrite <- count_add. split; [apply Z.le_antisymm|]; apply count_le; intros []; cbn; lia.
Qed.

(** The threads that change the queue while the client is in a part of thpool_destroy. *)
Lemma clearing_alone s :
  calm s → cnt past_loops s = 0 ∨ cnt is_alive s = 0 → 0 < cnt clearing s →
  cnt is_alive s = 0 ∧ cnt is_body s = 0 ∧ cnt is_client s = 1.
Proof.
  intros Hcalm Hp Hc. destruct (parts_hold s). pose proof (cnt_nonneg is_body s).
  destruct (clearing_parts s) as [_ Hle].
  destruct Hcalm; lia.
Qed.

(** What is known when a thread at [p] moves. *)
Record frees_at (N : Z) (s : sys) (p : pc) : Prop := {
  fa_worker : is_alive p = true ∨ is_body p = true → cnt clearing s = 0;
  fa_client : destroying p = true →
    cnt is_pulling s = Z.b2z (is_pulling p) ∧ cnt past_reset s = Z.b2z (past_reset p);
  fa_init : is_init p = true → cnt clearing s = 0 ∧ count (freed N) s = 0;
  fa_freed : past_bsem p = true → count (freed N) s = freed N p;
  fa_live : past_bsem p = true → ∀ k : nat, count (freed N) s <= Z.of_nat k < N →
    ∃ x, threads (glb s) !! k = Some (TLive x);
  fa_bad : bad N p = false;
}.

Lemma frees_at_thread N s i t :
  thr s !! i = Some t → 0 <= N → calm s → pool_inv N s → arr_inv N s → frees_at N s (at_pc t).
Proof.
  intros Ht HN Hcalm HI HA. assert (Hone : ∀ b, b (at_pc t) = true → 0 < cnt b s) by apply (one s i t Ht).
  destruct (parts_hold s). destruct (clearing_parts s) as [_ Hle]. pose proof (cnt_nonneg clearing s).
  split.
  - intros Hb. destruct (decide (cnt clearing s = 0)); [done|].
    destruct (clearing_alone s Hcalm (i_past _ _ HI)) as (? & ? & _); [lia|]. destruct Hb as [Hb%Hone|Hb%Hone]; lia.
  - intros Hd. destruct (calm_client s Hcalm (Hone _ Hd)) as [_ Hbu].
    split; [apply (count_unique (λ q, Z.b2z (is_pulling q)) destroying s i t)
           |apply (count_unique (λ q, Z.b2z (past_reset q)) destroying s i t)]; first [by intros []|done|lia].
  - intros Hb%Hone. pose proof (i_phase _ _ HI) as Hp. pose proof (cnt_nonneg is_null s).
    assert (Hr : ready (glb s) = false) by (destruct (ready (glb s)); cbn in Hp; [lia|done]).
    pose proof (i_unready _ _ HI Hr) as Hd.
    assert (Hfr : count (freed N) s <= N * cnt destroying s).
    { unfold cnt. rewrite <- count_scale. apply count_le. intros []; cbn; lia. }
    pose proof (count_nonneg (freed N) s ltac:(intros q; by apply freed_nonneg)). rewrite Hd in *. lia.
  - intros Hi. apply (count_unique _ past_bsem s i t); [by intros []|done|done|].
    pose proof (Hone _ Hi). destruct (calm_client s Hcalm); lia.
  - intros Hb. apply (a_all _ _ HA). destruct (ready (glb s)) eqn:Hr; [done|]. apply Hone in Hb.
    pose proof (i_unready _ _ HI Hr). lia.
  - destruct (bad N (at_pc t)) eqn:Hb; [|done]. apply Hone in Hb. rewrite (i_bad _ _ HI) in Hb. lia.
Qed.

Lemma frees_thread N c i t p' g e s s' l d :
  thr s !! i = Some t →
  (∀ f : pc → Z, insens f →
     count f s' = count f s - f (at_pc t) + f p' + spawned e * f T_start) →
  exec c (at_pc t) (glb s) = Next (p', g, e) →
  glb s' = after_effect e (length (thr s)) g →
  frees_at N s (at_pc t) → 0 <= N → jobs_inv s l d → frees_inv N s → frees_inv N s'.
Proof.
  intros Ht Hc He Hg [L1 L2 L3 Hpb Hlv Hbad] HN HJ [F1 F2 F3].
  assert (Hge : ∀ f : pc → Z, (∀ q, 0 <= f q) → f (at_pc t) <= count f s) by (intros f Hf; by apply (count_ge f s i)).
  pose proof (len_nonneg _ _ _ HJ) as Hlen. destruct (clearing_parts s) as [Hsum _].
  pose proof (cnt_nonneg is_pulling s). pose proof (cnt_nonneg past_reset s).
  assert (Cf := Hc (freed N) ltac:(by split)).
  destruct (moved s s' (at_pc t) p' e Hge Hc is_pulling) as [G1 C1]; [done|done|].
  destruct (moved s s' (at_pc t) p' e Hge Hc past_reset) as [G2 C2]; [done|done|].
  pose proof (push_len s l d i t) as Hpush. specialize (Hpush) with (1 := HJ) (2 := Ht).
  pose proof (pull_len s l d) as Hpull. specialize (Hpull) with (1 := HJ).
  clear Hge Hc HJ Ht.
  set (p := at_pc t) in *. clearbody p.
  destruct p; try discriminate He; cbn -[Z.eqb Z.leb Z.max Z.min Z.mul] in *.
  all: run_exec He; cbn -[Z.eqb Z.leb Z.max Z.min Z.mul] in *.
  all: try specialize (L1 (or_introl eq_refl)); try specialize (L1 (or_intror eq_refl)); try destruct (L2 eq_refl) as [L6 L7];
       try destruct (L3 eq_refl) as [L4 L5]; try specialize (Hpb eq_refl); try specialize (Hlv eq_refl).
  all: try match goal with H : jobqueue_push _ _ = _ |- _ => apply (Hpush _ _ _ eq_refl) in H end.
  all: try pose proof (Hpull _ _ _ eq_refl) as Hpl.
  all: clear Hpush Hpull L2 L3; queue_lens.
  all: try (split; rewrite ?Hg; cbn; [intros; lia|intros; lia|intros k0 Hk0; first [lia | apply F3; lia]]; fail).
  - destruct (Hlv (Z.to_nat n)) as [x Hx]; [lia|congruence].
  - split; rewrite ?Hg; cbn; [intros; lia|intros; lia|]. intros k Hk.
    destruct (decide (Z.to_nat n = k)) as [<-|Hne].
    + by apply list_lookup_insert_eq, (lookup_lt_Some _ _ _ Heqo).
    + rewrite list_lookup_insert_ne by done. apply F3. lia.
Qed.

Lemma frees_env N v s s' :
  glb s' = set_threads_on_hold v (glb s) → (∀ f : pc → Z, insens f → count f s' = count f s) →
  frees_inv N s → frees_inv N s'.
Proof.
  intros Hg Hc [F1 F2 F3]. split; rewrite ?Hg; cbn; unfold cnt; rewrite Hc by done; done.
Qed.

Lemma frees_reachable n others s :
  pool_reachable n others s → calm s → frees_inv (Z.max 0 n) s.
Proof.
  apply (invariant_reachable _ _ (λ s, calm s → frees_inv (Z.max 0 n) s)).
  - intros s0 Hs0 _. unfold pool_init in Hs0. subst s0.
    split; unfold cnt; rewrite count_sys0; cbn -[Z.mul]; intros; lia.
  - intros lb s1 s2 Hr IH Hs Hcalm. apply step_stepped in Hs as Hst.
    assert (Hc1 := calm_mono _ _ Hst Hcalm). specialize (IH Hc1).
    destruct (jobs_reachable n others s1 Hr Hc1) as (l & d & HJ).
    destruct Hst as [c p p' g e (i & t & Ht & <-) He Hg Hc Hl|v Hg Hc Hl].
    + eapply (frees_thread (Z.max 0 n)); [done..| |lia|done|done].
      apply (frees_at_thread _ s1 i); [done|lia|done|by eapply pool_inv_reachable|by eapply arr_reachable].
    + by eapply frees_env.
Qed.

(** ** What is left *)

(** The threads when the only client is back from thpool_destroy. *)
Lemma end_parts N s :
  0 <= N → calm s → 0 < cnt is_done s → pool_inv N s →
  ready (glb s) = true ∧ cnt is_start s = 0 ∧ cnt is_null s = 0 ∧ cnt is_alive s = 0 ∧ count (freed N) s = N ∧
  ∀ i t, thr s !! i = Some t → is_gone (at_pc t) = true ∨ is_done (at_pc t) = true.
Proof.
  intros HN Hcalm Hd HI. destruct (parts_hold s) as [Pw _ _ _ _ _ _ Pc Pb Pp Pbs Pd Ps _ _ _ _ _ _ _ _ _ _].
  assert (Hde : 0 < cnt destroying s) by lia. destruct (calm_client s Hcalm Hde) as [Hcl Hbu].
  pose proof (at_destroy N s HI Hde) as Hnew. pose proof (cnt_nonneg is_init s). pose proof (cnt_nonneg is_null s).
  pose proof (cnt_nonneg is_start s).
  assert (Ha : cnt is_alive s = 0) by (destruct (i_past _ _ HI); lia).
  assert (Hno : ∀ (b : pc → bool) i t, cnt b s = 0 → thr s !! i = Some t → b (at_pc t) = false).
  { intros b i t Hb Ht. destruct (b (at_pc t)) eqn:Hp; [|done].
    pose proof (count_ge (λ q, Z.b2z (b q)) s i t ltac:(intros; apply b2z_nonneg) Ht) as H2.
    cbn in H2. rewrite Hp in H2. unfold cnt in Hb. rewrite Hb in H2. cbn in H2. lia. }
  split_and!; try lia.
  - destruct (ready (glb s)) eqn:Hr; [done|]. pose proof (i_unready _ _ HI Hr). lia.
  - destruct (cnt_pos is_done s Hd) as (i & t & Ht & Hp).
    rewrite (count_unique (freed N) destroying s i t); [by destruct (at_pc t)|by intros []|done| |lia].
    by destruct (at_pc t).
  - intros i t Ht. pose proof (Hno is_alive i t Ha Ht) as Na. pose proof (Hno is_new i t Hnew Ht) as Nn.
    assert (Nc : cnt (λ p, is_client p && negb (is_done p)) s = 0).
    { assert (cnt (λ p, is_client p && negb (is_done p)) s + cnt is_done s <= cnt is_client s).
      { unfold cnt. rewrite <- count_add. apply count_le. intros []; cbn; lia. }
      pose proof (cnt_nonneg (λ p, is_client p && negb (is_done p)) s). lia. }
    pose proof (Hno _ i t Nc Ht) as Nd. clear -Na Nn Nd. destruct (at_pc t); cbn in *; naive_solver.
Qed.

Definition all_freed (n : Z) (g : glob) : Prop :=
  pool_live g = false ∧ bsem_live g = false ∧ nodes (job_queue g) = ∅ ∧
  threads g = replicate (Z.to_nat (Z.max 0 n)) TFreed.

(** C7: when thpool_destroy has returned, nothing is left: the pool, its semaphore, every node of
    the queue and every thread object are freed, by frees that were all defined; the workers have
    ended, or are unlocking for the last time; and the jobs submitted are those that were pulled,
    each of which has been called, and those dropped with the queue. *)
Theorem thpool_destroy_frees n others s :
  pool_reachable n others s → calm s → 0 < cnt is_done s →
  all_freed n (glb s) ∧ num_threads_alive (glb s) = 0 ∧
  (∀ i t, thr s !! i = Some t → is_gone (at_pc t) = true ∨ is_done (at_pc t) = true) ∧
  ∃ dropped, submitted (glb s) = started (glb s) ++ dropped ∧ finished (glb s) ≡ₚ started (glb s).
Proof.
  intros Hr Hcalm Hd. pose proof (pool_inv_reachable n others s Hr Hcalm) as HI.
  destruct (jobs_reachable n others s Hr Hcalm) as (l & d & HJ).
  pose proof (arr_reachable n others s Hr Hcalm) as HA. pose proof (frees_reachable n others s Hr Hcalm) as HF.
  destruct (end_parts (Z.max 0 n) s) as (Hre & Hst & Hnu & Ha & Hdone & Hall); [lia|done..|].
  assert (Hown : held_by own s = []).
  { destruct (held_by own s) as [|a k] eqn:Hk; [done|].
    assert (Hin : a ∈ held_by own s) by (rewrite Hk; by left).
    apply list_elem_of_join in Hin as (k' & Ha' & (t & -> & (i & Ht)%list_elem_of_lookup)%list_elem_of_fmap).
    destruct (Hall i t Ht) as [Hp|Hp]; destruct (at_pc t); try discriminate Hp; cbn in Ha'; set_solver. }
  assert (Hl : l = []).
  { pose proof (repr_len _ _ (j_repr _ _ _ HJ)) as Hlen. rewrite (f_empty _ _ HF) in Hlen.
    - by destruct l.
    - assert (cnt is_done s <= cnt past_reset s) by (apply count_le; intros []; cbn; lia). lia. }
  subst l. unfold all_freed. split_and!.
  - pose proof (i_pool _ _ HI) as Hp. rewrite Hst, Hnu in Hp. by destruct (pool_live (glb s)); [cbn in Hp; lia|].
  - pose proof (i_bsem _ _ HI) as Hp. pose proof (p_done _ (parts_hold s)).
    destruct (bsem_live (glb s)); [cbn in Hp; lia|done].
  - apply map_empty. intros a. destruct (nodes _ !! a) eqn:Hn; [|done].
    assert (Hs : is_Some (nodes (job_queue (glb s)) !! a)) by by eexists.
    apply (j_dom _ _ _ HJ) in Hs. rewrite Hown in Hs. by apply elem_of_nil in Hs.
  - pose proof (a_len _ _ HA Hst Hnu) as Hlen. apply list_eq_same_length with (n := Z.to_nat (Z.max 0 n)); [by rewrite length_replicate|lia|].
    intros k x y Hk Hx Hy. apply lookup_replicate in Hy as [-> _].
    rewrite (f_freed _ _ HF k) in Hx by (rewrite Hdone; lia). by injection Hx.
  - by rewrite (i_alive _ _ HI).
  - done.
  - exists d. pose proof (j_sub _ _ _ HJ) as Hsub. pose proof (j_run _ _ _ HJ) as Hrun. cbn in Hsub. rewrite app_nil_r in Hsub.
    split; [done|]. destruct (held_by running s) as [|a k] eqn:Hk; [by rewrite app_nil_r in Hrun|].
    assert (Hin : a ∈ held_by own s) by (apply running_own; rewrite Hk; by left).
    rewrite Hown in Hin. by apply elem_of_nil in Hin.
Qed.

(** Two jobs are queued when the pool is destroyed: they are dropped, and their nodes freed. *)
Definition destroy_queued : list label :=
  boot ++ submit 1 (Some 1%nat) ++ submit 2 None ++ [Thr 0 (Call OpDestroy) None] ++ steps 1 8 ++ steps 0 21.

Lemma thpool_destroy_frees_witness :
  let s := state_after destroy_queued in
  (length (submitted (glb s)) = 2 ∧ length (started (glb s)) = 0)%nat ∧ nodes (job_queue (glb s)) = ∅.
Proof.
  intros s. split; [vm_compute; split; reflexivity|].
  refine (proj1 (proj2 (proj2 (proj1 (thpool_destroy_frees 1 0 s _ _ _)))));
    [apply state_after_reachable|left; vm_compute; reflexivity|vm_compute; reflexivity].
Defined.
