(* ===== verification/ThpoolDestroy.v ===== *)
(** * The thread pool: thpool_destroy returns

    thpool_destroy posts the semaphore for all workers again and again until none is alive, with
    a second of sleep between two posts.  The sleep is there to let the workers come to rest:
    under a scheduler that does not post before they have, each round lets at least one worker
    end, and every run ends with the call back. *)

From Stdlib Require Import ZifyBool.
From S2P Require Import Prelude CInt TransSys JobQueue Thpool ThpoolInv ThpoolSafe ThpoolJobs.
From S2P Require Import ThpoolUb ThpoolLive ThpoolReturn ThpoolProps ThpoolFrees.

Open Scope Z_scope.

(** ** A posted semaphore leaves nobody asleep *)

(** While the semaphore is up and a worker sleeps, another one is about to test it. *)
Definition wake_inv (s : sys) : Prop :=
  bsem_v (glb s) = 1 → 0 < cnt is_bsleep s → 0 < cnt is_waker s.

Lemma broadcast_counts f ts g g' :
  count f (mk_sys (broadcast wake_bsem ts) g')
  = count f (mk_sys ts g) + cnt is_bsleep (mk_sys ts g) * (f T_bwake - f T_bsleep).
Proof.
  unfold cnt, count. cbn [thr]. induction ts as [|t ts IH]; [cbn; lia|].
  unfold broadcast in *. rewrite fmap_cons, !tsum_cons, IH.
  destruct (at_pc t) eqn:Hp; cbn; rewrite ?Hp; cbn; lia.
Qed.

Lemma broadcast_or_not e : e = WakeAllBsem ∨ e ≠ WakeAllBsem.
Proof. destruct e; auto. Qed.

(** The one step with bsem_post_all. *)
Lemma exec_broadcast c p g p' g' :
  exec c p g = Next (p', g', WakeAllBsem) →
  ∃ b n, p = D_post b n PBody ∧ p' = D_post b n PUnlock ∧ g' = set_bsem_v 1 g.
Proof. intros He. destruct p; try discriminate He; run_exec He. by eexists _, _. Qed.

Lemma step_broadcast i c w s s' t p' g :
  step (Thr i c w) s = Next s' → thr s !! i = Some t →
  exec c (at_pc t) (glb s) = Next (p', g, WakeAllBsem) →
  s' = mk_sys (broadcast wake_bsem (<[i := set_pc p' t]> (thr s))) g.
Proof.
  intros Hs Ht He. cbn in Hs. rewrite Ht in Hs. unfold step_thread in Hs. destruct (held t); [done|].
  rewrite He in Hs. cbn in Hs. by injection Hs as <-.
Qed.

Lemma wake_thread i c w s s' : step (Thr i c w) s = Next s' → wake_inv s → wake_inv s'.
Proof.
  intros Hs HW. destruct (step_counts _ _ _ _ _ Hs) as (t & p' & g & e & Ht & He & Hg & Hcount).
  destruct (broadcast_or_not e) as [->|Hne].
  - rewrite (step_broadcast _ _ _ _ _ _ _ _ Hs Ht He). intros _ Hb. exfalso. revert Hb.
    unfold cnt at 1. rewrite (broadcast_counts _ _ g). cbn -[cnt count]. change (count _ ?x) with (cnt is_bsleep x). lia.
  - destruct (Hcount Hne) as (δ & Heff & Hc1 & Hc). clear Hcount Hs.
    set (s1 := mk_sys _ _) in *.
    assert (Hge : ∀ b, Z.b2z (b (at_pc t)) <= cnt b s).
    { intros b. apply (count_ge (λ q, Z.b2z (b q)) s i t); [intros; apply b2z_nonneg|done]. }
    pose proof (cnt_nonneg is_bsleep s'). pose proof (cnt_nonneg is_bsleep s). pose proof (cnt_nonneg is_waker s).
    pose proof (moved_to is_bsleep _ _ _ _ Hc1) as B1.
    pose proof (moved_eff is_bsleep _ _ _ _ _ Hc) as C1. pose proof (moved_eff is_waker _ _ _ _ _ Hc) as C2.
    pose proof (Hge is_waker) as G2. pose proof (Hge is_bsleep) as G5.
    clear Hge Hc Hc1 Ht. clearbody s1. unfold wake_inv in *. rewrite Hg. clear Hg.
    destruct (at_pc t); try discriminate He; cbn -[Z.eqb Z.add Z.sub] in *.
    all: run_exec He; cbn -[Z.eqb Z.add Z.sub] in *; try done.
    all: lazymatch type of Heff with _ ∨ _ => destruct Heff as [[Hz Heff]|Heff] | _ => idtac end.
    all: try destruct Heff as [k' Heff].
    all: rewrite !Heff in *; cbn -[Z.eqb Z.add Z.sub] in *; clear Heff; intros; lia.
Qed.

Lemma wake_reachable n others s : pool_reachable n others s → wake_inv s.
Proof.
  apply (invariant_reachable _ _ wake_inv).
  - intros s0 Hs0. unfold pool_init in Hs0. by subst s0.
  - intros lb s1 s2 _ HW Hs. destruct lb as [i c w|i|i|i]; [by eapply wake_thread| | |];
      cbn in Hs; destruct (thr s1 !! i) as [t|] eqn:Ht; try done; destruct s1 as [ts g]; cbn [thr] in Ht.
    + unfold spurious in Hs. intros Hv Hb.
      assert (E : ∀ p' (b : pc → bool), cnt b (mk_sys (<[i:=set_pc p' t]> ts) g)
        = cnt b (mk_sys ts g) - Z.b2z (b (at_pc t)) + Z.b2z (b p')).
      { intros p' b. unfold cnt. apply (count_move (λ q, Z.b2z (b q)) ts g g _ _ _ Ht). }
      pose proof (cnt_nonneg is_waker (mk_sys ts g)).
      destruct (at_pc t) eqn:Hp; cbn -[cnt] in Hs; try done; simplify_eq; cbn [glb] in *;
        rewrite ?E in *; cbn -[cnt] in *; [specialize (HW Hv); cbn -[cnt] in HW|]; lia.
    + unfold deliver in Hs. case_match; [|done]. simplify_eq. unfold wake_inv, cnt in *.
      by rewrite !(count_env _ ts g _ _ _ _ _ Ht).
    + unfold leave in Hs. case_match; [|done]. simplify_eq. unfold wake_inv, cnt in *.
      by rewrite !(count_env _ ts g _ _ _ _ _ Ht).
Qed.

(** ** Patient runs *)

(** A worker at rest: asleep on the semaphore, or at its end. *)
Definition is_resting (p : pc) : bool := match p with T_bsleep | T_exit => true | _ => false end.
Definition restless (p : pc) : bool := is_worker p && negb (is_resting p).

Definition rested (s : sys) : bool := forallb (λ t, negb (restless (at_pc t))) (thr s).

(** thpool_destroy is about to post for all workers. *)
Definition posts (timeout : bool) (p : pc) (g : glob) : bool :=
  match p with
  | D_first _ => negb timeout && negb (num_threads_alive g =? 0)
  | D_second _ => negb (num_threads_alive g =? 0)
  | _ => false
  end.

(** A thread goes on; the first loop of thpool_destroy ends when its time is over or no worker is
    alive, and neither loop posts before the workers rest. *)
Definition patient_step (l : nat * bool * option nat) (s : sys) : sres sys :=
  let '(i, timeout, w) := l in
  match thr s !! i with
  | Some t =>
      if posts timeout (at_pc t) (glb s) && negb (rested s) then Blocked
      else step (Thr i (if timeout then Timeout else Go) w) s
  | None => Blocked
  end.

Lemma rested_cnt s : rested s = true ↔ cnt restless s = 0.
Proof.
  unfold rested, cnt, count. induction (thr s) as [|t ts IH]; [done|]. cbn [forallb]. rewrite tsum_cons, andb_true_iff, IH.
  pose proof (tsum_nonneg (λ t, Z.b2z (restless (at_pc t))) ts ltac:(intros; apply b2z_nonneg)).
  destruct (restless (at_pc t)); cbn; split; intros; try lia; by destruct_and?.
Qed.

(** ** What is left to do *)

(** The workers that still need the semaphore to end. *)
Definition undecided (p : pc) : bool :=
  match p with T_block | T_btest | T_bsleep | T_bwake => true | _ => false end.

(** What a thread may still do, the rounds of posts aside: a worker up to its end or its sleep,
    the client up to the next post or its return. *)
Definition left (N : Z) (p : pc) : Z :=
  match p with
  | T_start => 9 | T_alock => 8 | T_ainc => 7 | T_aunlock => 5
  | T_while => 4 | T_block => 8 | T_btest => 7 | T_bsleep => 6 | T_bwake => 8 | T_bunlock => 6 | T_check => 5
  | T_wlock => 21 | T_winc => 20 | T_wunlock => 19 | T_plock => 18 | T_pbody => 17
  | T_ppost PLock _ => 16 | T_ppost PBody _ => 15 | T_ppost PUnlock _ => 12 | T_punlock _ => 11
  | T_run _ => 10 | T_free _ => 9 | T_dlock => 8 | T_ddec => 7 | T_dtest => 6 | T_dunlock => 5
  | T_elock => 3 | T_edec => 2 | T_eunlock => 1
  | D_first _ => N + 12 | D_second _ => N + 8
  | D_post b _ p =>
      N + (if b then 12 else 8) + match p with PLock => -1 | PBody => -2 | PUnlock => 1 end
  | D_len _ => N + 5 | D_plock _ => N + 4 | D_pbody _ => N + 3
  | D_ppost _ PLock _ => N + 13 | D_ppost _ PBody _ => N + 12 | D_ppost _ PUnlock _ => N + 9
  | D_punlock _ _ => N + 8 | D_pfree _ _ => N + 7
  | D_reset _ => N + 4 | D_fbsem _ => N + 3 | D_threads k _ => Z.max 0 (N - k) + 2 | D_free => 1
  | _ => 0
  end.

(** The posts that are still needed. *)
Definition needed (s : sys) : Z := Z.max 0 (cnt undecided s - bsem_v (glb s)).

Definition rest_of (N : Z) (s : sys) : Z := count (left N) s + 12 * len (job_queue (glb s)).

Definition destroy_potential (N : Z) (s : sys) : Z := (2 * N + 4) * needed s + rest_of N s.

(** In [D_post] before the post. *)
Definition posting (p : pc) : bool := match p with D_post _ _ PLock | D_post _ _ PBody => true | _ => false end.

(** A state inside of thpool_destroy, in a patient run. *)
Record destroy_state (n : Z) (s : sys) : Prop := {
  ds_reach : pool_reachable n 0 s;
  ds_destroying : 0 < cnt destroying s;
  ds_jobs : Z.of_nat (length (submitted (glb s))) < INT_MAX;
  ds_quiet : quiet s;
  ds_post : 0 < cnt posting s → cnt restless s = 0 ∧ bsem_v (glb s) = 0 ∧ 0 < cnt is_bsleep s;
}.

(** ** Every step of a patient run uses up potential *)

Lemma ds_facts n s :
  destroy_state n s →
  calm s ∧ cnt is_client s = 1 ∧ cnt destroying s = 1 ∧ threads_keepalive (glb s) = 0 ∧ pool_inv (Z.max 0 n) s.
Proof.
  intros [Hr Hd _ _ _]. destruct (live_reachable n s Hr) as [Hcl _]. assert (Hcalm : calm s) by by left.
  pose proof (pool_inv_reachable n 0 s Hr Hcalm) as HI. destruct (calm_client s Hcalm Hd) as [_ Hb].
  pose proof (p_busy _ (parts_hold s)). split_and!; [done|done|lia| |done]. destruct (i_dead _ _ HI); [lia|done].
Qed.

(** The moves that are left: of workers, and of the client in thpool_destroy. *)
Lemma ds_moves n s i t :
  destroy_state n s → thr s !! i = Some t → is_worker (at_pc t) = true ∨ destroying (at_pc t) = true.
Proof.
  intros Hds Ht. destruct (ds_facts n s Hds) as (_ & Hcl & Hd & _).
  destruct (is_worker (at_pc t)) eqn:Hw; [by left|right]. destruct (destroying (at_pc t)) eqn:Hde; [done|]. exfalso.
  assert (Hle : cnt (λ p, is_client p && negb (destroying p)) s + cnt destroying s <= cnt is_client s).
  { unfold cnt. rewrite <- count_add. apply count_le. intros []; cbn; lia. }
  pose proof (count_ge (λ q, Z.b2z (is_client q && negb (destroying q))) s i t
    ltac:(intros q; destruct (is_client q && negb (destroying q)); cbn; lia) Ht) as H2.
  cbn beta in H2. unfold is_client at 1 in H2. rewrite Hw, Hde in H2. unfold cnt in *. cbn in H2. lia.
Qed.

Lemma left_effect N e s δ :
  effect_counts e s δ → e ≠ WakeAllBsem →
  δ (λ q, Z.b2z (undecided q)) = 0 ∧
  δ (left N) <= match e with WakeBsem => 2 | Spawn _ => 9 | _ => 0 end.
Proof.
  intros H Hne. destruct e; cbn -[left] in H |- *; [|destruct H as [[_ H]|H]|done|destruct H as [[_ H]|[k H]]| |];
    rewrite !H; cbn; lia.
Qed.

Lemma left_exec N i c s s' t p' g e δ l d :
  pool_inv N s → jobs_inv s l d → frees_inv N s → threads_keepalive (glb s) = 0 → 0 <= N →
  thr s !! i = Some t → is_worker (at_pc t) = true ∨ destroying (at_pc t) = true →
  exec c (at_pc t) (glb s) = Next (p', g, e) → glb s' = after_effect e (length (thr s)) g →
  effect_counts e (mk_sys (<[i := set_pc p' t]> (thr s)) g) δ → e ≠ WakeAllBsem →
  (∀ f, count f s' = count f s - f (at_pc t) + f p' + δ f) →
  rest_of N s' < rest_of N s ∧ needed s' <= needed s.
Proof.
  intros HI HJ HF Hka HN Ht Hm He Hg Heff Hne Hc.
  pose proof (i_v _ _ HI) as Hv. pose proof (len_nonneg _ _ _ HJ) as Hlen.
  pose proof (pull_len s l d) as Hpull. specialize (Hpull) with (1 := HJ).
  assert (Hone : ∀ b, b (at_pc t) = true → 0 < cnt b s).
  { intros b Hb. pose proof (count_ge (λ q, Z.b2z (b q)) s i t ltac:(intros; apply b2z_nonneg) Ht) as H2.
    cbn in H2. rewrite Hb in H2. unfold cnt. cbn in H2. lia. }
  assert (Hpu : is_pulling (at_pc t) = true → 0 < len (job_queue (glb s))) by (intros Hp%Hone; by apply (f_some _ _ HF)).
  assert (Hre : is_reset (at_pc t) = true → cnt undecided s = 0).
  { intros Hp%Hone. pose proof (p_reset_past _ (parts_hold s)). pose proof (cnt_nonneg undecided s).
    assert (cnt undecided s <= cnt is_alive s) by (apply count_le; intros []; cbn; lia). destruct (i_past _ _ HI); lia. }
  assert (Hbad : bad N (at_pc t) = false).
  { destruct (bad N (at_pc t)) eqn:Hb; [|done]. apply Hone in Hb. rewrite (i_bad _ _ HI) in Hb. lia. }
  assert (Hu : Z.b2z (undecided (at_pc t)) <= cnt undecided s).
  { apply (count_ge (λ q, Z.b2z (undecided q)) s i t); [intros; apply b2z_nonneg|done]. }
  pose proof (moved_eff undecided _ _ _ _ _ Hc) as Cu. pose proof (Hc (left N)) as Cl.
  destruct (left_effect N _ _ _ Heff Hne) as [Hδ1 Hδ2]. rewrite Hδ1 in Cu.
  unfold rest_of, needed. rewrite Cl, Cu, Hg. clear Cl Cu Hg Hone HI HJ HF Ht Hc Heff Hδ1 l d.
  destruct (at_pc t); try discriminate He; destruct Hm as [Hm|Hm]; try discriminate Hm; cbn -[Z.eqb Z.add Z.sub Z.mul Z.max] in *.
  all: run_exec He; cbn -[Z.eqb Z.add Z.sub Z.mul Z.max] in *; try done.
  all: try specialize (Hpu eq_refl); try specialize (Hre eq_refl).
  all: try pose proof (Hpull _ _ _ eq_refl) as Hpl; clear Hpull; queue_lens; try lia.
Qed.

(** A step of a patient run, taken apart. *)
Lemma patient_inv l s s' :
  patient_step l s = Next s' → quiet s →
  ∃ i c w t p' g e, thr s !! i = Some t ∧ step (Thr i c w) s = Next s' ∧
    exec c (at_pc t) (glb s) = Next (p', g, e) ∧ glb s' = after_effect e (length (thr s)) g ∧
    apply_effect e w (mk_sys (<[i := set_pc p' t]> (thr s)) g) = Next s' ∧
    (e ≠ WakeAllBsem → ∃ δ, effect_counts e (mk_sys (<[i := set_pc p' t]> (thr s)) g) δ ∧
      ∀ f, count f s' = count f s - f (at_pc t) + f p' + δ f) ∧
    (posting p' = true → cnt restless s = 0 ∧ num_threads_alive (glb s) ≠ 0 ∨ posting (at_pc t) = true).
Proof.
  destruct l as [[i b] w]. cbn -[step]. intros H Hq. destruct (thr s !! i) as [t|] eqn:Ht; [|done].
  destruct (posts b (at_pc t) (glb s) && negb (rested s)) eqn:Hp; [done|].
  destruct (step_counts _ _ _ _ _ H) as (t' & p' & g & e & Ht' & He & Hg & Hcount).
  assert (t' = t) as -> by congruence.
  exists i, (if b then Timeout else Go), w, t, p', g, e. split_and!; [done..| | |].
  - cbn in H. rewrite Ht in H. unfold step_thread in H.
    assert (Hh : held t = false) by by eapply (Forall_lookup_1 _ _ _ _ Hq Ht). by rewrite Hh, He in H.
  - intros Hne. destruct (Hcount Hne) as (δ & H1 & _ & H2). by exists δ.
  - intros Hpo. assert (posts b (at_pc t) (glb s) = true ∨ posting (at_pc t) = true) as [Hps|]; [|left|by right].
    + clear Hcount H Hg Hp. destruct (at_pc t); try discriminate He; run_exec He; cbn in *; try discriminate; try (by right);
        left; by apply negb_true_iff, Z.eqb_neq.
    + rewrite Hps in Hp. cbn in Hp. apply negb_false_iff, rested_cnt in Hp. split; [done|].
      intros Ha. destruct (at_pc t); cbn in Hps; rewrite ?Ha, ?andb_false_r in Hps; done.
Qed.

(** Who is counted alive is at work or asleep. *)
Lemma alive_parts s : cnt is_alive s <= cnt restless s + cnt is_bsleep s ∧ cnt is_waker s <= cnt restless s.
Proof. unfold cnt. rewrite <- count_add. split; apply count_le; intros []; cbn; lia. Qed.

(** A worker at rest does not move. *)
Lemma resting_blocked c p g p' g' e : exec c p g = Next (p', g', e) → is_worker p = true → restless p = true.
Proof. intros He Hw. destruct p; try discriminate Hw; try done; run_exec He. Qed.

Lemma sole_destroyer n s (b : pc → bool) i t :
  destroy_state n s → (∀ q, destroying q = false → b q = false) → thr s !! i = Some t →
  destroying (at_pc t) = true → cnt b s = Z.b2z (b (at_pc t)).
Proof.
  intros Hds Hb Ht Hd. destruct (ds_facts n s Hds) as (_ & _ & Hone & _).
  apply (count_unique (λ q, Z.b2z (b q)) destroying s i t); [|done|done|lia]. intros q Hq. by rewrite Hb.
Qed.

Lemma exec_destroying c p g p' g' e :
  exec c p g = Next (p', g', e) → is_worker p = true ∨ destroying p = true →
  submitted g' = submitted g ∧ (∀ i, e ≠ Kill i) ∧ (is_worker p = true → posting p' = false ∧ is_worker p' = true) ∧
  (posting p' = true → bsem_v g' = bsem_v g ∧ e = NoEff ∧ is_client p' = true).
Proof.
  intros He [Hp|Hp]; destruct p; try discriminate Hp; try discriminate He; run_exec He; done.
Qed.

Lemma broadcast_quiet h ts g g' : quiet (mk_sys ts g) → quiet (mk_sys (broadcast h ts) g').
Proof.
  unfold quiet, broadcast. cbn [thr]. rewrite Forall_fmap. intros Hq. eapply Forall_impl; [exact Hq|]. intros t Ht. cbn. by destruct (h (at_pc t)).
Qed.

(** The post of thpool_destroy: one round less is needed. *)
Lemma left_broadcast N i t b m s :
  0 <= N → pool_inv N s → thr s !! i = Some t → at_pc t = D_post b m PBody →
  bsem_v (glb s) = 0 → 0 < cnt is_bsleep s →
  destroy_potential N (mk_sys (broadcast wake_bsem (<[i := set_pc (D_post b m PUnlock) t]> (thr s))) (set_bsem_v 1 (glb s)))
  < destroy_potential N s.
Proof.
  intros HN HI Ht Hp Hv Hb. unfold destroy_potential, needed, rest_of, cnt at 1.
  rewrite !(broadcast_counts _ _ (glb s)). unfold cnt. rewrite !(count_move _ (thr s) (glb s) _ _ _ _ Ht), Hp.
  replace (mk_sys (thr s) (glb s)) with s by by destruct s. cbn -[count Z.mul Z.add left]. rewrite Hv.
  change (count (λ p, Z.b2z (is_bsleep p)) s) with (cnt is_bsleep s).
  change (count (λ p, Z.b2z (undecided p)) s) with (cnt undecided s).
  assert (Hbu : cnt is_bsleep s <= cnt undecided s) by (apply count_le; intros []; cbn; lia).
  assert (Hbw : cnt is_bsleep s <= cnt is_worker s) by (apply count_le; intros []; cbn; lia).
  pose proof (i_workers _ _ HI). rewrite !Z.max_r by lia. destruct b; cbn [left]; lia.
Qed.

(** The post is only made when the workers rest, one of them asleep, with the semaphore down. *)
Lemma posting_kept n s s' i c t p' g e δ :
  destroy_state n s → thr s !! i = Some t → exec c (at_pc t) (glb s) = Next (p', g, e) →
  effect_counts e (mk_sys (<[i := set_pc p' t]> (thr s)) g) δ → e ≠ WakeAllBsem →
  (∀ f, count f s' = count f s - f (at_pc t) + f p' + δ f) →
  (posting p' = true → cnt restless s = 0 ∧ num_threads_alive (glb s) ≠ 0 ∨ posting (at_pc t) = true) →
  0 < cnt posting s' →
  cnt restless s' = 0 ∧ bsem_v (after_effect e (length (thr s)) g) = 0 ∧ 0 < cnt is_bsleep s'.
Proof.
  intros Hds Ht He Hδ Hne Hc Hp Hpo. destruct (ds_facts n s Hds) as (Hcalm & _ & _ & _ & HI).
  pose proof Hds as [Hr _ _ _ Hpost]. pose proof (ds_moves n s i t Hds Ht) as Hm.
  destruct (exec_destroying _ _ _ _ _ _ He Hm) as (_ & _ & Hwp & Hpp).
  assert (Hδ0 : δ (λ q, Z.b2z (posting q)) = 0).
  { destruct e; cbn in Hδ; [|destruct Hδ as [[_ Hδ]|Hδ]|done|destruct Hδ as [[_ Hδ]|[k Hδ]]| |]; by rewrite Hδ. }
  pose proof (moved_eff posting _ _ _ _ _ Hc) as Cp. rewrite Hδ0 in Cp.
  destruct (is_worker (at_pc t)) eqn:Hw.
  - exfalso. destruct (Hwp eq_refl) as [Hp' _]. rewrite Hp' in Cp.
    assert (posting (at_pc t) = false) as Hpf by by destruct (at_pc t). rewrite Hpf in Cp. cbn in Cp.
    destruct (Hpost ltac:(lia)) as [Hrest _]. pose proof (resting_blocked _ _ _ _ _ _ He Hw) as Hl.
    pose proof (count_ge (λ q, Z.b2z (restless q)) s i t ltac:(intros; apply b2z_nonneg) Ht) as H2.
    cbn -[restless] in H2. rewrite Hl in H2. unfold cnt in Hrest. rewrite Hrest in H2. cbn in H2. lia.
  - destruct Hm as [|Hd]; [done|].
    rewrite (sole_destroyer n s posting i t Hds) in Cp; [|by intros []|done|done].
    assert (Hp' : posting p' = true) by (destruct (posting p'); [done|cbn in Cp; lia]).
    destruct (Hpp Hp') as (Hv & -> & Hcl). cbn [after_effect]. rewrite Hv. cbn in Hδ.
    assert (Hfix : ∀ b : pc → bool, b (at_pc t) = false → b p' = false → cnt b s' = cnt b s).
    { intros b H1 H2. rewrite (moved_eff b _ _ _ _ _ Hc), H1, H2, Hδ. cbn. lia. }
    rewrite !Hfix by (first [by destruct (at_pc t) | by destruct p']).
    destruct (Hp Hp') as [[Hrest Ha]|Hpt].
    + destruct (alive_parts s) as [A1 A2]. rewrite (i_alive _ _ HI) in Ha. pose proof (cnt_nonneg is_alive s).
      pose proof (wake_reachable n 0 s Hr) as HW. pose proof (i_v _ _ HI).
      split_and!; [done| |lia]. destruct (decide (bsem_v (glb s) = 1)) as [Hv1|]; [specialize (HW Hv1 ltac:(lia)); lia|lia].
    + apply Hpost. rewrite (sole_destroyer n s posting i t Hds); [by rewrite Hpt|by intros []|done|done].
Qed.

Lemma ds_step n l s s' :
  destroy_state n s → patient_step l s = Next s' →
  destroy_state n s' ∧ destroy_potential (Z.max 0 n) s' < destroy_potential (Z.max 0 n) s.
Proof.
  intros Hds Hs. destruct (ds_facts n s Hds) as (Hcalm & Hcl & Hd1 & Hka & HI). pose proof Hds as [Hr Hd Hj Hq Hpost].
  destruct (patient_inv _ _ _ Hs Hq) as (i & c & w & t & p' & g & e & Ht & Hst & He & Hg & Heff & Hcount & Hp).
  destruct (jobs_reachable n 0 s Hr Hcalm) as (q & d & HJ). pose proof (frees_reachable n 0 s Hr Hcalm) as HF.
  pose proof (ds_moves n s i t Hds Ht) as Hm. destruct (exec_destroying _ _ _ _ _ _ He Hm) as (Hsub & Hk & Hwp & Hpp).
  assert (Hr' : pool_reachable n 0 s') by exact (reachable_step _ _ _ _ _ Hr Hst).
  assert (Hd' : 0 < cnt destroying s') by (pose proof (step_sides _ _ _ Hst); lia).
  assert (Hj' : Z.of_nat (length (submitted (glb s'))) < INT_MAX).
  { rewrite Hg. replace (submitted _) with (submitted g) by by destruct e. by rewrite Hsub. }
  assert (Hqi : quiet (mk_sys (<[i := set_pc p' t]> (thr s)) g)).
  { apply (quiet_insert (thr s) i t p' g); [done|by eapply (Forall_lookup_1 _ _ _ _ Hq Ht)|by destruct s]. }
  destruct (broadcast_or_not e) as [->|Hne].
  - destruct (exec_broadcast _ _ _ _ _ He) as (b & m & Hpc & -> & ->).
    assert (Hposting : 0 < cnt posting s).
    { rewrite (sole_destroyer n s posting i t Hds); [by rewrite Hpc|by intros []|done|by rewrite Hpc]. }
    destruct (Hpost Hposting) as (_ & Hv & Hb). rewrite (step_broadcast _ _ _ _ _ _ _ _ Hst Ht He).
    split; [|apply (left_broadcast (Z.max 0 n) i t b m s); [lia|done..]].
    rewrite (step_broadcast _ _ _ _ _ _ _ _ Hst Ht He) in Hr', Hd', Hj'. split; [done..|by apply broadcast_quiet with (g := set_bsem_v 1 (glb s))|].
    intros Hpo. exfalso. revert Hpo. unfold cnt. rewrite (broadcast_counts _ _ (glb s)), (count_move _ (thr s) (glb s) _ _ _ _ Ht), Hpc.
    replace (mk_sys (thr s) (glb s)) with s by by destruct s. change (count (λ q, Z.b2z (posting q)) s) with (cnt posting s).
    rewrite (sole_destroyer n s posting i t Hds); [rewrite Hpc; cbn; lia|by intros []|done|by rewrite Hpc].
  - destruct (Hcount Hne) as (δ & Hδ & Hc).
    destruct (left_exec (Z.max 0 n) i c s s' t p' g e δ q d) as [H1 H2]; [done..|lia|done|done|done|done|done|done|done|].
    split; [|unfold destroy_potential; nia]. split; [done..|by eapply effect_quiet|].
    rewrite Hg. by eapply (posting_kept n s s' i c t).
Qed.


(** ** A patient run only stops behind thpool_destroy *)

(** Where the client is blocked in thpool_destroy. *)
Definition destroy_blocks (p : pc) (g : glob) : bool :=
  match p with
  | D_post _ _ PLock | D_ppost _ PLock _ => bsem_mutex g
  | D_plock _ => rw_mutex g
  | _ => false
  end.

Lemma exec_destroy_blocked p g :
  is_destroy p = true → exec Go p g = Blocked → destroy_blocks p g = true.
Proof.
  intros Hd He. destruct p; try discriminate Hd; cbn -[Z.eqb Z.ltb] in *.
  all: run_exec He; try done.
  all: match goal with
    | H : jobqueue_pull _ = _ |- _ => not_straight H (straight_pull (job_queue g))
    | H : free_job ?j _ = _ |- _ => not_straight H (straight_free j (job_queue g))
    | H : jobqueue_clear_end _ = _ |- _ => by rewrite jobqueue_clear_end_run in H
    end.
Qed.

Section stops.
Context (n : Z) (s : sys).
Hypothesis (Hn : is_int n) (Hds : destroy_state n s) (Hnd : cnt is_done s = 0).
Hypothesis (Hst : ∀ l s', patient_step l s ≠ Next s').

Lemma live_pool : pool_live (glb s) = true.
Proof.
  destruct (ds_facts n s Hds) as (Hcalm & Hcl & Hd & _ & HI). pose proof (i_pool _ _ HI) as Hp.
  destruct (calm_client s Hcalm ltac:(lia)) as [_ Hb]. pose proof (p_client _ (parts_hold s)). pose proof (p_start _ (parts_hold s)).
  pose proof (cnt_nonneg is_init s). pose proof (cnt_nonneg is_null s). pose proof (cnt_nonneg is_start s).
  destruct (pool_live (glb s)); [done|]. cbn in Hp. lia.
Qed.

(** No step is undefined; a thread whose code could go on would be a step of the run. *)
Lemma exec_stops i t :
  thr s !! i = Some t → posts false (at_pc t) (glb s) && negb (rested s) = false → exec Go (at_pc t) (glb s) = Blocked.
Proof.
  intros Ht Hp. destruct (ds_facts n s Hds) as (Hcalm & _ & _ & _ & HI). destruct Hds as [Hr _ Hj Hq _].
  destruct (exec Go (at_pc t) (glb s)) as [[[p g] e]| |u] eqn:He; [|done|].
  - exfalso. destruct (effect_enabled e (mk_sys (<[i:=set_pc p t]> (thr s)) g)) as (w & s' & Hs).
    apply (Hst (i, false, w) s'). cbn -[step]. rewrite Ht, Hp. cbn. rewrite Ht. unfold step_thread.
    assert (held t = false) as -> by (by eapply (Forall_lookup_1 _ _ _ _ Hq Ht)). by rewrite He.
  - exfalso. destruct (jobs_reachable n 0 s Hr Hcalm) as (q & d & HJ).
    assert (HN : 0 <= Z.max 0 n <= INT_MAX) by (int_unfold; lia).
    destruct (exec_wrong _ _ _ _ _ _ HN Hcalm HI (arr_reachable n 0 s Hr Hcalm) HJ Ht Hj Go u ltac:(done) He) as (_ & _ & Hl).
    by rewrite live_pool in Hl.
Qed.

(** Where everybody is blocked. *)
Lemma all_blocked i t :
  thr s !! i = Some t →
  is_worker (at_pc t) = true ∧ blocks (at_pc t) (glb s) = true ∨
  is_destroy (at_pc t) = true ∧
    (destroy_blocks (at_pc t) (glb s) = true ∨ posts false (at_pc t) (glb s) = true ∧ rested s = false).
Proof.
  intros Ht. pose proof (exec_stops i t Ht) as He. destruct (ds_moves n s i t Hds Ht) as [Hw|Hd].
  - left. split; [done|]. apply exec_blocked; [by destruct (at_pc t)|]. apply He. by destruct (at_pc t).
  - right. assert (Hd' : is_destroy (at_pc t) = true).
    { unfold destroying in Hd. apply orb_true_iff in Hd as [|Hd]; [done|]. exfalso.
      pose proof (count_ge (λ q, Z.b2z (is_done q)) s i t ltac:(intros; apply b2z_nonneg) Ht) as H2.
      cbn in H2. rewrite Hd in H2. unfold cnt in Hnd. rewrite Hnd in H2. cbn in H2. lia. }
    split; [done|]. destruct (posts false (at_pc t) (glb s)) eqn:Hp, (rested s) eqn:Hre; auto; left;
      (apply exec_destroy_blocked; [done|by apply He]).
Qed.

(** The holder of a lock is not blocked. *)
Lemma lock_free (b : pc → bool) (m : bool) :
  cnt b s = Z.b2z m →
  (∀ p, b p = true → (is_worker p = true → blocks p (glb s) = false) ∧
    (is_destroy p = true → destroy_blocks p (glb s) = false ∧ posts false p (glb s) = false)) → m = false.
Proof.
  intros Hc Hb. destruct m; [|done]. exfalso. cbn in Hc. destruct (cnt_pos b s ltac:(lia)) as (i & t & Ht & Hh).
  destruct (Hb _ Hh) as [H1 H2]. destruct (all_blocked i t Ht) as [[Hw Hbl]|[Hd [Hbl|[Hbl _]]]].
  - rewrite H1 in Hbl; done.
  - destruct (H2 Hd) as [H3 _]. congruence.
  - destruct (H2 Hd) as [_ H3]. congruence.
Qed.

Lemma nobody_stops : False.
Proof.
  destruct (ds_facts n s Hds) as (Hcalm & Hcl & Hd & _ & HI).
  assert (Hbs : bsem_mutex (glb s) = false).
  { apply (lock_free holds_bs); [apply (i_bs _ _ HI)|]. intros [] Hh; cbn in *; try done; by destruct p. }
  assert (Hrw : rw_mutex (glb s) = false).
  { apply (lock_free holds_rw); [apply (i_rw _ _ HI)|]. intros [] Hh; cbn in *; try done; by destruct p. }
  assert (Hth : thcount_lock (glb s) = false).
  { apply (lock_free holds_th); [apply (i_th _ _ HI)|]. by intros [] Hh. }
  assert (Hre : rested s = true).
  { apply rested_cnt, cnt_none. intros i t Ht. destruct (all_blocked i t Ht) as [[Hw Hbl]|[Hde _]].
    - destruct (at_pc t); cbn in *; try done; try congruence; destruct p; cbn in *; congruence.
    - by destruct (at_pc t). }
  destruct (cnt_pos destroying s ltac:(lia)) as (i & t & Ht & Hdt).
  destruct (all_blocked i t Ht) as [[Hw _]|[_ [Hbl|[_ Hr]]]]; [by destruct (at_pc t)| |congruence].
  destruct (at_pc t); cbn in *; try done; try congruence; destruct p; cbn in *; congruence.
Qed.

End stops.

Lemma ds_run n ls s s' :
  destroy_state n s → run patient_step ls s = Next s' → destroy_state n s'.
Proof.
  revert s. induction ls as [|l ls IH]; intros s Hds Hrun; [by injection Hrun as <-|].
  rewrite run_cons in Hrun. destruct (patient_step l s) as [s1| |] eqn:Hl; [|done..].
  eapply IH; [|done]. by eapply ds_step.
Qed.

Lemma destroy_potential_nonneg n s : destroy_state n s → 0 <= destroy_potential (Z.max 0 n) s.
Proof.
  intros Hds. destruct (ds_facts n s Hds) as (Hcalm & _). destruct Hds as [Hr _ _ _ _].
  destruct (jobs_reachable n 0 s Hr Hcalm) as (q & d & HJ). pose proof (len_nonneg _ _ _ HJ).
  assert (0 <= count (left (Z.max 0 n)) s) by (apply count_nonneg; intros []; cbn; repeat case_match; lia).
  unfold destroy_potential, rest_of, needed. nia.
Qed.

(** At the first loop nothing has been posted yet. *)
Lemma destroy_starts n s i t total :
  pool_reachable n 0 s → Z.of_nat (length (submitted (glb s))) < INT_MAX → quiet s →
  thr s !! i = Some t → at_pc t = D_first total → destroy_state n s.
Proof.
  intros Hr Hj Hq Ht Hp. destruct (live_reachable n s Hr) as [Hcl _].
  pose proof (count_ge (λ q, Z.b2z (destroying q)) s i t ltac:(intros; apply b2z_nonneg) Ht) as H2.
  rewrite Hp in H2. cbn in H2. change (count _ s) with (cnt destroying s) in H2.
  destruct (calm_client s (or_introl Hcl) ltac:(lia)) as [_ Hb]. pose proof (p_busy _ (parts_hold s)).
  assert (H0 : cnt posting s = 0).
  { unfold cnt. rewrite (count_unique _ destroying s i t); [by rewrite Hp|by intros []|done|by rewrite Hp|lia]. }
  split; try done; lia.
Qed.

(** C3: thpool_destroy returns and frees everything.  Called by the only client, with no signal
    outstanding, its patient runs are bounded, however the scheduler picks the threads; and when
    no thread can move any more, the call is back, no worker is alive, and the pool, the
    semaphore, the nodes of the queue and the thread objects are freed. *)
Theorem thpool_destroy_returns n s i t total :
  pool_reachable n 0 s → is_int n → Z.of_nat (length (submitted (glb s))) < INT_MAX → quiet s →
  thr s !! i = Some t → at_pc t = D_first total →
  (∀ ls s', run patient_step ls s = Next s' → (length ls <= Z.to_nat (destroy_potential (Z.max 0 n) s))%nat) ∧
  (∀ ls s', run patient_step ls s = Next s' → (∀ l s'', patient_step l s' ≠ Next s'') →
    0 < cnt is_done s' ∧ all_freed n (glb s') ∧ num_threads_alive (glb s') = 0).
Proof.
  intros Hr Hn Hj Hq Ht Hp.
  assert (Hds : destroy_state n s) by by eapply destroy_starts.
  split.
  - intros ls s' Hrun.
    enough ((length ls + Z.to_nat (destroy_potential (Z.max 0 n) s') <= Z.to_nat (destroy_potential (Z.max 0 n) s))%nat) by lia.
    apply (measure_bounds patient_step (destroy_state n) (λ s, Z.to_nat (destroy_potential (Z.max 0 n) s))); [|done..].
    intros l s1 s2 H1 H2. destruct (ds_step n l s1 s2 H1 H2) as [H3 H4].
    pose proof (destroy_potential_nonneg n s2 H3). split; [done|]. cbn beta. lia.
  - intros ls s' Hrun Hst. pose proof (ds_run _ _ _ _ Hds Hrun) as Hds'. destruct (ds_facts n s' Hds') as (Hcalm & _).
    assert (Hdone : 0 < cnt is_done s').
    { pose proof (cnt_nonneg is_done s'). destruct (decide (cnt is_done s' = 0)) as [H0|]; [|lia].
      by destruct (nobody_stops n s' Hn Hds' H0 Hst). }
    destruct Hds' as [Hr' _ _ _ _]. by destruct (thpool_destroy_frees n 0 s' Hr' Hcalm Hdone) as (H1 & H2 & _).
Qed.

(** A worker asleep and one queued job: the only client calls thpool_destroy. *)
Definition destroy_called : list label := boot ++ submit 1 (Some 1%nat) ++ submit 2 None ++ [Thr 0 (Call OpDestroy) None].

Lemma thpool_destroy_returns_witness :
  let s := state_after destroy_called in
  destroy_potential 1 s = 45 ∧ ∀ ls s', run patient_step ls s = Next s' → (length ls <= 45)%nat.
Proof.
  intros s. split; [vm_compute; reflexivity|].
  refine (proj1 (thpool_destroy_returns 1 s 0 (mk_thread (D_first 1) false false) 1 _ _ _ _ _ _));
    [apply state_after_reachable | vm_compute; split; discriminate | vm_compute; reflexivity
    | by apply (bool_decide_unpack (Forall _ _)); vm_compute | vm_compute; reflexivity | reflexivity].
Defined.
