(* ===== verification/ThpoolClient.v ===== *)
(** * A single client of the thread pool

    What thpool_wait does to the abstract pool of [ThpoolSpec] when one thread is the only
    client, as in the programs of the repository: behind it the pool is empty. *)

From Stdlib Require Import ZifyBool.
From S2P Require Import Prelude CInt TransSys JobQueue Thpool ThpoolInv ThpoolSafe ThpoolJobs ThpoolWait ThpoolProps ThpoolSpec.

Open Scope Z_scope.

(** No step makes a client of a worker or the other way round. *)
Lemma exec_client c p p' g g' e : exec c p g = Next (p', g', e) → is_client p' = is_client p.
Proof. intros He. destruct p; try discriminate He; by run_exec He. Qed.

Lemma sole_client n s : pool_reachable n 0 s → cnt is_client s = 1.
Proof.
  apply (invariant_reachable _ _ (λ s, cnt is_client s = 1)).
  - intros s0 ->. unfold cnt. by rewrite count_sys0.
  - intros l s1 s2 _ IH Hs%step_stepped. unfold cnt in *.
    destruct Hs as [c p p' g e _ He _ Hc _|v _ Hc _]; rewrite Hc by done; [|done].
    apply exec_client in He. rewrite He, IH. cbn. lia.
Qed.

(** Only jobqueue_push submits. *)
Lemma exec_submits c p p' g g' e :
  exec c p g = Next (p', g', e) → is_body p = false → submitted g' = submitted g.
Proof. intros He. destruct p; try discriminate He; run_exec He; by intros. Qed.

(** While the client is not in jobqueue_push, nobody is. *)
Lemma quiet_step n i t l s s' :
  pool_reachable n 0 s → thr s !! i = Some t → is_client (at_pc t) = true → is_body (at_pc t) = false →
  step l s = Next s' → submitted (glb s') = submitted (glb s).
Proof.
  intros Hr Ht Hc Hb Hs%step_stepped. pose proof (sole_client n s Hr) as Hone.
  destruct Hs as [c p p' g e (j & u & Hu & Hp) He Hg _ _|v Hg _ _]; rewrite Hg; [|done].
  transitivity (submitted g); [by destruct e|]. eapply exec_submits; [done|]. destruct (is_body p) eqn:Hbp; [|done]. exfalso.
  set (f := λ q, Z.b2z (is_client q) - Z.b2z (is_body q)).
  assert (Hf : ∀ q, 0 <= f q) by (unfold f; intros []; cbn; lia).
  pose proof (count_ge f s i t Hf Ht) as H1. unfold f in H1 at 1. rewrite Hc, Hb in H1. cbn in H1.
  pose proof (count_ge (λ q, Z.b2z (is_body q)) s j u (λ q, b2z_nonneg is_body q) Hu) as H2.
  cbn beta in H2. rewrite Hp, Hbp in H2. cbn in H2.
  pose proof (count_plus (λ q, Z.b2z (is_client q)) f (λ q, Z.b2z (is_body q)) s ltac:(intros q; unfold f; lia)) as H3.
  unfold cnt in Hone. lia.
Qed.

Lemma wait_at_quiet k g p : wait_at k g p → is_client p = true ∧ is_body p = false.
Proof. by destruct p. Qed.

(** Nothing is submitted while the client is in thpool_wait. *)
Lemma wait_quiet n k i ls s s' t :
  pool_reachable n 0 s → run step ls s = Next s' → Forall (λ l, ∀ o w, l ≠ Thr i (Call o) w) ls →
  thr s !! i = Some t → wait_at k (glb s) (at_pc t) → submitted (glb s') = submitted (glb s).
Proof.
  revert s t. induction ls as [|l ls IH]; intros s t Hr Hrun Hls Ht Hw; [by injection Hrun as ->|].
  rewrite run_cons in Hrun. destruct (step l s) as [s1| |] eqn:Hl; [|done..]. apply Forall_cons in Hls as [Hl1 Hls].
  assert (Hr1 : pool_reachable n 0 s1) by by eapply reachable_step.
  destruct (wait_at_run n 0 k i [l] s s1 t Hr) as (t1 & Ht1 & Hw1); try done.
  { by rewrite run_cons, Hl. }
  { left. by apply (sole_client n). }
  { by constructor. }
  rewrite (IH s1 t1 Hr1 Hrun Hls Ht1 Hw1). destruct (wait_at_quiet _ _ _ Hw). by eapply quiet_step.
Qed.

Lemma step_call_wait i t w s s' :
  thr s !! i = Some t → step (Thr i (Call OpWait) w) s = Next s' → is_ready (at_pc t) = true →
  submitted (glb s') = submitted (glb s) ∧
  ∃ t', thr s' !! i = Some t' ∧ wait_at (length (submitted (glb s))) (glb s') (at_pc t').
Proof.
  intros Ht Hs H0. cbn in Hs. rewrite Ht in Hs. unfold step_thread in Hs. destruct (held t); [done|].
  destruct (at_pc t); try done. cbn in Hs. destruct (ready (glb s)); [|done]. cbn in Hs. simplify_eq. cbn [thr glb].
  rewrite list_lookup_insert_eq by by eapply lookup_lt_Some. split; [done|]. by eexists.
Qed.

(** C10: thpool_wait refines waiting for an empty pool: when the only client calls thpool_wait,
    then in every run in which it makes no further call and comes back, the abstract pool is
    empty behind the call: no job waits, no worker has one, and the jobs done are exactly those
    that were submitted before the call. *)
Theorem thpool_wait_empties n i w ls s s1 s2 t0 t2 :
  pool_reachable n 0 s → thr s !! i = Some t0 → is_ready (at_pc t0) = true →
  step (Thr i (Call OpWait) w) s = Next s1 → run step ls s1 = Next s2 →
  Forall (λ l, ∀ o w, l ≠ Thr i (Call o) w) ls →
  thr s2 !! i = Some t2 → is_ready (at_pc t2) = true →
  ∃ p, abs s2 p ∧ all_done p = true ∧ completed p ≡ₚ submitted (glb s).
Proof.
  intros Hr Ht H0 Hs Hrun Hls Ht2 Hback.
  destruct (step_call_wait i t0 w s s1 Ht Hs H0) as (Hsub & t1 & Ht1 & Hw1).
  assert (Hr1 : pool_reachable n 0 s1) by by eapply reachable_step.
  assert (Hr2 : pool_reachable n 0 s2) by by eapply run_reachable.
  pose proof (sole_client n s2 Hr2) as Hone. assert (Hcalm : calm s2) by by left.
  assert (Hse : serving s2).
  { split; [done|]. pose proof (p_ready _ (parts_hold s2)). pose proof (p_past _ (parts_hold s2)).
    pose proof (cnt_nonneg past_loops s2).
    pose proof (count_ge (λ q, Z.b2z (is_ready q)) s2 i t2 (λ q, b2z_nonneg is_ready q) Ht2) as H3.
    cbn beta in H3. rewrite Hback in H3. cbn in H3. unfold cnt in *. lia. }
  pose proof (wait_quiet n _ i ls s1 s2 t1 Hr1 Hrun Hls Ht1 Hw1) as Hsub2. rewrite Hsub in Hsub2.
  destruct (wait_at_run n 0 _ i ls s1 s2 t1 Hr1 Hrun Hcalm Hls Ht1 Hw1) as (t & Ht' & Hw).
  assert (t2 = t) as -> by congruence. destruct (at_pc t); try done. destruct Hw as [Hk [rest Hf]].
  rewrite <- Hsub2, take_ge in Hf by done.
  destruct (abs_exists n 0 s2 Hr2 Hse) as [p Hp]. exists p. split; [done|].
  destruct (abs_history n 0 s2 p Hr2 Hse Hp) as [Hh1 Hh2]. destruct Hp as (_ & _ & _ & _ & Hco).
  apply Permutation_length in Hf as Hl1. apply Permutation_length in Hh2 as Hl2. rewrite Hh1 in Hl1. rewrite !length_app in *.
  assert (length (queue p) = 0 ∧ length (in_hand p) = 0 ∧ length rest = 0)%nat as (Hq & Hi & Hre) by lia.
  apply nil_length_inv in Hq, Hi, Hre. unfold all_done. rewrite Hq, Hi. split; [done|]. by rewrite Hco, Hf, Hre, app_nil_r, Hsub2.
Qed.

(** One worker, two jobs, and the wait for them. *)
Lemma thpool_wait_empties_witness :
  let s := state_after (boot ++ ThpoolProps.submit 1 (Some 1%nat) ++ ThpoolProps.submit 2 None) in
  let ls := steps 0 2 ++ steps 1 17 ++ [Thr 1 Go (Some 0%nat)] ++ steps 1 18 ++ steps 0 4 in
  let s1 := match step (Thr 0 (Call OpWait) None) s with Next s' => s' | _ => s end in
  let s2 := match run step ls s1 with Next s' => s' | _ => s1 end in
  length (submitted (glb s)) = 2%nat ∧ ∃ p, abs s2 p ∧ all_done p = true ∧ completed p ≡ₚ submitted (glb s).
Proof.
  intros s ls s1 s2. split; [vm_compute; reflexivity|].
  refine (thpool_wait_empties 1 0 None ls s s1 s2 (mk_thread (C_ready 0) false false) (mk_thread (C_ready 0) false false) _ _ _ _ _ _ _ _);
    [apply state_after_reachable | vm_compute; reflexivity | reflexivity | vm_compute; reflexivity
    | vm_compute; reflexivity | repeat (constructor; [by intros|]); constructor
    | vm_compute; reflexivity | reflexivity].
Defined.
