(* ===== verification/PoolTest.v ===== *)
(** * Three jobs that race: common/thpool_test.c

    main gives the same job, with the same [handle_t], to a pool of eight workers three times.
    Every access of a job to [handle->number] is a step of its own.  The pool is its
    specification of [ThpoolSpec]; a job is known by the number of jobs accepted before it.  The
    log lines are left out. *)

From Stdlib Require Import ZifyBool.
From S2P Require Import Prelude CInt TransSys ThpoolSpec.

Open Scope Z_scope.

(** The worker count, [limit] and the calls of thpool_add_work in main. *)
Definition WORKERS : nat := 8.
Definition LIMIT : Z := 1000.
Definition JOBS : nat := 3.

(** ** State *)

(** Where a job is in [increment]; [x]: the value of [handle->number] read by the increment. *)
Inductive job_pc :=
  | J_queued
  | J_test
  | J_load
  | J_store (x : Z)
  | J_log
  | J_done.

#[export] Instance job_pc_eq_dec : EqDecision job_pc.
Proof. solve_decision. Defined.

(** [M_add n]: [n] calls of thpool_add_work are behind main. *)
Inductive main_pc := M_init | M_handle | M_add (n : nat) | M_wait | M_end.

#[export] Instance main_pc_eq_dec : EqDecision main_pc.
Proof. solve_decision. Defined.

(** [pool] is NULL or a pool; [handle.limit] does not change. *)
Record state := mk_state {
  main_at : main_pc;
  pool : option (apool nat);
  jobs : list job_pc;
  number : Z;
}.

Definition set_main p s := mk_state p (pool s) (jobs s) (number s).
Definition set_pool p s := mk_state (main_at s) p (jobs s) (number s).
Definition set_jobs l s := mk_state (main_at s) (pool s) l (number s).
Definition set_number v s := mk_state (main_at s) (pool s) (jobs s) v.
Definition set_job i j s := set_jobs (<[i := j]> (jobs s)) s.

(** ** The job *)

(** [increment], from one access to the next. *)
Definition increment (i : nat) (s : state) : sres state :=
  match jobs s !! i with
  | Some J_test =>
      if number s <? LIMIT then Next (set_job i J_load s)
      else
        match pool s ≫= finish i with
        | Some p => Next (set_job i J_done (set_pool (Some p) s))
        | None => Blocked
        end
  | Some J_load => Next (set_job i (J_store (number s)) s)
  | Some (J_store x) =>
      if decide (is_int (x + 1)) then Next (set_job i J_log (set_number (x + 1) s)) else Wrong SignedOverflow
  | Some J_log => Next (set_job i J_test s)
  | _ => Blocked
  end.

(** A free worker takes the first job and calls it. *)
Definition take_job (s : state) : sres state :=
  match pool s ≫= start WORKERS with
  | Some (i, p) => Next (set_job i J_test (set_pool (Some p) s))
  | None => Blocked
  end.

(** ** main *)

Definition thpool_init (ok : bool) (s : state) : state := set_pool (if ok then Some apool0 else None) s.

(** Without memory for the job thpool_add_work returns -1, which main does not look at. *)
Definition thpool_add_work (ok : bool) (s : state) : sres state :=
  if ok then
    match pool s with
    | Some p => Next (set_jobs (jobs s ++ [J_queued]) (set_pool (Some (submit (length (jobs s)) p)) s))
    | None => Wrong NullDeref
    end
  else Next s.

Definition thpool_wait (s : state) : sres unit :=
  match pool s with
  | Some p => if all_done p then Next tt else Blocked
  | None => Next tt
  end.

Definition main_step (ok : bool) (s : state) : sres state :=
  match main_at s with
  | M_init => Next (set_main M_handle (thpool_init ok s))
  | M_handle => Next (set_main (M_add 0) (set_number 0 s))
  | M_add n =>
      if (n <? JOBS)%nat then s ← thpool_add_work ok s; Next (set_main (M_add (S n)) s)
      else Next (set_main M_wait s)
  | M_wait => thpool_wait s;; Next (set_main M_end s)
  | M_end => Blocked
  end.

(** ** The program *)

(** [Main ok]: main's next statement, with the answer of the environment; [Take]: a free worker
    takes a job; [Job i]: job [i]. *)
Inductive label := Main (ok : bool) | Take | Job (i : nat).

(** The process is over when main returns. *)
Definition step (l : label) (s : state) : sres state :=
  if bool_decide (main_at s = M_end) then Blocked
  else match l with Main ok => main_step ok s | Take => take_job s | Job i => increment i s end.

Definition state0 : state := mk_state M_init None [] 0.

Definition reachable_state : state → Prop := reachable (λ s, s = state0) step.

Definition is_active (j : job_pc) : bool := match j with J_test | J_load | J_store _ | J_log => true | _ => false end.
Definition is_load (j : job_pc) : bool := match j with J_load => true | _ => false end.
Definition is_store (j : job_pc) : bool := match j with J_store _ => true | _ => false end.

Definition loads (s : state) : Z := tsum (λ j, Z.b2z (is_load j)) (jobs s).
Definition stores (s : state) : Z := tsum (λ j, Z.b2z (is_store j)) (jobs s).

(** ** Schedules *)

Definition start_up : list label := replicate 6 (Main true) ++ replicate 3 Take.
Definition turn (i : nat) : list label := replicate 4 (Job i).
(** Job [i] goes on alone, [n] increments long. *)
Definition turns (i n : nat) : list label := concat (replicate n (turn i)).

(** One job after the other. *)
Definition in_turn : list label := start_up ++ turns 0 1000 ++ [Job 0; Job 1; Job 2]%nat ++ [Main true].

(** [a] is about to store a large value, [b] a small one, [c] tests: [b] stores, [b] and [c] pass
    the test on the small value, [c] loads it, [a] stores the large value, and [b] loads that. *)
Definition round (a b c : nat) : list label :=
  [Job b; Job b; Job b; Job c; Job c; Job a; Job a; Job b].

Fixpoint rounds (n : nat) (a b c : nat) : list label :=
  match n with O => [] | S n => round a b c ++ rounds n b c a end.

(** Job 1 loads 0, job 2 passes the test; job 0 counts to the limit; job 2 loads the limit. *)
Definition far_begin : list label :=
  start_up ++ [Job 1; Job 1; Job 2]%nat ++ turns 0 1000 ++ [Job 2]%nat.

(** The last round: all that passed the test load what was stored before. *)
Definition far_end (a b c : nat) : list label :=
  [Job b; Job b; Job b; Job c; Job a; Job a; Job b; Job b; Job b; Job c; Job c; Job c; Job a; Job b; Job c].

Definition far : list label := far_begin ++ rounds 998 2 1 0 ++ far_end 0 2 1 ++ [Main true].

Definition state_after (ls : list label) : state := match run step ls state0 with Next s => s | _ => state0 end.

(** ** How far the number gets *)

Section bounds.
Implicit Types (v : Z) (js : list job_pc).

Definition n_load js : Z := tsum (λ j, Z.b2z (is_load j)) js.
Definition n_store js : Z := tsum (λ j, Z.b2z (is_store j)) js.

(** The pending stores and the number against each other.  Who passed the test will load; a
    small pending store lets others pass the test again, but the next one is larger. *)
Record bounds v js : Prop := {
  b_len : (length js <= JOBS)%nat;
  b_nonneg : 0 <= v ∧ ∀ i x, js !! i = Some (J_store x) → 0 <= x;
  b_number : v + n_load js <= 2 * LIMIT + 1;
  b_store : ∀ i x, js !! i = Some (J_store x) → x + n_load js <= 2 * LIMIT;
  b_over : ∀ i x, js !! i = Some (J_store x) → v + n_load js <= LIMIT + 1 + x;
  b_pair : ∀ i j x y, i ≠ j → js !! i = Some (J_store x) → js !! j = Some (J_store y) →
    y + n_load js <= LIMIT + x ∧ (v < LIMIT → y + 1 <= LIMIT + x);
  b_under : v < LIMIT → ∀ i x, js !! i = Some (J_store x) → x + 1 <= LIMIT + v;
  b_idle : LIMIT <= v → n_load js + n_store js <= 2;
}.

Lemma n_load_nonneg js : 0 <= n_load js.
Proof. apply tsum_nonneg. intros j. destruct (is_load j); cbn; lia. Qed.

Lemma n_store_nonneg js : 0 <= n_store js.
Proof. apply tsum_nonneg. intros j. destruct (is_store j); cbn; lia. Qed.

Lemma n_len js : n_load js + n_store js <= Z.of_nat (length js).
Proof.
  induction js as [|j js IH]; [done|]. unfold n_load, n_store in *. rewrite !tsum_cons. cbn [length].
  destruct j; cbn; lia.
Qed.

Lemma n_insert js i j j' :
  js !! i = Some j →
  n_load (<[i := j']> js) = n_load js - Z.b2z (is_load j) + Z.b2z (is_load j') ∧
  n_store (<[i := j']> js) = n_store js - Z.b2z (is_store j) + Z.b2z (is_store j').
Proof.
  intros H. unfold n_load, n_store. by rewrite !(tsum_insert _ _ _ _ _ H).
Qed.

(** Pending stores after a change of another job. *)
Lemma store_insert js i j' k x :
  <[i := j']> js !! k = Some (J_store x) → (i = k ∧ j' = J_store x) ∨ (i ≠ k ∧ js !! k = Some (J_store x)).
Proof. intros [(-> & -> & _)|[? ?]]%insert_lookup_cases; auto. Qed.

Lemma n_store_pos js i x : js !! i = Some (J_store x) → 1 <= n_store js.
Proof.
  intros H. apply (tsum_ge (λ j, Z.b2z (is_store j)) js i (J_store x)); [|done].
  intros j. destruct (is_store j); cbn; lia.
Qed.

Lemma n_load_pos js i : js !! i = Some J_load → 1 <= n_load js.
Proof.
  intros H. apply (tsum_ge (λ j, Z.b2z (is_load j)) js i J_load); [|done].
  intros j. destruct (is_load j); cbn; lia.
Qed.

Lemma n_store_two js i j x y : i ≠ j → js !! i = Some (J_store x) → js !! j = Some (J_store y) → 2 <= n_store js.
Proof.
  intros Hne H1 H2. apply (tsum_ge2 (λ j, Z.b2z (is_store j)) js i j (J_store x) (J_store y)); try done.
  intros k. destruct (is_store k); cbn; lia.
Qed.

(** A change of job [i] that neither begins nor ends a pending access. *)
Lemma bounds_quiet v js i j j' :
  js !! i = Some j → is_load j = false → is_store j = false → is_load j' = false → is_store j' = false →
  bounds v js → bounds v (<[i := j']> js).
Proof.
  intros Hi H1 H2 H3 H4 B. destruct (n_insert js i j j' Hi) as [Hl Hs]. rewrite H1, H3 in Hl. rewrite H2, H4 in Hs.
  cbn in Hl, Hs. assert (Hx : ∀ k x, <[i := j']> js !! k = Some (J_store x) → js !! k = Some (J_store x)).
  { intros k x [[-> ->]|[_ H]]%store_insert; done. }
  split; try rewrite Hl; try rewrite Hs; rewrite ?Z.sub_0_r, ?Z.add_0_r.
  - rewrite length_insert. apply B.
  - split; [apply B|]. intros k x Hk%Hx. by eapply B.
  - apply B.
  - intros k x Hk%Hx. by eapply B.
  - intros k x Hk%Hx. by eapply B.
  - intros k l x y Hne Hk%Hx Hl'%Hx. by eapply B.
  - intros Hv k x Hk%Hx. by eapply (b_under _ _ B).
  - apply B.
Qed.

(** Arithmetic with the program's constants. *)
Ltac num := unfold JOBS, LIMIT in *; lia.

Lemma bounds_test v js i :
  js !! i = Some J_test → v < LIMIT → bounds v js → bounds v (<[i := J_load]> js).
Proof.
  intros Hi Hv B. destruct (n_insert js i J_test J_load Hi) as [Hl Hs]. cbn in Hl, Hs.
  pose proof (n_len (<[i := J_load]> js)) as Hn. rewrite length_insert in Hn. pose proof (b_len _ _ B).
  assert (Hx : ∀ k x, <[i := J_load]> js !! k = Some (J_store x) → js !! k = Some (J_store x)).
  { intros k x [[? ?]|[_ H']]%store_insert; done. }
  assert (Hst : ∀ k x, js !! k = Some (J_store x) → 0 <= x ∧ n_load (<[i := J_load]> js) <= 2).
  { intros k x Hk. pose proof (n_store_pos js k x Hk). pose proof (proj2 (b_nonneg _ _ B) k x Hk). num. }
  pose proof (n_store_nonneg js). split.
  - by rewrite length_insert.
  - split; [apply B|]. intros k x Hk%Hx. by eapply B.
  - num.
  - intros k x Hk%Hx. specialize (Hst k x Hk). pose proof (b_under _ _ B Hv k x Hk). num.
  - intros k x Hk%Hx. specialize (Hst k x Hk). num.
  - intros k l x y Hne Hk%Hx Hl'%Hx. pose proof (n_store_two js k l x y Hne Hk Hl').
    destruct (b_pair _ _ B k l x y Hne Hk Hl') as [_ H2]. specialize (H2 Hv). split; [num|auto].
  - intros _ k x Hk%Hx. by eapply b_under.
  - num.
Qed.

Lemma bounds_load v js i :
  js !! i = Some J_load → bounds v js → bounds v (<[i := J_store v]> js).
Proof.
  intros Hi B. destruct (n_insert js i J_load (J_store v) Hi) as [Hl Hs]. cbn in Hl, Hs.
  pose proof (n_len js) as Hn. pose proof (b_len _ _ B). pose proof (n_load_pos js i Hi).
  pose proof (b_number _ _ B) as Hnum. pose proof (b_idle _ _ B) as Hidle. pose proof (proj1 (b_nonneg _ _ B)) as Hge.
  pose proof (n_store_nonneg js). split.
  - by rewrite length_insert.
  - split; [done|]. intros k x [[-> [= ->]]|[_ Hk]]%store_insert; [done|by eapply B].
  - num.
  - intros k x [[-> [= ->]]|[_ Hk]]%store_insert; [num|]. pose proof (b_store _ _ B k x Hk). num.
  - intros k x [[-> [= ->]]|[_ Hk]]%store_insert; [num|]. pose proof (b_over _ _ B k x Hk). num.
  - intros k l x y Hne [[-> [= ->]]|[_ Hk]]%store_insert [[-> [= ->]]|[_ Hl']]%store_insert; [done|..].
    + pose proof (b_store _ _ B l y Hl'). pose proof (b_under _ _ B) as Hu. pose proof (n_store_pos js l y Hl').
      split; [|intros Hv; specialize (Hu Hv l y Hl'); num].
      destruct (decide (x < LIMIT)) as [Hv|Hv]; [specialize (Hu Hv l y Hl')|]; num.
    + pose proof (b_over _ _ B k x Hk). pose proof (proj2 (b_nonneg _ _ B) k x Hk).
      split; [|num]. num.
    + pose proof (b_pair _ _ B k l x y Hne Hk Hl') as [? ?]. split; [num|done].
  - intros Hv k x [[-> [= ->]]|[_ Hk]]%store_insert; [|by eapply b_under]. num.
  - num.
Qed.

Lemma bounds_store v js i x :
  js !! i = Some (J_store x) → bounds v js → bounds (x + 1) (<[i := J_log]> js).
Proof.
  intros Hi B. destruct (n_insert js i (J_store x) J_log Hi) as [Hl Hs]. cbn in Hl, Hs.
  pose proof (n_len js) as Hn. pose proof (b_len _ _ B). pose proof (n_load_nonneg js).
  pose proof (b_store _ _ B i x Hi). pose proof (proj2 (b_nonneg _ _ B) i x Hi). pose proof (n_store_pos js i x Hi).
  pose proof (b_idle _ _ B) as Hidle. 
  assert (Hx : ∀ k y, <[i := J_log]> js !! k = Some (J_store y) → i ≠ k ∧ js !! k = Some (J_store y)).
  { intros k y [[? ?]|?]%store_insert; done. }
  split.
  - by rewrite length_insert.
  - split; [num|]. intros k y [_ Hk]%Hx. by eapply B.
  - num.
  - intros k y [_ Hk]%Hx. pose proof (b_store _ _ B k y Hk). num.
  - intros k y [Hne Hk]%Hx. pose proof (b_pair _ _ B k i y x (not_eq_sym Hne) Hk Hi) as [? _]. num.
  - intros k l y z Hne [Hk1 Hk]%Hx [Hl1 Hl']%Hx. pose proof (b_pair _ _ B k l y z Hne Hk Hl') as [? Hu].
    split; [num|]. intros _. apply Hu.
    destruct (decide (v < LIMIT)) as [|Hv]; [done|]. specialize (Hidle ltac:(num)).
    pose proof (n_store_two (<[i := J_log]> js) k l y z Hne) as Htwo. rewrite !list_lookup_insert_ne in Htwo by done. specialize (Htwo Hk Hl'). num.
  - intros Hv k y [Hne Hk]%Hx. pose proof (b_pair _ _ B i k x y Hne Hi Hk) as [? _]. num.
  - intros Hv. num.
Qed.

End bounds.

(** ** The pool and the jobs *)

(** The pool's lists are the jobs that wait and those that run. *)
Record pool_jobs (p : apool nat) (js : list job_pc) : Prop := {
  p_queue : ∀ i, i ∈ queue p ↔ js !! i = Some J_queued;
  p_hand : ∀ i, i ∈ in_hand p ↔ ∃ j, js !! i = Some j ∧ is_active j = true;
  p_nodup : NoDup (queue p ++ in_hand p);
}.

(** The calls of thpool_add_work behind main. *)
Definition adds (m : main_pc) : nat := match m with M_init | M_handle => 0 | M_add n => n | M_wait | M_end => JOBS end.

Record inv (s : state) : Prop := {
  v_pool : match pool s with Some p => pool_jobs p (jobs s) | None => jobs s = [] end;
  v_start : match main_at s with M_init | M_handle => jobs s = [] ∧ number s = 0 | _ => True end;
  v_len : (length (jobs s) <= adds (main_at s))%nat ∧ (adds (main_at s) <= JOBS)%nat;
  v_end : main_at s = M_end → ∀ i j, jobs s !! i = Some j → j = J_done;
  v_low : ∀ k, jobs s !! k = Some J_done → (∀ i j, jobs s !! i = Some j → is_active j = false) → LIMIT ≤ number s;
  v_bounds : bounds (number s) (jobs s);
}.

Lemma elem_active p js i j : pool_jobs p js → js !! i = Some j → is_active j = true → i ∈ in_hand p.
Proof. intros [_ H _] Hi Ha. apply H. by exists j. Qed.

(** A running job goes on. *)
Lemma pool_jobs_active p js i j j' :
  js !! i = Some j → is_active j = true → is_active j' = true → pool_jobs p js → pool_jobs p (<[i := j']> js).
Proof.
  intros Hi Ha Ha' [Hq Hh Hn]. assert (Hlt : (i < length js)%nat) by by eapply lookup_lt_Some.
  split; [..|done]; intros k; rewrite ?Hq, ?Hh; destruct (decide (i = k)) as [<-|Hne];
    rewrite ?list_lookup_insert_eq, ?list_lookup_insert_ne by done; [|done| |done].
  - rewrite Hi. split; intros [= ->]; done.
  - rewrite Hi. split; intros _; eauto.
Qed.

Lemma NoDup_take_out (i : nat) l k : NoDup l → take_out i l = Some k → NoDup k ∧ ∀ x, x ∈ k ↔ x ∈ l ∧ x ≠ i.
Proof.
  intros Hn Ht%take_out_some. rewrite Ht in Hn. apply NoDup_cons in Hn as [Hi Hn]. split; [done|].
  intros x. rewrite Ht. set_solver.
Qed.

Lemma pool_jobs_finish p p' js i j :
  js !! i = Some j → is_active j = true → finish i p = Some p' → pool_jobs p js → pool_jobs p' (<[i := J_done]> js).
Proof.
  intros Hi Ha Hf [Hq Hh Hn]. assert (Hlt : (i < length js)%nat) by by eapply lookup_lt_Some.
  unfold finish in Hf. destruct (take_out i (in_hand p)) as [hand|] eqn:Ht; [|done]. cbn in Hf. simplify_eq.
  apply NoDup_app in Hn as (Hn1 & Hn2 & Hn3). destruct (NoDup_take_out i _ _ Hn3 Ht) as [Hn4 Hel]. split; cbn.
  - intros k. rewrite Hq. destruct (decide (i = k)) as [<-|Hne]; [|by rewrite list_lookup_insert_ne].
    rewrite list_lookup_insert_eq, Hi by done. split; intros [= ->]; done.
  - intros k. rewrite Hel, Hh. destruct (decide (i = k)) as [<-|Hne].
    + rewrite list_lookup_insert_eq by done. split; [by intros [_ ?]|]. by intros (? & [= <-] & ?).
    + rewrite list_lookup_insert_ne by done. naive_solver.
  - apply NoDup_app. split_and!; [done| |done]. intros x Hx. rewrite Hel. intros [Hx' _]. by eapply Hn2.
Qed.

Lemma pool_jobs_start p p' js i :
  start WORKERS p = Some (i, p') → pool_jobs p js → pool_jobs p' (<[i := J_test]> js) ∧ js !! i = Some J_queued.
Proof.
  unfold start. destruct p as [qu hand co]. cbn. destruct qu as [|k qu]; [done|]. case_decide; [|done].
  intros [= -> <-] [Hq Hh Hn]. cbn in *. assert (Hi : js !! i = Some J_queued) by (apply Hq; by left).
  assert (Hlt : (i < length js)%nat) by by eapply lookup_lt_Some.
  assert (Hni : i ∉ qu ++ hand) by by apply NoDup_cons in Hn as [? _]. split; [|done]. split; cbn.
  - intros x. destruct (decide (i = x)) as [<-|Hne].
    + rewrite list_lookup_insert_eq by done. split; [set_solver|done].
    + rewrite list_lookup_insert_ne, <- Hq by done. set_solver.
  - intros x. rewrite elem_of_cons, Hh. destruct (decide (i = x)) as [<-|Hne].
    + rewrite list_lookup_insert_eq by done. naive_solver.
    + rewrite list_lookup_insert_ne by done. naive_solver.
  - by rewrite <- Permutation_middle.
Qed.

Lemma pool_jobs_submit p js : pool_jobs p js → pool_jobs (submit (length js) p) (js ++ [J_queued]).
Proof.
  intros [Hq Hh Hn].
  assert (Hnew : ∀ k j, (js ++ [J_queued]) !! k = Some j ↔ js !! k = Some j ∨ (k = length js ∧ j = J_queued)).
  { intros k j. destruct (decide (k < length js)%nat) as [Hk|Hk].
    - rewrite lookup_app_l by done. split; [by left|]. intros [?|[-> _]]; [done|lia].
    - rewrite lookup_app_r, (lookup_ge_None_2 js) by lia. rewrite list_lookup_singleton_Some. split; [|lia || naive_solver lia].
      intros [? <-]. right. split; [lia|done]. }
  split; cbn.
  - intros k. rewrite Hnew, elem_of_app, Hq, list_elem_of_singleton. naive_solver.
  - intros k. rewrite Hh. setoid_rewrite Hnew. naive_solver.
  - rewrite <- app_assoc, (Permutation_app_comm [_]), app_assoc. apply NoDup_app. split_and!; [done| |apply NoDup_singleton].
    intros x Hx ->%list_elem_of_singleton. apply elem_of_app in Hx as [Hx|Hx].
    + apply Hq, lookup_lt_Some in Hx. lia.
    + apply Hh in Hx as (j & Hx%lookup_lt_Some & _). lia.
Qed.

Lemma bounds_add v js : (length js < JOBS)%nat → bounds v js → bounds v (js ++ [J_queued]).
Proof.
  intros Hlen B.
  assert (Hx : ∀ k x, (js ++ [J_queued]) !! k = Some (J_store x) → js !! k = Some (J_store x)).
  { intros k x [H|[_ H]]%lookup_app_Some; [done|]. by apply list_lookup_singleton_Some in H as [_ ?]. }
  assert (Hl : n_load (js ++ [J_queued]) = n_load js) by (unfold n_load; rewrite tsum_app; cbn; lia).
  assert (Hs : n_store (js ++ [J_queued]) = n_store js) by (unfold n_store; rewrite tsum_app; cbn; lia).
  split; rewrite ?Hl, ?Hs.
  - rewrite length_app. cbn. lia.
  - split; [apply B|]. intros k x Hk%Hx. by eapply B.
  - apply B.
  - intros k x Hk%Hx. by eapply B.
  - intros k x Hk%Hx. by eapply B.
  - intros k l x y Hne Hk%Hx Hl'%Hx. by eapply B.
  - intros Hv k x Hk%Hx. by eapply (b_under _ _ B).
  - apply B.
Qed.

(** A change of one job: everything but its own conditions. *)
Lemma inv_job s i j j' p v :
  inv s → jobs s !! i = Some j → main_at s ≠ M_end →
  match p with Some p => pool_jobs p (<[i := j']> (jobs s)) | None => False end →
  (j' = J_done ∨ is_active j' = true) → (j' = J_done → LIMIT <= v) →
  bounds v (<[i := j']> (jobs s)) →
  inv (mk_state (main_at s) p (<[i := j']> (jobs s)) v).
Proof.
  intros [Hp Hst Hl He Hlo Hb] Hi Hm Hpool Hj' Hv Hbounds.
  assert (Hlt : (i < length (jobs s))%nat) by by eapply lookup_lt_Some.
  split; cbn [main_at pool jobs number]; try done.
  - by destruct p.
  - destruct (main_at s); try done; by rewrite (proj1 Hst) in Hi.
  - by rewrite length_insert.
  - intros k Hk Hall. destruct Hj' as [->|Ha]; [by apply Hv|].
    specialize (Hall i j'). rewrite list_lookup_insert_eq in Hall by done. rewrite Hall in Ha; done.
Qed.

Lemma all_done_jobs p js i j : pool_jobs p js → all_done p = true → js !! i = Some j → j = J_done.
Proof.
  intros [Hq Hh _] Hd Hi. unfold all_done in Hd. destruct (queue p) eqn:Hqu; [|done]. destruct (in_hand p) eqn:Hha; [|done].
  destruct (is_active j) eqn:Ha; [assert (i ∈ @nil nat) as []%elem_of_nil by (apply Hh; eauto)|].
  destruct j; try done. assert (i ∈ @nil nat) as []%elem_of_nil. by apply Hq.
Qed.

Lemma test_inv_main ok s s' : inv s → main_step ok s = Next s' → inv s'.
Proof.
  intros HI Hs. pose proof HI as [Hp Hst [Hl Hl'] He Hlo Hb]. unfold main_step in Hs.
  destruct (main_at s) as [| |n| |] eqn:Hm; cbn in Hst, Hl, Hl'; try done.
  - injection Hs as <-. destruct Hst as [Hst Hz]. unfold thpool_init. rewrite Hst in *. split; cbn; rewrite ?Hst; try done.
    destruct ok; [|done]. split; cbn; [intros i..|constructor]; rewrite elem_of_nil; naive_solver.
  - injection Hs as <-. destruct Hst as [Hst Hz]. rewrite Hst in *. split; cbn; rewrite ?Hst; try done.
  - destruct (Nat.ltb_spec n JOBS) as [Hn|Hn].
    + unfold thpool_add_work in Hs. destruct ok.
      * destruct (pool s) as [p|] eqn:Hpool; [|done]. cbn in Hs. injection Hs as <-. split; cbn; try done.
        -- by apply pool_jobs_submit.
        -- rewrite length_app. cbn. lia.
        -- intros k [Hk|[_ Hk]]%lookup_app_Some Hall; [|by apply list_lookup_singleton_Some in Hk as [_ ?]].
           apply (Hlo k Hk). intros i j Hij. apply (Hall i j). by apply lookup_app_l_Some.
        -- apply bounds_add; [lia|done].
      * injection Hs as <-. split; cbn; try done. lia.
    + injection Hs as <-. split; cbn; try done. lia.
  - unfold thpool_wait in Hs. destruct (pool s) as [p|] eqn:Hpool.
    + destruct (all_done p) eqn:Hd; [|done]. injection Hs as <-. split; cbn; rewrite ?Hpool; try done.
      intros _ i j. by apply (all_done_jobs p).
    + injection Hs as <-. split; cbn; rewrite ?Hpool; try done. intros _ i j. by rewrite Hp.
Qed.

Lemma inv_increment i s s' : inv s → main_at s ≠ M_end → increment i s = Next s' → inv s'.
Proof.
  intros HI Hm Hs. pose proof HI as [Hp Hst Hl He Hlo Hb]. unfold increment in Hs.
  destruct (jobs s !! i) as [j|] eqn:Hi; [|done].
  assert (Hpool : ∀ j', is_active j = true → is_active j' = true →
    match pool s with Some p => pool_jobs p (<[i := j']> (jobs s)) | None => False end).
  { intros j' Ha Ha'. destruct (pool s) as [p|]; [by eapply pool_jobs_active|]. by rewrite Hp in Hi. }
  destruct j; try done.
  - destruct (number s <? LIMIT) eqn:Hv; zbool.
    + injection Hs as <-. apply (inv_job s i _ J_load _ _ HI Hi Hm); try done; [by apply Hpool|by right|]. by apply bounds_test.
    + destruct (pool s) as [p|] eqn:Hps; [|done]. cbn in Hs. destruct (finish i p) as [p'|] eqn:Hf; [|done].
      injection Hs as <-.
      apply (inv_job s i _ J_done (Some p') _ HI Hi Hm); try done; [by eapply pool_jobs_finish|by left|]. by eapply bounds_quiet.
  - injection Hs as <-. apply (inv_job s i _ (J_store (number s)) _ _ HI Hi Hm); try done; [by apply Hpool|by right|]. by apply bounds_load.
  - case_decide; [|done]. injection Hs as <-.
    apply (inv_job s i _ J_log _ (x + 1) HI Hi Hm); try done; [by apply Hpool|by right|]. by eapply bounds_store.
  - injection Hs as <-. apply (inv_job s i _ J_test _ _ HI Hi Hm); try done; [by apply Hpool|by right|]. by eapply bounds_quiet.
Qed.

Lemma test_inv_step l s s' : inv s → step l s = Next s' → inv s'.
Proof.
  intros HI Hs. unfold step in Hs. case_bool_decide as Hm; [done|]. destruct l as [ok| |i].
  - by eapply test_inv_main.
  - unfold take_job in Hs. pose proof HI as [Hp Hst Hl He Hlo Hb].
    destruct (pool s) as [p|]; [|done]. cbn in Hs. destruct (start WORKERS p) as [[i p']|] eqn:Hp'; [|done].
    injection Hs as <-. destruct (pool_jobs_start p p' _ i Hp' Hp) as [Hpj Hi].
    apply (inv_job s i _ J_test (Some p') _ HI Hi Hm); try done; [by right|]. by eapply bounds_quiet.
  - by eapply inv_increment.
Qed.

Lemma test_inv_reachable s : reachable_state s → inv s.
Proof.
  apply invariant_reachable; [|intros l s1 s2 _; apply test_inv_step].
  intros ? ->. split; cbn; try done; [unfold JOBS; lia|]. split; cbn; try done; unfold JOBS, LIMIT; lia.
Qed.

(** C11: the three jobs of the test race for one counter without a lock, and still the counter
    stays in bounds: it never exceeds 2001, no increment overflows, and when main has waited for
    the pool and returns after at least one job was accepted, every accepted job has returned and
    the counter is at least the limit 1000.  Both bounds are reached: one job after the other
    leaves 1000, and there is a schedule of three accepted jobs that leaves 2001. *)
Theorem thpool_test_range :
  (∀ s, reachable_state s → number s <= 2 * LIMIT + 1 ∧ ∀ i, increment i s ≠ Wrong SignedOverflow) ∧
  (∀ s, reachable_state s → main_at s = M_end → jobs s ≠ [] →
     LIMIT <= number s ∧ Forall (λ j, j = J_done) (jobs s)) ∧
  (∃ ls s, run step ls state0 = Next s ∧ main_at s = M_end ∧ length (jobs s) = JOBS ∧ number s = LIMIT) ∧
  (∃ ls s, run step ls state0 = Next s ∧ main_at s = M_end ∧ length (jobs s) = JOBS ∧ number s = 2 * LIMIT + 1).
Proof.
  split_and!.
  - intros s [_ _ _ _ _ B]%test_inv_reachable. pose proof (b_number _ _ B). pose proof (n_load_nonneg (jobs s)). split; [lia|].
    intros i. unfold increment. destruct (jobs s !! i) as [[]|] eqn:Hi; try done; repeat case_match; try done.
    pose proof (b_store _ _ B i x Hi). pose proof (proj2 (b_nonneg _ _ B) i x Hi).
    exfalso. match goal with H : ¬ is_int _ |- _ => apply H end. unfold LIMIT in *. int_unfold. lia.
  - intros s [_ _ _ He Hlo _]%test_inv_reachable Hm Hj. specialize (He Hm). split.
    + destruct (jobs s) as [|j js] eqn:Hjs; [done|]. apply (Hlo 0%nat); [|intros i k Hk; by rewrite (He i k Hk)].
      cbn. f_equal. by apply (He 0%nat).
    + apply Forall_forall. intros j [i Hi]%list_elem_of_lookup. by eapply He.
  - exists in_turn, (state_after in_turn). split_and!; vm_compute; reflexivity.
  - exists far, (state_after far). split_and!; vm_compute; reflexivity.
Qed.

(** The schedule that goes far, inside of the bounds. *)
Lemma thpool_test_range_witness :
  length (jobs (state_after far)) = JOBS ∧ LIMIT <= number (state_after far) <= 2 * LIMIT + 1.
Proof.
  assert (Hr : reachable_state (state_after far)).
  { apply (run_reachable _ step far state0); [by apply reachable_init|]. vm_compute. reflexivity. }
  destruct thpool_test_range as (Hhigh & Hlow & _).
  split; [vm_compute; reflexivity|]. split; [|by apply Hhigh].
  apply Hlow; [done|vm_compute; reflexivity|vm_compute; discriminate].
Defined.
