(* ===== verification/PoolTestEnds.v ===== *)
(** * The racing jobs end: common/thpool_test.c

    Stores of outdated values throw the counter of [PoolTest] back, but not for ever: the
    pending stores below the counter, in order, with the counter behind them, grow in the
    lexicographic order with every store. *)

From Stdlib Require Import ZifyBool.
From stdpp Require Import sorting.
From S2P Require Import Prelude CInt TransSys ThpoolSpec PoolTest.

Open Scope Z_scope.

(** ** Sorted lists *)

Definition sorted (l : list Z) : list Z := merge_sort Z.le l.

Lemma sorted_eq l k : StronglySorted Z.le k → l ≡ₚ k → sorted l = k.
Proof.
  intros Hk Hp. apply (StronglySorted_unique Z.le); [apply (StronglySorted_merge_sort Z.le)|done|].
  unfold sorted. by rewrite (merge_sort_Permutation Z.le).
Qed.

Lemma sorted_perm l k : l ≡ₚ k → sorted l = sorted k.
Proof.
  intros H. apply sorted_eq; [apply (StronglySorted_merge_sort Z.le)|]. unfold sorted. by rewrite H, (merge_sort_Permutation Z.le).
Qed.

Lemma elem_of_sorted x l : x ∈ sorted l ↔ x ∈ l.
Proof. unfold sorted. by rewrite (merge_sort_Permutation Z.le). Qed.

Lemma sorted_app l k : (∀ x y, x ∈ l → y ∈ k → x <= y) → sorted (l ++ k) = sorted l ++ sorted k.
Proof.
  intros H. apply sorted_eq.
  - apply StronglySorted_app. split_and!; try apply (StronglySorted_merge_sort Z.le).
    intros x y Hx Hy. rewrite elem_of_sorted in Hx. rewrite elem_of_sorted in Hy. by apply H.
  - unfold sorted. by rewrite !(merge_sort_Permutation Z.le).
Qed.

(** ** Lexicographic progress *)

(** [l] is a proper beginning of [k], or smaller at the first difference. *)
Definition lex_lt (l k : list Z) : Prop :=
  ∃ p b k', k = p ++ b :: k' ∧ (l = p ∨ ∃ a l', l = p ++ a :: l' ∧ a < b).

Definition BASE : Z := 2 * LIMIT + 3.

(** Up to [n] digits, shifted by one, most significant first. *)
Fixpoint code (n : nat) (l : list Z) : Z :=
  match n, l with
  | S n, x :: l => (x + 1) * BASE ^ Z.of_nat n + code n l
  | _, _ => 0
  end.

Definition in_range (x : Z) : Prop := 0 <= x <= 2 * LIMIT + 1.

Lemma code_range n l : Forall in_range l → 0 <= code n l < BASE ^ Z.of_nat n.
Proof.
  revert l. induction n as [|n IH]; intros l Hl; [cbn; lia|].
  destruct l as [|x l]; cbn [code]; [split; [done|]; apply Z.pow_pos_nonneg; unfold BASE, LIMIT; lia|].
  apply Forall_cons in Hl as [Hx Hl]. specialize (IH l Hl). rewrite Nat2Z.inj_succ, Z.pow_succ_r by lia.
  unfold in_range in Hx. assert (x + 1 <= BASE - 1) by (unfold BASE; lia). nia.
Qed.

Lemma code_lex n l k : Forall in_range l → Forall in_range k → (length k <= n)%nat → lex_lt l k → code n l < code n k.
Proof.
  intros Hl Hk Hn (p & b & k' & -> & Hlk). revert n l Hl Hk Hn Hlk.
  induction p as [|c p IH]; intros n l Hl Hk Hn Hlk.
  - cbn in Hn. destruct n as [|n]; [lia|]. apply Forall_cons in Hk as [Hb Hk]. cbn [code app].
    pose proof (code_range n k' Hk). unfold in_range in Hb.
    assert (0 < BASE ^ Z.of_nat n) by (apply Z.pow_pos_nonneg; unfold BASE, LIMIT; lia).
    destruct Hlk as [->|(a & l' & -> & Hab)]; cbn [code app]; [nia|].
    cbn in Hl. apply Forall_cons in Hl as [Ha Hl]. pose proof (code_range n l' Hl).
    set (P := BASE ^ Z.of_nat n) in *. assert ((a + 2) * P <= (b + 1) * P) by (apply Z.mul_le_mono_nonneg_r; lia). lia.
  - cbn [length app] in Hn. destruct n as [|n]; [lia|]. cbn [app] in Hk. apply Forall_cons in Hk as [_ Hk].
    assert (∃ l', l = c :: l' ∧ (l' = p ∨ ∃ a l'', l' = p ++ a :: l'' ∧ a < b)) as (l' & -> & Hl').
    { destruct Hlk as [->|(a & l' & -> & Hab)]; eexists; (split; [reflexivity|]); eauto. }
    apply Forall_cons in Hl as [_ Hl]. cbn [app code]. apply Z.add_lt_mono_l. apply IH; [done..|lia|done].
Qed.

(** ** The pending stores *)

Definition store_of (j : job_pc) : list Z := match j with J_store x => [x] | _ => [] end.
Definition pending (js : list job_pc) : list Z := collect store_of js.

(** The pending stores below the number, and the number. *)
Definition key (v : Z) (ps : list Z) : list Z := sorted (filter (λ x, x < v) ps) ++ [v].

Lemma key_perm v ps qs : ps ≡ₚ qs → key v ps = key v qs.
Proof. intros H. unfold key. f_equal. apply sorted_perm. by rewrite H. Qed.

(** A load adds the number itself, which does not count. *)
Lemma key_load v ps : key v (v :: ps) = key v ps.
Proof. unfold key. by rewrite filter_cons_False by lia. Qed.

Lemma filter_split (P Q R : Z → Prop) `{∀ x, Decision (P x), ∀ x, Decision (Q x), ∀ x, Decision (R x)} l :
  (∀ x, P x ↔ Q x ∨ R x) → (∀ x, Q x → R x → False) → filter P l ≡ₚ filter Q l ++ filter R l.
Proof.
  intros HP HD. induction l as [|x l IH]; [done|]. rewrite !filter_cons. specialize (HP x). specialize (HD x).
  repeat case_decide; try tauto; [by rewrite IH|]. rewrite IH. apply Permutation_middle.
Qed.

Lemma key_store v x qs : lex_lt (key v (x :: qs)) (key (x + 1) qs).
Proof.
  unfold key. destruct (decide (x < v)) as [Hv|Hv].
  - exists (sorted (filter (λ y, y < x + 1) qs)), (x + 1), []. split; [done|]. right.
    exists x, (sorted (filter (λ y, x + 1 <= y ∧ y < v) qs) ++ [v]). split; [|lia].
    rewrite filter_cons_True by done. rewrite app_comm_cons, app_assoc. f_equal.
    transitivity (sorted (filter (λ y, y < x + 1) qs ++ [x] ++ filter (λ y, x + 1 <= y ∧ y < v) qs)).
    + apply sorted_perm. rewrite (filter_split (λ y, y < v) (λ y, y < x + 1) (λ y, x + 1 <= y ∧ y < v)) by lia.
      by rewrite Permutation_middle.
    + rewrite !sorted_app; [done|..].
      * intros a b ->%list_elem_of_singleton [? _]%list_elem_of_filter. lia.
      * intros a b [? _]%list_elem_of_filter [->%list_elem_of_singleton|[? _]%list_elem_of_filter]%elem_of_app; lia.
  - rewrite filter_cons_False by lia.
    assert (Hs : sorted (filter (λ y, y < x + 1) qs)
      = sorted (filter (λ y, y < v) qs) ++ sorted (filter (λ y, v <= y ∧ y < x + 1) qs)).
    { rewrite <- sorted_app.
      - apply sorted_perm, filter_split; lia.
      - intros a b [? _]%list_elem_of_filter [? _]%list_elem_of_filter. lia. }
    rewrite Hs, <- app_assoc. clear Hs. set (q := sorted (filter (λ y, y < v) qs)).
    destruct (sorted (filter (λ y, v <= y ∧ y < x + 1) qs)) as [|r rs] eqn:Hr.
    + exists q, (x + 1), []. split; [done|]. right. exists v, []. split; [done|lia].
    + assert (v <= r).
      { assert (Hin : r ∈ sorted (filter (λ y, v <= y ∧ y < x + 1) qs)) by (rewrite Hr; by left).
        rewrite elem_of_sorted in Hin. apply list_elem_of_filter in Hin as [[? _] _]. done. }
      destruct (decide (v = r)) as [->|].
      * exists (q ++ [r]). destruct rs as [|r' rs]; eexists _, _; (split; [by rewrite <- app_assoc|by left]).
      * exists q, r, (rs ++ [x + 1]). split; [done|]. right. exists v, []. split; [done|lia].
Qed.

(** ** The measure *)

Definition job_left (j : job_pc) : Z :=
  match j with J_queued => 5 | J_log => 4 | J_test => 3 | J_load => 2 | J_store _ => 1 | J_done => 0 end.

Definition main_left (m : main_pc) : Z :=
  match m with M_init => 4 | M_handle => 3 | M_add _ => 2 | M_wait => 1 | M_end => 0 end.

(** What is left besides the stores: to accept, to take and to run. *)
Definition rest (s : state) : Z :=
  tsum job_left (jobs s) + 7 * (Z.of_nat JOBS - Z.of_nat (adds (main_at s))) + main_left (main_at s).

Definition key_of (s : state) : list Z := key (number s) (pending (jobs s)).

Definition measure (s : state) : Z := 4 * (BASE ^ 4 - code 4 (key_of s)) + rest s.

Lemma pending_elem js x : x ∈ pending js → ∃ i, js !! i = Some (J_store x).
Proof.
  intros (l & Hx & (j & -> & Hj)%list_elem_of_fmap)%list_elem_of_join. apply list_elem_of_lookup in Hj as [i Hi]. exists i.
  destruct j; cbn in Hx; try by apply elem_of_nil in Hx. by apply list_elem_of_singleton in Hx as ->.
Qed.

Lemma length_pending js : (length (pending js) <= length js)%nat.
Proof.
  induction js as [|j js IH]; [done|]. change (pending (j :: js)) with (store_of j ++ pending js).
  rewrite length_app. cbn [length]. destruct j; cbn [store_of length]; lia.
Qed.

Lemma key_ok s : inv s → Forall in_range (key_of s) ∧ (length (key_of s) <= 4)%nat.
Proof.
  intros [_ _ _ _ _ B]. unfold key_of, key. pose proof (n_load_nonneg (jobs s)). split.
  - apply Forall_app. split.
    + apply Forall_forall. intros x Hx. rewrite elem_of_sorted in Hx.
      apply list_elem_of_filter in Hx as [_ (i & Hi)%pending_elem].
      pose proof (b_store _ _ B i x Hi). pose proof (proj2 (b_nonneg _ _ B) i x Hi). unfold in_range. lia.
    + apply Forall_singleton. pose proof (b_number _ _ B). pose proof (proj1 (b_nonneg _ _ B)). unfold in_range. lia.
  - rewrite length_app. cbn. unfold sorted. rewrite (Permutation_length (merge_sort_Permutation Z.le _)).
    pose proof (length_filter (λ x, x < number s) (pending (jobs s))). pose proof (length_pending (jobs s)).
    pose proof (b_len _ _ B). unfold JOBS in *. lia.
Qed.

(** A job that moves without a store keeps the key. *)
Lemma key_quiet v js i j j' : js !! i = Some j → store_of j = store_of j' → key v (pending (<[i := j']> js)) = key v (pending js).
Proof. intros Hi Hj. unfold pending. by rewrite (collect_insert_same _ _ _ _ _ Hi (eq_sym Hj)). Qed.

Lemma key_loaded v js i : js !! i = Some J_load → key v (pending (<[i := J_store v]> js)) = key v (pending js).
Proof.
  intros Hi. rewrite <- (key_load v (pending js)). apply key_perm. unfold pending.
  pose proof (collect_insert store_of js i _ (J_store v) Hi) as H. cbn [store_of] in H.
  rewrite app_nil_r in H. rewrite H. apply Permutation_app_comm.
Qed.

Lemma key_stored v js i x :
  js !! i = Some (J_store x) → lex_lt (key v (pending js)) (key (x + 1) (pending (<[i := J_log]> js))).
Proof.
  intros Hi. pose proof (collect_insert store_of js i _ J_log Hi) as H. cbn [store_of] in H. rewrite app_nil_r in H.
  unfold pending. rewrite <- (key_perm v _ _ H), (key_perm v _ _ (Permutation_app_comm _ _)). apply key_store.
Qed.

Lemma rest_job s i j j' p v :
  jobs s !! i = Some j →
  rest (mk_state (main_at s) p (<[i := j']> (jobs s)) v) = rest s - job_left j + job_left j'.
Proof. intros Hi. unfold rest. cbn [main_at jobs]. rewrite (tsum_insert _ _ _ _ _ Hi). lia. Qed.

Lemma measure_increment i s s' : inv s → increment i s = Next s' → inv s' → measure s' < measure s.
Proof.
  intros HI Hs HI'. destruct (key_ok s HI) as [Hr Hl], (key_ok s' HI') as [Hr' Hl'].
  unfold increment in Hs. destruct (jobs s !! i) as [j|] eqn:Hi; [|done]. unfold measure.
  destruct j; try done.
  - destruct (number s <? LIMIT).
    + injection Hs as <-. unfold set_job, set_jobs. rewrite (rest_job s i _ _ _ _ Hi).
      unfold key_of. cbn [number jobs job_left]. rewrite (key_quiet _ _ i J_test J_load) by done. lia.
    + destruct (pool s ≫= finish i); [|done]. injection Hs as <-.
      unfold set_job, set_jobs, set_pool. cbn [main_at pool jobs number]. rewrite (rest_job s i _ _ _ _ Hi).
      unfold key_of. cbn [number jobs job_left]. rewrite (key_quiet _ _ i J_test J_done) by done. lia.
  - injection Hs as <-. unfold set_job, set_jobs. rewrite (rest_job s i _ _ _ _ Hi).
    unfold key_of. cbn [number jobs job_left]. rewrite key_loaded by done. lia.
  - case_decide; [|done]. injection Hs as <-. pose proof (key_stored (number s) _ i x Hi) as Hlex.
    unfold set_job, set_jobs, set_number in *. cbn [main_at pool jobs number] in *. rewrite (rest_job s i _ _ _ _ Hi).
    pose proof (code_lex 4 _ _ Hr Hr' Hl' Hlex) as Hc. unfold key_of in *. cbn [number jobs job_left] in *. lia.
  - injection Hs as <-. unfold set_job, set_jobs. rewrite (rest_job s i _ _ _ _ Hi).
    unfold key_of. cbn [number jobs job_left]. rewrite (key_quiet _ _ i J_log J_test) by done. lia.
Qed.

Lemma measure_main ok s s' : inv s → main_step ok s = Next s' → measure s' < measure s.
Proof.
  intros [_ Hst [Hl Hl'] _ _ _] Hs. unfold main_step in Hs. unfold measure, rest, key_of.
  destruct (main_at s) as [| |n| |] eqn:Hm; cbn in Hst, Hl, Hl'; try done.
  - injection Hs as <-. destruct Hst as [Hj Hz]. unfold set_main, thpool_init, set_pool. cbn [main_at jobs number]. rewrite Hj. cbn. lia.
  - injection Hs as <-. destruct Hst as [Hj Hz]. unfold set_main, set_number. cbn [main_at jobs number]. rewrite Hj, Hz. cbn. lia.
  - destruct (Nat.ltb_spec n JOBS) as [Hn|Hn].
    + unfold thpool_add_work in Hs. destruct ok.
      * destruct (pool s); [|done]. injection Hs as <-. unfold set_main, set_jobs, set_pool. cbn [main_at jobs number].
        unfold pending. rewrite collect_app, app_nil_r, tsum_app. cbn [adds main_left tsum foldr job_left]. lia.
      * injection Hs as <-. unfold set_main. cbn [main_at jobs number adds main_left]. lia.
    + injection Hs as <-. unfold set_main. cbn [main_at jobs number adds main_left]. lia.
  - destruct (thpool_wait s); [|done..]. injection Hs as <-. unfold set_main. cbn [main_at jobs number adds main_left]. lia.
Qed.

Lemma measure_step l s s' : inv s → step l s = Next s' → inv s' ∧ measure s' < measure s.
Proof.
  intros HI Hs. assert (HI' : inv s') by by eapply test_inv_step. split; [done|].
  unfold step in Hs. case_bool_decide; [done|]. destruct l as [ok| |i].
  - by eapply measure_main.
  - unfold take_job in Hs. destruct (pool s) as [p|] eqn:Hp; [|done]. cbn in Hs.
    destruct (start WORKERS p) as [[i p']|] eqn:Hstart; [|done]. injection Hs as <-.
    pose proof (v_pool s HI) as Hpj. rewrite Hp in Hpj. destruct (pool_jobs_start p p' _ i Hstart Hpj) as [_ Hi].
    unfold measure, set_job, set_jobs, set_pool. cbn [main_at pool jobs number]. rewrite (rest_job s i _ _ _ _ Hi).
    unfold key_of. cbn [number jobs]. rewrite (key_quiet _ _ i J_queued J_test) by done. cbn [job_left]. lia.
  - by eapply measure_increment.
Qed.

Lemma measure_nonneg s : inv s → 0 <= measure s.
Proof.
  intros HI. destruct (key_ok s HI) as [Hr _]. pose proof (code_range 4 _ Hr) as [_ Hc]. change (Z.of_nat 4) with 4 in Hc.
  pose proof (proj2 (v_len s HI)). unfold measure, rest.
  assert (0 <= tsum job_left (jobs s)) by (apply tsum_nonneg; intros []; cbn; lia).
  assert (0 <= main_left (main_at s)) by (destruct (main_at s); cbn; lia). lia.
Qed.

Lemma run_measure ls s s' : inv s → run step ls s = Next s' → Z.of_nat (length ls) <= measure s.
Proof.
  revert s. induction ls as [|l ls IH]; intros s HI H.
  - cbn. by apply measure_nonneg.
  - rewrite run_cons in H. destruct (step l s) as [s1| |] eqn:Hl; [|done..].
    destruct (measure_step l s s1 HI Hl) as [HI1 Hm]. specialize (IH s1 HI1 H). cbn [length]. lia.
Qed.

(** ** What remains possible *)

(** A job in its hand lets the pool go on. *)
Lemma active_moves s p i j :
  inv s → pool s = Some p → main_at s ≠ M_end → jobs s !! i = Some j → is_active j = true →
  ∃ s', step (Job i) s = Next s'.
Proof.
  intros HI Hp Hm Hi Ha. pose proof (v_pool s HI) as Hpj. rewrite Hp in Hpj. pose proof (v_bounds s HI) as B.
  unfold step. rewrite bool_decide_false by done. unfold increment. rewrite Hi. destruct j; try done; try by eexists.
  - destruct (number s <? LIMIT); [by eexists|]. rewrite Hp. cbn.
    pose proof (elem_active p _ i _ Hpj Hi Ha) as Hin. unfold finish.
    apply elem_of_Permutation in Hin as [k Hk]. destruct (take_out_perm i _ _ Hk) as (k' & _ & ->). by eexists.
  - rewrite decide_True; [by eexists|]. pose proof (b_store _ _ B i x Hi). pose proof (proj2 (b_nonneg _ _ B) i x Hi).
    pose proof (n_load_nonneg (jobs s)). unfold LIMIT in *. int_unfold. lia.
Qed.

Lemma wait_moves s p :
  inv s → pool s = Some p → main_at s = M_wait → ∃ l s', l ≠ Main false ∧ step l s = Next s'.
Proof.
  intros HI Hp Hm. pose proof (v_pool s HI) as Hpj. rewrite Hp in Hpj.
  destruct (all_done p) eqn:Hd.
  - eexists (Main true), _. split; [done|]. unfold step. rewrite bool_decide_false by by rewrite Hm.
    unfold main_step, thpool_wait. by rewrite Hm, Hp, Hd.
  - destruct (in_hand p) as [|i hand] eqn:Hh.
    + destruct (queue p) as [|i qu] eqn:Hq; [unfold all_done in Hd; by rewrite Hq, Hh in Hd|].
      eexists Take, _. split; [done|]. unfold step. rewrite bool_decide_false by by rewrite Hm.
      unfold take_job, start. rewrite Hp. cbn. rewrite Hq, Hh. reflexivity.
    + assert (i ∈ in_hand p) as (j & Hi & Ha)%(p_hand _ _ Hpj) by (rewrite Hh; by left).
      destruct (active_moves s p i j HI Hp) as [s' Hs']; [by rewrite Hm|done..|]. by exists (Job i), s'.
Qed.

(** C12: the race of the jobs ends under every schedule.  No run has more than 4 * 2003^4 + 25
    steps, whatever is granted; unless thpool_init has returned NULL, whose use by
    thpool_add_work is the only undefined step, some granted step is always possible until main
    returns. *)
Theorem thpool_test_ends :
  (∀ ls s, run step ls state0 = Next s → Z.of_nat (length ls) <= 4 * 2003 ^ 4 + 25) ∧
  (∀ s, reachable_state s → main_at s ≠ M_end →
     (∃ l s', l ≠ Main false ∧ step l s = Next s') ∨ pool s = None ∧ step (Main true) s = Wrong NullDeref) ∧
  (∀ s l u, reachable_state s → step l s = Wrong u → u = NullDeref ∧ pool s = None).
Proof.
  split_and!.
  - intros ls s Hrun. assert (HI : inv state0) by by apply test_inv_reachable, reachable_init.
    pose proof (run_measure ls state0 s HI Hrun) as Hm.
    assert (measure state0 <= 4 * 2003 ^ 4 + 25) by (vm_compute; discriminate). lia.
  - intros s HI%test_inv_reachable Hm. destruct (main_at s) as [| |n| |] eqn:Hma; try done.
    1-2: left; eexists (Main true), _; (split; [done|]); unfold step;
      rewrite bool_decide_false by (by rewrite Hma); unfold main_step; by rewrite Hma.
    + unfold step. rewrite bool_decide_false by (by rewrite Hma). unfold main_step. rewrite Hma.
      destruct (n <? JOBS)%nat eqn:Hn.
      * destruct (pool s) as [p|] eqn:Hp; [left; eexists (Main true), _|right].
        -- split; [done|]. unfold thpool_add_work. by rewrite Hp.
        -- unfold thpool_add_work. by rewrite Hp.
      * left. eexists (Main true), _. by split.
    + destruct (pool s) as [p|] eqn:Hp; [left; by apply (wait_moves s p)|]. left. eexists (Main true), _. split; [done|].
      unfold step. rewrite bool_decide_false by (by rewrite Hma). unfold main_step, thpool_wait. by rewrite Hma, Hp.
  - intros s l u Hr Hs. unfold step in Hs. case_bool_decide as Hm; [done|]. destruct l as [ok| |i].
    + unfold main_step in Hs. destruct (main_at s); try done.
      * destruct (n <? JOBS)%nat; [|done]. unfold thpool_add_work in Hs. destruct ok; [|done].
        destruct (pool s); [done|]. by injection Hs as <-.
      * unfold thpool_wait in Hs. destruct (pool s) as [p|]; [|done]. by destruct (all_done p).
    + unfold take_job in Hs. by destruct (pool s ≫= start WORKERS) as [[]|].
    + exfalso. assert (u = SignedOverflow ∧ increment i s = Wrong SignedOverflow) as [_ Hi].
      { split; [|]; unfold increment in *; repeat case_match; simplify_eq; done. }
      pose proof (test_inv_reachable s Hr) as HI. unfold increment in Hi. destruct (jobs s !! i) as [[]|] eqn:Hj; try done;
        repeat case_match; try done.
      pose proof (b_store _ _ (v_bounds s HI) i x Hj). pose proof (proj2 (b_nonneg _ _ (v_bounds s HI)) i x Hj).
      pose proof (n_load_nonneg (jobs s)). match goal with H : ¬ is_int _ |- _ => apply H end. unfold LIMIT in *. int_unfold. lia.
Qed.

(** The schedule that goes far, within the bound. *)
Lemma thpool_test_ends_witness :
  (10000 <? Z.of_nat (length far)) = true ∧ Z.of_nat (length far) <= 4 * 2003 ^ 4 + 25.
Proof.
  split; [vm_compute; reflexivity|].
  refine (proj1 thpool_test_ends far (state_after far) _). vm_compute. reflexivity.
Defined.
