(* ===== verification/Threads.v ===== *)
(** * Programs of threads that run one code

    What the small multithreaded programs of the repository share.  A program gives the step
    of one thread as a function of its control point and the shared memory ([Threads]); here
    are the system it makes, the effect of a step on sums over the threads, POSIX semaphores,
    and the argument that a bounded number of steps leads to a state where nothing moves. *)

From S2P Require Import Prelude CInt TransSys.

Open Scope Z_scope.

(** ** Semaphores *)

(** The value of a semaphore, [None] once it is destroyed. *)
Definition sem : Type := option Z.

Definition SEM_VALUE_MAX : Z := INT_MAX.

Definition sem_wait (m : sem) : sres sem :=
  match m with
  | None => Wrong Destroyed
  | Some v => if v =? 0 then Blocked else Next (Some (v - 1))
  end.

(** At the maximal value sem_post fails and leaves the semaphore alone. *)
Definition sem_post (m : sem) : sres sem :=
  match m with
  | None => Wrong Destroyed
  | Some v => Next (Some (if v =? SEM_VALUE_MAX then v else v + 1))
  end.

(** ** Systems of threads *)

(** A step of a thread at [p]: its next control point, the new memory, and the threads it
    creates.  [ended] of the first thread's control point: main has returned, the process is
    no more. *)
Class Threads (C P G : Type) := {
  exec : C → P → G → sres (P * G * list P);
  ended : P → bool;
}.

Record tsys (P G : Type) := mk_tsys {
  pcs : list P;
  shared : G;
}.
Arguments mk_tsys {P G} pcs shared.
Arguments pcs {P G} t.
Arguments shared {P G} t.

Section threads.
Context {C P G : Type} `{!Threads C P G}.
Implicit Types (s : tsys P G) (b : P → bool) (f : P → Z).

Definition process_over s : bool :=
  match pcs s !! 0%nat with Some p => ended p | None => false end.

(** Thread [fst l] moves; [snd l] are the answers of the environment. *)
Definition tstep (l : nat * C) (s : tsys P G) : sres (tsys P G) :=
  if process_over s then Blocked
  else
    match pcs s !! fst l with
    | Some p =>
        '(p', g', new) ← exec (snd l) p (shared s);
        Next (mk_tsys (<[fst l := p']> (pcs s) ++ new) g')
    | None => Blocked
    end.

(** Sums over the threads, and the number of threads in a part of the code. *)
Definition tot f s : Z := tsum f (pcs s).
Definition num b s : Z := tot (λ p, Z.b2z (b p)) s.

Lemma num_nonneg b s : 0 <= num b s.
Proof. apply tsum_nonneg. intros p. by destruct (b p). Qed.

Lemma tot_nonneg f s : (∀ p, 0 <= f p) → 0 <= tot f s.
Proof. apply tsum_nonneg. Qed.

Lemma num_ge b s i p : pcs s !! i = Some p → Z.b2z (b p) <= num b s.
Proof. intros H. apply (tsum_ge (λ p, Z.b2z (b p)) _ i); [|done]. intros q. by destruct (b q). Qed.

Lemma num_ge2 b s i j p q :
  i ≠ j → pcs s !! i = Some p → pcs s !! j = Some q → Z.b2z (b p) + Z.b2z (b q) <= num b s.
Proof. intros Hij Hp Hq. apply (tsum_ge2 (λ p, Z.b2z (b p)) _ i j); [|done..]. intros r. by destruct (b r). Qed.

Lemma num_none b s i p : num b s = 0 → pcs s !! i = Some p → b p = false.
Proof. intros H0 Hp. pose proof (num_ge b s i p Hp) as H. destruct (b p); [cbn in H; lia|done]. Qed.

Lemma num_pos b s : 0 < num b s → ∃ i p, pcs s !! i = Some p ∧ b p = true.
Proof.
  intros H. destruct (tsum_pos _ _ H) as (i & p & Hp & Hb). exists i, p. split; [done|].
  by destruct (b p).
Qed.

Lemma num_zero b s : (∀ i p, pcs s !! i = Some p → b p = false) → num b s = 0.
Proof.
  intros H. pose proof (num_nonneg b s). destruct (decide (0 < num b s)) as [Hp|]; [|lia].
  apply num_pos in Hp as (i & p & Hp & Hb). by rewrite (H i p Hp) in Hb.
Qed.

(** A linear relation between two sums that holds at each control point. *)
Lemma tot_le f g s : (∀ p, f p <= g p) → tot f s <= tot g s.
Proof. intros H. unfold tot. induction (pcs s) as [|p ps IH]; [done|]. rewrite !tsum_cons. specialize (H p). lia. Qed.

Lemma tot_plus f g s : tot (λ p, f p + g p) s = tot f s + tot g s.
Proof. unfold tot. induction (pcs s) as [|p ps IH]; [done|]. rewrite !tsum_cons. lia. Qed.

Lemma num_le b b' s : (∀ p, Z.b2z (b p) <= Z.b2z (b' p)) → num b s <= num b' s.
Proof. apply (tot_le (λ p, Z.b2z (b p)) (λ p, Z.b2z (b' p))). Qed.

Lemma num_plus_le b b' b'' s :
  (∀ p, Z.b2z (b p) + Z.b2z (b' p) <= Z.b2z (b'' p)) → num b s + num b' s <= num b'' s.
Proof. intros H. unfold num. rewrite <- tot_plus. by apply tot_le. Qed.

(** What a step is: one thread's code, and what that does to every sum. *)
Lemma tstep_inv l s s' :
  tstep l s = Next s' →
  process_over s = false ∧
  ∃ p p' new, pcs s !! fst l = Some p ∧ exec (snd l) p (shared s) = Next (p', shared s', new) ∧
    pcs s' = <[fst l := p']> (pcs s) ++ new ∧
    (∀ f, tot f s' = tot f s - f p + f p' + tsum f new) ∧
    (∀ b, num b s' = num b s - Z.b2z (b p) + Z.b2z (b p') + tsum (λ p, Z.b2z (b p)) new).
Proof.
  unfold tstep. destruct (process_over s) eqn:Ho; [done|].
  destruct (pcs s !! fst l) as [p|] eqn:Hp; [|done].
  destruct (exec (snd l) p (shared s)) as [[[p' g'] new]| |] eqn:He; [|done..]. cbn. intros. simplify_eq.
  assert (Hf : ∀ f, tot f (mk_tsys (<[fst l := p']> (pcs s) ++ new) g') = tot f s - f p + f p' + tsum f new).
  { intros f. unfold tot. cbn [pcs]. rewrite tsum_app, (tsum_insert f (pcs s) _ p) by done. lia. }
  split; [done|]. exists p, p', new. split_and!; try done. intros b. by apply Hf.
Qed.

(** A thread that is not the one that moves stays where it is. *)
Lemma tstep_other l s s' j p :
  tstep l s = Next s' → pcs s !! j = Some p → j ≠ fst l → pcs s' !! j = Some p.
Proof.
  intros Hs Hp Hj. apply tstep_inv in Hs as (_ & q & p' & new & _ & _ & -> & _).
  rewrite lookup_app_l; [by rewrite list_lookup_insert_ne|]. rewrite length_insert. by eapply lookup_lt_Some.
Qed.

Lemma tstep_wrong l s u :
  tstep l s = Wrong u →
  process_over s = false ∧ ∃ p, pcs s !! fst l = Some p ∧ exec (snd l) p (shared s) = Wrong u.
Proof.
  unfold tstep. destruct (process_over s); [done|]. destruct (pcs s !! fst l) as [p|]; [|done].
  destruct (exec (snd l) p (shared s)) as [[[p' g'] new]| |v] eqn:He; try done. cbn. intros. simplify_eq.
  split; [done|]. by exists p.
Qed.

(** No thread of the part [b] of the code can move. *)
Definition rests (b : P → bool) (s : tsys P G) : Prop :=
  ∀ l p s', pcs s !! fst l = Some p → b p = true → tstep l s ≠ Next s'.

Lemma rests_blocked b s i p c :
  rests b s → process_over s = false → pcs s !! i = Some p → b p = true →
  (∀ u, exec c p (shared s) ≠ Wrong u) → exec c p (shared s) = Blocked.
Proof.
  intros Hr Ho Hp Hb Hw. destruct (exec c p (shared s)) as [[[p' g'] new]| |u] eqn:He; [|done|by destruct (Hw u)].
  exfalso. apply (Hr (i, c) p (mk_tsys (<[i := p']> (pcs s) ++ new) g') Hp Hb).
  unfold tstep. cbn [fst snd]. by rewrite Ho, Hp, He.
Qed.

End threads.

Arguments tot {P G} f s.
Arguments num {P G} b s.
Arguments process_over : simpl never.

(** Runs of the part [b] of the code only. *)
Definition part_step {C P G} `{!Threads C P G} (b : P → bool) (l : nat * C) (s : tsys P G) : sres (tsys P G) :=
  match pcs s !! fst l with
  | Some p => if b p then tstep l s else Blocked
  | None => Blocked
  end.

Lemma part_step_inv {C P G} `{!Threads C P G} (b : P → bool) (l : nat * C) (s s' : tsys P G) :
  part_step b l s = Next s' → tstep l s = Next s' ∧ ∃ p, pcs s !! fst l = Some p ∧ b p = true.
Proof.
  unfold part_step. destruct (pcs s !! fst l) as [p|] eqn:Hp; [|done]. destruct (b p) eqn:Hb; [|done].
  intros H. split; [done|]. by exists p.
Qed.

Lemma sem_wait_next m m' : sem_wait m = Next m' → ∃ v, m = Some v ∧ v ≠ 0 ∧ m' = Some (v - 1).
Proof.
  unfold sem_wait. destruct m as [v|]; [|done]. destruct (v =? 0) eqn:Hv; [done|]. intros. simplify_eq.
  exists v. split_and!; [done|lia|done].
Qed.

Lemma sem_post_next m m' :
  sem_post m = Next m' → ∃ v, m = Some v ∧ m' = Some (if v =? SEM_VALUE_MAX then v else v + 1).
Proof. unfold sem_post. destruct m as [v|]; [|done]. intros. simplify_eq. by exists v. Qed.

Lemma sem_wait_wrong m u : sem_wait m = Wrong u → m = None ∧ u = Destroyed.
Proof. unfold sem_wait. destruct m; [by case_match|]. intros. by simplify_eq. Qed.

Lemma sem_post_wrong m u : sem_post m = Wrong u → m = None ∧ u = Destroyed.
Proof. unfold sem_post. destruct m; [done|]. intros. by simplify_eq. Qed.
