(* ===== verification/Libc.v ===== *)
(** * Pieces of the C library that several programs use

    [atoi] on the program's arguments and the stream of answers of [rand]. *)

From Stdlib Require Import Ascii String.
From S2P Require Import Prelude CInt TransSys.

Open Scope Z_scope.

(** ** atoi *)

Definition is_space (c : ascii) : bool :=
  let n := N_of_ascii c in ((n =? 32) || ((9 <=? n) && (n <=? 13)))%N.

Definition digit (c : ascii) : option Z :=
  let n := Z.of_N (N_of_ascii c) in if (48 <=? n) && (n <=? 57) then Some (n - 48) else None.

Fixpoint digits (acc : Z) (s : string) : Z :=
  match s with
  | EmptyString => acc
  | String c s => match digit c with Some d => digits (10 * acc + d) s | None => acc end
  end.

Fixpoint skip_space (s : string) : string :=
  match s with
  | String c s' => if is_space c then skip_space s' else s
  | EmptyString => EmptyString
  end.

Definition atoi_value (s : string) : Z :=
  match skip_space s with
  | String c s' =>
      if Ascii.eqb c "-" then - digits 0 s'
      else if Ascii.eqb c "+" then digits 0 s'
      else digits 0 (String c s')
  | EmptyString => 0
  end.

(** The behaviour is undefined when the value is not an [int]. *)
Definition atoi (s : string) : sres Z :=
  if decide (is_int (atoi_value s)) then Next (atoi_value s) else Wrong SignedOverflow.

(** The same in sequential code. *)
Definition atoi_c {S} (s : string) : cM S Z := int_result (atoi_value s).

Lemma atoi_int s z : atoi s = Next z → is_int z.
Proof. unfold atoi. case_decide; intros; by simplify_eq. Qed.

Example atoi_examples :
  atoi " 42x" = Next 42 ∧ atoi "-7" = Next (-7) ∧ atoi "abc" = Next 0 ∧
  atoi "2147483648" = Wrong SignedOverflow.
Proof. by vm_compute. Qed.

(** ** rand *)

(** [rand() % n] for an answer [z] of the environment. *)
Definition rand_mod (z n : Z) : Z := (z mod 2 ^ 31) mod n.

Lemma rand_mod_bound z n : 0 < n → 0 <= rand_mod z n < n.
Proof. intros H. apply Z.mod_pos_bound. lia. Qed.

(** ** malloc *)

(** No object is larger than this. *)
Definition PTRDIFF_MAX : Z := 2 ^ 63 - 1.

(** An array of [z] ints, for an int [z] converted to size_t: only when [z] is not negative. *)
Lemma int_array_granted z :
  is_int z → to_size (to_size z * sizeof_int) <= PTRDIFF_MAX → 0 <= z.
Proof.
  unfold to_size, PTRDIFF_MAX, sizeof_int. int_unfold. intros Hz Hm.
  destruct (decide (0 <= z)); [done|]. exfalso.
  assert (z mod 2 ^ 64 = z + 2 ^ 64) as E by (symmetry; apply (Z.mod_unique _ _ (-1)); lia).
  rewrite E in Hm. assert ((z + 2 ^ 64) * 4 mod 2 ^ 64 = 4 * z + 2 ^ 64) as E2
    by (symmetry; apply (Z.mod_unique _ _ 3); lia). rewrite E2 in Hm. lia.
Qed.
