(* ===== verification/Mpc.v ===== *)
(** * Producers and consumers: Pthread/multiple_producer_consumer.c

    Any number of producers and consumers around one array, with a semaphore as mutex and two
    that count free and filled places, and main, which waits for the last number by polling.
    A semaphore call is a step; what a thread does under the mutex is one step. *)

From Stdlib Require Import String.
From S2P Require Import Prelude CInt TransSys Threads Libc.

Open Scope Z_scope.

(** ** Data *)

(** The array is [None] after it is freed; [dataptr] is an index into it. *)
Record buffer_t := mk_buffer {
  num_gen : Z;
  num_con : Z;
  capacity : Z;
  size : Z;
  data : option (list (option Z));
  dataptr : Z;
  mutex : sem;
  empty : sem;
  full : sem;
}.

Definition set_mutex v b := mk_buffer (num_gen b) (num_con b) (capacity b) (size b) (data b)
  (dataptr b) v (empty b) (full b).
Definition set_empty v b := mk_buffer (num_gen b) (num_con b) (capacity b) (size b) (data b)
  (dataptr b) (mutex b) v (full b).
Definition set_full v b := mk_buffer (num_gen b) (num_con b) (capacity b) (size b) (data b)
  (dataptr b) (mutex b) (empty b) v.
Definition set_data v b := mk_buffer (num_gen b) (num_con b) (capacity b) (size b) v
  (dataptr b) (mutex b) (empty b) (full b).
Definition set_dataptr v b := mk_buffer (num_gen b) (num_con b) (capacity b) (size b) (data b)
  v (mutex b) (empty b) (full b).
Definition set_size v b := mk_buffer (num_gen b) (num_con b) (capacity b) v (data b)
  (dataptr b) (mutex b) (empty b) (full b).
Definition set_num_gen v b := mk_buffer v (num_con b) (capacity b) (size b) (data b)
  (dataptr b) (mutex b) (empty b) (full b).
Definition set_num_con v b := mk_buffer (num_gen b) v (capacity b) (size b) (data b)
  (dataptr b) (mutex b) (empty b) (full b).

(** The global [max_generate], main's locals and the buffer that the threads share; and the
    numbers produced and consumed so far, in order. *)
Record glob := mk_glob {
  max_generate : Z;
  num_producer : Z;
  num_consumer : Z;
  buffer : option buffer_t;
  produced : list Z;
  consumed : list Z;
}.

Definition set_buffer v g :=
  mk_glob (max_generate g) (num_producer g) (num_consumer g) v (produced g) (consumed g).
Definition set_produced v g :=
  mk_glob (max_generate g) (num_producer g) (num_consumer g) (buffer g) v (consumed g).
Definition set_consumed v g :=
  mk_glob (max_generate g) (num_producer g) (num_consumer g) (buffer g) (produced g) v.

(** Control points: [M_] main, [P_] do_produce and [C_] do_consume, [PX_] and [CX_] where they
    leave their loops. *)
Inductive pc :=
  | M_start (argv : list string)
  | M_buffer (capacity : Z)
  | M_producers (i : Z)
  | M_consumers (i : Z)
  | M_wait
  | M_check
  | M_post (finished : bool)
  | M_data (ret : Z)
  | M_mutex (ret : Z)
  | M_empty (ret : Z)
  | M_full (ret : Z)
  | M_end (ret : Z)
  | P_empty
  | P_mutex
  | P_check
  | P_post
  | P_full
  | PX_post
  | PX_full
  | P_exit
  | C_full
  | C_mutex
  | C_check
  | C_post
  | C_empty
  | CX_post
  | CX_empty
  | C_exit.

(** The environment: a call for memory, a file or a thread is granted, or refused;
    pthread_detach fails; what rand() answers. *)
Inductive choice :=
  | Go
  | Refuse
  | DetachFails
  | Rand (z : Z).

Definition EXIT_FAILURE : Z := 1.
Definition DEFAULT_GENERATE_NUMBER_RANGE : Z := 100.
(** ** The buffer *)

(** [granted]: both calls of malloc succeed; no object is larger than PTRDIFF_MAX. *)
Definition buffer_create (granted : bool) (capacity : Z) : option buffer_t :=
  if granted && (to_size (to_size capacity * sizeof_int) <=? PTRDIFF_MAX) then
    Some (mk_buffer 0 0 (to_size capacity) 0 (Some (replicate (Z.to_nat capacity) None)) 0
            (Some 1) (Some (to_uint capacity)) (Some 0))
  else None.

Definition produce_item (z : Z) : cM buffer_t Z :=
  let number := rand_mod z DEFAULT_GENERATE_NUMBER_RANGE in
  b ← get;
  match data b with
  | None => undef NullDeref
  | Some d =>
      check ((0 <=? dataptr b) && (dataptr b <? Z.of_nat (length d))) OutOfBounds;;
      modify (set_data (Some (<[Z.to_nat (dataptr b) := Some number]> d)))
  end;;
  modify (λ b, set_size (to_size (size b + 1)) b);;
  modify (λ b, set_dataptr (dataptr b + 1) b);;
  modify (λ b, set_num_gen (to_uint (num_gen b + 1)) b);;
  mret number.

Definition consume_item : cM buffer_t Z :=
  modify (λ b, set_size (to_size (size b - 1)) b);;
  modify (λ b, set_dataptr (dataptr b - 1) b);;
  modify (λ b, set_num_con (to_uint (num_con b + 1)) b);;
  b ← get;
  match data b with
  | None => undef NullDeref
  | Some d =>
      check (0 <=? dataptr b) OutOfBounds;;
      match d !! Z.to_nat (dataptr b) with
      | None => undef OutOfBounds
      | Some None => undef Uninitialised
      | Some (Some number) => mret number
      end
  end.

(** ** The threads *)

Definition goto (p : pc) (g : glob) : sres (pc * glob * list pc) := Next (p, g, []).

Definition with_buffer {A} (g : glob) (k : buffer_t → sres A) : sres A :=
  match buffer g with Some b => k b | None => Wrong NullDeref end.

(** A call of sem_wait or sem_post on a semaphore of the buffer. *)
Definition on_mutex (f : sem → sres sem) (p : pc) (g : glob) :=
  with_buffer g (λ b, m ← f (mutex b); goto p (set_buffer (Some (set_mutex m b)) g)).
Definition on_empty (f : sem → sres sem) (p : pc) (g : glob) :=
  with_buffer g (λ b, m ← f (empty b); goto p (set_buffer (Some (set_empty m b)) g)).
Definition on_full (f : sem → sres sem) (p : pc) (g : glob) :=
  with_buffer g (λ b, m ← f (full b); goto p (set_buffer (Some (set_full m b)) g)).

Definition answer (c : choice) : Z := match c with Rand z => z | _ => 0 end.

(** Lines 150-163. *)
Definition produce_or_exit (c : choice) (g : glob) :=
  with_buffer g (λ b,
    if to_uint (max_generate g) =? num_gen b then goto PX_post g
    else if size b <? capacity b then
      '(number, b) ← seq_step (produce_item (answer c)) b;
      goto P_post (set_produced (produced g ++ [number]) (set_buffer (Some b) g))
    else goto P_post g).

(** Lines 185-200. *)
Definition consume_or_exit (g : glob) :=
  with_buffer g (λ b,
    if num_con b =? to_uint (max_generate g) then goto CX_post g
    else if 0 <? size b then
      '(number, b) ← seq_step consume_item b;
      goto C_post (set_consumed (consumed g ++ [number]) (set_buffer (Some b) g))
    else goto C_post g).

Definition do_produce (c : choice) (p : pc) (g : glob) :=
  match p with
  | P_empty => on_empty sem_wait P_mutex g
  | P_mutex => on_mutex sem_wait P_check g
  | P_check => produce_or_exit c g
  | P_post => on_mutex sem_post P_full g
  | P_full => on_full sem_post P_empty g
  | PX_post => on_mutex sem_post PX_full g
  | PX_full => on_full sem_post P_exit g
  | _ => Blocked
  end.

Definition do_consume (p : pc) (g : glob) :=
  match p with
  | C_full => on_full sem_wait C_mutex g
  | C_mutex => on_mutex sem_wait C_check g
  | C_check => consume_or_exit g
  | C_post => on_mutex sem_post C_empty g
  | C_empty => on_empty sem_post C_full g
  | CX_post => on_mutex sem_post CX_empty g
  | CX_empty => on_empty sem_post C_exit g
  | _ => Blocked
  end.

(** A turn of the loop of threads_create: thread [i] of [num_pthread], then [done]. *)
Definition threads_create (i num_pthread : Z) (routine : pc) (next : Z → pc) (done : pc)
    (c : choice) (g : glob) : sres (pc * glob * list pc) :=
  if i <? num_pthread then
    match c with
    | Refuse => goto (M_data EXIT_FAILURE) g
    | DetachFails => Next (M_data EXIT_FAILURE, g, [routine])
    | _ => Next (next (i + 1), g, [routine])
    end
  else goto done g.

(** Lines 211-234. *)
Definition main_args (argv : list string) (c : choice) (g : glob) : sres (pc * glob * list pc) :=
  match argv with
  | [_; log_fname; a2; a3; a4; a5] =>
      num_producer ← atoi a2;
      num_consumer ← atoi a3;
      capacity ← atoi a4;
      max_generate ← atoi a5;
      let g := mk_glob max_generate num_producer num_consumer (buffer g) (produced g) (consumed g) in
      match c with
      | Refuse => goto (M_end EXIT_FAILURE) g
      | _ =>
          if (num_consumer <=? 0) || (num_producer <=? 0) || (max_generate <? 0) then
            goto (M_end EXIT_FAILURE) g
          else goto (M_buffer (to_size capacity)) g
      end
  | _ => goto (M_end EXIT_FAILURE) g
  end.

(** buffer_destroy, from the free of the data on: called from both ends of main, which then
    returns [ret]. *)
Definition buffer_destroy (p : pc) (g : glob) : sres (pc * glob * list pc) :=
  match p with
  | M_data ret => with_buffer g (λ b, goto (M_mutex ret) (set_buffer (Some (set_data None b)) g))
  | M_mutex ret => with_buffer g (λ b, goto (M_empty ret) (set_buffer (Some (set_mutex None b)) g))
  | M_empty ret => with_buffer g (λ b, goto (M_full ret) (set_buffer (Some (set_empty None b)) g))
  | M_full ret => with_buffer g (λ b, goto (M_end ret) (set_buffer (Some (set_full None b)) g))
  | _ => Blocked
  end.

(** main; the end of the process frees the rest. *)
Definition main_step (c : choice) (p : pc) (g : glob) : sres (pc * glob * list pc) :=
  match p with
  | M_start argv => main_args argv c g
  | M_buffer capacity =>
      match buffer_create (match c with Refuse => false | _ => true end) (to_int capacity) with
      | Some b => goto (M_producers 0) (set_buffer (Some b) g)
      | None => goto (M_end EXIT_FAILURE) g
      end
  | M_producers i =>
      threads_create i (num_producer g) P_empty M_producers (M_consumers 0) c g
  | M_consumers i => threads_create i (num_consumer g) C_full M_consumers M_wait c g
  | M_wait => on_mutex sem_wait M_check g
  | M_check =>
      with_buffer g (λ b,
        goto (M_post ((num_con b =? to_uint (max_generate g)) &&
                      (num_gen b =? to_uint (max_generate g)))) g)
  | M_post finished => on_mutex sem_post (if finished then M_data 0 else M_wait) g
  | M_data _ | M_mutex _ | M_empty _ | M_full _ => buffer_destroy p g
  | _ => Blocked
  end.

Definition is_producer (p : pc) : bool :=
  match p with
  | P_empty | P_mutex | P_check | P_post | P_full | PX_post | PX_full | P_exit => true
  | _ => false
  end.

Definition is_consumer (p : pc) : bool :=
  match p with
  | C_full | C_mutex | C_check | C_post | C_empty | CX_post | CX_empty | C_exit => true
  | _ => false
  end.

#[export] Instance mpc : Threads choice pc glob := {
  exec c p g :=
    if is_producer p then do_produce c p g
    else if is_consumer p then do_consume p g
    else main_step c p g;
  ended p := match p with M_end _ => true | _ => false end;
}.

(** The process starts with main alone; [max_generate] is 100 until main stores into it. *)
Definition glob0 : glob := mk_glob 100 0 0 None [] [].

Definition sys0 (argv : list string) : tsys pc glob := mk_tsys [M_start argv] glob0.

(** The states that a run of the program can reach. *)
Definition mpc_reachable (argv : list string) : tsys pc glob → Prop :=
  reachable (λ s, s = sys0 argv) tstep.
