(* ===== verification/MpcInv.v ===== *)
(** * Producers and consumers: the invariants

    The semaphores count what they should, the array is a stack of the numbers produced and
    not yet consumed, and no step before the end of main is undefined. *)

From Stdlib Require Import ZifyBool String.
From S2P Require Import Prelude CInt TransSys Threads Libc Mpc.

Open Scope Z_scope.

(** ** Parts of the code *)

(** Inside of the mutex. *)
Definition holds (p : pc) : bool :=
  match p with
  | M_check | M_post _ | P_check | P_post | PX_post | C_check | C_post | CX_post => true
  | _ => false
  end.

(** A place of the array in the hands of a thread: taken from one semaphore, not yet given to
    the other one. *)
Definition in_hand (p : pc) : bool :=
  match p with
  | P_mutex | P_check | P_post | P_full | PX_post | PX_full
  | C_mutex | C_check | C_post | C_empty | CX_post | CX_empty => true
  | _ => false
  end.

(** A place in hand that counts as filled. *)
Definition filled (p : pc) : bool :=
  match p with P_post | P_full | PX_post | PX_full | C_mutex | C_check => true | _ => false end.

(** Past the limit. *)
Definition p_left (p : pc) : bool := match p with PX_post | PX_full | P_exit => true | _ => false end.
Definition c_left (p : pc) : bool := match p with CX_post | CX_empty | C_exit => true | _ => false end.

Definition is_worker (p : pc) : bool := is_producer p || is_consumer p.
Definition is_main (p : pc) : bool := negb (is_worker p).

(** Main before the buffer exists, and from the release of its parts on. *)
Definition early (p : pc) : bool :=
  match p with M_start _ | M_buffer _ => true | _ => false end.
Definition finishing (p : pc) : bool :=
  match p with M_data _ | M_mutex _ | M_empty _ | M_full _ | M_end _ => true | _ => false end.

(** Main on its way to return 0, and before it releases the buffer. *)
Definition success (p : pc) : bool :=
  match p with
  | M_post b => b
  | M_data r | M_mutex r | M_empty r | M_full r | M_end r => r =? 0
  | _ => false
  end.
Definition at_limit (p : pc) : bool := match p with M_post b => b | _ => false end.

(** The loop of main. *)
Definition polling (p : pc) : bool := match p with M_wait | M_check | M_post _ => true | _ => false end.

(** Threads created so far. *)
Definition created_p (n : Z) (p : pc) : Z :=
  match p with M_producers i => Z.max 0 i | M_consumers _ | M_wait | M_check | M_post _ => n | _ => 0 end.
Definition created_c (n : Z) (p : pc) : Z :=
  match p with M_consumers i => Z.max 0 i | M_wait | M_check | M_post _ => n | _ => 0 end.
Definition bad_index (np nc : Z) (p : pc) : bool :=
  match p with
  | M_producers i => negb ((0 <=? i) && (i <=? np))
  | M_consumers i => negb ((0 <=? i) && (i <=? nc))
  | _ => false
  end.

(** ** The invariants *)

(** While the threads work; [items] is the contents of the array. *)
Record binv (s : tsys pc glob) (b : buffer_t) (items : list Z) : Prop := {
  b_cap : 0 <= capacity b <= INT_MAX;
  b_max : 0 <= max_generate (shared s) <= INT_MAX;
  b_mutex : mutex b = Some (1 - num holds s);
  b_hold : num holds s <= 1;
  b_sems : ∃ e f, empty b = Some e ∧ full b = Some f ∧ 0 <= e ∧ 0 <= f ∧
    e + f + num in_hand s = capacity b ∧
    f + num filled s = size b + num p_left s - num c_left s;
  b_size : size b = num_gen b - num_con b ∧ dataptr b = size b;
  b_gen : 0 <= num_con b <= num_gen b ∧ num_gen b <= max_generate (shared s);
  b_pleft : num p_left s = 0 ∨ num_gen b = max_generate (shared s);
  b_cleft : num c_left s = 0 ∨ num_con b = max_generate (shared s);
  b_data : ∃ d, data b = Some d ∧ Z.of_nat (length d) = capacity b ∧
             take (Z.to_nat (size b)) d = Some <$> items;
  b_items : produced (shared s) ≡ₚ consumed (shared s) ++ items;
  b_produced : Z.of_nat (length (produced (shared s))) = num_gen b;
  b_consumed : Z.of_nat (length (consumed (shared s))) = num_con b;
  b_done : num at_limit s = 0 ∨ num_gen b = max_generate (shared s) ∧ num_con b = max_generate (shared s);
  b_zero : capacity b = 0 → num_gen b = 0;
  b_producers : num is_producer s = tot (created_p (num_producer (shared s))) s;
  b_consumers : num is_consumer s = tot (created_c (num_consumer (shared s))) s;
  b_index : num (bad_index (num_producer (shared s)) (num_consumer (shared s))) s = 0;
  b_pos : 0 < num_producer (shared s) ∧ 0 < num_consumer (shared s);
}.

(** Main alone, before there is a buffer. *)
Definition alone (g : glob) (p : pc) : Prop :=
  match p with
  | M_start _ => True
  | M_buffer _ => 0 < num_producer g ∧ 0 < num_consumer g ∧ 0 <= max_generate g <= INT_MAX
  | M_end r => r = EXIT_FAILURE
  | _ => False
  end.

Record inv (s : tsys pc glob) : Prop := {
  i_main : num is_main s = 1;
  i_alone : buffer (shared s) = None →
    produced (shared s) = [] ∧ consumed (shared s) = [] ∧ ∃ p, pcs s = [p] ∧ alone (shared s) p;
  i_buf : ∀ b, buffer (shared s) = Some b →
    num early s = 0 ∧ (num success s = 0 ∨ max_generate (shared s) = 0 ∨ 0 < capacity b) ∧
    (num finishing s = 0 → ∃ items, binv s b items);
}.

(** ** The code under the mutex *)

Lemma buffer_create_some granted c b :
  is_int c → buffer_create granted c = Some b →
  0 <= c ∧ b = mk_buffer 0 0 c 0 (Some (replicate (Z.to_nat c) None)) 0 (Some 1) (Some c) (Some 0).
Proof.
  unfold buffer_create. intros Hc H. destruct granted; [|done]. cbn [andb] in H.
  destruct (Z.leb_spec (to_size (to_size c * sizeof_int)) PTRDIFF_MAX) as [Hm|]; [|done].
  pose proof (int_array_granted c Hc Hm).
  split; [done|]. injection H as <-. rewrite to_size_id by (int_unfold; lia).
  unfold to_uint. rewrite Z.mod_small by (int_unfold; lia). done.
Qed.

Lemma mpc_produce_run z b d :
  data b = Some d → Z.of_nat (length d) = capacity b → dataptr b = size b →
  0 <= size b < capacity b → capacity b <= INT_MAX → 0 <= num_gen b < INT_MAX →
  produce_item z b = Done (rand_mod z 100)
    (mk_buffer (num_gen b + 1) (num_con b) (capacity b) (size b + 1)
       (Some (<[Z.to_nat (size b) := Some (rand_mod z 100)]> d)) (size b + 1)
       (mutex b) (empty b) (full b)).
Proof.
  intros Hd Hl Hp Hs Hc Hg. unfold produce_item. crun. rewrite Hd, Hp.
  assert (((0 <=? size b) && (size b <? Z.of_nat (length d)))%bool = true) as -> by (rewrite Hl; lia).
  destruct b as [g c k sz da pt m e f]. cbn in *. subst. rewrite to_size_id by (int_unfold; lia).
  unfold to_uint. rewrite Z.mod_small by (int_unfold; lia). done.
Qed.

Lemma mpc_consume_run b d items x :
  data b = Some d → take (Z.to_nat (size b)) d = Some <$> (items ++ [x]) →
  size b = Z.of_nat (length (items ++ [x])) → dataptr b = size b →
  size b <= INT_MAX → 0 <= num_con b < INT_MAX →
  consume_item b = Done x
    (mk_buffer (num_gen b) (num_con b + 1) (capacity b) (size b - 1) (Some d) (size b - 1)
       (mutex b) (empty b) (full b)) ∧
  take (Z.to_nat (size b - 1)) d = Some <$> items.
Proof.
  intros Hd Ht Hs Hp Hsz Hc. rewrite length_app in Hs. cbn in Hs. split.
  - unfold consume_item. crun. destruct b as [g c k sz da pt m e f]. cbn in *. subst pt. rewrite Hd.
    assert ((0 <=? sz - 1) = true) as -> by lia.
    assert (d !! Z.to_nat (sz - 1) = Some (Some x)) as ->.
    { rewrite <- (lookup_take_lt d (Z.to_nat sz)) by lia. rewrite Ht, fmap_app.
      rewrite lookup_app_r by (rewrite length_fmap; lia). rewrite length_fmap.
      replace (Z.to_nat (sz - 1) - length items)%nat with 0%nat by lia. done. }
    rewrite to_size_id by (int_unfold; lia).
    unfold to_uint. rewrite Z.mod_small by (int_unfold; lia). subst. done.
  - replace (Z.to_nat (size b - 1)) with (length items) by lia.
    assert (H : take (length items) (take (Z.to_nat (size b)) d) = Some <$> items).
    { by rewrite Ht, fmap_app, take_app_le, take_ge by (rewrite length_fmap; lia). }
    rewrite take_take, Nat.min_l in H by lia. done.
Qed.

(** ** Every step keeps the invariants *)

Ltac open_code He Hb :=
  unfold produce_or_exit, consume_or_exit, threads_create, on_mutex, on_empty, on_full, with_buffer,
    goto, sem_wait, sem_post in He;
  rewrite ?Hb in He; cbn -[Z.eqb Z.ltb seq_step produce_item consume_item] in He.

Lemma to_uint_id z : 0 <= z <= INT_MAX → to_uint z = z.
Proof. intros H. unfold to_uint. apply Z.mod_small. int_unfold. lia. Qed.

Lemma binv_dead s b items i p :
  binv s b items → pcs s !! i = Some p →
  (p = P_check → num_gen b ≠ max_generate (shared s) → size b < capacity b) ∧
  (p = C_check → num_con b ≠ max_generate (shared s) → 0 < size b).
Proof.
  intros HB Hp. destruct (b_sems _ _ _ HB) as (e & f & _ & _ & He & Hf & H1 & H2).
  pose proof (b_pleft _ _ _ HB). pose proof (b_cleft _ _ _ HB). pose proof (b_gen _ _ _ HB).
  pose proof (b_size _ _ _ HB). pose proof (num_nonneg p_left s). pose proof (num_nonneg c_left s).
  pose proof (num_ge (λ p, in_hand p && negb (filled p)) s i p Hp) as G1.
  pose proof (num_ge filled s i p Hp) as G2.
  pose proof (num_plus_le filled (λ p, in_hand p && negb (filled p)) in_hand s ltac:(by intros [])).
  split; intros ->; cbn in G1, G2; intros; lia.
Qed.

Lemma binv_produce s b items d z :
  binv s b items → data b = Some d → num_gen b ≠ max_generate (shared s) → size b < capacity b →
  produce_item z b = Done (rand_mod z 100)
    (mk_buffer (num_gen b + 1) (num_con b) (capacity b) (size b + 1)
       (Some (<[Z.to_nat (size b) := Some (rand_mod z 100)]> d)) (size b + 1)
       (mutex b) (empty b) (full b)) ∧
  length (<[Z.to_nat (size b) := Some (rand_mod z 100)]> d) = length d ∧
  take (Z.to_nat (size b + 1)) (<[Z.to_nat (size b) := Some (rand_mod z 100)]> d)
    = Some <$> (items ++ [rand_mod z 100]).
Proof.
  intros HB Hd Hn Hs. destruct (b_data _ _ _ HB) as (d' & Hd' & Hl & Ht).
  assert (d' = d) as -> by congruence. clear Hd'.
  destruct (b_size _ _ _ HB). destruct (b_gen _ _ _ HB). destruct (b_cap _ _ _ HB). destruct (b_max _ _ _ HB).
  split_and!.
  - apply mpc_produce_run; [done..|lia|lia|lia].
  - apply length_insert.
  - replace (Z.to_nat (size b + 1)) with (S (Z.to_nat (size b))) by lia.
    rewrite fmap_app, <- Ht. rewrite (take_S_r _ _ (Some (rand_mod z 100))).
    + by rewrite take_insert_ge.
    + rewrite list_lookup_insert_eq; [done|lia].
Qed.

Lemma binv_consume s b items d :
  binv s b items → data b = Some d → num_con b ≠ max_generate (shared s) → 0 < size b →
  ∃ items' x, items = items' ++ [x] ∧
    consume_item b = Done x
      (mk_buffer (num_gen b) (num_con b + 1) (capacity b) (size b - 1) (Some d) (size b - 1)
         (mutex b) (empty b) (full b)) ∧
    take (Z.to_nat (size b - 1)) d = Some <$> items'.
Proof.
  intros HB Hd Hn Hs. destruct (b_data _ _ _ HB) as (d' & Hd' & Hl & Ht).
  assert (d' = d) as -> by congruence. clear Hd'.
  destruct (b_size _ _ _ HB). destruct (b_gen _ _ _ HB). destruct (b_cap _ _ _ HB). destruct (b_max _ _ _ HB).
  pose proof (b_produced _ _ _ HB). pose proof (b_consumed _ _ _ HB).
  pose proof (Permutation_length (b_items _ _ _ HB)) as Hp. rewrite length_app in Hp.
  destruct items as [|x items' _] using rev_ind; [cbn in *; lia|]. exists items', x. split; [done|].
  rewrite length_app in Hp. cbn in Hp.
  apply mpc_consume_run; [done|done| |done|lia|lia]. rewrite length_app. cbn. lia.
Qed.

Lemma binv_step l s s' b items :
  buffer (shared s) = Some b → binv s b items → num early s = 0 → num finishing s = 0 →
  tstep l s = Next s' →
  ∃ b', buffer (shared s') = Some b' ∧ capacity b' = capacity b ∧
    max_generate (shared s') = max_generate (shared s) ∧
    (num finishing s' = 0 → ∃ items', binv s' b' items').
Proof.
  intros Hb HB He0 Hf0 Hs. apply tstep_inv in Hs as (_ & p & p' & new & Hp & He & _ & Ht & Hn).
  pose proof (num_none early s _ p He0 Hp) as Hpe. pose proof (num_none finishing s _ p Hf0 Hp) as Hpf.
  destruct (binv_dead _ _ _ _ _ HB Hp) as [HP HC]. destruct (b_data _ _ _ HB) as (d & Hd & Hdl & Hdt).
  pose proof (λ z, binv_produce _ _ _ d z HB Hd) as HPr. pose proof (binv_consume _ _ _ _ HB Hd) as HCr.
  destruct HB as [Cap Max Mut Hold (e & f & Hem & Hfu & Hee & Hff & Pl & Fi) [Sz Pt] Gen PL CL _
    It Pr Co Do Ze Prod Cons Ind Pos].
  assert (Hge : ∀ bb, Z.b2z (bb p) <= num bb s) by (intros; by eapply num_ge).
  pose proof (Hge holds) as G1. pose proof (Hge p_left) as G2. pose proof (Hge c_left) as G3.
  pose proof (Hge in_hand) as G4. pose proof (Hge at_limit) as G5.
  pose proof (Hge (bad_index (num_producer (shared s)) (num_consumer (shared s)))) as G6.
  pose proof (num_nonneg at_limit s). pose proof (num_nonneg p_left s). pose proof (num_nonneg c_left s).
  pose proof (Hn holds) as E1. pose proof (Hn p_left) as E2. pose proof (Hn c_left) as E3.
  pose proof (Hn in_hand) as E4. pose proof (Hn at_limit) as E5. pose proof (Hn filled) as E6.
  pose proof (Hn is_producer) as E7. pose proof (Hn is_consumer) as E8. pose proof (Hn finishing) as E11.
  pose proof (Hn (bad_index (num_producer (shared s)) (num_consumer (shared s)))) as E12.
  pose proof (Ht (created_p (num_producer (shared s)))) as E9.
  pose proof (Ht (created_c (num_consumer (shared s)))) as E10.
  assert (Hmx : to_uint (max_generate (shared s)) = max_generate (shared s)) by by apply to_uint_id.
  clear Hn Ht Hge Hp. remember (shared s) as g eqn:Hg. remember (shared s') as g' eqn:Hg'.
  clear Hg. symmetry in Hg'.
  destruct p; try discriminate Hpe; try discriminate Hpf; cbn -[Z.eqb Z.add Z.sub] in He.
  all: open_code He Hb; rewrite ?Mut, ?Hem, ?Hfu, ?Hmx in He; cbn -[Z.eqb num tot Z.add Z.sub seq_step produce_item consume_item] in He.
  all: repeat case_hyp He; try discriminate He.
  all: try (exfalso; zbool; match goal with
    | H : capacity _ <= size _ |- _ => refine (proj1 (Z.lt_nge _ _) (HP eq_refl _) H); congruence
    | H : size _ <= 0 |- _ => refine (proj1 (Z.lt_nge _ _) (HC eq_refl _) H); congruence
    end).
  all: clear HP HC.
  all: try match type of He with context [produce_item ?z] =>
         zbool; destruct (HPr z) as (Hrun & Hl' & Ht'); [congruence|assumption|]; unfold seq_step in He; rewrite Hrun in He end.
  all: try match type of He with context [consume_item] =>
         zbool; destruct HCr as (items' & x & -> & Hrun & Ht'); [congruence|assumption|]; unfold seq_step in He; rewrite Hrun in He end.
  all: clear HPr; try clear HCr; injection He as <- <- <-.
  all: unfold SEM_VALUE_MAX in *; cbn -[Z.eqb Z.add Z.sub] in G1, G2, G3, G4, G5, G6, E1, E2, E3, E4, E5, E6, E7, E8, E9, E10, E11, E12.
  all: eexists; split; [cbn [buffer set_buffer set_produced set_consumed]; first [reflexivity|exact Hb]|].
  all: split; [try reflexivity|].
  all: split; [reflexivity|]; intros Hfin; clear Hb.
  all: try (exfalso; clear -Hf0 Hfin E11; lia).
  all: lazymatch goal with
    | H : take _ (<[_ := _]> _) = Some <$> ?l |- _ => exists l
    | H : _ ≡ₚ _ ++ (?l ++ [_]) |- _ => exists l
    | H : take _ _ = Some <$> ?l |- _ => exists l
    end.
  all: split; rewrite ?Hg'; cbn -[Z.eqb Z.add Z.sub num tot created_p created_c bad_index]; clear Hg'.
  all: try assumption.
  all: try lazymatch goal with |- _ = Some _ => clear PL CL Do Ze E9 E10 E12 G6 It; rewrite ?Mut; f_equal; int_unfold; lia end.
  all: try lazymatch goal with |- ∃ e f, _ => clear PL CL Do Ze E9 E10 E12 G6 It; eexists _, _; split_and!; [eassumption || reflexivity | eassumption || reflexivity | int_unfold; lia..] end.
  all: try lazymatch goal with |- ∃ d, _ => eexists; split_and!; [eassumption || reflexivity | congruence | eassumption] end.
  all: try lazymatch goal with |- _ ≡ₚ _ => rewrite It; solve_Permutation end.
  all: try (rewrite length_app; cbn [length]; lia).
  all: clear Hdt Hdl Hd It Hmx He0 Hf0 Hfin Mut Hem Hfu Hpe Hpf.

  all: lia.
Qed.

(** Where a step leads: main stays main, and its phases only go forward. *)
Lemma exec_phases c p g p' g' new :
  exec c p g = Next (p', g', new) → early p = false →
  is_main p' = is_main p ∧ Forall (λ q, is_worker q = true) new ∧ early p' = false ∧ (finishing p = true → finishing p' = true) ∧
  (success p = false → success p' = true → finishing p = false ∧ at_limit p' = true) ∧
  (at_limit p' = true → finishing p' = false).
Proof.
  intros He Hp. destruct p; try discriminate He; try discriminate Hp; cbn -[Z.eqb] in He;
    unfold produce_or_exit, consume_or_exit, threads_create, on_mutex, on_empty, on_full,
      with_buffer, goto, sem_wait, sem_post in He; cbn -[Z.eqb Z.ltb seq_step produce_item consume_item] in He;
    repeat case_hyp He; try discriminate He;
    try (destruct (seq_step _ _) as [[? ?]| |]; try discriminate He);
    cbn -[Z.eqb] in He; simplify_eq; rewrite ?Forall_cons, ?Forall_nil; split_and!; first [done|by intros|cbn; congruence].
Qed.

Lemma produce_kept z b x b' : seq_step (produce_item z) b = Next (x, b') → capacity b' = capacity b.
Proof.
  unfold seq_step, produce_item. crun. destruct (data b) as [d|]; [|done].
  destruct (_ && _)%bool; [|done]. intros. by simplify_eq.
Qed.

Lemma consume_kept b x b' : seq_step consume_item b = Next (x, b') → capacity b' = capacity b.
Proof.
  unfold seq_step, consume_item. crun. destruct (data _) as [d|]; [|done].
  destruct (0 <=? _); [|done]. destruct (d !! _) as [[n|]|]; intros; by simplify_eq.
Qed.

(** No step drops the buffer or changes its capacity. *)
Lemma exec_kept c p g p' g' new b :
  exec c p g = Next (p', g', new) → early p = false → buffer g = Some b →
  ∃ b', buffer g' = Some b' ∧ capacity b' = capacity b ∧ max_generate g' = max_generate g.
Proof.
  intros He Hp Hb. destruct p; try discriminate He; try discriminate Hp; cbn -[Z.eqb] in He; open_code He Hb;
    repeat case_hyp He; try discriminate He;
    try (match type of He with context [seq_step ?m ?x] =>
      destruct (seq_step m x) as [[z b1]| |] eqn:Hm; try discriminate He end);
    cbn -[Z.eqb] in He; simplify_eq;
    first [by eexists | apply produce_kept in Hm; by eexists | apply consume_kept in Hm; by eexists].
Qed.

Lemma tsum_workers (b : pc → bool) new :
  (∀ q, is_worker q = true → b q = false) → Forall (λ q, is_worker q = true) new →
  tsum (λ q, Z.b2z (b q)) new = 0.
Proof. intros Hb. induction 1 as [|q ps Hq _ IH]; [done|]. rewrite tsum_cons, IH, Hb; done. Qed.

Lemma alone_start argv : inv (sys0 argv).
Proof. split; [done| |done]. intros _. split_and!; [done..|]. by exists (M_start argv). Qed.

Lemma main_args_next argv c g p' g' new :
  main_args argv c g = Next (p', g', new) → buffer g = None →
  new = [] ∧ buffer g' = None ∧ produced g' = produced g ∧ consumed g' = consumed g ∧ alone g' p'.
Proof.
  unfold main_args, goto. intros H Hb.
  destruct argv as [|a0 [|a1 [|a2 [|a3 [|a4 [|a5 [|]]]]]]]; try (by simplify_eq).
  destruct (atoi a2) as [np| |]; try discriminate H. destruct (atoi a3) as [nc| |]; try discriminate H.
  destruct (atoi a4) as [cap| |]; try discriminate H. destruct (atoi a5) as [mx| |] eqn:Hmx; try discriminate H.
  apply atoi_int in Hmx. cbn -[Z.leb Z.ltb] in H.
  assert (∀ r q, Next (M_end r, mk_glob mx np nc (buffer g) (produced g) (consumed g), []) = Next q →
    q = (p', g', new) → r = EXIT_FAILURE → new = [] ∧ buffer g' = None ∧ produced g' = produced g ∧
    consumed g' = consumed g ∧ alone g' p') as Hend by (intros; by simplify_eq).
  destruct ((nc <=? 0) || (np <=? 0) || (mx <? 0))%bool eqn:Hc; [destruct c; by eapply Hend|].
  destruct c; [|by eapply Hend|..]; injection H as <- <- <-; split_and!; try done; cbn; int_unfold; lia.
Qed.

(** The buffer as main creates it. *)
Lemma binv_created c g b :
  0 <= c <= INT_MAX → b = mk_buffer 0 0 c 0 (Some (replicate (Z.to_nat c) None)) 0 (Some 1) (Some c) (Some 0) →
  alone g (M_buffer c) → produced g = [] → consumed g = [] →
  binv (mk_tsys [M_producers 0] (set_buffer (Some b) g)) b [].
Proof.
  intros Hc -> (Hnp & Hnc & Hmx) Hp Hco. split; cbn -[Z.eqb]; rewrite ?Hp, ?Hco; try done; try lia.
  - exists c, 0. split_and!; done || lia.
  - eexists. split_and!; [done| |done]. rewrite length_replicate. lia.
Qed.

Lemma num_single (b : pc → bool) p (g : glob) : num b (mk_tsys [p] g) = Z.b2z (b p).
Proof. unfold num, tot. cbn. lia. Qed.

Lemma inv_alone l s s' :
  inv s → buffer (shared s) = None → tstep l s = Next s' → inv s'.
Proof.
  intros [_ Ha _] Hb Hs. destruct (Ha Hb) as (Hpr & Hco & p & Hps & Hp).
  apply tstep_inv in Hs as (Ho & q & p' & new & Hq & He & Hps' & _). unfold process_over in Ho.
  destruct s as [ps g]. destruct s' as [ps' g']. cbn [pcs shared] in *. subst ps ps'.
  destruct (fst l) as [|i]; [|done]. injection Hq as ->. cbn [lookup list_lookup] in Ho. cbn [insert list_insert app].
  destruct q; try done; cbn -[main_args buffer_create] in He.
  - apply main_args_next in He as (-> & Hb' & Hpr' & Hco' & Ha'); [|done].
    split; [rewrite num_single; by destruct p'| |intros b Hbb; cbn in Hbb; congruence].
    intros _. cbn. rewrite Hpr', Hco'. split_and!; [done..|]. by exists p'.
  - destruct (buffer_create _ _) as [b|] eqn:Hcr; unfold goto in He; simplify_eq.
    + apply buffer_create_some in Hcr as [Hc Hbb]; [|apply to_int_is_int].
      split; [done|done|]. intros b' [= <-]. split_and!; [done|by left|]. intros _. exists [].
      eapply binv_created; [|done..]. split; [done|]. apply (to_int_is_int _).
    + split; [done| |intros b Hbb; cbn in Hbb; congruence]. intros _. split_and!; [done..|]. by exists (M_end EXIT_FAILURE).
Qed.

Lemma mpc_inv_step l s s' : inv s → tstep l s = Next s' → inv s'.
Proof.
  intros HI Hs. destruct (buffer (shared s)) as [b|] eqn:Hb; [|by eapply inv_alone].
  destruct HI as [Hmain _ Hbuf]. destruct (Hbuf b Hb) as (He0 & Hsu & Hinv). clear Hbuf.
  apply tstep_inv in Hs as Hs'. destruct Hs' as (_ & p & p' & new & Hp & He & _ & _ & Hn).
  destruct (exec_phases _ _ _ _ _ _ He (num_none _ _ _ _ He0 Hp)) as (Hm & Hnew & Hea & Hfi & Hsa & Haf).
  assert (Hw : ∀ bb : pc → bool, (∀ q, is_worker q = true → bb q = false) →
    num bb s' = num bb s - Z.b2z (bb p) + Z.b2z (bb p')).
  { intros bb Hbb. rewrite Hn, (tsum_workers bb) by done. lia. }
  pose proof (Hw is_main ltac:(by intros [])) as E1. pose proof (Hw early ltac:(by intros [])) as E2.
  pose proof (Hw finishing ltac:(by intros [])) as E3. pose proof (Hw success ltac:(by intros [])) as E4.
  rewrite (num_none _ _ _ _ He0 Hp) in E2. rewrite Hea in E2. cbn in E2. rewrite Hm in E1.
  pose proof (num_nonneg finishing s). destruct (decide (num finishing s = 0)) as [Hf0|Hf0].
  - destruct (Hinv Hf0) as [items HB].
    destruct (binv_step _ _ _ _ _ Hb HB He0 Hf0 Hs) as (b' & Hb' & Hcap & Hmx & HB').
    split; [lia|by rewrite Hb'|]. intros b1 Hb1. assert (b1 = b') as -> by congruence.
    split_and!; [lia| |done]. rewrite Hmx, Hcap. destruct Hsu as [Hsu|Hsu]; [|by right].
    pose proof (num_none _ _ _ _ Hsu Hp) as Hsp. rewrite Hsp in E4. cbn in E4.
    destruct (success p') eqn:Hsp'; cbn in E4; [|left; lia]. right.
    destruct (Hsa Hsp eq_refl) as [Hfp Hal]. rewrite Hfp, (Haf Hal) in E3. cbn in E3.
    destruct (HB' ltac:(lia)) as [items' HB1]. destruct (b_cap _ _ _ HB).
    pose proof (Hw at_limit ltac:(by intros [])) as E5. rewrite Hal in E5. cbn in E5.
    pose proof (num_ge at_limit s _ _ Hp).
    destruct (b_done _ _ _ HB1) as [Hd|[Hd _]]; [lia|]. rewrite <- Hmx, <- Hd.
    destruct (decide (capacity b = 0)); [left; apply (b_zero _ _ _ HB1); congruence|right; lia].
  - destruct (exec_kept _ _ _ _ _ _ _ He (num_none _ _ _ _ He0 Hp) Hb) as (b' & Hb' & Hcap & Hmx).
    assert (Hf' : num finishing s' ≠ 0).
    { pose proof (num_ge finishing s _ _ Hp). assert (0 <= Z.b2z (finishing p')) by by destruct (finishing p').
      destruct (finishing p) eqn:Hfp; [rewrite Hfi in E3 by done|]; cbn in *; lia. }
    split; [lia|by rewrite Hb'|]. intros b1 Hb1. assert (b1 = b') as -> by congruence.
    split_and!; [lia| |done]. rewrite Hmx, Hcap. destruct Hsu as [Hsu|Hsu]; [|by right].
    left. pose proof (num_none _ _ _ _ Hsu Hp) as Hsp. rewrite Hsp in E4. cbn in E4.
    destruct (success p') eqn:Hsp'; cbn in E4; [|lia]. exfalso.
    destruct (Hsa Hsp eq_refl) as [Hfp Hal].
    pose proof (num_plus_le finishing (λ q, is_main q && negb (finishing q)) is_main s ltac:(by intros [])) as Hle.
    pose proof (num_ge (λ q, is_main q && negb (finishing q)) s _ _ Hp) as Hge. cbn in Hge.
    assert (is_main p = true) as Hmp by (rewrite <- Hm; by destruct p'). rewrite Hmp, Hfp in Hge. cbn in Hge.
    pose proof (num_nonneg finishing s). lia.
Qed.

Lemma mpc_inv_reachable argv s : mpc_reachable argv s → inv s.
Proof.
  apply (invariant_reachable _ _ inv).
  - intros ? ->. apply alone_start.
  - intros l s1 s2 _. apply mpc_inv_step.
Qed.
