(* ===== verification/MpcProps.v ===== *)
(** * Producers and consumers: properties

    Of every reachable state: no undefined behaviour while the threads work, each number is
    consumed once, the two fallback branches are never taken; and every run of the threads
    ends with main ready to leave its loop. *)

From Stdlib Require Import ZifyBool String.
From S2P Require Import Prelude CInt TransSys Threads Libc Mpc MpcInv.

Open Scope Z_scope.

(** ** Progress *)

Lemma binv_reachable argv s b :
  mpc_reachable argv s → buffer (shared s) = Some b → num finishing s = 0 →
  num early s = 0 ∧ ∃ items, binv s b items.
Proof. intros Hr Hb Hf. destruct (i_buf _ (mpc_inv_reachable _ _ Hr) b Hb) as (He & _ & HB). auto. Qed.

(** The code of a thread is defined while the buffer is there. *)
Lemma binv_defined s b items i p c u :
  binv s b items → buffer (shared s) = Some b → pcs s !! i = Some p → early p = false →
  finishing p = false → exec c p (shared s) ≠ Wrong u.
Proof.
  intros HB Hb Hp He Hf Hw. destruct (b_data _ _ _ HB) as (d & Hd & _).
  destruct (binv_dead _ _ _ _ _ HB Hp) as [HP HC].
  pose proof (λ z, binv_produce _ _ _ d z HB Hd) as HPr. pose proof (binv_consume _ _ _ _ HB Hd) as HCr.
  pose proof (to_uint_id _ (b_max _ _ _ HB)) as Hmx. pose proof (b_mutex _ _ _ HB) as Hmu.
  destruct (b_sems _ _ _ HB) as (e & f & Hem & Hfu & _).
  clear HB Hd. destruct p; try discriminate He; try discriminate Hf; cbn -[Z.eqb] in Hw;
    open_code Hw Hb; rewrite ?Hmu, ?Hem, ?Hfu, ?Hmx in Hw; cbn -[Z.eqb seq_step produce_item consume_item] in Hw;
    repeat case_hyp Hw; try discriminate Hw; zbool.
  - destruct (HPr (answer c)) as [Hrun _]; [congruence|done|]. unfold seq_step in Hw. by rewrite Hrun in Hw.
  - destruct HCr as (l & x & _ & Hrun & _); [congruence|done|]. unfold seq_step in Hw. by rewrite Hrun in Hw.
Qed.

(** Where a worker is blocked. *)
Lemma worker_blocked s b items p :
  binv s b items → buffer (shared s) = Some b → is_worker p = true → exec Go p (shared s) = Blocked →
  match p with
  | P_empty => empty b = Some 0
  | C_full => full b = Some 0
  | P_mutex | C_mutex => mutex b = Some 0
  | P_exit | C_exit => True
  | _ => False
  end.
Proof.
  intros HB Hb Hp Hw. pose proof (b_mutex _ _ _ HB) as Hmu. destruct (b_sems _ _ _ HB) as (e & f & Hem & Hfu & _).
  clear HB. destruct p; try discriminate Hp; cbn -[Z.eqb] in Hw; open_code Hw Hb; rewrite ?Hmu, ?Hem, ?Hfu in *;
    cbn -[Z.eqb seq_step produce_item consume_item] in Hw; repeat case_hyp Hw; try discriminate Hw; try done;
    try (f_equal; lia).
  - unfold seq_step, produce_item in Hw. revert Hw. crun. destruct (data b); [|done]. by destruct (_ && _)%bool.
  - unfold seq_step, consume_item in Hw. revert Hw. crun. destruct (data _) as [d|]; [|done].
    destruct (0 <=? _); [|done]. by destruct (d !! _) as [[|]|].
Qed.

(** ** A potential *)

(** What a worker may still do before it is back at its first wait. *)
Definition weight (p : pc) : Z :=
  match p with
  | P_empty | C_full => 5 | P_mutex | C_mutex => 4 | P_check | C_check => 3
  | P_post | C_post => 7 | P_full | C_empty => 6 | PX_post | CX_post => 2 | PX_full | CX_empty => 1
  | _ => 0
  end.

Definition potential (s : tsys pc glob) : Z :=
  match buffer (shared s) with
  | Some b => 5 * (max_generate (shared s) - num_gen b) + 5 * (max_generate (shared s) - num_con b) + tot weight s
  | None => 0
  end.

(** Main waits for the mutex, and the threads run. *)
Record working (argv : list string) (s : tsys pc glob) : Prop := {
  w_reach : mpc_reachable argv s;
  w_main : pcs s !! 0%nat = Some M_wait;
  w_buf : ∃ b, buffer (shared s) = Some b ∧ 0 < capacity b;
}.

Lemma working_inv argv s :
  working argv s → num finishing s = 0 ∧ ∃ b items, buffer (shared s) = Some b ∧ 0 < capacity b ∧ binv s b items.
Proof.
  intros [Hr Hm (b & Hb & Hc)]. assert (Hf : num finishing s = 0).
  { pose proof (i_main _ (mpc_inv_reachable _ _ Hr)) as H1.
    pose proof (num_plus_le finishing (λ q, is_main q && negb (finishing q)) is_main s ltac:(by intros [])) as Hle.
    pose proof (num_ge (λ q, is_main q && negb (finishing q)) s _ _ Hm) as Hge. cbn in Hge.
    pose proof (num_nonneg finishing s). lia. }
  split; [done|]. destruct (binv_reachable _ _ _ Hr Hb Hf) as (_ & items & HB). by exists b, items.
Qed.

Lemma mpc_potential_nonneg argv s : working argv s → 0 <= potential s.
Proof.
  intros Hw. destruct (working_inv _ _ Hw) as (_ & b & items & Hb & _ & HB). unfold potential. rewrite Hb.
  destruct (b_gen _ _ _ HB). pose proof (tot_nonneg weight s ltac:(by intros [])). lia.
Qed.

Lemma worker_step argv l s s' :
  working argv s → part_step is_worker l s = Next s' → working argv s' ∧ potential s' < potential s.
Proof.
  intros Hw Hs. destruct (working_inv _ _ Hw) as (Hf & b & items & Hb & Hc & HB).
  destruct Hw as [Hr Hm _]. apply part_step_inv in Hs as [Hs (p & Hp & Hwp)].
  destruct (binv_reachable _ _ _ Hr Hb Hf) as [He _].
  destruct (binv_step _ _ _ _ _ Hb HB He Hf Hs) as (b' & Hb' & Hcap & Hmx & _).
  assert (Hm' : pcs s' !! 0%nat = Some M_wait).
  { eapply tstep_other; [done..|]. intros Heq. rewrite <- Heq, Hm in Hp. by injection Hp as <-. }
  split; [split; [by eapply reachable_step|done|exists b'; split; [done|lia]]|].
  apply tstep_inv in Hs as (_ & q & p' & new & Hq & Hx & _ & Ht & _). assert (q = p) as -> by congruence. clear Hq.
  destruct (binv_dead _ _ _ _ _ HB Hp) as [HP HC]. destruct (b_data _ _ _ HB) as (d & Hd & _).
  pose proof (λ z, binv_produce _ _ _ d z HB Hd) as HPr. pose proof (binv_consume _ _ _ _ HB Hd) as HCr.
  pose proof (to_uint_id _ (b_max _ _ _ HB)) as Hmu. specialize (Ht weight).
  unfold potential. rewrite Hb, Hb', Hmx. clear Hmx HB Hm Hm' He Hf Hd.
  destruct p; try discriminate Hwp; cbn -[Z.eqb Z.add Z.sub] in Hx, Ht; open_code Hx Hb; rewrite ?Hmu in Hx;
    repeat case_hyp Hx; try discriminate Hx; zbool.
  all: try match type of Hx with context [produce_item ?z] =>
    destruct (HPr z) as [Hrun _]; [congruence|assumption|]; unfold seq_step in Hx; rewrite Hrun in Hx end.
  all: try match type of Hx with context [consume_item] =>
    destruct HCr as (l' & x & _ & Hrun & _); [congruence|assumption|]; unfold seq_step in Hx; rewrite Hrun in Hx end.
  all: try (exfalso; match goal with
    | H : capacity _ <= size _ |- _ => refine (proj1 (Z.lt_nge _ _) (HP eq_refl _) H); congruence
    | H : size _ <= 0 |- _ => refine (proj1 (Z.lt_nge _ _) (HC eq_refl _) H); congruence
    end).
  all: clear HPr HP HC; try clear HCr; injection Hx as <- Hx <-; rewrite <- Hx in Hb'; cbn in Hb', Ht; simplify_eq; cbn; lia.
Qed.

(** When the threads rest, everything is produced and consumed. *)
Lemma workers_rest argv s b items :
  working argv s → rests is_worker s → buffer (shared s) = Some b → binv s b items →
  num_gen b = max_generate (shared s) ∧ num_con b = max_generate (shared s) ∧ mutex b = Some 1.
Proof.
  intros Hw Hr Hb HB. destruct (working_inv _ _ Hw) as (Hf & b1 & _ & Hb1 & Hc & _).
  assert (b1 = b) as -> by congruence. clear Hb1. destruct Hw as [Hre Hm _].
  destruct (binv_reachable _ _ _ Hre Hb Hf) as [He _].
  assert (Ho : process_over s = false) by (unfold process_over; by rewrite Hm).
  assert (Hat : ∀ i p, pcs s !! i = Some p → is_worker p = true →
    match p with
    | P_empty => empty b = Some 0 | C_full => full b = Some 0 | P_mutex | C_mutex => mutex b = Some 0
    | P_exit | C_exit => True | _ => False
    end).
  { intros i p Hp Hwp. eapply worker_blocked; [done..|]. eapply rests_blocked; [done..|].
    intros u. eapply binv_defined; [done..| |]; by eapply num_none. }
  assert (Hmain : ∀ i p, pcs s !! i = Some p → is_main p = true → p = M_wait).
  { intros i p Hp Hmp. destruct (decide (i = 0%nat)) as [->|Hi]; [congruence|].
    pose proof (num_ge2 is_main s i 0 p _ Hi Hp Hm) as H2. rewrite Hmp in H2. cbn in H2.
    pose proof (i_main _ (mpc_inv_reachable _ _ Hre)). lia. }
  assert (Hh : num holds s = 0).
  { apply num_zero. intros i p Hp. destruct (is_worker p) eqn:Hwp; [|by rewrite (Hmain i p Hp) by (unfold is_main; by rewrite Hwp)].
    specialize (Hat i p Hp Hwp). by destruct p. }
  pose proof (b_mutex _ _ _ HB) as Hmu. rewrite Hh in Hmu. change (1 - 0) with 1 in Hmu.
  assert (Hno : num in_hand s = 0).
  { apply num_zero. intros i p Hp. destruct (is_worker p) eqn:Hwp; [|by rewrite (Hmain i p Hp) by (unfold is_main; by rewrite Hwp)].
    specialize (Hat i p Hp Hwp). destruct p; try done; congruence. }
  pose proof (num_le filled in_hand s ltac:(by intros [])) as Hfi. pose proof (num_nonneg filled s).
  destruct (b_sems _ _ _ HB) as (e & f & Hem & Hfu & Hee & Hff & Pl & Fi).
  destruct (b_gen _ _ _ HB) as [G1 G2]. destruct (b_size _ _ _ HB) as [Sz _].
  destruct (b_pos _ _ _ HB) as [Np Nc].
  assert (Hprod : empty b = Some 0 ∨ 0 < num p_left s).
  { assert (0 < num is_producer s) as Hn.
    { rewrite (b_producers _ _ _ HB). eapply Z.lt_le_trans; [|apply (tsum_ge _ _ 0 M_wait)]; [done| |done].
      intros []; cbn; lia. }
    apply num_pos in Hn as (i & p & Hp & Hn). specialize (Hat i p Hp). pose proof (num_ge p_left s i p Hp) as Hge.
    unfold is_worker in Hat. rewrite Hn in Hat. specialize (Hat eq_refl).
    destruct p; try discriminate Hn; cbn in Hge; first [done|by left|right; lia|congruence]. }
  assert (Hcons : full b = Some 0 ∨ 0 < num c_left s).
  { assert (0 < num is_consumer s) as Hn.
    { rewrite (b_consumers _ _ _ HB). eapply Z.lt_le_trans; [|apply (tsum_ge _ _ 0 M_wait)]; [done| |done].
      intros []; cbn; lia. }
    apply num_pos in Hn as (i & p & Hp & Hn). specialize (Hat i p Hp). pose proof (num_ge c_left s i p Hp) as Hge.
    unfold is_worker in Hat. rewrite Hn, orb_true_r in Hat. specialize (Hat eq_refl).
    destruct p; try discriminate Hn; cbn in Hge; first [done|by left|right; lia|congruence]. }
  pose proof (num_nonneg p_left s). pose proof (num_nonneg c_left s).
  destruct (b_pleft _ _ _ HB), (b_cleft _ _ _ HB), Hprod, Hcons; simplify_eq; split_and!; try done; lia.
Qed.

(** ** A run, for the witnesses *)

Definition turns (i n : nat) : list (nat * choice) := replicate n (i, Go).

(** Main creates its threads; a producer's and a consumer's turn. *)
Definition boot : list (nat * choice) := turns 0 6.
Definition produce : list (nat * choice) := turns 1 2 ++ [(1%nat, Rand 142)] ++ turns 1 2.
Definition consume : list (nat * choice) := turns 2 5.

Definition args (capacity generate : string) : list string := ["mpc"; "log"; "1"; "1"; capacity; generate]%string.

Definition state_after (argv : list string) (ls : list (nat * choice)) : tsys pc glob :=
  match run tstep ls (sys0 argv) with Next s => s | _ => sys0 argv end.

Definition the_buffer (s : tsys pc glob) : buffer_t :=
  match buffer (shared s) with Some b => b | None => mk_buffer 0 0 0 0 None 0 None None None end.

Lemma mpc_state_after_reachable argv ls : mpc_reachable argv (state_after argv ls).
Proof.
  unfold state_after. destruct (run tstep ls (sys0 argv)) as [s| |] eqn:Hr;
    [eapply run_reachable; [|done]|..]; by apply reachable_init.
Qed.

(** ** Properties *)

(** C20: the semaphores count: while main has not begun to release the buffer, at most one
    thread is inside of the mutex, the places free, filled and in the hands of a thread add up to
    the capacity, and the array index is where the last number is. *)
Theorem mpc_semaphores argv s b i j p q :
  mpc_reachable argv s → buffer (shared s) = Some b → num finishing s = 0 →
  i ≠ j → pcs s !! i = Some p → pcs s !! j = Some q →
  ¬ (holds p = true ∧ holds q = true) ∧
  (∃ e f, empty b = Some e ∧ full b = Some f ∧ 0 <= e ∧ 0 <= f ∧ e + f + num in_hand s = capacity b) ∧
  dataptr b = size b ∧ size b = num_gen b - num_con b ∧ 0 <= size b <= capacity b ∧
  num_gen b <= max_generate (shared s).
Proof.
  intros Hr Hb Hf Hij Hp Hq. destruct (binv_reachable _ _ _ Hr Hb Hf) as (_ & items & HB).
  destruct (b_sems _ _ _ HB) as (e & f & Hem & Hfu & He & Hff & Pl & Fi).
  destruct (b_size _ _ _ HB). destruct (b_gen _ _ _ HB). pose proof (num_nonneg p_left s).
  pose proof (num_nonneg c_left s). pose proof (num_le filled in_hand s ltac:(by intros [])).
  split_and!; try done; try lia.
  - intros [Hhp Hhq]. pose proof (num_ge2 holds s i j p q Hij Hp Hq) as Hge. rewrite Hhp, Hhq in Hge.
    pose proof (b_hold _ _ _ HB). cbn in Hge. lia.
  - exists e, f. done.
  - pose proof (b_pleft _ _ _ HB). pose proof (b_cleft _ _ _ HB). pose proof (b_cap _ _ _ HB). lia.
Qed.

(** C19: each number is consumed once: the numbers produced are those consumed and those in the
    array, and when main finds the work finished every number produced has been consumed, and
    there are as many as asked for. *)
Theorem mpc_each_number_once argv s b :
  mpc_reachable argv s → buffer (shared s) = Some b → num finishing s = 0 →
  (∃ d items, data b = Some d ∧ Z.of_nat (length d) = capacity b ∧
     take (Z.to_nat (size b)) d = Some <$> items ∧
     produced (shared s) ≡ₚ consumed (shared s) ++ items) ∧
  (0 < num at_limit s → consumed (shared s) ≡ₚ produced (shared s) ∧
     Z.of_nat (length (consumed (shared s))) = max_generate (shared s)).
Proof.
  intros Hr Hb Hf. destruct (binv_reachable _ _ _ Hr Hb Hf) as (_ & items & HB).
  destruct (b_data _ _ _ HB) as (d & Hd & Hl & Ht). pose proof (b_items _ _ _ HB) as Hi.
  pose proof (b_produced _ _ _ HB) as Hp. pose proof (b_consumed _ _ _ HB) as Hc.
  split; [by exists d, items|]. intros Ha. destruct (b_done _ _ _ HB) as [|[H1 H2]]; [lia|].
  split; [|lia]. pose proof (Permutation_length Hi) as Hlen. rewrite length_app in Hlen.
  destruct items; [by rewrite Hi, app_nil_r|cbn in Hlen; lia].
Qed.

(** A producer below the limit always finds a free place, and a consumer below the limit
    always finds a number: the branches that only log that the buffer is full, or empty, are never
    taken. *)
Theorem mpc_fallbacks_dead argv s b i p :
  mpc_reachable argv s → buffer (shared s) = Some b → num finishing s = 0 → pcs s !! i = Some p →
  (p = P_check → num_gen b ≠ max_generate (shared s) → size b < capacity b) ∧
  (p = C_check → num_con b ≠ max_generate (shared s) → 0 < size b).
Proof.
  intros Hr Hb Hf Hp. destruct (binv_reachable _ _ _ Hr Hb Hf) as (_ & items & HB). by eapply binv_dead.
Qed.

(** C21: while main has not begun to release the buffer, no thread can do anything undefined:
    no access outside of the array, none of an uninitialised cell, no use of a semaphore that is
    not there. *)
Theorem mpc_defined argv s b l u :
  mpc_reachable argv s → buffer (shared s) = Some b → num finishing s = 0 → tstep l s ≠ Wrong u.
Proof.
  intros Hr Hb Hf Hs. destruct (binv_reachable _ _ _ Hr Hb Hf) as (He & items & HB).
  apply tstep_wrong in Hs as (_ & p & Hp & Hx).
  by eapply binv_defined; [..|exact Hx]; [done..| |]; eapply num_none.
Qed.

(** C18: the work gets done: with a capacity of at least 1, from a state in which main waits for
    the mutex, however producers and consumers are scheduled, they take a bounded number of
    steps; and when none of them can move any more, all numbers are produced and consumed and main
    leaves its loop in three steps. *)
Theorem mpc_completes argv s b :
  mpc_reachable argv s → pcs s !! 0%nat = Some M_wait → buffer (shared s) = Some b → 0 < capacity b →
  (∀ ls s', run (part_step is_worker) ls s = Next s' → (length ls <= Z.to_nat (potential s))%nat) ∧
  (∀ ls s', run (part_step is_worker) ls s = Next s' → rests is_worker s' →
     ∃ s'', run tstep [(0%nat, Go); (0%nat, Go); (0%nat, Go)] s' = Next s'' ∧
       pcs s'' !! 0%nat = Some (M_data 0) ∧ Z.of_nat (length (consumed (shared s''))) = max_generate (shared s'')).
Proof.
  intros Hr Hm Hb Hc. assert (Hw : working argv s) by (split; [done..|by exists b]). split.
  - intros ls s' Hrun. enough ((length ls + Z.to_nat (potential s') <= Z.to_nat (potential s))%nat) by lia.
    apply (measure_bounds (part_step is_worker) (working argv) (λ s, Z.to_nat (potential s))); [|done..].
    intros l s1 s2 H1 H2. destruct (worker_step argv l s1 s2 H1 H2) as [H3 H4].
    pose proof (mpc_potential_nonneg _ _ H3). split; [done|]. cbn beta. lia.
  - intros ls s' Hrun Hrest. assert (Hw' : working argv s').
    { clear Hr Hm Hb Hc Hrest. revert s Hw Hrun. induction ls as [|l ls IH]; intros s Hw Hrun; [by injection Hrun as ->|].
      rewrite run_cons in Hrun. destruct (part_step is_worker l s) as [s1| |] eqn:Hl; [|done..].
      eapply IH; [|done]. by eapply worker_step. }
    destruct (working_inv _ _ Hw') as (_ & b' & items & Hb' & _ & HB).
    destruct (workers_rest _ _ _ _ Hw' Hrest Hb' HB) as (H1 & H2 & H3).
    pose proof (b_consumed _ _ _ HB) as Hco. pose proof (to_uint_id _ (b_max _ _ _ HB)) as Hmx.
    destruct Hw' as [_ Hm' _]. clear HB. destruct s' as [[|p ps] [mx np nc bf pr co]]; [done|].
    cbn in Hm', Hb', H1, H2, Hco, Hmx. injection Hm' as ->. subst bf. destruct b' as [ng nco cap sz da pt mu em fu].
    cbn in H1, H2, H3. subst ng nco mu.
    eexists. split.
    + unfold run, tstep, process_over. cbn -[Z.eqb to_uint]. change (1 =? 0) with false.
      cbn -[Z.eqb to_uint]. rewrite Hmx, Z.eqb_refl. cbn -[Z.eqb]. change (0 =? SEM_VALUE_MAX) with false.
      reflexivity.
    + split; [done|]. cbn in *. lia.
Qed.

(** With a capacity of 0 and something to generate, main never leaves its loop: it never
    comes to return 0. *)
Theorem mpc_no_capacity argv s b :
  mpc_reachable argv s → buffer (shared s) = Some b → capacity b = 0 → 0 < max_generate (shared s) →
  num success s = 0.
Proof.
  intros Hr Hb Hc Hm. destruct (i_buf _ (mpc_inv_reachable _ _ Hr) b Hb) as (_ & [H|[H|H]] & _); [done|lia..].
Qed.

(** Main destroys the semaphores under the feet of its threads: with one producer, one
    consumer, one place and one number, main can find the work finished and destroy the mutex
    while the producer, on its way to find the limit reached, is about to wait for it. *)
Theorem mpc_destroy_in_use :
  ∃ s, mpc_reachable (args "1" "1") s ∧ pcs s !! 1%nat = Some P_mutex ∧
    tstep (1%nat, Go) s = Wrong Destroyed.
Proof.
  exists (state_after (args "1" "1") (boot ++ produce ++ consume ++ turns 1 1 ++ turns 0 5)).
  split; [apply mpc_state_after_reachable|by vm_compute].
Qed.


(** *** The properties at work *)

Lemma mpc_semaphores_witness :
  let s := state_after (args "2" "5") (boot ++ produce ++ turns 1 1 ++ turns 2 1) in
  size (the_buffer s) = 1 ∧ 0 <= size (the_buffer s) <= capacity (the_buffer s).
Proof.
  intros s. split; [by vm_compute|].
  refine (proj1 (proj2 (proj2 (proj2 (proj2 (mpc_semaphores (args "2" "5") s (the_buffer s) 1 2 P_mutex C_mutex _ _ _ _ _ _))))));
    [apply mpc_state_after_reachable | by vm_compute | by vm_compute | done | by vm_compute | by vm_compute].
Defined.

Lemma mpc_each_number_once_witness :
  let s := state_after (args "1" "1") (boot ++ produce ++ consume ++ turns 0 2) in
  produced (shared s) = [42] ∧ consumed (shared s) ≡ₚ produced (shared s).
Proof.
  intros s. split; [by vm_compute|].
  refine (proj1 (proj2 (mpc_each_number_once (args "1" "1") s (the_buffer s) _ _ _) _));
    [apply mpc_state_after_reachable | by vm_compute | by vm_compute | by vm_compute].
Defined.

Lemma mpc_fallbacks_dead_witness :
  let s := state_after (args "1" "5") (boot ++ produce ++ turns 2 2) in
  0 < size (the_buffer s).
Proof.
  intros s.
  refine (proj2 (mpc_fallbacks_dead (args "1" "5") s (the_buffer s) 2 C_check _ _ _ _) eq_refl _);
    [apply mpc_state_after_reachable | by vm_compute | by vm_compute | by vm_compute | by vm_compute].
Defined.

Lemma mpc_defined_witness :
  let s := state_after (args "1" "5") (boot ++ produce ++ turns 2 2) in
  data (the_buffer s) = Some [Some 42] ∧ ∀ l u, tstep l s ≠ Wrong u.
Proof.
  intros s. split; [by vm_compute|]. intros l u.
  refine (mpc_defined (args "1" "5") s (the_buffer s) l u _ _ _);
    [apply mpc_state_after_reachable | by vm_compute | by vm_compute].
Defined.

Lemma mpc_completes_witness :
  let s := state_after (args "1" "2") boot in
  potential s = 30 ∧ ∀ ls s', run (part_step is_worker) ls s = Next s' → (length ls <= 30)%nat.
Proof.
  intros s. split; [by vm_compute|].
  refine (proj1 (mpc_completes (args "1" "2") s (the_buffer s) _ _ _ _));
    [apply mpc_state_after_reachable | by vm_compute | by vm_compute | by vm_compute].
Defined.

Lemma mpc_no_capacity_witness :
  let s := state_after (args "0" "5") (boot ++ turns 0 9) in
  num success s = 0 ∧ capacity (the_buffer s) = 0.
Proof.
  intros s. split; [|by vm_compute].
  refine (mpc_no_capacity (args "0" "5") s (the_buffer s) _ _ _ _);
    [apply mpc_state_after_reachable | by vm_compute | by vm_compute | by vm_compute].
Defined.
