(* ===== verification/Options.v ===== *)
(** * Command lines: Console/console_template.c and the options of Pthread/producer_consumer.c

    The loop over the answers of getopt_long, what each program does with an option, and how
    the configuration reaches the logger.  The input are the answers of getopt_long, an option
    character with its argument; how they come from the words of the command line is in Getopt
    and CommandLine. *)

From Stdlib Require Import Ascii String.
From S2P Require Import Prelude CInt Libc Logger.

Open Scope Z_scope.

(** ** The loop over the options *)

(** An answer of getopt_long: the option (a question mark for one it does not know) and
    [optarg]. *)
Definition option_t : Type := ascii * option string.

Definition EXIT_FAILURE : Z := 1.

Section loop.
Context {S : Type} (handle : option_t → cM S unit).

(** [while ((opt = getopt_long(...)) != -1) switch (opt) ...] *)
Fixpoint each_option (opts : list option_t) : cM S unit :=
  match opts with
  | [] => mret tt
  | o :: opts => handle o;; each_option opts
  end.

Lemma each_option_app opts opts' s s' :
  each_option opts s = Done tt s' → each_option (opts ++ opts') s = each_option opts' s'.
Proof.
  revert s. induction opts as [|o opts IH]; intros s H; [by injection H as ->|].
  cbn in *. unfold mbind, cM_bind in *. destruct (handle o s) as [[] s1| | |]; try done. by apply IH.
Qed.

End loop.

(** ** Console/console_template.c *)

Module Console.

(** The globals [log_file] and [log_level], the logger, and how often the usage was printed. *)
Record globals := mk_globals {
  log_file : option string;
  log_level : Z;
  lg : logger;
  usages : nat;
}.

Definition globals0 : globals := mk_globals None LOG_LEVEL_ERROR logger_init 0.

Definition print_usage : cM globals unit :=
  modify (λ g, mk_globals (log_file g) (log_level g) (lg g) (S (usages g))).

Definition set_log_file (f : string) : cM globals unit :=
  modify (λ g, mk_globals (Some f) (log_level g) (lg g) (usages g)).

Definition set_log_level (l : Z) : cM globals unit :=
  modify (λ g, mk_globals (log_file g) l (lg g) (usages g)).

(** The switch of parse_commands; strdup is granted its memory. *)
Definition handle (o : option_t) : cM globals unit :=
  match o with
  | ("L"%char, Some arg) => set_log_file arg
  | ("L"%char, None) => undef NullDeref
  | ("l"%char, Some arg) => n ← atoi_c arg; set_log_level n
  | ("l"%char, None) => set_log_level LOG_LEVEL_INFO
  | _ => print_usage;; exit EXIT_FAILURE
  end.

Definition parse_commands (opts : list option_t) : cM globals unit := each_option handle opts.

(** A computation of the logger inside of the program. *)
Definition with_logger {A} (m : cM logger A) : cM globals A := λ g,
  match m (lg g) with
  | Done a l => Done a (mk_globals (log_file g) (log_level g) l (usages g))
  | Undef u => Undef u
  | Exited c l => Exited c (mk_globals (log_file g) (log_level g) l (usages g))
  | NoFuel => NoFuel
  end.

(** [fopen(f, "w+")] with answer [answer]: the stream is open and empty. *)
Definition fopen (answer : file_t) : cM logger file_t := λ l,
  match answer with
  | None => Done None l
  | Some fp => Done (Some fp) (mk_logger (_default_log_stream l) (_default_log_level l) (<[fp := []]> (streams l)))
  end.

Definition setup_configurations (answer : string → file_t) : cM globals unit :=
  g ← get;
  log_fd ← match log_file g with
           | Some f => with_logger (fopen (answer f))
           | None => mret None
           end;
  r ← with_logger (setup_logger log_fd (log_level g));
  if r =? 0 then mret tt else exit EXIT_FAILURE.

Definition main (opts : list option_t) (answer : string → file_t) : cM globals Z :=
  parse_commands opts;; setup_configurations answer;; mret 0.

(** What an option says about the file and about the level. *)
Definition file_of (o : option_t) : option string :=
  match o with ("L"%char, a) => a | _ => None end.
Definition level_of (o : option_t) : option Z :=
  match o with
  | ("l"%char, Some a) => Some (atoi_value a)
  | ("l"%char, None) => Some LOG_LEVEL_INFO
  | _ => None
  end.

(** The options that the switch knows, with the arguments that getopt_long gives them. *)
Definition known (o : option_t) : bool :=
  match o with
  | ("L"%char, Some _) => true
  | ("l"%char, Some a) => bool_decide (is_int (atoi_value a))
  | ("l"%char, None) => true
  | _ => false
  end.

Definition unknown (o : option_t) : bool :=
  negb (bool_decide (fst o = "L"%char)) && negb (bool_decide (fst o = "l"%char)).

Lemma handle_known o g :
  known o = true →
  handle o g = Done tt (mk_globals (from_option Some (log_file g) (file_of o))
                          (default (log_level g) (level_of o)) (lg g) (usages g)).
Proof.
  destruct o as [c a]. destruct g as [f l lgr u].
  destruct c as [[] [] [] [] [] [] [] []]; try done; destruct a as [a|]; try done. cbn -[atoi_value is_int].
  intros Hk%bool_decide_eq_true. unfold atoi_c. by rewrite (bind_done _ _ _ _ _ (int_result_ok _ _ Hk)).
Qed.

Lemma handle_unknown o g :
  unknown o = true → handle o g = Exited EXIT_FAILURE (mk_globals (log_file g) (log_level g) (lg g) (S (usages g))).
Proof. destruct o as [c a]. by destruct c as [[] [] [] [] [] [] [] []]. Qed.

(** The last of the values that options give. *)
Definition last_of {A} (f : option_t → option A) (d : A) (opts : list option_t) : A :=
  default d (last (omap f opts)).

Lemma last_of_cons {A} (f : option_t → option A) d o opts :
  last_of f d (o :: opts) = last_of f (default d (f o)) opts.
Proof.
  unfold last_of. cbn. destruct (f o) as [x|]; [|done]. rewrite last_cons. by destruct (last _).
Qed.

Definition some_file (o : option_t) : option (option string) := Some <$> file_of o.

Lemma parse_known opts g :
  forallb known opts = true →
  parse_commands opts g = Done tt (mk_globals (last_of some_file (log_file g) opts)
                                     (last_of level_of (log_level g) opts) (lg g) (usages g)).
Proof.
  revert g. induction opts as [|o opts IH]; intros g H; [by destruct g|].
  cbn in H. apply andb_true_iff in H as [Ho Hopts]. unfold parse_commands in *. cbn [each_option].
  cstep (handle_known o g Ho). rewrite IH by done. cbn [log_file log_level lg usages].
  rewrite !last_of_cons. unfold some_file. by destruct (file_of o).
Qed.

(** C40: parse_commands is the last option of each kind: with options the program handles, the
    log file becomes the argument of the last -L and the level the one of the last -l (INFO for a -l
    without argument), and nothing else changes; the first option that the switch does not handle
    prints the usage once and ends the program with EXIT_FAILURE, whatever follows. *)
Theorem parse_commands_spec opts o rest g :
  forallb known opts = true →
  parse_commands opts g = Done tt (mk_globals (last_of some_file (log_file g) opts)
                                     (last_of level_of (log_level g) opts) (lg g) (usages g)) ∧
  (unknown o = true →
   ∃ g', parse_commands (opts ++ o :: rest) g = Exited EXIT_FAILURE g' ∧ usages g' = S (usages g) ∧
     log_file g' = last_of some_file (log_file g) opts).
Proof.
  intros H. pose proof (parse_known opts g H) as Hp. split; [done|]. intros Ho. eexists.
  unfold parse_commands in *. rewrite (each_option_app _ _ _ _ _ Hp). cbn [each_option].
  unfold mbind, cM_bind. rewrite (handle_unknown _ _ Ho). by split_and!.
Qed.

Lemma parse_commands_spec_witness :
  let opts := [("l"%char, None); ("L"%char, Some "a.log"%string); ("L"%char, Some "b.log"%string)] in
  last_of some_file None opts = Some "b.log"%string ∧
  ∃ g', parse_commands (opts ++ [("d"%char, None); ("L"%char, Some "c.log"%string)]) globals0 = Exited EXIT_FAILURE g' ∧
    usages g' = 1%nat ∧ log_file g' = Some "b.log"%string.
Proof.
  intros opts. split; [reflexivity|].
  refine (proj2 (parse_commands_spec opts ("d"%char, None) [("L"%char, Some "c.log"%string)] globals0 _) _); reflexivity.
Defined.

(** The configuration reaches the logger: after main, messages up to the chosen level go
    to the chosen file, or to the standard error when there is none or it cannot be opened; main
    returns 0 in all these cases. *)
Theorem console_main opts answer :
  forallb known opts = true →
  ∃ g, main opts answer globals0 = Done 0 g ∧
    _default_log_level (lg g) = last_of level_of LOG_LEVEL_ERROR opts ∧
    _default_log_stream (lg g) =
      match last_of some_file None opts with
      | Some f => Some (default STDERR (answer f))
      | None => Some STDERR
      end ∧
    (∀ fp, _default_log_stream (lg g) = Some fp → is_Some (streams (lg g) !! fp)).
Proof.
  intros H. unfold main. cstep (parse_known opts globals0 H). cbn [log_file log_level lg usages globals0].
  unfold setup_configurations. destruct (last_of some_file None opts) as [f|] eqn:Hf;
    [destruct (answer f) as [fp|] eqn:Ha|]; crun; cbn; rewrite ?Ha; cbn;
    eexists; (split_and!; [reflexivity|reflexivity|done|]); cbn; intros ? [= <-];
    rewrite ?lookup_insert_eq; (done || by eexists).
Qed.

Lemma console_main_witness :
  let opts := [("l"%char, Some "4"%string); ("L"%char, Some "a.log"%string)] in
  ∃ g, main opts (λ _, Some 2%positive) globals0 = Done 0 g ∧
    _default_log_level (lg g) = 4 ∧ _default_log_stream (lg g) = Some 2%positive ∧
    (∀ fp, _default_log_stream (lg g) = Some fp → is_Some (streams (lg g) !! fp)).
Proof. intros opts. refine (console_main opts (λ _, Some 2%positive) _). reflexivity. Defined.

(** The option that the usage text offers for displaying the configuration is not handled:
    it ends the program with the usage text and EXIT_FAILURE. *)
Theorem display_is_usage opts answer :
  forallb known opts = true →
  ∃ g, main (opts ++ [("d"%char, None)]) answer globals0 = Exited EXIT_FAILURE g ∧ usages g = 1%nat ∧
    lg g = logger_init.
Proof.
  intros H. unfold main, parse_commands. unfold mbind, cM_bind at 1.
  rewrite (each_option_app _ _ _ _ _ (parse_known opts globals0 H)). by eexists.
Qed.

Lemma display_is_usage_witness :
  ∃ g, main ([("l"%char, None)] ++ [("d"%char, None)]) (λ _, None) globals0 = Exited EXIT_FAILURE g ∧
    usages g = 1%nat ∧ lg g = logger_init.
Proof. refine (display_is_usage [("l"%char, None)] (λ _, None) _). reflexivity. Defined.

End Console.
