(* ===== verification/Getopt.v ===== *)
(** * getopt_long, as src/Console/ and src/Pthread/ use it

    The documented behaviour of getopt_long: short options in clusters, their arguments in the
    same word or in the next one, long options with an argument behind an equal sign or in the
    next word, operands among the options, and the end of the options.  The grammar [spelled]
    says the same without an algorithm: which words spell which options.

    Neither table of the programs ends with the entry of zeros that getopt_long asks for: the
    search for a long name that is not in the table does not stop at its end. *)

From Stdlib Require Import Ascii String.
From S2P Require Import Prelude CInt Libc Logger Options.

Open Scope Z_scope.

(** ** Tables *)

Inductive has_arg_t := no_argument | required_argument | optional_argument.

#[export] Instance has_arg_eq_dec : EqDecision has_arg_t.
Proof. solve_decision. Defined.

(** [struct option], with a null [flag]. *)
Record long_option := mk_long { name : string; has_arg : has_arg_t; val : ascii }.

(** The entry of a short option: its character, a colon for an argument, two for one that may
    be left out. *)
Fixpoint short_kind (spec : string) (c : ascii) : option has_arg_t :=
  match spec with
  | EmptyString => None
  | String d spec' =>
      if Ascii.eqb d c && negb (Ascii.eqb c ":") then
        Some (if String.prefix "::" spec' then optional_argument
              else if String.prefix ":" spec' then required_argument
              else no_argument)
      else short_kind spec' c
  end.

(** A long name and what stands behind the first equal sign. *)
Fixpoint split_eq (s : string) : string * option string :=
  match s with
  | EmptyString => (EmptyString, None)
  | String c s' => if Ascii.eqb c "=" then (EmptyString, Some s') else ((String c (split_eq s').1), (split_eq s').2)
  end.

(** ** The scan *)

Section getopt.
(** The tables, and whether the environment asks for the order of POSIX, where the first
    operand ends the options. *)
Context (short_options : string) (long_options : list long_option) (posixly : bool).

Definition find_long (n : string) : option long_option := List.find (λ o, String.eqb (name o) n) long_options.

Definition unknown_option : option_t := ("?"%char, None).

(** The answers for the characters behind the dash, and whether the next word was used. *)
Fixpoint cluster (s : string) (next : option string) : list option_t * bool :=
  match s with
  | EmptyString => ([], false)
  | String c s' =>
      match short_kind short_options c with
      | None => (unknown_option :: (cluster s' next).1, (cluster s' next).2)
      | Some no_argument => ((c, None) :: (cluster s' next).1, (cluster s' next).2)
      | Some required_argument =>
          match s', next with
          | EmptyString, Some a => ([(c, Some a)], true)
          | EmptyString, None => ([unknown_option], false)
          | _, _ => ([(c, Some s')], false)
          end
      | Some optional_argument =>
          match s' with EmptyString => ([(c, None)], false) | _ => ([(c, Some s')], false) end
      end
  end.

(** The answer for a long option, with the argument behind its equal sign. *)
Definition long_answer (o : long_option) (v next : option string) : option_t * bool :=
  match has_arg o, v, next with
  | no_argument, Some _, _ => (unknown_option, false)
  | _, Some a, _ => ((val o, Some a), false)
  | required_argument, None, Some a => ((val o, Some a), true)
  | required_argument, None, None => (unknown_option, false)
  | _, None, _ => ((val o, None), false)
  end.

(** What a word is: an operand, the end of the options, a name that is not in the table, or
    options, with the use of the next word. *)
Inductive word := Operand | Stop | Past | Options (answers : list option_t) (used : bool).

Definition word_of (a : string) (next : option string) : word :=
  match a with
  | String c (String d s) =>
      if negb (Ascii.eqb c "-") then Operand
      else if negb (Ascii.eqb d "-") then Options (cluster (String d s) next).1 (cluster (String d s) next).2
      else if String.eqb s EmptyString then Stop
      else match find_long (split_eq s).1 with
           | Some o => Options [(long_answer o (split_eq s).2 next).1] (long_answer o (split_eq s).2 next).2
           | None => Past
           end
  | _ => Operand
  end.

(** The answers to the calls of getopt_long until it returns -1, or until a call reads past the
    table. *)
Fixpoint getopt_long (args : list string) : list option_t * bool :=
  match args with
  | [] => ([], false)
  | a :: args' =>
      match word_of a (head args') with
      | Stop => ([], false)
      | Past => ([], true)
      | Operand => if posixly then ([], false) else getopt_long args'
      | Options answers used =>
          let r := match args' with
                   | [] => ([], false)
                   | _ :: args'' => if used then getopt_long args'' else getopt_long args'
                   end in
          (answers ++ r.1, r.2)
      end
  end.

(** [while ((opt = getopt_long(argc, argv, ...)) != -1) switch (opt) ...] *)
Definition each_answer {S} (handle : option_t → cM S unit) (args : list string) : cM S unit :=
  each_option handle (getopt_long args).1;; check (negb (getopt_long args).2) OutOfBounds.

(** ** The grammar *)

(** The short options of a word, and the words behind it that belong to it. *)
Inductive short_word : list option_t → string → list string → Prop :=
  | short_flag c : short_kind short_options c = Some no_argument → short_word [(c, None)] (String c EmptyString) []
  | short_more c os s ws :
      short_kind short_options c = Some no_argument → short_word os s ws →
      short_word ((c, None) :: os) (String c s) ws
  | short_alone c : short_kind short_options c = Some optional_argument → short_word [(c, None)] (String c EmptyString) []
  | short_joined c k a :
      short_kind short_options c = Some k → k ≠ no_argument → a ≠ EmptyString →
      short_word [(c, Some a)] (String c a) []
  | short_next c a :
      short_kind short_options c = Some required_argument → short_word [(c, Some a)] (String c EmptyString) [a].

Inductive long_word : option_t → string → list string → Prop :=
  | long_alone o : has_arg o ≠ required_argument → split_eq (name o) = (name o, None) →
      find_long (name o) = Some o → long_word (val o, None) (name o) []
  | long_joined o s a : has_arg o ≠ no_argument → split_eq s = (name o, Some a) →
      find_long (name o) = Some o → long_word (val o, Some a) s []
  | long_next o a : has_arg o = required_argument → split_eq (name o) = (name o, None) →
      find_long (name o) = Some o → long_word (val o, Some a) (name o) [a].

Definition operand (a : string) : bool :=
  match a with String c (String _ _) => negb (Ascii.eqb c "-") | _ => true end.

(** The words that spell a list of options. *)
Inductive spelled : list option_t → list string → Prop :=
  | spelled_nil : spelled [] []
  | spelled_stop rest : spelled [] ("--"%string :: rest)
  | spelled_posix a rest : operand a = true → posixly = true → spelled [] (a :: rest)
  | spelled_operand a os args : operand a = true → posixly = false → spelled os args → spelled os (a :: args)
  | spelled_short os' s ws os args :
      short_word os' s ws → spelled os args → spelled (os' ++ os) (String "-" s :: ws ++ args)
  | spelled_long o s ws os args :
      s ≠ EmptyString → long_word o s ws → spelled os args → spelled (o :: os) (String "-" (String "-" s) :: ws ++ args).

(** ** The scan follows the grammar *)

(** A dash is not an option. *)
Hypothesis dash : short_kind short_options "-" = None.

(** Whether words belong to an option that can use one of them. *)
Definition uses (ws : list string) : bool := match ws with [] => false | _ => true end.

Lemma cluster_short os s ws rest :
  short_word os s ws → cluster s (head (ws ++ rest)) = (os, uses ws) ∧ (length ws <= 1)%nat.
Proof.
  induction 1 as [c Hk|c os s ws Hk Hw [IH Hl]|c Hk|c k a Hk Hn Ha|c a Hk]; cbn; rewrite Hk; (split; [|cbn; lia]); try reflexivity.
  - by rewrite IH.
  - destruct a; [done|]. by destruct k.
Qed.

Lemma short_not_dash os s ws : short_word os s ws → ∃ c s', s = String c s' ∧ Ascii.eqb c "-" = false.
Proof.
  destruct 1 as [c Hk|c os s ws Hk Hw|c Hk|c k a Hk Hn Ha|c a Hk]; eexists _, _; split; try reflexivity;
    apply Ascii.eqb_neq; intros ->; by rewrite dash in Hk.
Qed.

Lemma long_word_answer o s ws rest :
  long_word o s ws →
  ∃ lo, find_long (split_eq s).1 = Some lo ∧
    long_answer lo (split_eq s).2 (head (ws ++ rest)) = (o, uses ws) ∧ (length ws <= 1)%nat.
Proof.
  destruct 1 as [o Hk Hs Hf|o s a Hk Hs Hf|o a Hk Hs Hf]; rewrite Hs; exists o; (split_and!; [done| |cbn; lia]);
    unfold long_answer; destruct (has_arg o); cbn; try done.
Qed.

(** The answers of a word whose options use the words [ws], and of the rest. *)
Lemma getopt_word a ws rest os :
  word_of a (head (ws ++ rest)) = Options os (uses ws) → (length ws <= 1)%nat →
  getopt_long (a :: ws ++ rest) = (os ++ (getopt_long rest).1, (getopt_long rest).2).
Proof.
  intros Hw Hl. cbn [getopt_long]. rewrite Hw. destruct ws as [|b ws]; [by destruct rest|].
  destruct ws; [done|]. cbn in Hl. lia.
Qed.

Lemma getopt_operand a rest :
  operand a = true → getopt_long (a :: rest) = if posixly then ([], false) else getopt_long rest.
Proof.
  intros Ho. cbn [getopt_long]. destruct a as [|c [|d s]]; [done..|]. cbn in Ho |- *. by rewrite Ho.
Qed.

Lemma getopt_spelled os args : spelled os args → getopt_long args = (os, false).
Proof.
  induction 1 as [|rest|a rest Ho Hp|a os args Ho Hp Hs IH|os' s ws os args Hw Hs IH|o s ws os args Hne Hw Hs IH];
    [done|done|by rewrite getopt_operand, Hp|by rewrite getopt_operand, Hp| |].
  - destruct (cluster_short _ _ _ args Hw) as [Hc Hl]. rewrite (getopt_word _ ws args os'), IH; [done| |done].
    destruct (short_not_dash _ _ _ Hw) as (c & s' & -> & Hd). cbn [word_of]. by rewrite Hd, Hc.
  - destruct (long_word_answer _ _ _ args Hw) as (lo & Hf & Ha & Hl).
    rewrite (getopt_word _ ws args [o]), IH; [done| |done].
    cbn [word_of]. destruct (String.eqb_spec s EmptyString); [done|]. by rewrite Hf, Ha.
Qed.

(** Conversely, whatever the scan answers without an unknown option is spelled by the words. *)
Lemma short_of_cluster s next :
  s ≠ EmptyString → unknown_option ∉ (cluster s next).1 →
  ∃ ws, short_word (cluster s next).1 s ws ∧ (cluster s next).2 = uses ws ∧ (ws = [] ∨ ∃ a, next = Some a ∧ ws = [a]).
Proof.
  induction s as [|c s IH]; [done|]. intros _ Hu. cbn in Hu |- *.
  destruct (short_kind short_options c) as [[]|] eqn:Hk; cbn in Hu |- *.
  - destruct s as [|d s].
    + exists []. cbn. split_and!; [by constructor|done|by left].
    + destruct IH as (ws & Hw & Hus & Hws); [done|by apply not_elem_of_cons in Hu as [? ?]|].
      exists ws. split_and!; [by constructor|done|done].
  - destruct s as [|d s]; [destruct next as [a|]|]; cbn in Hu |- *.
    + exists [a]. split_and!; [by constructor|done|right; by exists a].
    + by apply not_elem_of_cons in Hu as [? ?].
    + exists []. split_and!; [by eapply short_joined|done|by left].
  - destruct s as [|d s]; cbn in Hu |- *; exists []; (split_and!; [|done|by left]); [by apply short_alone|by eapply short_joined].
  - by apply not_elem_of_cons in Hu as [? ?].
Qed.

Lemma split_eq_none s : (split_eq s).2 = None → (split_eq s).1 = s.
Proof. induction s as [|c s IH]; [done|]. cbn. destruct (Ascii.eqb c "="); [done|]. intros H. cbn. by rewrite IH. Qed.

Lemma find_long_name n o : find_long n = Some o → name o = n.
Proof. by intros [_ ->%String.eqb_eq]%List.find_some. Qed.

Lemma long_of_answer s o next :
  find_long (split_eq s).1 = Some o → (long_answer o (split_eq s).2 next).1 ≠ unknown_option →
  ∃ ws, long_word (long_answer o (split_eq s).2 next).1 s ws ∧
    (long_answer o (split_eq s).2 next).2 = uses ws ∧ (ws = [] ∨ ∃ a, next = Some a ∧ ws = [a]).
Proof.
  intros Hf Hu. pose proof (find_long_name _ _ Hf) as Hn. destruct (split_eq s) as [n v] eqn:Hs. cbn in Hf, Hn, Hu |- *.
  destruct v as [a|].
  - exists []. unfold long_answer in Hu |- *. destruct (has_arg o) eqn:Hk; cbn in Hu |- *; [done| |];
      (split_and!; [|done|by left]); apply long_joined; rewrite ?Hn; congruence.
  - assert (Hs1 : n = s) by (pose proof (split_eq_none s) as H; rewrite Hs in H; by apply H). subst n. subst s.
    unfold long_answer in Hu |- *. destruct (has_arg o) eqn:Hk; cbn in Hu |- *.
    + exists []. split_and!; [by apply long_alone; rewrite ?Hk|done|by left].
    + destruct next as [a|]; [|done]. exists [a]. split_and!; [by apply long_next|done|right; by exists a].
    + exists []. split_and!; [by apply long_alone; rewrite ?Hk|done|by left].
Qed.

(** The options of a word that is neither an operand nor the end. *)
Lemma word_spelled a next answers used rest os :
  word_of a next = Options answers used → unknown_option ∉ answers →
  ∃ ws, used = uses ws ∧ (ws = [] ∨ ∃ b, next = Some b ∧ ws = [b]) ∧
    (spelled os rest → spelled (answers ++ os) (a :: ws ++ rest)).
Proof.
  intros Hw Hu. destruct a as [|c [|d s]]; [done..|]. cbn [word_of] in Hw.
  destruct (Ascii.eqb_spec c "-") as [->|]; [|done]. destruct (Ascii.eqb_spec d "-") as [->|]; cbn [negb] in Hw.
  - destruct (String.eqb_spec s EmptyString) as [|Hne]; [done|]. destruct (find_long _) as [o|] eqn:Hf; [|done].
    injection Hw as <- <-. destruct (long_of_answer s o next Hf) as (ws & Hl & Hus & Hws).
    { intros Heq. rewrite Heq in Hu. apply Hu. by left. }
    exists ws. split_and!; [done..|]. intros Hs. by apply spelled_long.
  - injection Hw as <- <-. destruct (short_of_cluster (String d s) next) as (ws & Hl & Hus & Hws); [done..|].
    exists ws. split_and!; [done..|]. intros Hs. by apply spelled_short.
Qed.

Lemma spelled_getopt args :
  unknown_option ∉ (getopt_long args).1 → (getopt_long args).2 = false → spelled (getopt_long args).1 args.
Proof.
  remember (length args) as n eqn:Hn. revert args Hn.
  induction (lt_wf n) as [n _ IH]. intros [|a args] -> Hu Hp; [constructor|]. cbn [getopt_long] in Hu, Hp |- *.
  destruct (word_of a (head args)) as [| | |answers used] eqn:Hw.
  - assert (Ho : operand a = true).
    { destruct a as [|c [|d s]]; [done..|]. cbn in Hw |- *. by repeat case_match. }
    destruct posixly eqn:Hx; [by apply spelled_posix|]. apply spelled_operand; [done..|].
    apply (IH (length args)); cbn; [lia|done..].
  - assert (a = "--"%string) as ->; [|apply spelled_stop].
    destruct a as [|c [|d s]]; [done..|]. cbn [word_of] in Hw.
    destruct (Ascii.eqb_spec c "-") as [->|]; [|done]. destruct (Ascii.eqb_spec d "-") as [->|]; [|done].
    destruct (String.eqb_spec s EmptyString) as [->|]; [done|]. by destruct (find_long _).
  - done.
  - cbn [fst snd] in Hu, Hp |- *. rewrite elem_of_app in Hu.
    set (rest := if used then tail args else args).
    assert (Hr : match args with [] => ([], false) | _ :: args'' => if used then getopt_long args'' else getopt_long args end
                 = getopt_long rest) by (unfold rest; by destruct args, used).
    rewrite Hr in Hu, Hp |- *.
    destruct (word_spelled a (head args) answers used rest (getopt_long rest).1 Hw) as (ws & Hus & Hws & Hsp); [tauto|].
    assert (Hargs : args = ws ++ rest).
    { unfold rest. destruct Hws as [->|(b & Hb & ->)]; cbn in Hus; subst used; [done|]. by destruct args; simplify_eq/=. }
    rewrite Hargs. apply Hsp, (IH (length rest)); [|done|tauto|done]. rewrite Hargs. cbn. rewrite length_app. lia.
Qed.

(** The scan is the grammar: without an unknown option, and without a search past the table, it
    answers the options that the words spell, and no others. *)
Theorem getopt_grammar args os :
  unknown_option ∉ os → getopt_long args = (os, false) ↔ spelled os args.
Proof.
  intros Hu. split; [|apply getopt_spelled]. intros H. pose proof (spelled_getopt args) as Hs. rewrite H in Hs.
  by apply Hs.
Qed.

(** An answer without an argument is a question mark, or belongs to an option that can do without
    one. *)
Definition bare_ok (o : option_t) : Prop :=
  o.2 = None → o = unknown_option ∨ (∃ k, short_kind short_options o.1 = Some k ∧ k ≠ required_argument) ∨
    ∃ lo, find_long (name lo) = Some lo ∧ val lo = o.1 ∧ has_arg lo ≠ required_argument.

Lemma cluster_bare s next : Forall bare_ok (cluster s next).1.
Proof.
  induction s as [|c s IH]; [constructor|]. cbn. destruct (short_kind short_options c) as [[]|] eqn:Hk; cbn.
  - constructor; [|done]. intros _. right. left. by exists no_argument.
  - destruct s as [|d s]; [destruct next as [a|]|]; (constructor; [|constructor]); intros H; try done. by left.
  - destruct s as [|d s]; (constructor; [|constructor]); intros H; [|done]. right. left. by exists optional_argument.
  - constructor; [|done]. intros _. by left.
Qed.

Lemma long_bare o v next : find_long (name o) = Some o → bare_ok (long_answer o v next).1.
Proof.
  intros Hf. unfold long_answer. destruct (has_arg o) eqn:Hk, v as [v|], next as [a|]; cbn; intros H; try done; try (by left);
    right; right; exists o; (split_and!; [done..|by rewrite Hk]).
Qed.

Lemma answers_bare args : Forall bare_ok (getopt_long args).1.
Proof.
  remember (length args) as n eqn:Hn. revert args Hn.
  induction (lt_wf n) as [n _ IH]. intros [|a args] ->; [constructor|]. cbn [getopt_long].
  assert (Hrest : ∀ l, (length l <= length args)%nat → Forall bare_ok (getopt_long l).1).
  { intros l Hl. apply (IH (length l)); cbn; [lia|done]. }
  destruct (word_of a (head args)) as [| | |answers used] eqn:Hw; [| | |].
  - destruct posixly; [constructor|by apply Hrest].
  - constructor.
  - constructor.
  - cbn [fst]. apply Forall_app. split.
    + destruct a as [|c [|d s]]; [done..|]. cbn [word_of] in Hw. destruct (negb (Ascii.eqb c "-")); [done|].
      destruct (negb (Ascii.eqb d "-")); [injection Hw as <- <-; exact (cluster_bare (String d s) (head args))|].
      destruct (String.eqb s EmptyString); [done|]. destruct (find_long _) as [o|] eqn:Hf; [|done].
      injection Hw as <- <-. constructor; [|constructor]. apply long_bare.
      by rewrite (find_long_name _ _ Hf).
    + destruct args as [|b args]; [constructor|]. destruct used; apply Hrest; cbn; lia.
Qed.

End getopt.
