(* ===== verification/LogTests.v ===== *)
(** * Programs that log: common/logger_test.c and Miscs/link_so_test.c

    The composition of a program with the logger: what a sequence of LOGGING calls leaves in the
    stream that setup_logger was given. *)

From Stdlib Require Import String.
From S2P Require Import Prelude CInt Format Logger Options.

Open Scope string_scope.
Open Scope list_scope.
Open Scope Z_scope.

(** ** The programs *)

(** [fclose(fp)]: the stream is closed, and what was written to it is the file. *)
Definition fclose (fp : file_t) : cM logger (list byte) :=
  match fp with
  | None => undef NullDeref
  | Some f =>
      s ← get;
      match streams s !! f with
      | None => undef UseAfterFree
      | Some out => put (mk_logger (_default_log_stream s) (_default_log_level s) (delete f (streams s)));; mret out
      end
  end.

(** [answer]: what fopen returns for log_test.log.  The value: what main returns, and the file. *)
Definition logger_test_main (answer : file_t) : cM logger (Z * list byte) :=
  fp ← Console.fopen answer;
  setup_logger fp LOG_LEVEL_DEBUG;;
  LOGGING_FATAL "logger_test.c" 9 "main" "test 1 = %d %d" [AInt 123; AInt 456];;
  LOGGING_FATAL "logger_test.c" 10 "main" "test 2 = %s %d" [AStr (lit "tttttest"); AInt 555];;
  LOGGING_ERROR "logger_test.c" 11 "main" "test 3 = %s %s" [AStr (lit "hihi"); AStr (lit "hoho")];;
  LOGGING_WARN "logger_test.c" 12 "main" "test 4" [];;
  LOGGING_INFO "logger_test.c" 13 "main" "test 5" [];;
  LOGGING_DEBUG "logger_test.c" 14 "main" "test 6" [];;
  out ← fclose fp;
  mret (0, out).

Definition link_so_test_main : cM logger Z :=
  setup_logger None LOG_LEVEL_DEBUG;;
  LOGGING_DEBUG "link_so_test.c" 7 "main" "Test for linking .so" [];;
  LOGGING_INFO "link_so_test.c" 8 "main" "JUST A TEST" [];;
  mret 0.

(** ** What they write *)

(** The logger as main has set it up, with [out] in the stream so far. *)
Definition writing (fp : positive) (m : gmap positive (list byte)) (out : list byte) : logger :=
  mk_logger (Some fp) LOG_LEVEL_DEBUG (<[fp := out]> m).

Definition newline (l : list byte) : list byte := l ++ [Byte.x0a].

Section line.
Context (fp : positive) (m : gmap positive (list byte)).

(** One call appends its line. *)
Lemma logging_line level file line func fmt args body expected out :
  0 <= level < 5 → line ≠ 0 → format fmt args = Some body → no_nul body = true →
  no_nul (tail_of (lit file) line (lit func)) = true →
  (head_of level ++ body) ++ tail_of (lit file) line (lit func) = lit expected →
  Z.of_nat (length (lit expected)) < MSG_LEN →
  LOGGING level file line func fmt args (writing fp m out) = Done tt (writing fp m (out ++ newline (lit expected))).
Proof.
  intros Hlev Hline Hfmt Hnb Hnt Hexp Hlen. unfold LOGGING. rewrite bind_get. cbn [_default_log_stream writing].
  apply (log_msg_full (Some fp) level (lit file) line (lit func) fmt args body); try done.
  - unfold writing. cbn. unfold LOG_LEVEL_DEBUG. lia.
  - by rewrite Hexp.
  - rewrite Hexp. unfold appended, writing. cbn -[lit]. rewrite lookup_insert_eq. cbn -[lit]. by rewrite insert_insert_eq.
Qed.

End line.

Ltac log_line expected :=
  match goal with |- context [writing ?fp ?m ?out] =>
    match goal with |- (mbind ?k (LOGGING ?level ?file ?line ?func ?fmt ?args)) _ = _ =>
      rewrite (bind_done _ _ _ _ _ (logging_line fp m level file line func fmt args _ expected out
        ltac:(done) ltac:(done) ltac:(vm_compute; reflexivity) ltac:(vm_compute; reflexivity)
        ltac:(vm_compute; reflexivity) ltac:(vm_compute; reflexivity) ltac:(vm_compute; reflexivity)))
    end
  end.

Lemma fclose_ok fp m out :
  m !! fp = None → fclose (Some fp) (writing fp m out) = Done out (mk_logger (Some fp) LOG_LEVEL_DEBUG m).
Proof.
  intros Hm. unfold fclose, writing. rewrite bind_get. cbn [streams _default_log_stream _default_log_level].
  rewrite lookup_insert_eq. rewrite bind_put. by rewrite delete_insert_id.
Qed.

(** The lines of the test, and of the other program. *)
Definition test_lines : list string :=
  ["[FATAL] test 1 = 123 456   (logger_test.c:9:main)";
   "[FATAL] test 2 = tttttest 555   (logger_test.c:10:main)";
   "[ERROR] test 3 = hihi hoho   (logger_test.c:11:main)";
   "[WARN ] test 4   (logger_test.c:12:main)";
   "[INFO ] test 5   (logger_test.c:13:main)";
   "[DEBUG] test 6   (logger_test.c:14:main)"]%string.

Definition link_lines : list string :=
  ["[DEBUG] Test for linking .so   (link_so_test.c:7:main)"; "[INFO ] JUST A TEST   (link_so_test.c:8:main)"]%string.

Definition file_with (ls : list string) : list byte := ls ≫= λ l, newline (lit l).

(** The logger test leaves exactly its six lines in the log file, in order, with tags,
    texts and positions, and returns 0, and nothing on the standard error; when the file cannot
    be opened, the call of fclose on the null pointer is undefined. *)
Theorem logger_test_file fp :
  fp ≠ STDERR →
  logger_test_main (Some fp) logger_init
  = Done (0, file_with test_lines) (mk_logger (Some fp) LOG_LEVEL_DEBUG (streams logger_init)) ∧
  logger_test_main None logger_init = Undef NullDeref.
Proof.
  intros Hfp. split; [|vm_compute; reflexivity]. unfold logger_test_main.
  change (Console.fopen (Some fp) logger_init) with (Done (Some fp) (mk_logger None LOG_LEVEL_ERROR (<[fp := []]> (streams logger_init)))).
  rewrite (bind_done _ _ _ (Some fp) (mk_logger None LOG_LEVEL_ERROR (<[fp := []]> (streams logger_init)))) by done.
  rewrite (bind_done _ _ _ 0 (writing fp (streams logger_init) [])) by done.
  unfold LOGGING_FATAL, LOGGING_ERROR, LOGGING_WARN, LOGGING_INFO, LOGGING_DEBUG.
  log_line "[FATAL] test 1 = 123 456   (logger_test.c:9:main)"%string.
  log_line "[FATAL] test 2 = tttttest 555   (logger_test.c:10:main)"%string.
  log_line "[ERROR] test 3 = hihi hoho   (logger_test.c:11:main)"%string.
  log_line "[WARN ] test 4   (logger_test.c:12:main)"%string.
  log_line "[INFO ] test 5   (logger_test.c:13:main)"%string.
  log_line "[DEBUG] test 6   (logger_test.c:14:main)"%string.
  assert (Hm : streams logger_init !! fp = None) by by apply lookup_singleton_ne.
  rewrite (bind_done _ _ _ _ _ (fclose_ok fp _ _ Hm)).
  unfold mret, cM_ret. do 2 f_equal.
Qed.

Lemma logger_test_file_witness :
  logger_test_main (Some 2%positive) logger_init
  = Done (0, file_with test_lines) (mk_logger (Some 2%positive) LOG_LEVEL_DEBUG (streams logger_init)).
Proof. refine (proj1 (logger_test_file 2 _)). discriminate. Defined.

(** The program linked with the shared library writes its two lines to the standard error. *)
Theorem link_so_test_lines :
  ∃ s, link_so_test_main logger_init = Done 0 s ∧ streams s !! STDERR = Some (file_with link_lines).
Proof. eexists. split; vm_compute; reflexivity. Qed.
