(* ===== verification/Pc.v ===== *)
(** * One producer, one consumer: Pthread/producer_consumer.c

    The options, and the two threads around one array and one mutex semaphore: both poll.  A
    turn of a thread under the mutex is one step. *)

From Stdlib Require Import Ascii String.
From S2P Require Import Prelude CInt TransSys Threads Libc Logger Options.

Open Scope Z_scope.

(** ** Options *)

Record config := mk_config {
  log_file : option string;
  log_level : Z;
  buffer_capacity : Z;
}.

Definition config0 : config := mk_config None LOG_LEVEL_INFO 100.

Definition set_log_file (f : string) : cM config unit :=
  modify (λ c, mk_config (Some f) (log_level c) (buffer_capacity c)).
Definition set_log_level (l : Z) : cM config unit :=
  modify (λ c, mk_config (log_file c) l (buffer_capacity c)).
Definition set_capacity (n : Z) : cM config unit :=
  modify (λ c, mk_config (log_file c) (log_level c) n).

(** The switch of parse_commands; the case of the size runs into the one of the log file. *)
Definition handle (o : option_t) : cM config unit :=
  match o with
  | ("s"%char, Some arg) => n ← atoi_c arg; set_capacity (to_size n);; set_log_file arg
  | ("L"%char, Some arg) => set_log_file arg
  | ("s"%char, None) | ("L"%char, None) => undef NullDeref
  | ("l"%char, Some arg) => n ← atoi_c arg; set_log_level n
  | ("l"%char, None) => set_log_level LOG_LEVEL_INFO
  | _ => exit EXIT_FAILURE
  end.

Definition parse_commands (opts : list option_t) : cM config unit := each_option handle opts.

(** ** Data *)

(** The array is [None] when its malloc failed. *)
Record buf_t := mk_buf {
  capacity : Z;
  size : Z;
  data : option (list (option Z));
}.

Definition num_gen_per_loop : Z := 5.

(** The globals (with [num_gen], 800 in the program), the buffer, [None] when its malloc
    failed, whether the two threads have ended, and the numbers generated and read. *)
Record glob := mk_glob {
  cfg : config;
  num_gen : Z;
  num_has_gen : Z;
  num_has_read : Z;
  mutex : sem;
  buf : option buf_t;
  producer_ended : bool;
  consumer_ended : bool;
  generated : list Z;
  read : list Z;
}.

Definition set_mutex v g := mk_glob (cfg g) (num_gen g) (num_has_gen g) (num_has_read g) v (buf g)
  (producer_ended g) (consumer_ended g) (generated g) (read g).
Definition set_buf v g := mk_glob (cfg g) (num_gen g) (num_has_gen g) (num_has_read g) (mutex g) v
  (producer_ended g) (consumer_ended g) (generated g) (read g).
Definition set_cfg v g := mk_glob v (num_gen g) (num_has_gen g) (num_has_read g) (mutex g) (buf g)
  (producer_ended g) (consumer_ended g) (generated g) (read g).
Definition end_producer g := mk_glob (cfg g) (num_gen g) (num_has_gen g) (num_has_read g) (mutex g)
  (buf g) true (consumer_ended g) (generated g) (read g).
Definition end_consumer g := mk_glob (cfg g) (num_gen g) (num_has_gen g) (num_has_read g) (mutex g)
  (buf g) (producer_ended g) true (generated g) (read g).

(** Control points; the argument of [P_] is [total_gen_num]. *)
Inductive pc :=
  | M_start (opts : list option_t)
  | M_buf
  | M_data
  | M_sem
  | M_producer
  | M_consumer
  | M_join_consumer
  | M_join_producer
  | M_destroy
  | M_end (ret : Z)
  | P_loop (total : Z)
  | P_wait (total : Z)
  | P_body (total : Z)
  | P_post (total : Z)
  | P_exit
  | C_loop
  | C_wait
  | C_body
  | C_post
  | C_exit.

(** A request is granted or refused; the answers of rand: how many, and which numbers. *)
Inductive choice :=
  | Go
  | Refuse
  | Rand (z : Z) (contents : list Z).

(** ** The threads *)

(** The loop of lines 111-116: [n] numbers more. *)
Fixpoint generate (n : nat) (contents : list Z) (b : buf_t) : sres (list Z * buf_t) :=
  match n with
  | O => Next ([], b)
  | S n =>
      let idx := to_int (size b) in
      let content := rand_mod (hd 0 contents) 10 in
      match data b with
      | None => Wrong NullDeref
      | Some d =>
          if (0 <=? idx) && (idx <? Z.of_nat (length d)) then
            let b := mk_buf (capacity b) (to_size (size b + 1)) (Some (<[Z.to_nat idx := Some (Z.rem content 10)]> d)) in
            '(xs, b) ← generate n (tl contents) b;
            Next (Z.rem content 10 :: xs, b)
          else Wrong OutOfBounds
      end
  end.

Definition goto (p : pc) (g : glob) : sres (pc * glob * list pc) := Next (p, g, []).

Definition with_buf {A} (g : glob) (k : buf_t → sres A) : sres A :=
  match buf g with Some b => k b | None => Wrong NullDeref end.

Definition int_step (z : Z) : sres Z := if decide (is_int z) then Next z else Wrong SignedOverflow.

Definition on_mutex (f : sem → sres sem) (p : pc) (g : glob) :=
  m ← f (mutex g); goto p (set_mutex m g).

(** Lines 102-119; [MIN] compares as [size_t]. *)
Definition produce (total : Z) (c : choice) (g : glob) : sres (pc * glob * list pc) :=
  with_buf g (λ b,
    let room := to_size (capacity b - size b) in
    if 0 <? room then
      let '(z, contents) := match c with Rand z l => (z, l) | _ => (0, []) end in
      let num_to_gen := rand_mod z num_gen_per_loop in
      let num_to_gen := to_int (if room <? to_size num_to_gen then room else to_size num_to_gen) in
      if num_to_gen =? 0 then goto (P_post total) g
      else
        '(xs, b) ← generate (Z.to_nat num_to_gen) contents b;
        total ← int_step (total - num_to_gen);
        n ← int_step (num_has_gen g + num_to_gen);
        goto (P_post total)
          (mk_glob (cfg g) (num_gen g) n (num_has_read g) (mutex g) (Some b)
             (producer_ended g) (consumer_ended g) (generated g ++ xs) (read g))
    else goto (P_post total) g).

Definition producer_stuff (c : choice) (p : pc) (g : glob) : sres (pc * glob * list pc) :=
  match p with
  | P_loop total =>
      if 0 <? total then goto (P_wait total) g else goto P_exit (end_producer g)
  | P_wait total => on_mutex sem_wait (P_body total) g
  | P_body total => produce total c g
  | P_post total => on_mutex sem_post (P_loop total) g
  | _ => Blocked
  end.

(** Lines 132-136: the number that is logged is the one taken. *)
Definition consume (g : glob) : sres (pc * glob * list pc) :=
  with_buf g (λ b,
    if 0 <? size b then
      match data b with
      | None => Wrong NullDeref
      | Some d =>
          match d !! Z.to_nat (to_size (size b - 1)) with
          | None => Wrong OutOfBounds
          | Some None => Wrong Uninitialised
          | Some (Some x) =>
              n ← int_step (num_has_read g + 1);
              goto C_post
                (mk_glob (cfg g) (num_gen g) (num_has_gen g) n (mutex g)
                   (Some (mk_buf (capacity b) (to_size (size b - 1)) (data b)))
                   (producer_ended g) (consumer_ended g) (generated g) (read g ++ [x]))
          end
      end
    else goto C_post g).

Definition consumer_stuff (p : pc) (g : glob) : sres (pc * glob * list pc) :=
  match p with
  | C_loop =>
      if num_has_read g =? num_gen g then goto C_exit (end_consumer g) else goto C_wait g
  | C_wait => on_mutex sem_wait C_body g
  | C_body => consume g
  | C_post => on_mutex sem_post C_loop g
  | _ => Blocked
  end.

(** main; the producer starts with [total_gen_num = num_gen].  setup_configurations does not
    fail; the logger is left out here (see CommandLine). *)
Definition main_step (c : choice) (p : pc) (g : glob) : sres (pc * glob * list pc) :=
  let granted := match c with Refuse => false | _ => true end in
  match p with
  | M_start opts =>
      match parse_commands opts (cfg g) with
      | Done _ cf => goto M_buf (set_cfg cf g)
      | Undef u => Wrong u
      | Exited code _ => goto (M_end code) g
      | NoFuel => Blocked
      end
  | M_buf => if granted then goto M_data (set_buf (Some (mk_buf 0 0 None)) g) else Wrong NullDeref
  | M_data =>
      let n := buffer_capacity (cfg g) in
      let d := if granted && (to_size (sizeof_int * n) <=? PTRDIFF_MAX)
               then Some (replicate (Z.to_nat (to_size (sizeof_int * n) / sizeof_int)) None) else None in
      goto M_sem (set_buf (Some (mk_buf n 0 d)) g)
  | M_sem => goto M_producer (set_mutex (Some 1) g)
  | M_producer => if granted then Next (M_consumer, g, [P_loop (num_gen g)]) else goto (M_end EXIT_FAILURE) g
  | M_consumer => if granted then Next (M_join_consumer, g, [C_loop]) else goto (M_end EXIT_FAILURE) g
  | M_join_consumer => if consumer_ended g then goto M_join_producer g else Blocked
  | M_join_producer => if producer_ended g then goto M_destroy g else Blocked
  | M_destroy => goto (M_end 0) (set_mutex None g)
  | _ => Blocked
  end.

Definition is_producer (p : pc) : bool :=
  match p with P_loop _ | P_wait _ | P_body _ | P_post _ | P_exit => true | _ => false end.
Definition is_consumer (p : pc) : bool :=
  match p with C_loop | C_wait | C_body | C_post | C_exit => true | _ => false end.

#[export] Instance pcons : Threads choice pc glob := {
  exec c p g :=
    if is_producer p then producer_stuff c p g
    else if is_consumer p then consumer_stuff p g
    else main_step c p g;
  ended p := match p with M_end _ => true | _ => false end;
}.

Definition glob0 (n : Z) : glob := mk_glob config0 n 0 0 None None false false [] [].

Definition sys0 (n : Z) (opts : list option_t) : tsys pc glob := mk_tsys [M_start opts] (glob0 n).

(** [num_gen] is 800 in the program; nothing depends on that but its sign and size. *)
Definition NUM_GEN : Z := 800.

Definition pc_reachable (n : Z) (opts : list option_t) : tsys pc glob → Prop :=
  reachable (λ s, s = sys0 n opts) tstep.
