(* ===== verification/CommandLine.v ===== *)
(** * From argv to the configuration: Console/console_template.c and Pthread/producer_consumer.c

    The composition of getopt_long with the option tables of the two programs, their switches,
    and setup_configurations. *)

From Stdlib Require Import Ascii String.
From S2P Require Import Prelude CInt Format Libc Logger Options Getopt Pc.

Open Scope Z_scope.

(** The words behind the name of the program; [posixly]: whether the first operand ends the
    options. *)

Module Template.

Definition long_options : list long_option :=
  [mk_long "log-file" required_argument "L";
   mk_long "log-level" optional_argument "l";
   mk_long "display" no_argument "d";
   mk_long "help" no_argument "h"].

Definition short_options : string := "L:l::dh".

Definition parse_commands (posixly : bool) (argv : list string) : cM Console.globals unit :=
  each_answer short_options long_options posixly Console.handle argv.

Definition main (posixly : bool) (argv : list string) (answer : string → file_t) : cM Console.globals Z :=
  parse_commands posixly argv;; Console.setup_configurations answer;; mret 0.

(** The answer for an option -l whose number is not an [int]. *)
Definition too_large (o : option_t) : bool :=
  match o with ("l"%char, Some v) => negb (bool_decide (is_int (atoi_value v))) | _ => false end.

(** The answers of getopt_long for these tables are known to the switch, unknown, or such a number:
    an option -L always comes with its argument. *)
Lemma answer_cases posixly argv :
  Forall (λ o, Console.known o = true ∨ Console.unknown o = true ∨ too_large o = true)
    (getopt_long short_options long_options posixly argv).1.
Proof.
  eapply Forall_impl; [apply answers_bare|]. intros [c a] Hb. unfold Console.unknown, too_large. cbn [fst].
  destruct (decide (c = "L"%char)) as [->|H1].
  { left. destruct a as [a|]; [done|]. exfalso. destruct (Hb eq_refl) as [H|[(k & Hk & Hne)|(lo & Hf & Hv & Hne)]]; [done|..].
    - injection Hk as <-. done.
    - apply List.find_some in Hf as [Hin _]. cbn in Hv.
      repeat (destruct Hin as [<-|Hin]; [first [done|discriminate Hv]|]). done. }
  destruct (decide (c = "l"%char)) as [->|H2].
  { destruct a as [v|]; [|by left]. cbn. destruct (bool_decide (is_int (atoi_value v))); [by left|by right; right]. }
  right. left. by rewrite !bool_decide_false.
Qed.

Lemma handle_too_large o g : too_large o = true → Console.handle o g = Undef SignedOverflow.
Proof.
  destruct o as [c [v|]]; destruct c as [[] [] [] [] [] [] [] []]; try done. cbn -[is_int atoi_value].
  intros Hv%negb_true_iff%bool_decide_eq_false. apply bind_undef. unfold atoi_c, int_result. by rewrite decide_False.
Qed.

(** The first answer that the switch cannot use. *)
Lemma answers_split os :
  Forall (λ o, Console.known o = true ∨ Console.unknown o = true ∨ too_large o = true) os →
  forallb Console.known os = true ∨
  ∃ opts o rest, os = opts ++ o :: rest ∧ forallb Console.known opts = true ∧
    (Console.unknown o = true ∨ too_large o = true).
Proof.
  induction 1 as [|o os Ho Hos IH]; [by left|]. destruct (Console.known o) eqn:Hk.
  - destruct IH as [IH|(opts & o' & rest & -> & Hopts & Ho')]; [left; cbn; by rewrite Hk|].
    right. exists (o :: opts), o', rest. cbn. by rewrite Hk.
  - right. exists [], o, os. split_and!; [done|done|]. by destruct Ho.
Qed.

Lemma known_not_question os : forallb Console.known os = true → unknown_option ∉ os.
Proof. intros H Hin. rewrite forallb_forall in H. by specialize (H _ (proj1 (list_elem_of_In _ _) Hin)). Qed.

(** C39: what every command line comes to.  There are four outcomes, and each command line has one
    of them.  Words that spell known options configure the logger by the last option of each kind, and main
    returns 0; the first answer that the switch does not know, such as that for -h, -d or an unknown
    letter, prints the usage once and ends with EXIT_FAILURE; a number behind -l that is not an
    [int] overflows in atoi; a long name that is not in the table is searched behind it. *)
Theorem template_command_line posixly argv answer :
  let answers := getopt_long short_options long_options posixly argv in
  let result := main posixly argv answer Console.globals0 in
  ((∃ opts, spelled short_options long_options posixly opts argv ∧ forallb Console.known opts = true) ∨
   (∃ opts o rest, answers.1 = opts ++ o :: rest ∧ forallb Console.known opts = true ∧ Console.unknown o = true) ∨
   (∃ opts o rest, answers.1 = opts ++ o :: rest ∧ forallb Console.known opts = true ∧ too_large o = true) ∨
   (forallb Console.known answers.1 = true ∧ answers.2 = true)) ∧
  (∀ opts, spelled short_options long_options posixly opts argv → forallb Console.known opts = true →
     ∃ g, result = Done 0 g ∧
       _default_log_level (Console.lg g) = Console.last_of Console.level_of LOG_LEVEL_ERROR opts ∧
       _default_log_stream (Console.lg g) =
         Some (match Console.last_of Console.some_file None opts with Some f => default STDERR (answer f) | None => STDERR end)) ∧
  (∀ opts o rest, answers.1 = opts ++ o :: rest → forallb Console.known opts = true → Console.unknown o = true →
     ∃ g, result = Exited EXIT_FAILURE g ∧ Console.usages g = 1%nat ∧ Console.lg g = logger_init) ∧
  (∀ opts o rest, answers.1 = opts ++ o :: rest → forallb Console.known opts = true → too_large o = true →
     result = Undef SignedOverflow) ∧
  (forallb Console.known answers.1 = true → answers.2 = true → result = Undef OutOfBounds).
Proof.
  intros answers result. unfold result, main, parse_commands, each_answer. fold answers. split_and!.
  - destruct (answers_split answers.1 (answer_cases posixly argv)) as [Hk|(opts & o & rest & Ha & Hk & [Hu|Hl])].
    + destruct answers.2 eqn:Hp; [by right; right; right|]. left. exists answers.1. split; [|done].
      apply spelled_getopt; [by apply known_not_question|done].
    + right. left. by exists opts, o, rest.
    + right. right. left. by exists opts, o, rest.
  - intros opts Hs Hk. apply getopt_spelled in Hs; [|done]. destruct (Console.console_main opts answer Hk) as (g & Hm & Hl & Hst & _).
    exists g. rewrite Hst, Hl. split_and!; [|done|by destruct (Console.last_of Console.some_file None opts)].
    unfold answers. rewrite Hs. cbn [fst snd negb]. rewrite <- Hm. unfold Console.main, Console.parse_commands.
    by rewrite !bind_assoc, (bind_done _ _ _ _ _ (Console.parse_known opts _ Hk)), (bind_done _ _ _ _ _ (Console.parse_known opts _ Hk)).
  - intros opts o rest Ha Hk Hu. rewrite Ha. eexists. unfold mbind, cM_bind.
    rewrite (each_option_app _ _ _ _ _ (Console.parse_known opts _ Hk)). cbn [each_option]. unfold mbind, cM_bind.
    by rewrite (Console.handle_unknown _ _ Hu).
  - intros opts o rest Ha Hk Hl. rewrite Ha. unfold mbind, cM_bind.
    rewrite (each_option_app _ _ _ _ _ (Console.parse_known opts _ Hk)). cbn [each_option]. unfold mbind, cM_bind.
    by rewrite (handle_too_large _ _ Hl).
  - intros Hk Hp. apply bind_undef. rewrite (bind_done _ _ _ _ _ (Console.parse_known _ _ Hk)). by rewrite Hp.
Qed.

Lemma template_command_line_witness :
  (∃ g, main false ["-l4"; "--log-file=a"]%string (λ _, Some 2%positive) Console.globals0 = Done 0 g ∧
     _default_log_level (Console.lg g) = 4 ∧ _default_log_stream (Console.lg g) = Some 2%positive) ∧
  (∃ g, main true ["-lh"; "--help"]%string (λ _, None) Console.globals0 = Exited EXIT_FAILURE g ∧ Console.usages g = 1%nat ∧
     Console.lg g = logger_init) ∧
  main true ["-L"; "a"; "-l99999999999"]%string (λ _, None) Console.globals0 = Undef SignedOverflow ∧
  main false ["-l"; "--verbose"]%string (λ _, None) Console.globals0 = Undef OutOfBounds.
Proof.
  split_and!.
  - refine (proj1 (proj2 (template_command_line false ["-l4"; "--log-file=a"]%string (λ _, Some 2%positive)))
      [("l"%char, Some "4"%string); ("L"%char, Some "a"%string)] _ _); [|reflexivity].
    apply (spelled_short _ _ false [("l"%char, Some "4"%string)] "l4" [] [("L"%char, Some "a"%string)]).
    { by apply (short_joined _ "l" optional_argument "4"). }
    apply (spelled_long _ _ false _ "log-file=a" [] [] []); [done| |constructor].
    by apply (long_joined _ (mk_long "log-file" required_argument "L")).
  - refine (proj1 (proj2 (proj2 (template_command_line true ["-lh"; "--help"]%string (λ _, None))))
      [("l"%char, Some "h"%string)] ("h"%char, None) [] _ _ _); reflexivity.
  - refine (proj1 (proj2 (proj2 (proj2 (template_command_line true ["-L"; "a"; "-l99999999999"]%string (λ _, None)))))
      [("L"%char, Some "a"%string)] ("l"%char, Some "99999999999"%string) [] _ _ _); by vm_compute.
  - refine (proj2 (proj2 (proj2 (proj2 (template_command_line false ["-l"; "--verbose"]%string (λ _, None))))) _ _); reflexivity.
Defined.

(** Some command lines. *)
Example template_examples :
  let run argv := main false argv (λ _, Some 2%positive) Console.globals0 in
  let show o := match o with
                | Done r g => Some (r, _default_log_level (Console.lg g), _default_log_stream (Console.lg g))
                | Exited r _ => Some (r, 0, None)
                | _ => None
                end in
  show (run ["-l4"; "--log-file=a"; "x"])%string = Some (0, 4, Some 2%positive) ∧
  show (run ["-L"; "a"; "-l"; "--"; "-h"])%string = Some (0, LOG_LEVEL_INFO, Some 2%positive) ∧
  show (run ["-dl4"])%string = Some (EXIT_FAILURE, 0, None) ∧
  run ["-l99999999999"]%string = Undef SignedOverflow ∧
  run ["--verbose"]%string = Undef OutOfBounds ∧ run ["--log-f"; "a"]%string = Undef OutOfBounds.
Proof. by vm_compute. Qed.

End Template.

Module Polling.

Definition long_options : list long_option :=
  [mk_long "size" required_argument "s";
   mk_long "log-file" required_argument "L";
   mk_long "log-level" optional_argument "l";
   mk_long "display" no_argument "d";
   mk_long "help" no_argument "h"].

Definition short_options : string := "L:l::dh".

(** The configuration, the logger, and the standard output. *)
Record start_t := mk_start { cfg : config; lg : logger; out : list byte }.

Definition usage_lines : list string :=
  ["Usage %s [OPTION]...";
   "This is a console template";
   "";
   "[OPTION]";
   "   -s, --size <value>              Specify buffer size by given <value>";
   "   -L, --log-file <filename>       Redirect logging stream to the specified file";
   "   -l, --log-level [<level>]       Set the level of logging to <level>. If not specify <level>,";
   "                                   the level of logging will be set to LOG_LEVEL_INFO.";
   "   -d, --display                   Display the configurations";
   "   -h, --help                      Show this help text"].

Definition usage_format : list byte := usage_lines ≫= λ l, lit l ++ [Byte.x0a].

Definition print_usage (program_name : list byte) : cM start_t unit := λ s,
  match format_from None usage_format [AStr program_name] with
  | Some text => Done tt (mk_start (cfg s) (lg s) (out s ++ text))
  | None => Undef Uninitialised
  end.

(** The switch, with the usage text where it gives up. *)
Definition handle (program_name : list byte) (o : option_t) : cM start_t unit := λ s,
  match Pc.handle o (cfg s) with
  | Done a c => Done a (mk_start c (lg s) (out s))
  | Undef u => Undef u
  | Exited code c => (print_usage program_name;; exit code) (mk_start c (lg s) (out s))
  | NoFuel => NoFuel
  end.

Definition parse_commands (posixly : bool) (program_name : list byte) (argv : list string) : cM start_t unit :=
  each_answer short_options long_options posixly (handle program_name) argv.

(** A computation of the logger inside of the program. *)
Definition with_logger {A} (m : cM logger A) : cM start_t A := λ s,
  match m (lg s) with
  | Done a l => Done a (mk_start (cfg s) l (out s))
  | Undef u => Undef u
  | Exited c l => Exited c (mk_start (cfg s) l (out s))
  | NoFuel => NoFuel
  end.

Definition setup_configurations (answer : string → file_t) : cM start_t unit :=
  s ← get;
  log_fd ← match log_file (cfg s) with
           | Some f => with_logger (Console.fopen (answer f))
           | None => mret None
           end;
  r ← with_logger (setup_logger log_fd (log_level (cfg s)));
  if r =? 0 then mret tt else exit EXIT_FAILURE.

(** main up to the allocation of the buffer. *)
Definition start_up (posixly : bool) (program_name : list byte) (argv : list string) (answer : string → file_t) : cM start_t unit :=
  parse_commands posixly program_name argv;; setup_configurations answer.

Definition start0 : start_t := mk_start config0 logger_init [].

Lemma usage_text program_name :
  ∃ text, format_from None usage_format [AStr program_name] = Some text.
Proof. eexists. vm_compute. reflexivity. Qed.

Lemma handle_size program_name n s :
  is_int (atoi_value n) →
  handle program_name ("s"%char, Some n) s
  = Done tt (mk_start (mk_config (Some n) (log_level (cfg s)) (to_size (atoi_value n))) (lg s) (out s)).
Proof. intros Hn. unfold handle. cbn -[atoi_value to_size]. unfold atoi_c. by rewrite (bind_done _ _ _ _ _ (int_result_ok _ _ Hn)). Qed.

(** An option that is not in the tables. *)
Lemma handle_unlisted program_name s :
  ∃ text, handle program_name unknown_option s = Exited EXIT_FAILURE (mk_start (cfg s) (lg s) (out s ++ text)) ∧
    format_from None usage_format [AStr program_name] = Some text.
Proof.
  destruct (usage_text program_name) as [text Ht]. exists text. split; [|done]. unfold handle. cbn -[print_usage].
  rewrite (bind_done _ _ _ tt (mk_start (cfg s) (lg s) (out s ++ text))); [done|]. unfold print_usage. by rewrite Ht.
Qed.

(** The size of the buffer on the command line.  The usage text offers -s, which is not in the
    string of the short options: it prints the usage and ends with EXIT_FAILURE.  The long option
    sets the size, and also redirects the log to a file named like the number. *)
Theorem polling_size posixly program_name n rest answer :
  is_int (atoi_value n) →
  (∃ s, start_up posixly program_name ["--size"; n]%string answer start0 = Done tt s ∧
     cfg s = mk_config (Some n) LOG_LEVEL_INFO (to_size (atoi_value n)) ∧
     _default_log_stream (lg s) = Some (default STDERR (answer n)) ∧ out s = []) ∧
  (∃ s, start_up posixly program_name ("-s"%string :: rest) answer start0 = Exited EXIT_FAILURE s ∧
     cfg s = config0 ∧ lg s = logger_init ∧
     format_from None usage_format [AStr program_name] = Some (out s)).
Proof.
  intros Hn. unfold start_up, parse_commands, each_answer. split.
  - change (getopt_long _ _ _ ["--size"; n]%string) with ([("s"%char, Some n)], false). cbn [fst snd negb each_option].
    unfold setup_configurations, with_logger, Console.fopen.
    destruct (answer n) as [fp|] eqn:Ha; eexists;
      (split; [rewrite !bind_assoc, (bind_done _ _ _ _ _ (handle_size program_name n start0 Hn)); crun; cbn; rewrite ?Ha; cbn; reflexivity|by split_and!]).
  - destruct (handle_unlisted program_name start0) as (text & Hh & Ht). eexists.
    pose proof (getopt_word short_options long_options posixly "-s" [] rest [unknown_option] eq_refl) as Hw.
    cbn [app] in Hw. rewrite Hw by (cbn; lia).
    cbn [fst each_option]. unfold mbind, cM_bind. rewrite Hh. by split_and!.
Qed.

Lemma polling_size_witness :
  (∃ s, start_up false (lit "pc") ["--size"; "20"]%string (λ _, None) start0 = Done tt s ∧
     cfg s = mk_config (Some "20"%string) LOG_LEVEL_INFO 20 ∧
     _default_log_stream (lg s) = Some STDERR ∧ out s = []) ∧
  (∃ s, start_up false (lit "pc") ["-s"; "20"]%string (λ _, None) start0 = Exited EXIT_FAILURE s ∧
     cfg s = config0 ∧ lg s = logger_init ∧ format_from None usage_format [AStr (lit "pc")] = Some (out s)).
Proof. refine (polling_size false (lit "pc") "20" ["20"%string] (λ _, None) _). by vm_compute. Defined.

End Polling.
