(* ===== verification/PcProps.v ===== *)
(** * One producer, one consumer: invariants and properties

    Memory safety, what the two threads come to, freedom from deadlock, and what the options
    really do. *)

From Stdlib Require Import ZifyBool Ascii String.
From S2P Require Import Prelude CInt TransSys Threads Libc Logger Options Pc.

Open Scope Z_scope.

(** ** The invariant *)

(** The array holds [items]; without memory nothing is ever generated. *)
Definition mem_ok (b : buf_t) (items : list Z) : Prop :=
  match data b with
  | Some d => 0 <= capacity b <= INT_MAX ∧ Z.of_nat (length d) = capacity b ∧
              take (Z.to_nat (size b)) d = Some <$> items ∧ size b <= capacity b
  | None => items = [] ∧ 0 <= capacity b <= SIZE_MAX
  end.

Record run_ok (n : Z) (g : glob) : Prop := {
  r_num : num_gen g = n;
  r_read : 0 <= num_has_read g <= n;
  r_gen : num_has_read g <= num_has_gen g <= n + 3;
  r_generated : Z.of_nat (length (generated g)) = num_has_gen g;
  r_readl : Z.of_nat (length (read g)) = num_has_read g;
  r_buf : ∃ b items, buf g = Some b ∧ mem_ok b items ∧ size b = Z.of_nat (length items) ∧
    generated g ≡ₚ read g ++ items ∧ (capacity b = 0 → num_has_gen g = 0);
}.

Definition holds (p : pc) : bool :=
  match p with P_body _ | P_post _ | C_body | C_post => true | _ => false end.

Definition p_ok (n : Z) (g : glob) (p : pc) : Prop :=
  match p with
  | P_loop t | P_post t => t = n - num_has_gen g ∧ producer_ended g = false
  | P_wait t | P_body t => t = n - num_has_gen g ∧ 0 < t ∧ producer_ended g = false
  | P_exit => n <= num_has_gen g ∧ producer_ended g = true
  | _ => False
  end.

Definition c_ok (n : Z) (g : glob) (p : pc) : Prop :=
  match p with
  | C_loop | C_post => consumer_ended g = false
  | C_wait | C_body => num_has_read g < n ∧ consumer_ended g = false
  | C_exit => num_has_read g = n ∧ consumer_ended g = true
  | _ => False
  end.

(** Before the threads exist. *)
Definition start_ok (n : Z) (g : glob) (m : pc) : Prop :=
  match m with
  | M_start _ => cfg g = config0 ∧ buf g = None
  | M_buf => buf g = None ∧ ∃ z, is_int z ∧ buffer_capacity (cfg g) = to_size z
  | M_data => ∃ z, is_int z ∧ buffer_capacity (cfg g) = to_size z
  | M_sem | M_producer =>
      ∃ b, buf g = Some b ∧ mem_ok b [] ∧ size b = 0 ∧ (m = M_producer → mutex g = Some 1)
  | M_end r => r ≠ 0
  | _ => False
  end.

Definition blank (n : Z) (g : glob) : Prop :=
  num_gen g = n ∧ num_has_gen g = 0 ∧ num_has_read g = 0 ∧ generated g = [] ∧ read g = [] ∧
  producer_ended g = false ∧ consumer_ended g = false ∧
  ∀ b d, buf g = Some b → data b = Some d → mem_ok b [] ∧ size b = 0.

(** Main after it has created the threads. *)
Definition main_ok (g : glob) (m : pc) : Prop :=
  match m with
  | M_join_consumer => True
  | M_join_producer => consumer_ended g = true
  | M_destroy | M_end 0 => consumer_ended g = true ∧ producer_ended g = true
  | _ => False
  end.

Definition mutex_ok (m : pc) (hp hc : bool) (g : glob) : Prop :=
  m = M_end 0 ∨ (mutex g = Some (1 - Z.b2z hp - Z.b2z hc) ∧ (hp && hc = false)).

Definition inv (n : Z) (s : tsys pc glob) : Prop :=
  let g := shared s in
  match pcs s with
  | [m] => start_ok n g m ∧ blank n g
  | [m; p] => (m = M_consumer ∨ m = M_end EXIT_FAILURE) ∧ run_ok n g ∧ p_ok n g p ∧ num_has_read g = 0 ∧
      consumer_ended g = false ∧ mutex_ok m (holds p) false g
  | [m; p; c] => main_ok g m ∧ run_ok n g ∧ p_ok n g p ∧ c_ok n g c ∧ mutex_ok m (holds p) (holds c) g
  | _ => False
  end.

(** ** Options *)

Lemma parse_capacity opts cf cf' :
  (∃ z, is_int z ∧ buffer_capacity cf = to_size z) → parse_commands opts cf = Done tt cf' →
  ∃ z, is_int z ∧ buffer_capacity cf' = to_size z.
Proof.
  unfold parse_commands. revert cf. induction opts as [|[o a] opts IH]; intros cf Hc H; [by injection H as <-|].
  cbn [each_option] in H. unfold mbind, cM_bind in H. destruct (handle (o, a) cf) as [[] c1| | |] eqn:Hh; try done.
  eapply IH; [|done]. clear H IH. destruct o as [[] [] [] [] [] [] [] []]; try done; destruct a as [a|]; try done;
    cbn -[int_result atoi_value] in Hh; unfold atoi_c, set_capacity, set_log_file, set_log_level, modify in Hh.
  all: revert Hh; crun; unfold int_result; try (case_decide; [|done]); crun; intros [= <-]; cbn; try done.
  by eexists.
Qed.

Lemma parse_exited opts cf code cf' : parse_commands opts cf = Exited code cf' → code = EXIT_FAILURE.
Proof.
  unfold parse_commands. revert cf. induction opts as [|[o a] opts IH]; intros cf H; [done|].
  cbn [each_option] in H. unfold mbind, cM_bind in H. destruct (handle (o, a) cf) as [[] c1| |x y|] eqn:Hh; try done.
  - by eapply IH.
  - destruct o as [[] [] [] [] [] [] [] []]; simplify_eq; try (by injection Hh); destruct a as [a|];
      cbn -[int_result atoi_value] in Hh; unfold atoi_c, set_capacity, set_log_file, set_log_level, modify in Hh;
      revert Hh; crun; unfold int_result; try (case_decide); crun; intros; by simplify_eq.
Qed.

(** ** The code under the mutex *)

Lemma generate_run k contents b d items :
  data b = Some d → Z.of_nat (length d) = capacity b → take (Z.to_nat (size b)) d = Some <$> items →
  size b = Z.of_nat (length items) → size b + Z.of_nat k <= capacity b → capacity b <= INT_MAX →
  ∃ xs d', generate k contents b = Next (xs, mk_buf (capacity b) (size b + Z.of_nat k) (Some d')) ∧
    length xs = k ∧ length d' = length d ∧
    take (Z.to_nat (size b + Z.of_nat k)) d' = Some <$> (items ++ xs) ∧ Forall (λ x, 0 <= x < 10) xs.
Proof.
  revert contents b d items. induction k as [|k IH]; intros contents b d items Hd Hl Ht Hs Hc Hm.
  - exists [], d. destruct b as [c sz da]. cbn in *. subst. rewrite Z.add_0_r, app_nil_r. by split_and!.
  - cbn [generate]. rewrite Hd. rewrite to_int_id by (int_unfold; lia).
    assert (((0 <=? size b) && (size b <? Z.of_nat (length d)))%bool = true) as -> by lia.
    rewrite to_size_id by (int_unfold; lia). pose proof (rand_mod_bound (hd 0 contents) 10 ltac:(lia)) as Hb.
    rewrite Z.rem_small by done. set (x := rand_mod (hd 0 contents) 10) in *.
    destruct (IH (tl contents) (mk_buf (capacity b) (size b + 1) (Some (<[Z.to_nat (size b) := Some x]> d)))
      (<[Z.to_nat (size b) := Some x]> d) (items ++ [x])) as (xs & d' & Hr & Hlx & Hld & Htk & Hf); cbn; try done.
    + by rewrite length_insert.
    + replace (Z.to_nat (size b + 1)) with (S (Z.to_nat (size b))) by lia.
      rewrite fmap_app, <- Ht. rewrite (take_S_r _ _ (Some x)); [by rewrite take_insert_ge|].
      rewrite list_lookup_insert_eq; [done|lia].
    + rewrite length_app. cbn. lia.
    + lia.
    + cbn [size capacity data] in Hr, Htk. exists (x :: xs), d'. rewrite Hr. cbn. rewrite length_insert in Hld.
      replace (size b + 1 + Z.of_nat k) with (size b + Z.of_nat (S k)) in * by lia.
      split_and!; [done|by rewrite Hlx|done|by rewrite Htk, <- app_assoc|by constructor].
Qed.

(** What a turn of the producer does. *)
Lemma pc_produce_run n g c total p' g' new :
  run_ok n g → 0 <= n <= INT_MAX - 3 → total = n - num_has_gen g → 0 < total →
  produce total c g = Next (p', g', new) →
  new = [] ∧ run_ok n g' ∧ p' = P_post (n - num_has_gen g') ∧ num_has_read g' = num_has_read g ∧
  mutex g' = mutex g ∧ producer_ended g' = producer_ended g ∧ consumer_ended g' = consumer_ended g.
Proof.
  intros [Hn Hrd Hge Hgl Hrl (b & items & Hb & Hm & Hs & Hp & Hz)] Hnn -> Ht. unfold produce, with_buf. rewrite Hb.
  destruct (Z.ltb_spec 0 (to_size (capacity b - size b))) as [Hroom|Hroom].
  2: { unfold goto. intros. simplify_eq. split_and!; try done. split; try done. by exists b, items. }
  set (zc := match c with Rand z l => (z, l) | _ => (0, []) end). destruct zc as [z contents].
  pose proof (rand_mod_bound z num_gen_per_loop ltac:(done)) as Hr5. unfold num_gen_per_loop in *.
  rewrite (to_size_id (rand_mod z 5)) by (int_unfold; lia).
  set (room := to_size (capacity b - size b)) in *.
  set (k := if room <? rand_mod z 5 then room else rand_mod z 5).
  assert (Hk : 0 <= k <= 4 ∧ k <= room) by (unfold k; destruct (Z.ltb_spec room (rand_mod z 5)); lia).
  rewrite to_int_id by (int_unfold; lia).
  destruct (Z.eqb_spec k 0) as [Hk0|Hk0].
  { unfold goto. intros. simplify_eq. split_and!; try done. split; try done. by exists b, items. }
  unfold mem_ok in Hm. destruct (data b) as [d|] eqn:Hd.
  2: { destruct (Z.to_nat k) eqn:Hkn; [lia|]. cbn [generate]. by rewrite Hd. }
  destruct Hm as (Hc & Hl & Htk & Hsc).
  assert (room = capacity b - size b) as Hrm by (apply to_size_id; int_unfold; lia).
  destruct (generate_run (Z.to_nat k) contents b d items) as (xs & d' & Hrun & Hlx & Hld & Htk' & _); try done; [lia..|].
  rewrite Hrun. unfold int_step. rewrite !decide_True by (int_unfold; lia). unfold goto. cbn. intros. simplify_eq.
  rewrite Z2Nat.id in * by lia.
  split_and!; try done; [|f_equal; cbn; lia].
  split; cbn; rewrite ?length_app; try lia.
  eexists _, (items ++ xs). split_and!; [done| | | |cbn; lia]; cbn.
  - unfold mem_ok. cbn. split_and!; [lia|lia|congruence|exact Htk'|lia].
  - rewrite length_app. lia.
  - by rewrite Hp, app_assoc.
Qed.

Lemma pc_consume_run n g p' g' new :
  run_ok n g → num_has_read g < n → n <= INT_MAX - 3 → consume g = Next (p', g', new) →
  new = [] ∧ run_ok n g' ∧ p' = C_post ∧ num_has_gen g' = num_has_gen g ∧ num_has_read g' <= n ∧
  mutex g' = mutex g ∧ producer_ended g' = producer_ended g ∧ consumer_ended g' = consumer_ended g.
Proof.
  intros [Hn Hrd Hge Hgl Hrl (b & items & Hb & Hm & Hs & Hp & Hz)] Hlt Hnn. unfold consume, with_buf. rewrite Hb.
  destruct (Z.ltb_spec 0 (size b)) as [Hsz|Hsz].
  2: { unfold goto. intros. simplify_eq. split_and!; try done; try lia. split; try done. by exists b, items. }
  unfold mem_ok in Hm. destruct (data b) as [d|] eqn:Hd; [|done]. destruct Hm as (Hc & Hl & Htk & Hsc).
  destruct items as [|x items _] using rev_ind; [cbn in Hs; lia|]. rewrite length_app in Hs. cbn in Hs.
  rewrite to_size_id by (int_unfold; lia).
  assert (d !! Z.to_nat (size b - 1) = Some (Some x)) as ->.
  { rewrite <- (lookup_take_lt d (Z.to_nat (size b))) by lia. rewrite Htk, fmap_app.
    rewrite lookup_app_r by (rewrite length_fmap; lia). rewrite length_fmap.
    replace (Z.to_nat (size b - 1) - length items)%nat with 0%nat by lia. done. }
  unfold int_step. rewrite decide_True by (int_unfold; lia). unfold goto. cbn. intros. simplify_eq.
  pose proof (Permutation_length Hp) as Hpl. rewrite !length_app in Hpl. cbn in Hpl.
  split_and!; try done; [|cbn; lia]. split; cbn; rewrite ?length_app; cbn; try lia.
  eexists _, items. split_and!; [done| | | |done]; cbn.
  - unfold mem_ok. cbn. split_and!; [lia|lia|done| |lia].
    replace (Z.to_nat (size b - 1)) with (length items) by lia.
    assert (Hti : take (length items) (take (Z.to_nat (size b)) d) = Some <$> items).
    { by rewrite Htk, fmap_app, take_app_le, take_ge by (rewrite length_fmap; lia). }
    rewrite take_take, Nat.min_l in Hti by lia. done.
  - lia.
  - rewrite Hp. solve_Permutation.
Qed.

(** ** Every step keeps the invariant *)

Lemma run_ok_mutex n g v : run_ok n g → run_ok n (set_mutex v g).
Proof. by intros []. Qed.

Lemma wait_mutex p g p' g' new h :
  on_mutex sem_wait p g = Next (p', g', new) → mutex g = Some (1 - h) → 0 <= h <= 1 →
  p' = p ∧ new = [] ∧ h = 0 ∧ g' = set_mutex (Some (1 - 1)) g.
Proof.
  unfold on_mutex, goto. intros H Hm Hh. rewrite Hm in H. unfold sem_wait in H.
  destruct (Z.eqb_spec (1 - h) 0); [done|]. cbn in H. assert (h = 0) as -> by lia. by simplify_eq.
Qed.

Lemma post_mutex p g p' g' new :
  on_mutex sem_post p g = Next (p', g', new) → mutex g = Some (1 - 1) →
  p' = p ∧ new = [] ∧ g' = set_mutex (Some 1) g.
Proof. unfold on_mutex, goto. intros H Hm. rewrite Hm in H. cbn in H. by simplify_eq. Qed.

Lemma producer_step n c p g p' g' new hc :
  0 <= n <= INT_MAX - 3 → run_ok n g → p_ok n g p →
  mutex g = Some (1 - Z.b2z (holds p) - Z.b2z hc) → holds p && hc = false →
  producer_stuff c p g = Next (p', g', new) →
  new = [] ∧ run_ok n g' ∧ p_ok n g' p' ∧ mutex g' = Some (1 - Z.b2z (holds p') - Z.b2z hc) ∧
  holds p' && hc = false ∧ num_has_read g' = num_has_read g ∧ consumer_ended g' = consumer_ended g ∧
  (producer_ended g = true → producer_ended g' = true).
Proof.
  intros Hn HR Hp Hm Hh He. destruct p; try done; cbn -[Z.ltb] in He, Hp, Hm, Hh.
  - destruct Hp as [-> Hend]. destruct (Z.ltb_spec 0 (n - num_has_gen g)); unfold goto in He; simplify_eq.
    + by split_and!.
    + pose proof (r_gen _ _ HR). split_and!; try done; [by destruct HR|cbn; split; [lia|done]].
  - destruct Hp as (-> & Ht & Hend).
    apply (wait_mutex _ _ _ _ _ (Z.b2z hc)) in He as (-> & -> & H0 & ->); [|by rewrite Hm; f_equal; lia|by destruct hc].
    destruct hc; [done|]. split_and!; try done. by apply run_ok_mutex.
  - destruct Hp as (-> & Ht & Hend).
    destruct (pc_produce_run _ _ _ _ _ _ _ HR Hn eq_refl Ht He) as (-> & HR' & -> & H1 & H2 & H3 & H4).
    cbn. rewrite H2, Hm, H3, H4. by split_and!.
  - destruct Hp as [-> Hend]. cbn in Hh. subst hc. change (1 - 1 - 0) with (1 - 1) in Hm.
    apply post_mutex in He as (-> & -> & ->); [|done]. split_and!; try done. by apply run_ok_mutex.
Qed.

Lemma consumer_step n c g c' g' new hp :
  n <= INT_MAX - 3 → run_ok n g → c_ok n g c →
  mutex g = Some (1 - Z.b2z hp - Z.b2z (holds c)) → hp && holds c = false →
  consumer_stuff c g = Next (c', g', new) →
  new = [] ∧ run_ok n g' ∧ c_ok n g' c' ∧ mutex g' = Some (1 - Z.b2z hp - Z.b2z (holds c')) ∧
  hp && holds c' = false ∧ num_has_gen g' = num_has_gen g ∧ producer_ended g' = producer_ended g ∧
  (consumer_ended g = true → consumer_ended g' = true).
Proof.
  intros Hn HR Hp Hm Hh He. destruct c; try done; cbn -[Z.eqb] in He, Hp, Hm, Hh.
  - pose proof (r_num _ _ HR) as Hnum. pose proof (r_read _ _ HR).
    destruct (Z.eqb_spec (num_has_read g) (num_gen g)); unfold goto in He; simplify_eq.
    + split_and!; try done; try apply andb_false_r; by destruct HR.
    + split_and!; try done; try apply andb_false_r. cbn. lia.
  - destruct Hp as (Ht & Hend).
    apply (wait_mutex _ _ _ _ _ (Z.b2z hp)) in He as (-> & -> & H0 & ->); [|by rewrite Hm; f_equal; lia|by destruct hp].
    destruct hp; [done|]. split_and!; try done. by apply run_ok_mutex.
  - destruct Hp as (Ht & Hend).
    destruct (pc_consume_run _ _ _ _ _ HR Ht Hn He) as (-> & HR' & -> & H1 & H2 & H3 & H4 & H5).
    cbn. rewrite H3, Hm, H1, H4, H5. split_and!; try done.
  - destruct hp; [done|]. change (1 - 0 - 1) with (1 - 1) in Hm.
    apply post_mutex in He as (-> & -> & ->); [|done]. split_and!; try done. by apply run_ok_mutex.
Qed.

(** Main before the threads. *)
Lemma main_start n c m g p' g' new :
  0 <= n → start_ok n g m → blank n g → main_step c m g = Next (p', g', new) →
  (new = [] ∧ start_ok n g' p' ∧ blank n g') ∨
  (p' = M_consumer ∧ new = [P_loop n] ∧ run_ok n g' ∧ num_has_gen g' = 0 ∧ num_has_read g' = 0 ∧
   producer_ended g' = false ∧ consumer_ended g' = false ∧ mutex g' = Some 1).
Proof.
  intros Hn Hs Hb' He. pose proof Hb' as (H1 & H2 & H3 & H4 & H5 & H6 & H7 & H8).
  destruct m; try done; cbn -[parse_commands Z.leb] in He.
  - left. destruct Hs as [Hs Hbn]. destruct (parse_commands opts (cfg g)) as [[] cf| |code cf|] eqn:Hp; try done;
      unfold goto in He; simplify_eq.
    + split_and!; try done. split; [done|]. refine (parse_capacity _ _ _ _ Hp). exists 100. rewrite Hs. by split; [int_unfold|].
    + split_and!; try done. cbn. by rewrite (parse_exited _ _ _ _ Hp).
  - left. destruct Hs as [Hbn Hs]. destruct c; unfold goto in He; simplify_eq; unfold blank; (split_and!; try done); cbn; intros; simplify_eq.
  - left. destruct Hs as (z & Hz & Hc). unfold goto in He. injection He as <- <- <-.
    assert (Hmem : ∀ da, da = (if match c with Refuse => false | _ => true end && (to_size (sizeof_int * buffer_capacity (cfg g)) <=? PTRDIFF_MAX)
               then Some (replicate (Z.to_nat (to_size (sizeof_int * buffer_capacity (cfg g)) / sizeof_int)) None) else None) →
      mem_ok (mk_buf (buffer_capacity (cfg g)) 0 da) []); [|unfold blank; split_and!; try done; [by eexists; split_and!; [|by apply Hmem|done|done]|
        cbn -[Z.leb]; intros b d [= <-] _; split; [by apply Hmem|done]]].
    intros da Hda. rewrite Hc in Hda |- *. unfold mem_ok. cbn [data capacity size].
    destruct (_ && _)%bool eqn:Hg; subst da; [|split; [done|]; unfold to_size; pose proof (Z.mod_pos_bound z (2 ^ 64)); int_unfold; lia].
    apply andb_true_iff in Hg as [_ Hg%Z.leb_le]. rewrite Z.mul_comm in Hg.
    pose proof (int_array_granted z Hz Hg). rewrite to_size_id by (int_unfold; lia).
    split_and!; [lia|int_unfold; lia| |done|lia]. rewrite length_replicate, to_size_id by (unfold sizeof_int; int_unfold; lia).
    unfold sizeof_int. rewrite Z.mul_comm, Z.div_mul by done. lia.
  - left. destruct Hs as (b & Hb & Hm & Hz & _). unfold goto in He. injection He as <- <- <-. split_and!; try done. by exists b.
  - destruct Hs as (b & Hb & Hm & Hz & Hmu).
    destruct c; unfold goto in He; injection He as <- <- <-; [right|by left|right].
    all: split_and!; try done; try (by rewrite H1); try (by apply Hmu).
    all: split; rewrite ?H2, ?H3, ?H4, ?H5; cbn; try lia; try done.
    all: exists b, []; by split_and!.
Qed.

Lemma pc_inv_step n l s s' : 0 <= n <= INT_MAX - 3 → inv n s → tstep l s = Next s' → inv n s'.
Proof.
  intros Hn HI Hs. apply tstep_inv in Hs as (Ho & p & p' & new & Hp & He & Hps & _).
  destruct s as [ps g]. destruct s' as [ps' g']. unfold inv, process_over in *. cbn [pcs shared] in *. subst ps'.
  destruct ps as [|m [|p1 [|p2 [|]]]]; try done; cbn in Ho.
  - destruct HI as [Hst Hb]. destruct (fst l) as [|i]; [|done]. injection Hp as <-. cbn [insert list_insert app].
    assert (main_step (snd l) m g = Next (p', g', new)) as Hm by by destruct m.
    apply (main_start n) in Hm as [(-> & H1 & H2)|(-> & -> & HR & H0 & H1 & H2 & H3 & H4)]; [done| |lia|done..].
    cbn. split_and!; try done; [by left|lia|by right].
  - destruct HI as (Hm & HR & Hpo & H0 & H1 & H2).
    assert (m = M_consumer) as -> by by destruct Hm as [?|Hm]; [|subst m].
    destruct H2 as [|[Hmu _]]; [done|]. destruct (fst l) as [|[|i]]; [| |done]; injection Hp as <-; cbn [insert list_insert app].
    + cbn -[holds] in He. destruct (snd l); unfold goto in He; injection He as <- <- <-; cbn -[holds];
        split_and!; try done; try (by right); try (right; split; [by rewrite Hmu|by rewrite andb_false_r]).
    + assert (producer_stuff (snd l) p1 g = Next (p', g', new)) as Hx by (cbn in He; by destruct p1).
      destruct (producer_step _ _ _ _ _ _ _ false Hn HR Hpo Hmu ltac:(by rewrite andb_false_r) Hx)
        as (-> & HR' & Hpo' & Hmu' & _ & E1 & E2 & _). rewrite E1, E2. split_and!; try done; try (by left).
      right. split; [done|by rewrite andb_false_r].
  - destruct HI as (Hm & HR & Hpo & Hco & Hmo).
    destruct Hmo as [->|[Hmu Hex]]; [done|].
    destruct (fst l) as [|[|[|i]]]; [| | |done]; injection Hp as <-; cbn [insert list_insert app].
    + destruct m; try done; cbn -[holds] in He.
      * destruct (consumer_ended g) eqn:E; unfold goto in He; simplify_eq. split_and!; try done. by right.
      * destruct (producer_ended g) eqn:E; unfold goto in He; simplify_eq. split_and!; try done. by right.
      * unfold goto in He. simplify_eq. split_and!; try done; [by apply run_ok_mutex|by left].
    + assert (producer_stuff (snd l) p1 g = Next (p', g', new)) as Hx by (cbn in He; by destruct p1).
      destruct (producer_step _ _ _ _ _ _ _ (holds p2) Hn HR Hpo Hmu Hex Hx)
        as (-> & HR' & Hpo' & Hmu' & Hex' & E1 & E2 & E3). split_and!; try done; [| |by right].
      * destruct m as [| | | | | | | | |[]| | | | | | | | | |]; cbn in *; rewrite ?E2; intuition.
      * destruct p2; cbn in *; by rewrite ?E1, ?E2.
    + assert (consumer_stuff p2 g = Next (p', g', new)) as Hx by (cbn in He; by destruct p2).
      destruct (consumer_step _ _ _ _ _ _ (holds p1) (proj2 Hn) HR Hco Hmu Hex Hx)
        as (-> & HR' & Hco' & Hmu' & Hex' & E1 & E2 & E3). split_and!; try done; [| |by right].
      * destruct m as [| | | | | | | | |[]| | | | | | | | | |]; cbn in *; rewrite ?E2; intuition.
      * destruct p1; cbn in *; by rewrite ?E1, ?E2.
Qed.

Lemma pc_inv_reachable n opts s : 0 <= n <= INT_MAX - 3 → pc_reachable n opts s → inv n s.
Proof.
  intros Hn. apply (invariant_reachable _ _ (inv n)).
  { intros ? ->. by split_and!. }
  intros l s1 s2 _. by apply pc_inv_step.
Qed.

(** ** Progress *)

Lemma produce_next n g c b d :
  run_ok n g → 0 <= n <= INT_MAX - 3 → 0 < n - num_has_gen g → buf g = Some b → data b = Some d →
  ∃ r, produce (n - num_has_gen g) c g = Next r.
Proof.
  intros [Hn Hrd Hge Hgl Hrl (b' & items & Hb & Hm & Hs & Hp & Hz)] Hnn Ht Hb' Hd. assert (b' = b) as -> by congruence.
  unfold produce, with_buf. rewrite Hb. unfold mem_ok in Hm. rewrite Hd in Hm. destruct Hm as (Hc & Hl & Htk & Hsc).
  rewrite (to_size_id (capacity b - size b)) by (int_unfold; lia).
  destruct (Z.ltb_spec 0 (capacity b - size b)) as [Hroom|Hroom]; [|by eexists].
  set (zc := match c with Rand z l => (z, l) | _ => (0, []) end). destruct zc as [z contents].
  pose proof (rand_mod_bound z num_gen_per_loop ltac:(done)) as Hr5. unfold num_gen_per_loop in *.
  rewrite (to_size_id (rand_mod z 5)) by (int_unfold; lia).
  set (k := if capacity b - size b <? rand_mod z 5 then capacity b - size b else rand_mod z 5).
  assert (Hk : 0 <= k <= 4 ∧ k <= capacity b - size b) by (unfold k; destruct (Z.ltb_spec (capacity b - size b) (rand_mod z 5)); lia).
  rewrite to_int_id by (int_unfold; lia). destruct (k =? 0); [by eexists|].
  destruct (generate_run (Z.to_nat k) contents b d items) as (xs & d' & Hrun & _); try done; [lia..|].
  rewrite Hrun. unfold int_step. rewrite !decide_True by (int_unfold; lia). by eexists.
Qed.

Lemma consume_next n g b d :
  run_ok n g → num_has_read g < n → n <= INT_MAX - 3 → buf g = Some b → data b = Some d → ∃ r, consume g = Next r.
Proof.
  intros [Hn Hrd Hge Hgl Hrl (b' & items & Hb & Hm & Hs & Hp & Hz)] Hlt Hnn Hb' Hd. assert (b' = b) as -> by congruence.
  unfold consume, with_buf. rewrite Hb. destruct (Z.ltb_spec 0 (size b)) as [Hsz|Hsz]; [|by eexists].
  unfold mem_ok in Hm. rewrite Hd in Hm |- *. destruct Hm as (Hc & Hl & Htk & Hsc).
  destruct items as [|x items _] using rev_ind; [cbn in Hs; lia|]. rewrite length_app in Hs. cbn in Hs.
  rewrite to_size_id by (int_unfold; lia).
  destruct (lookup_lt_is_Some_2 d (Z.to_nat (size b - 1))) as [y Hy]; [lia|]. rewrite Hy.
  assert (y = Some x) as ->.
  { rewrite <- (lookup_take_lt d (Z.to_nat (size b))) in Hy by lia. rewrite Htk, fmap_app in Hy.
    rewrite lookup_app_r in Hy by (rewrite length_fmap; lia). rewrite length_fmap in Hy.
    replace (Z.to_nat (size b - 1) - length items)%nat with 0%nat in Hy by lia. by injection Hy as <-. }
  unfold int_step. rewrite decide_True by (int_unfold; lia). by eexists.
Qed.

Definition waits (p : pc) : bool := match p with P_wait _ | C_wait => true | _ => false end.

(** A thread that does not wait for the mutex, and has not ended, can move. *)
Lemma producer_moves n c g p hc b d :
  0 <= n <= INT_MAX - 3 → run_ok n g → p_ok n g p → buf g = Some b → data b = Some d →
  mutex g = Some (1 - Z.b2z (holds p) - Z.b2z hc) → holds p && hc = false →
  (∃ r, producer_stuff c p g = Next r) ∨ (producer_stuff c p g = Blocked ∧ (p = P_exit ∨ waits p = true ∧ hc = true)).
Proof.
  intros Hn HR Hp Hb Hd Hm Hh. destruct p; try done; cbn -[Z.ltb] in *.
  - left. destruct (0 <? total); by eexists.
  - unfold on_mutex. rewrite Hm. destruct hc; cbn; [right; split; [done|by right]|left; by eexists].
  - left. destruct Hp as (-> & Ht & _). by eapply produce_next.
  - left. unfold on_mutex. rewrite Hm. cbn. by eexists.
  - right. split; [done|by left].
Qed.

Lemma consumer_moves n g p hp b d :
  n <= INT_MAX - 3 → run_ok n g → c_ok n g p → buf g = Some b → data b = Some d →
  mutex g = Some (1 - Z.b2z hp - Z.b2z (holds p)) → hp && holds p = false →
  (∃ r, consumer_stuff p g = Next r) ∨ (consumer_stuff p g = Blocked ∧ (p = C_exit ∨ waits p = true ∧ hp = true)).
Proof.
  intros Hn HR Hp Hb Hd Hm Hh. destruct p; try done; cbn -[Z.eqb] in *.
  - left. destruct (num_has_read g =? num_gen g); by eexists.
  - unfold on_mutex. rewrite Hm. destruct hp; cbn; [right; split; [done|by right]|left; by eexists].
  - left. destruct Hp as (Ht & _). by eapply consume_next.
  - left. unfold on_mutex. rewrite Hm. cbn. by eexists.
  - right. split; [done|by left].
Qed.

Lemma step_of (s : tsys pc glob) i c p r :
  process_over s = false → pcs s !! i = Some p → exec c p (shared s) = Next r → ∃ s', tstep (i, c) s = Next s'.
Proof. intros Ho Hp He. unfold tstep. cbn [fst snd]. rewrite Ho, Hp, He. destruct r as [[p' g'] new]. by eexists. Qed.

(** The contents of the array, in every state. *)
Lemma inv_memory n s b d :
  inv n s → buf (shared s) = Some b → data b = Some d →
  ∃ items, mem_ok b items ∧ size b = Z.of_nat (length items) ∧ generated (shared s) ≡ₚ read (shared s) ++ items.
Proof.
  intros HI Hb Hd.
  assert (HR : run_ok n (shared s) → ∃ items, mem_ok b items ∧ size b = Z.of_nat (length items) ∧
    generated (shared s) ≡ₚ read (shared s) ++ items).
  { intros [_ _ _ _ _ (b' & items & Hb' & Hm & Hs & Hp & _)]. assert (b' = b) as -> by congruence. by exists items. }
  unfold inv in HI. destruct (pcs s) as [|m [|p1 [|p2 [|]]]]; try done.
  - destruct HI as (_ & _ & _ & _ & Hg & Hr & _ & _ & Hm). destruct (Hm b d Hb Hd). exists [].
    by rewrite Hg, Hr.
  - apply HR, HI.
  - apply HR, HI.
Qed.

Lemma inv_defined n s b d i c p u :
  0 <= n <= INT_MAX - 3 → inv n s → process_over s = false → buf (shared s) = Some b → data b = Some d →
  pcs s !! i = Some p → exec c p (shared s) ≠ Wrong u.
Proof.
  intros Hn HI Ho Hb Hd Hp He. destruct s as [ps g]. unfold inv, process_over in *. cbn [pcs shared] in *.
  destruct ps as [|m [|p1 [|p2 [|]]]]; try done; cbn in Ho.
  - destruct HI as [Hst _]. destruct i as [|i]; [|done]. injection Hp as <-.
    destruct m; try done; cbn in He, Hst; try (by destruct c); destruct Hst; congruence.
  - destruct HI as (Hm & HR & Hpo & _ & _ & [|[Hmu _]]); [by subst m|].
    destruct i as [|[|i]]; [| |done]; injection Hp as <-.
    + destruct Hm; subst m; [|done]. by destruct c.
    + assert (producer_stuff c p1 g = Wrong u) as Hx by (cbn in He; by destruct p1).
      destruct (producer_moves n c g p1 false b d) as [[r Hr]|[Hr _]]; try done; try congruence. by rewrite andb_false_r.
  - destruct HI as (Hm & HR & Hpo & Hco & [|[Hmu Hex]]); [by subst m|].
    destruct i as [|[|[|i]]]; [| | |done]; injection Hp as <-.
    + destruct m; try done; cbn in He; [by destruct (consumer_ended g)|by destruct (producer_ended g)].
    + assert (producer_stuff c p1 g = Wrong u) as Hx by (cbn in He; by destruct p1).
      destruct (producer_moves n c g p1 (holds p2) b d) as [[r Hr]|[Hr _]]; try done; congruence.
    + assert (consumer_stuff p2 g = Wrong u) as Hx by (cbn in He; by destruct p2).
      destruct (consumer_moves n g p2 (holds p1) b d) as [[r Hr]|[Hr _]]; try done; try congruence. lia.
Qed.

(** ** A run, for the witnesses *)

Definition turns (i n : nat) : list (nat * choice) := replicate n (i, Go).
Definition boot : list (nat * choice) := turns 0 6.
(** The producer generates [k] numbers and comes back to its loop, the consumer reads one. *)
Definition produce_some (k : Z) : list (nat * choice) := turns 1 2 ++ [(1%nat, Rand k [4; 17; 25; 36])] ++ turns 1 1.
Definition consume_one : list (nat * choice) := turns 2 4.

Definition state_after (n : Z) (opts : list option_t) (ls : list (nat * choice)) : tsys pc glob :=
  match run tstep ls (sys0 n opts) with Next s => s | _ => sys0 n opts end.

Definition the_buf (s : tsys pc glob) : buf_t := default (mk_buf 0 0 None) (buf (shared s)).
Definition the_data (s : tsys pc glob) : list (option Z) := default [] (data (the_buf s)).

Lemma pc_state_after_reachable n opts ls : pc_reachable n opts (state_after n opts ls).
Proof.
  unfold state_after. destruct (run tstep ls (sys0 n opts)) as [s| |] eqn:Hr;
    [eapply run_reachable; [|done]|..]; by apply reachable_init.
Qed.

(** ** Properties *)

(** C32: with memory for the array, nothing the threads do is undefined, every number read is
    one that was generated, and the array never overflows. *)
Theorem pc_memory_safe n opts s b d l :
  0 <= n <= INT_MAX - 3 → pc_reachable n opts s → buf (shared s) = Some b → data b = Some d →
  (∀ u, tstep l s ≠ Wrong u) ∧ 0 <= size b <= capacity b ∧ Z.of_nat (length d) = capacity b ∧
  ∃ items, take (Z.to_nat (size b)) d = Some <$> items ∧ generated (shared s) ≡ₚ read (shared s) ++ items.
Proof.
  intros Hn Hr Hb Hd. pose proof (pc_inv_reachable _ _ _ Hn Hr) as HI. split.
  - intros u Hw. apply tstep_wrong in Hw as (Ho & p & Hp & He). by eapply inv_defined in He.
  - destruct (inv_memory _ _ _ _ HI Hb Hd) as (items & Hm & Hs & Hp). unfold mem_ok in Hm. rewrite Hd in Hm.
    destruct Hm as (Hc & Hl & Ht & Hsz). split_and!; [lia|done|done|by exists items].
Qed.

Lemma pc_memory_safe_witness :
  let s := state_after 800 [("s"%char, Some "3"%string)] (boot ++ produce_some 4) in
  the_data s = [Some 4; Some 7; Some 5] ∧ 0 <= size (the_buf s) <= capacity (the_buf s).
Proof.
  intros s. split; [by vm_compute|].
  refine (proj1 (proj2 (pc_memory_safe 800 [("s"%char, Some "3"%string)] s (the_buf s) (the_data s) (0%nat, Go) _ _ _ _)));
    [by vm_compute | apply pc_state_after_reachable | by vm_compute | by vm_compute].
Defined.

(** C31: when main has joined both threads, the consumer has read exactly [n] numbers, the
    producer has generated at least as many and at most three more, and the numbers generated are
    those read and those left in the array. *)
Theorem pc_result n opts s :
  0 <= n <= INT_MAX - 3 → pc_reachable n opts s → pcs s !! 0%nat ∈ [Some M_destroy; Some (M_end 0)] →
  Z.of_nat (length (read (shared s))) = n ∧
  ∃ left, generated (shared s) ≡ₚ read (shared s) ++ left ∧ (length left <= 3)%nat.
Proof.
  intros Hn Hr Hm. pose proof (pc_inv_reachable _ _ _ Hn Hr) as HI. unfold inv in HI.
  assert (Hm' : pcs s !! 0%nat = Some M_destroy ∨ pcs s !! 0%nat = Some (M_end 0)) by set_solver.
  destruct (pcs s) as [|m [|p1 [|p2 [|]]]]; try done; cbn in Hm'.
  - destruct HI as [Hst _]. by destruct Hm'; simplify_eq.
  - destruct HI as [Hst _]. by destruct Hst, Hm'; simplify_eq.
  - destruct HI as (Hmo & HR & Hpo & Hco & _).
    assert (Hend : consumer_ended (shared s) = true ∧ producer_ended (shared s) = true)
      by (destruct Hm'; simplify_eq; apply Hmo).
    destruct Hend as [Hce Hpe].
    assert (num_has_read (shared s) = n) as Hrn.
    { destruct p2; cbn in Hco; try done; try (by rewrite Hce in Hco); destruct Hco; congruence. }
    destruct HR as [_ _ Hge Hgl Hrl (b & items & _ & _ & _ & Hp & _)]. split; [lia|].
    exists items. split; [done|]. apply Permutation_length in Hp. rewrite length_app in Hp. lia.
Qed.

Lemma pc_result_witness :
  let s := state_after 2 [] (boot ++ produce_some 4 ++ turns 1 1 ++ consume_one ++ consume_one ++ turns 2 1 ++ turns 0 2) in
  read (shared s) = [6; 5] ∧ Z.of_nat (length (read (shared s))) = 2.
Proof.
  intros s. split; [by vm_compute|].
  refine (proj1 (pc_result 2 [] s _ _ _)); [by vm_compute | apply pc_state_after_reachable | vm_compute; by left].
Defined.

(** C33: no deadlock: with memory for the array, as long as the process is not over some thread
    can move. *)
Theorem pc_no_deadlock n opts s b d :
  0 <= n <= INT_MAX - 3 → pc_reachable n opts s → buf (shared s) = Some b → data b = Some d →
  process_over s = false → ∃ l s', tstep l s = Next s'.
Proof.
  intros Hn Hr Hb Hd Ho. pose proof (pc_inv_reachable _ _ _ Hn Hr) as HI. pose proof Ho as Ho'.
  destruct s as [ps g]. unfold inv, process_over in HI, Ho'. cbn [pcs shared] in *.
  destruct ps as [|m [|p1 [|p2 [|]]]]; try done; cbn in Ho'.
  - destruct HI as [Hst _]. exists (0%nat, Go).
    destruct m; try done; cbn in Hst; try (exfalso; destruct Hst; congruence); by eapply step_of.
  - destruct HI as (Hm & _). exists (0%nat, Go). destruct Hm; subst m; [|done]. by eapply step_of.
  - destruct HI as (Hm & HR & Hpo & Hco & [|[Hmu Hex]]); [by subst m|].
    destruct (producer_moves n Go g p1 (holds p2) b d) as [[r Hx]|[_ Hx]]; try done.
    { exists (1%nat, Go). apply (step_of _ _ _ p1 r); [done..|]. cbn -[producer_stuff]. by destruct p1. }
    destruct (consumer_moves n g p2 (holds p1) b d) as [[r Hy]|[_ Hy]]; try done; [lia| |].
    { exists (2%nat, Go). apply (step_of _ _ _ p2 r); [done..|]. cbn -[consumer_stuff]. by destruct p2. }
    assert (p1 = P_exit ∧ p2 = C_exit) as [-> ->].
    { destruct Hx as [->|[W1 W2]], Hy as [->|[W3 W4]]; try done; destruct p1, p2; by cbn in *. }
    destruct Hpo as [_ Hpe]. destruct Hco as [_ Hce]. exists (0%nat, Go).
    destruct m; try done; (eapply step_of; [done..|]); cbn; by rewrite ?Hpe, ?Hce.
Qed.

Lemma pc_no_deadlock_witness :
  let s := state_after 800 [] (boot ++ turns 1 2 ++ turns 2 1) in
  map waits (pcs s) = [false; false; true] ∧ ∃ l s', tstep l s = Next s'.
Proof.
  intros s. split; [by vm_compute|].
  refine (pc_no_deadlock 800 [] s (the_buf s) (the_data s) _ _ _ _ _);
    [by vm_compute | apply pc_state_after_reachable | by vm_compute | by vm_compute | by vm_compute].
Defined.

(** With a size of 0 and something to generate, main never gets past its joins: the
    producer polls for room and the consumer for numbers, for ever. *)
Theorem pc_no_room n opts s b :
  0 < n <= INT_MAX - 3 → pc_reachable n opts s → buf (shared s) = Some b → capacity b = 0 →
  pcs s !! 0%nat ∉ [Some M_join_producer; Some M_destroy; Some (M_end 0)].
Proof.
  intros Hn Hr Hb Hc Hm. assert (HI : inv n s) by (eapply pc_inv_reachable; [|done]; lia). unfold inv in HI.
  destruct (pcs s) as [|m [|p1 [|p2 [|]]]]; try done; cbn in Hm.
  - destruct HI as [Hst _]. destruct m; cbn in Hst; set_solver.
  - destruct HI as [[->| ->] _]; set_solver.
  - destruct HI as (Hmo & [_ Hrd Hge _ _ (b' & items & Hb' & _ & _ & _ & Hz)] & _ & Hco & _).
    assert (b' = b) as -> by congruence. specialize (Hz Hc).
    assert (consumer_ended (shared s) = true) as Hce.
    { clear -Hm Hmo. destruct m as [| | | | | | | | |[]| | | | | | | | | |]; try set_solver; by destruct Hmo. }
    destruct p2; cbn in Hco; try done; try (by rewrite Hce in Hco); destruct Hco; try congruence. lia.
Qed.

Lemma pc_no_room_witness :
  let s := state_after 800 [("s"%char, Some "0"%string)] (boot ++ produce_some 4 ++ consume_one) in
  capacity (the_buf s) = 0 ∧ pcs s !! 0%nat ∉ [Some M_join_producer; Some M_destroy; Some (M_end 0)].
Proof.
  intros s. split; [by vm_compute|].
  refine (pc_no_room 800 [("s"%char, Some "0"%string)] s (the_buf s) _ _ _ _);
    [by vm_compute | apply pc_state_after_reachable | by vm_compute | by vm_compute].
Defined.

(** The option for the size also redirects the log: after [--size arg], alone or after
    other options, the log file is [arg]. *)
Theorem size_redirects_log opts arg cf cf' :
  parse_commands opts cf = Done tt cf' → is_int (atoi_value arg) →
  parse_commands (opts ++ [("s"%char, Some arg)]) cf =
    Done tt (mk_config (Some arg) (log_level cf') (to_size (atoi_value arg))).
Proof.
  intros H Ha. unfold parse_commands in *. rewrite (each_option_app _ _ _ _ _ H). cbn [each_option handle].
  rewrite bind_assoc. unfold atoi_c. by rewrite (bind_done _ _ _ _ _ (int_result_ok _ _ Ha)).
Qed.

Lemma size_redirects_log_witness :
  parse_commands ([("L"%char, Some "run.log"%string)] ++ [("s"%char, Some "64"%string)]) config0
    = Done tt (mk_config (Some "64"%string) LOG_LEVEL_INFO 64).
Proof.
  refine (size_redirects_log [("L"%char, Some "run.log"%string)] "64" config0
            (mk_config (Some "run.log"%string) LOG_LEVEL_INFO 100) _ _); [reflexivity|by vm_compute].
Defined.

(** A negative size is not refused: the array cannot be allocated, the result of malloc
    is not checked, and the producer's first number is written through a null pointer. *)
Theorem negative_size_null :
  ∃ s, pc_reachable 800 [("s"%char, Some "-1"%string)] s ∧
    tstep (1%nat, Rand 4 [1; 2; 3; 4]) s = Wrong NullDeref.
Proof.
  exists (state_after 800 [("s"%char, Some "-1"%string)] (boot ++ turns 1 2)).
  split; [apply pc_state_after_reachable|by vm_compute].
Qed.
