(* ===== verification/Explore.v ===== *)
(** * Checking every state of a finite program

    A set of states that contains the first one and is closed under steps contains every
    reachable state.  [closure] computes such a set; [all_states] is the rule that turns a
    boolean check of its members into an invariant. *)

From S2P Require Import Prelude TransSys.

Section explore.
Context {S L : Type} `{EqDecision S} (step : L → S → sres S) (labels : list L).

(** The states that one step leads to. *)
Definition next_states (s : S) : list S :=
  omap (λ l, match step l s with Next s' => Some s' | _ => None end) labels.

(** Breadth first, in layers: at most [fuel] steps away from [todo]. *)
Fixpoint closure (fuel : nat) (todo seen : list S) : list S :=
  match fuel with
  | O => seen
  | Datatypes.S fuel =>
      match todo with
      | [] => seen
      | _ =>
          let new := foldl (λ acc s, if bool_decide (s ∈ seen ++ acc) then acc else s :: acc) [] (todo ≫= next_states) in
          closure fuel new (seen ++ new)
      end
  end.

Definition closed (R : list S) : bool :=
  forallb (λ s, forallb (λ s', bool_decide (s' ∈ R)) (next_states s)) R.

Hypothesis labels_all : ∀ l s s', step l s = Next s' → l ∈ labels.

Lemma next_states_elem l s s' : step l s = Next s' → s' ∈ next_states s.
Proof.
  intros H. apply list_elem_of_omap. exists l. split; [by eapply labels_all|]. by rewrite H.
Qed.

Lemma closed_reachable (R : list S) s0 s :
  s0 ∈ R → closed R = true → reachable (λ s, s = s0) step s → s ∈ R.
Proof.
  intros H0 Hc. apply (invariant_reachable _ _ (λ s, s ∈ R)); [by intros ? ->|].
  intros l s1 s2 _ H1 Hs. unfold closed in Hc. rewrite forallb_forall in Hc.
  specialize (Hc s1 ltac:(by apply list_elem_of_In)). rewrite forallb_forall in Hc.
  apply (bool_decide_eq_true (s2 ∈ R)). apply Hc. apply list_elem_of_In. by eapply next_states_elem.
Qed.

(** What a check of all members of a closed set shows. *)
Lemma all_states (R : list S) s0 (P : S → bool) s :
  (bool_decide (s0 ∈ R) && closed R && forallb P R)%bool = true →
  reachable (λ s, s = s0) step s → P s = true.
Proof.
  intros H Hr. apply andb_true_iff in H as [H HP]. apply andb_true_iff in H as [H0%bool_decide_eq_true Hc].
  rewrite forallb_forall in HP. apply HP, list_elem_of_In. by eapply closed_reachable.
Qed.

End explore.
