(* ===== verification/CondVar.v ===== *)
(** * Two counting threads and a condition variable: Miscs/condition_variables.c

    [func1] pauses while the counter is between the two limits until [func2] signals;
    the tests read the counter without its mutex, each read is a step of its own.  The program
    has finitely many states, and all of them are checked. *)

From S2P Require Import Prelude CInt TransSys Explore.

Open Scope Z_scope.

Definition COUNT_DONE : Z := 10.
Definition COUNT_HALT1 : Z := 3.
Definition COUNT_HALT2 : Z := 6.

(** Control points of main, of func1 and of func2.  [joined]: main returns after both joins,
    and not because a thread could not be created. *)
Inductive main_pc :=
  | M_create1 | M_create2 | M_join1 | M_join2 | M_end (joined : bool).

Inductive func1_pc :=
  | F_none | F_lock | F_low | F_high | F_sleep | F_wake | F_unlock | F_lock_count | F_inc
  | F_unlock_count | F_check | F_return.

Inductive func2_pc :=
  | G_none | G_lock | G_low | G_high | G_signal | G_unlock | G_lock_count | G_inc
  | G_unlock_count | G_check | G_return.

#[export] Instance main_pc_eq_dec : EqDecision main_pc.
Proof. solve_decision. Defined.
#[export] Instance func1_pc_eq_dec : EqDecision func1_pc.
Proof. solve_decision. Defined.
#[export] Instance func2_pc_eq_dec : EqDecision func2_pc.
Proof. solve_decision. Defined.

Record state := mk_state {
  main_at : main_pc;
  func1_at : func1_pc;
  func2_at : func2_pc;
  count : Z;
  count_mutex : bool;
  condition_mutex : bool;
}.

#[export] Instance state_eq_dec : EqDecision state.
Proof. solve_decision. Defined.

Definition at_main p s := mk_state p (func1_at s) (func2_at s) (count s) (count_mutex s) (condition_mutex s).
Definition at_func1 p s := mk_state (main_at s) p (func2_at s) (count s) (count_mutex s) (condition_mutex s).
Definition at_func2 p s := mk_state (main_at s) (func1_at s) p (count s) (count_mutex s) (condition_mutex s).
Definition set_count v s := mk_state (main_at s) (func1_at s) (func2_at s) v (count_mutex s) (condition_mutex s).
Definition set_count_mutex v s := mk_state (main_at s) (func1_at s) (func2_at s) (count s) v (condition_mutex s).
Definition set_condition_mutex v s := mk_state (main_at s) (func1_at s) (func2_at s) (count s) (count_mutex s) v.

(** Who moves; [Refused]: pthread_create fails; [Spurious]: func1 wakes up without a signal. *)
Inductive label := Main | Refused | Func1 | Func2 | Spurious.

Definition main_step (granted : bool) (s : state) : sres state :=
  match main_at s with
  | M_create1 => Next (if granted then at_main M_create2 (at_func1 F_lock s) else at_main (M_end false) s)
  | M_create2 => Next (if granted then at_main M_join1 (at_func2 G_lock s) else at_main (M_end false) s)
  | M_join1 => if decide (func1_at s = F_return) then Next (at_main M_join2 s) else Blocked
  | M_join2 => if decide (func2_at s = G_return) then Next (at_main (M_end true) s) else Blocked
  | M_end _ => Blocked
  end.

(** Lines 38-55; pthread_cond_wait releases the mutex and sleeps in one step. *)
Definition func1 (s : state) : sres state :=
  match func1_at s with
  | F_lock => lock (condition_mutex s);; Next (at_func1 F_low (set_condition_mutex true s))
  | F_low => Next (at_func1 (if COUNT_HALT1 <=? count s then F_high else F_unlock) s)
  | F_high =>
      if count s <=? COUNT_HALT2
      then unlock (condition_mutex s);; Next (at_func1 F_sleep (set_condition_mutex false s))
      else Next (at_func1 F_unlock s)
  | F_wake => lock (condition_mutex s);; Next (at_func1 F_low (set_condition_mutex true s))
  | F_unlock => unlock (condition_mutex s);; Next (at_func1 F_lock_count (set_condition_mutex false s))
  | F_lock_count => lock (count_mutex s);; Next (at_func1 F_inc (set_count_mutex true s))
  | F_inc =>
      if decide (is_int (count s + 1)) then Next (at_func1 F_unlock_count (set_count (count s + 1) s))
      else Wrong SignedOverflow
  | F_unlock_count => unlock (count_mutex s);; Next (at_func1 F_check (set_count_mutex false s))
  | F_check => Next (at_func1 (if COUNT_DONE <=? count s then F_return else F_lock) s)
  | F_none | F_sleep | F_return => Blocked
  end.

(** pthread_cond_signal: func1 is the only thread that ever sleeps. *)
Definition signal (s : state) : state :=
  match func1_at s with F_sleep => at_func1 F_wake s | _ => s end.

(** Lines 57-74. *)
Definition func2 (s : state) : sres state :=
  match func2_at s with
  | G_lock => lock (condition_mutex s);; Next (at_func2 G_low (set_condition_mutex true s))
  | G_low => Next (at_func2 (if count s <? COUNT_HALT1 then G_signal else G_high) s)
  | G_high => Next (at_func2 (if COUNT_HALT2 <? count s then G_signal else G_unlock) s)
  | G_signal => Next (at_func2 G_unlock (signal s))
  | G_unlock => unlock (condition_mutex s);; Next (at_func2 G_lock_count (set_condition_mutex false s))
  | G_lock_count => lock (count_mutex s);; Next (at_func2 G_inc (set_count_mutex true s))
  | G_inc =>
      if decide (is_int (count s + 1)) then Next (at_func2 G_unlock_count (set_count (count s + 1) s))
      else Wrong SignedOverflow
  | G_unlock_count => unlock (count_mutex s);; Next (at_func2 G_check (set_count_mutex false s))
  | G_check => Next (at_func2 (if COUNT_DONE <=? count s then G_return else G_lock) s)
  | G_none | G_return => Blocked
  end.

Definition ended (s : state) : bool := match main_at s with M_end _ => true | _ => false end.

Definition step (l : label) (s : state) : sres state :=
  if ended s then Blocked
  else
    match l with
    | Main => main_step true s
    | Refused => match main_at s with M_create1 | M_create2 => main_step false s | _ => Blocked end
    | Func1 => func1 s
    | Func2 => func2 s
    | Spurious => match func1_at s with F_sleep => Next (at_func1 F_wake s) | _ => Blocked end
    end.

Definition state0 : state := mk_state M_create1 F_none G_none 0 false false.

Definition cv_reachable : state → Prop := reachable (λ s, s = state0) step.

(** ** All states *)

Definition labels : list label := [Main; Refused; Func1; Func2; Spurious].

Lemma labels_all l s s' : step l s = Next s' → l ∈ labels.
Proof. intros _. destruct l; set_solver. Qed.

Definition states : list state := closure step labels 200 [state0] [state0].

(** What the threads may still do, at most: 20 steps for each number the counter can still take. *)
Definition potential (s : state) : Z :=
  20 * (12 - count s)
  + match main_at s with M_create1 => 60 | M_create2 => 40 | M_join1 => 2 | M_join2 => 1 | M_end _ => 0 end
  + match func1_at s with
    | F_unlock_count => 14 | F_check => 13 | F_lock | F_wake => 12 | F_low => 11 | F_high => 10 | F_sleep => 9
    | F_unlock => 8 | F_lock_count => 7 | F_inc => 6 | F_none | F_return => 0
    end
  + match func2_at s with
    | G_unlock_count => 16 | G_check => 15 | G_lock => 12 | G_low => 11 | G_high => 10 | G_signal => 9
    | G_unlock => 4 | G_lock_count => 3 | G_inc => 2 | G_none | G_return => 0
    end.

Definition is_next {A} (r : sres A) : bool := match r with Next _ => true | _ => false end.
Definition is_wrong {A} (r : sres A) : bool := match r with Wrong _ => true | _ => false end.

(** The moves that are not spurious wakeups. *)
Definition moves_own : list label := [Main; Refused; Func1; Func2].

Definition good (s : state) : bool :=
  negb (existsb (λ l, is_wrong (step l s)) labels) &&
  (ended s || existsb (λ l, is_next (step l s)) [Main; Func1; Func2]) &&
  match main_at s with
  | M_end true => ((count s =? 10) || (count s =? 11)) && bool_decide (func1_at s = F_return)
                  && bool_decide (func2_at s = G_return)
  | _ => true
  end &&
  forallb (λ l, match step l s with Next s' => potential s' <? potential s | _ => true end) moves_own &&
  (0 <=? potential s).

Lemma all_good s : cv_reachable s → good s = true.
Proof. apply (all_states step labels labels_all states). by vm_compute. Qed.

(** Runs without spurious wakeups. *)
Definition own_step (l : label) (s : state) : sres state :=
  match l with Spurious => Blocked | _ => step l s end.

Lemma own_step_step l s s' : own_step l s = Next s' → step l s = Next s' ∧ l ∈ moves_own.
Proof. destruct l; try done; (split; [done|]); set_solver. Qed.

Lemma own_run_reachable ls s s' : cv_reachable s → run own_step ls s = Next s' → cv_reachable s'.
Proof.
  revert s. induction ls as [|l ls IH]; intros s Hr H; [by injection H as ->|].
  rewrite run_cons in H. destruct (own_step l s) as [s1| |] eqn:Hl; [|done..].
  apply own_step_step in Hl as [Hl _]. eapply IH; [|done]. by eapply reachable_step.
Qed.

Lemma own_step_less l s s' :
  cv_reachable s → own_step l s = Next s' → cv_reachable s' ∧ (Z.to_nat (potential s') < Z.to_nat (potential s))%nat.
Proof.
  intros Hr Hs. apply own_step_step in Hs as [Hs Hl]. assert (Hr' : cv_reachable s') by by eapply reachable_step.
  split; [done|]. pose proof (all_good s Hr) as Hg. pose proof (all_good s' Hr') as Hg'. unfold good in Hg, Hg'. zbool.
  match goal with H : forallb _ _ = true |- _ => rewrite forallb_forall in H;
    specialize (H l ltac:(by apply list_elem_of_In)); cbn beta in H; rewrite Hs in H end. zbool. lia.
Qed.

(** C34: the two counting threads finish: no interleaving, of single reads of the counter even,
    does anything undefined; without spurious wakeups every run from the start has at most 300
    steps; it can only stop when main has returned; and when main returns after its joins both
    threads are done and the counter is 10 or 11. *)
Theorem counting_finishes ls s :
  run own_step ls state0 = Next s →
  (length ls <= 300)%nat ∧ (∀ l u, step l s ≠ Wrong u) ∧
  ((∀ l s', own_step l s ≠ Next s') → ended s = true) ∧
  (main_at s = M_end true →
   (count s = 10 ∨ count s = 11) ∧ func1_at s = F_return ∧ func2_at s = G_return).
Proof.
  intros Hrun. assert (H0 : cv_reachable state0) by by apply reachable_init.
  pose proof (own_run_reachable _ _ _ H0 Hrun) as Hr. pose proof (all_good s Hr) as Hg. unfold good in Hg.
  apply andb_true_iff in Hg as [Hg _]. apply andb_true_iff in Hg as [Hg _].
  apply andb_true_iff in Hg as [Hg Hend]. apply andb_true_iff in Hg as [Hw Hp]. split_and!.
  - pose proof (measure_bounds own_step cv_reachable (λ s, Z.to_nat (potential s)) own_step_less ls state0 s H0 Hrun) as Hm.
    cbn beta in Hm. change (Z.to_nat (potential state0)) with 300%nat in Hm. lia.
  - intros l u Hs. apply negb_true_iff in Hw. assert (existsb (λ l, is_wrong (step l s)) labels = true); [|congruence].
    apply existsb_exists. exists l. rewrite Hs. split; [|done]. destruct l; cbn; auto 6.
  - intros Hst. apply orb_true_iff in Hp as [Hp|Hp]; [done|]. exfalso.
    apply existsb_exists in Hp as (l & Hl & Hn). destruct (step l s) as [s'| |] eqn:Hs; [|done..].
    apply (Hst l s'). by destruct Hl as [<-|[<-|[<-|[]]]].
  - intros Hm. rewrite Hm in Hend. apply andb_true_iff in Hend as [Hend H2%bool_decide_eq_true].
    apply andb_true_iff in Hend as [Hc H1%bool_decide_eq_true]. apply orb_true_iff in Hc. split_and!; try done. lia.
Qed.

(** func1 alone runs up to its pause; func2 counts on, signals, and both finish. *)
Definition schedule : list label :=
  [Main; Main] ++ replicate 24 Func1 ++ replicate 59 Func2 ++ replicate 8 Func1 ++ [Main; Main].

Lemma counting_finishes_witness :
  let s := mk_state (M_end true) F_return G_return 11 false false in
  run own_step schedule state0 = Next s ∧ (count s = 10 ∨ count s = 11).
Proof.
  intros s. split; [by vm_compute|].
  refine (proj1 (proj2 (proj2 (proj2 (counting_finishes schedule s _))) _)); [by vm_compute|reflexivity].
Defined.
