(* ===== verification/Counter.v ===== *)
(** * Threads that count under a mutex: Miscs/mutex_example.c and Miscs/pthread_join_example.c

    main creates [n] threads that each increment the counter once under the mutex, joins them
    all and looks at the counter: 2 threads in mutex_example.c, which print the counter before
    they give the mutex back, 10 in pthread_join_example.c, which do not.  The load and the store
    of the increment are steps of their own, so that what the mutex is for is visible: without it
    two threads can store the same value. *)

From Stdlib Require Import ZifyBool.
From S2P Require Import Prelude CInt TransSys Threads.

Open Scope Z_scope.

#[local] Arguments Nat.ltb : simpl never.

Definition N_THREADS : nat := 10.

(** The mutex, the counter, for each thread whether it exists and has ended ([None] when
    pthread_create failed, so that [thread_id[i]] is indeterminate), and the values printed. *)
Record glob := mk_glob {
  mutex : bool;
  counter : Z;
  threads : list (option bool);
  shown : list Z;
}.

Definition set_mutex v g := mk_glob v (counter g) (threads g) (shown g).
Definition set_counter v g := mk_glob (mutex g) v (threads g) (shown g).
Definition set_threads v g := mk_glob (mutex g) (counter g) v (shown g).
Definition set_shown v g := mk_glob (mutex g) (counter g) (threads g) v.

(** [M_] main, creating thread [i] and joining thread [j]; [M_end] with the counter that main
    finds; [T_] thread number [i]: [T_store] with the value that it has loaded. *)
Inductive pc :=
  | M_create (i : nat)
  | M_join (j : nat)
  | M_end (final : Z)
  | T_lock (i : nat)
  | T_load (i : nat)
  | T_store (i : nat) (v : Z)
  | T_print (i : nat)
  | T_unlock (i : nat)
  | T_done (i : nat).

Section program.
(** The number of threads, and whether they print. *)
Context (n : nat) (prints : bool).

Definition thread_func (p : pc) (g : glob) : sres (pc * glob * list pc) :=
  match p with
  | T_lock i => lock (mutex g);; Next (T_load i, set_mutex true g, [])
  | T_load i => Next (T_store i (counter g), g, [])
  | T_store i v =>
      if decide (is_int (v + 1)) then Next (if prints then T_print i else T_unlock i, set_counter (v + 1) g, [])
      else Wrong SignedOverflow
  | T_print i => Next (T_unlock i, set_shown (shown g ++ [counter g]) g, [])
  | T_unlock i =>
      unlock (mutex g);; Next (T_done i, set_threads (<[i := Some true]> (threads g)) (set_mutex false g), [])
  | _ => Blocked
  end.

(** [granted]: pthread_create succeeds; main goes on either way. *)
Definition main_step (granted : bool) (p : pc) (g : glob) : sres (pc * glob * list pc) :=
  match p with
  | M_create i =>
      if (i <? n)%nat then
        if granted
        then Next (M_create (S i), set_threads (threads g ++ [Some false]) g, [T_lock i])
        else Next (M_create (S i), set_threads (threads g ++ [None]) g, [])
      else Next (M_join 0, g, [])
  | M_join j =>
      if (j <? n)%nat then
        match threads g !! j with
        | Some (Some true) => Next (M_join (S j), g, [])
        | Some (Some false) => Blocked
        | _ => Wrong Uninitialised
        end
      else Next (M_end (counter g), g, [])
  | _ => Blocked
  end.

Definition is_thread (p : pc) : bool :=
  match p with T_lock _ | T_load _ | T_store _ _ | T_print _ | T_unlock _ | T_done _ => true | _ => false end.

Local Instance counting : Threads bool pc glob := {
  exec granted p g := if is_thread p then thread_func p g else main_step granted p g;
  ended p := match p with M_end _ => true | _ => false end;
}.

Definition glob0 : glob := mk_glob false 0 [] [].

Definition sys0 : tsys pc glob := mk_tsys [M_create 0] glob0.

(** Thread [i] moves, and every pthread_create succeeds. *)
Definition granted_step (i : nat) (s : tsys pc glob) : sres (tsys pc glob) := tstep (i, true) s.

(** ** The invariant *)

Definition holds (p : pc) : bool :=
  match p with T_load _ | T_store _ _ | T_print _ | T_unlock _ => true | _ => false end.
Definition counted (p : pc) : bool := match p with T_print _ | T_unlock _ | T_done _ => true | _ => false end.
Definition printing (p : pc) : bool := match p with T_print _ => true | _ => false end.
Definition printed (p : pc) : bool := match p with T_unlock _ | T_done _ => true | _ => false end.
Definition ended_thread (p : pc) : bool := match p with T_done _ => true | _ => false end.

(** The control points whose step reads or writes the counter. *)
Definition accesses (p : pc) : bool :=
  match p with
  | T_load _ | T_store _ _ | T_print _ => true
  | M_join j => (n <=? j)%nat
  | _ => false
  end.

Definition number (p : pc) : option nat :=
  match p with
  | T_lock i | T_load i | T_store i _ | T_print i | T_unlock i | T_done i => Some i
  | _ => None
  end.

(** What a thread has loaded is still in the counter; a thread prints only in mutex_example.c. *)
Definition loaded_ok (g : glob) (p : pc) : Prop :=
  match p with T_store _ v => v = counter g | T_print _ => prints = true | _ => True end.

(** What main knows of the flags. *)
Definition main_ok (g : glob) (p : pc) : Prop :=
  match p with
  | M_create i => (i <= n)%nat ∧ length (threads g) = i
  | M_join j => (j <= n)%nat ∧ length (threads g) = n ∧ ∀ k, (k < j)%nat → threads g !! k = Some (Some true)
  | M_end v => v = counter g ∧ length (threads g) = n ∧ ∀ k, (k < n)%nat → threads g !! k = Some (Some true)
  | _ => False
  end.

(** Thread [i] of the array is thread [S i] of the system. *)
Definition thread_ok (g : glob) (i : nat) (p : pc) : Prop :=
  match i with
  | O => main_ok g p
  | S i => number p = Some i ∧ threads g !! i = Some (Some (ended_thread p)) ∧ loaded_ok g p
  end.

Record inv (s : tsys pc glob) : Prop := {
  i_mutex : num holds s = Z.b2z (mutex (shared s));
  i_counter : counter (shared s) = num counted s;
  i_shown : shown (shared s) = if prints then seqZ 1 (num printed s) else [];
  i_length : length (pcs s) = S (length (threads (shared s)));
  i_threads : ∀ i p, pcs s !! i = Some p → thread_ok (shared s) i p;
  i_count : (length (threads (shared s)) <= n)%nat;
}.

Definition potential (p : pc) : Z :=
  match p with
  | M_create i => (5 + Z.b2z prints) * (Z.of_nat n - Z.of_nat i) + Z.of_nat n + 2
  | M_join j => Z.of_nat n - Z.of_nat j + 1
  | M_end _ => 0
  | T_lock _ => 4 + Z.b2z prints
  | T_load _ => 3 + Z.b2z prints
  | T_store _ _ => 2 + Z.b2z prints
  | T_print _ => 2
  | T_unlock _ => 1
  | T_done _ => 0
  end.

Lemma inv_sys0 : inv sys0.
Proof.
  split; try done; [by destruct prints| |cbn; lia]. intros [|i] p H; [|done]. injection H as <-. cbn. split; [lia|done].
Qed.

Lemma thread_number s i p :
  inv s → pcs s !! i = Some p → is_thread p = bool_decide (i ≠ 0%nat).
Proof. intros Hi Hp. pose proof (i_threads s Hi i p Hp) as H. destruct i as [|i], p; by destruct H || done. Qed.

(** The counter counts threads, so it stays an int. *)
Lemma counter_bound s : inv s → 0 <= counter (shared s) <= Z.of_nat n.
Proof.
  intros Hi. rewrite (i_counter s Hi). split; [apply num_nonneg|].
  pose proof (i_count s Hi). pose proof (i_length s Hi). pose proof (i_threads s Hi 0%nat).
  unfold num, tot. destruct (pcs s) as [|m ts]; [done|]. rewrite tsum_cons. cbn [length] in *.
  assert (Hm : counted m = false) by (specialize (H1 m eq_refl); by destruct m). rewrite Hm.
  assert (Ht : tsum (λ p, Z.b2z (counted p)) ts <= Z.of_nat (length ts)); [|cbn; lia].
  clear. induction ts as [|p ts IH]; [done|]. rewrite tsum_cons. cbn [length]. destruct (counted p); cbn; lia.
Qed.

Lemma counter_bound_strict s i p :
  inv s → pcs s !! i = Some p → is_thread p = true → counted p = false → counter (shared s) < Z.of_nat n.
Proof.
  intros Hi Hp Ht Hc. rewrite (i_counter s Hi).
  assert (Hn : num counted s + num (λ p, negb (counted p)) s = Z.of_nat (length (pcs s))).
  { unfold num. rewrite <- tot_plus. unfold tot. clear. induction (pcs s) as [|q ps IH]; [done|].
    rewrite tsum_cons, IH. cbn [length]. destruct (counted q); cbn; lia. }
  destruct (lookup_lt_is_Some_2 (pcs s) 0 ltac:(rewrite (i_length s Hi); lia)) as [m Hm].
  assert (Hi0 : i ≠ 0%nat) by (rewrite (thread_number s i p Hi Hp) in Ht; by apply bool_decide_eq_true in Ht).
  pose proof (num_ge2 (λ p, negb (counted p)) s i 0 p m Hi0 Hp Hm) as H2. cbn beta in H2.
  pose proof (i_threads s Hi 0%nat m Hm) as Hm0. rewrite Hc in H2.
  assert (counted m = false) as Hmc by by destruct m. rewrite Hmc in H2. cbn in H2.
  pose proof (i_length s Hi). pose proof (i_count s Hi). lia.
Qed.

(** One thread at a time is between the lock and the unlock. *)
Lemma holds_once s i j p q :
  inv s → pcs s !! i = Some p → pcs s !! j = Some q → holds p = true → holds q = true → i = j.
Proof.
  intros Hi Hp Hq H1 H2. destruct (decide (i = j)) as [|Hij]; [done|].
  pose proof (num_ge2 holds s i j p q Hij Hp Hq) as H. rewrite (i_mutex s Hi), H1, H2 in H.
  by destruct (mutex (shared s)).
Qed.

(** The counter is one ahead of what was printed while a thread prints. *)
Lemma printing_ahead s i p :
  inv s → pcs s !! i = Some p → printing p = true → counter (shared s) = 1 + num printed s.
Proof.
  intros Hi Hp Hq. rewrite (i_counter s Hi).
  assert (Hn : num counted s = num printed s + num printing s).
  { unfold num. rewrite <- tot_plus. unfold tot. clear. induction (pcs s) as [|q ps IH]; [done|].
    rewrite !tsum_cons, IH. destruct q; cbn; lia. }
  pose proof (num_ge printing s i p Hp) as H1. rewrite Hq in H1.
  pose proof (num_le printing holds s ltac:(by intros [])) as H2. rewrite (i_mutex s Hi) in H2.
  destruct (mutex (shared s)); cbn in *; lia.
Qed.

(** What a step has to keep for the threads that do not move. *)
Lemma thread_ok_frame g g' j q :
  thread_ok g j q →
  (∀ k v, q = T_store k v → counter g' = counter g) →
  (∀ k x, j = S k → threads g !! k = Some x → threads g' !! k = Some x) →
  (j = 0%nat → (∀ v, q ≠ M_end v) ∧ length (threads g') = length (threads g) ∧
    ∀ k, threads g !! k = Some (Some true) → threads g' !! k = Some (Some true)) →
  thread_ok g' j q.
Proof.
  intros Hok Hv Hk H0. destruct j as [|j]; cbn in *.
  - destruct (H0 eq_refl) as (Hq & Hl & Ht). destruct q; cbn in *; try done; [by rewrite Hl| |].
    + destruct Hok as (?&?&?). rewrite Hl. split_and!; auto.
    + by destruct (Hq final).
  - destruct Hok as (Hn & Hf & Hl). split_and!; [done|by apply Hk|].
    destruct q; try done. cbn in *. by rewrite (Hv _ _ eq_refl).
Qed.

(** The places after a step. *)
Lemma places_step (s : tsys pc glob) g' i p' new :
  (i < length (pcs s))%nat → thread_ok g' i p' →
  (∀ j q, j ≠ i → pcs s !! j = Some q → thread_ok g' j q) →
  (∀ j q, new !! j = Some q → thread_ok g' (length (pcs s) + j) q) →
  ∀ j q, (<[i := p']> (pcs s) ++ new) !! j = Some q → thread_ok g' j q.
Proof.
  intros Hi Hp Ho Hn j q Hq. apply lookup_app_Some in Hq as [Hq|[Hl Hq]].
  - destruct (decide (j = i)) as [->|Hj].
    + rewrite list_lookup_insert_eq in Hq by done. by injection Hq as <-.
    + rewrite list_lookup_insert_ne in Hq by done. by apply (Ho j).
  - rewrite length_insert in *. specialize (Hn _ _ Hq). by replace (length (pcs s) + (j - length (pcs s)))%nat with j in Hn by lia.
Qed.

(** Every step uses up one of the steps of the program. *)
Lemma exec_potential i s p g' p' new :
  inv s → pcs s !! i = Some p → exec true p (shared s) = Next (p', g', new) →
  potential p' + tsum potential new = potential p - 1.
Proof.
  intros Hi Hp He. pose proof (i_threads s Hi i p Hp) as Hok.
  destruct p as [k|j|v|k|k|k v|k|k|k]; cbn [exec counting is_thread thread_func main_step] in He; try done.
  - destruct i as [|i]; [|by destruct Hok]. cbn in Hok.
    destruct (Nat.ltb_spec k n); simplify_eq; cbn -[Z.of_nat Z.mul Z.add]; lia.
  - destruct i as [|i]; [|by destruct Hok]. cbn in Hok.
    destruct (Nat.ltb_spec j n); [|simplify_eq; cbn; lia].
    destruct (threads (shared s) !! j) as [[[]|]|]; simplify_eq; cbn; lia.
  - destruct (mutex (shared s)); simplify_eq/=; lia.
  - simplify_eq/=; lia.
  - case_decide; simplify_eq/=. destruct prints; cbn; lia.
  - simplify_eq/=; lia.
  - destruct (mutex (shared s)); simplify_eq/=; lia.
Qed.

Lemma inv_thread_step i s p g' p' new :
  inv s → process_over s = false → pcs s !! i = Some p → is_thread p = true →
  thread_func p (shared s) = Next (p', g', new) →
  new = [] ∧ thread_ok g' i p' ∧ length (threads g') = length (threads (shared s)) ∧
  (∀ j q, j ≠ i → pcs s !! j = Some q → thread_ok g' j q) ∧
  Z.b2z (mutex g') - Z.b2z (mutex (shared s)) = Z.b2z (holds p') - Z.b2z (holds p) ∧
  counter g' - counter (shared s) = Z.b2z (counted p') - Z.b2z (counted p) ∧
  shown g' = (if prints then seqZ 1 (num printed s - Z.b2z (printed p) + Z.b2z (printed p')) else []).
Proof.
  intros Hi Ho Hp Ht He. pose proof (i_threads s Hi i p Hp) as Hok.
  rewrite (thread_number s i p Hi Hp) in Ht. apply bool_decide_eq_true in Ht. destruct i as [|i]; [done|]. clear Ht.
  destruct Hok as (Hn & Hf & Hl).
  assert (Hmain : ∀ j q, j = 0%nat → pcs s !! j = Some q → ∀ v, q ≠ M_end v).
  { intros j q -> Hq v ->. unfold process_over in Ho. by rewrite Hq in Ho. }
  assert (Hst : holds p = true → ∀ j q k v, j ≠ S i → pcs s !! j = Some q → q ≠ T_store k v).
  { intros Hh j q k v Hj Hq ->. by apply Hj, (holds_once s j (S i) (T_store k v) p). }
  pose proof (i_shown s Hi) as Hsh. pose proof (printing_ahead s (S i) p Hi Hp) as Hah.
  destruct p as [k|j|v|k|k|k v|k|k|k]; cbn in *; simplify_eq/=.
  - destruct (mutex (shared s)); simplify_eq/=. split_and!; try done; try lia; [|by replace (num printed s - 0 + 0) with (num printed s) by lia].
    intros j q Hj Hq. eapply thread_ok_frame; [by eapply i_threads|by intros|by intros|]. intros ->. split_and!; try done. by eapply Hmain.
  - split_and!; try done; try lia; [|by replace (num printed s - 0 + 0) with (num printed s) by lia]. intros j q Hj Hq. by eapply i_threads.
  - case_decide; simplify_eq/=. split_and!.
    + done.
    + by destruct prints.
    + by destruct prints.
    + unfold loaded_ok. by destruct prints.
    + done.
    + intros j q Hj Hq. eapply thread_ok_frame; [by eapply i_threads|intros k' v ->; by destruct (Hst eq_refl j _ k' v Hj Hq)|done|].
      intros ->. split_and!; try done. by eapply Hmain.
    + destruct prints; cbn; lia.
    + destruct prints; cbn; lia.
    + rewrite Hsh. destruct prints; cbn; [by rewrite Z.sub_0_r, Z.add_0_r|done].
  - simplify_eq/=. split_and!; try done; try lia.
    + intros j q Hj Hq. eapply thread_ok_frame; [by eapply i_threads|by intros|by intros|]. intros ->. split_and!; try done. by eapply Hmain.
    + rewrite Hsh, (Hah eq_refl), Z.sub_0_r. destruct prints; [|done].
      pose proof (seqZ_S 1 (Z.to_nat (num printed s))) as Hz. pose proof (num_nonneg printed s).
      rewrite Nat2Z.inj_succ, Z2Nat.id in Hz by done. rewrite <- Hz. f_equal; lia.
  - destruct (mutex (shared s)); simplify_eq/=. rewrite length_insert.
    assert (Hlt : (i < length (threads (shared s)))%nat) by by eapply lookup_lt_Some.
    split_and!; try done; [by rewrite list_lookup_insert_eq| |lia|by rewrite Z.sub_add].
    intros j q Hj Hq. eapply thread_ok_frame; [by eapply i_threads| | |]; cbn [threads set_threads set_mutex].
    + done.
    + intros k x -> Hx. rewrite list_lookup_insert_ne by lia. done.
    + intros ->. rewrite length_insert. split_and!; [by eapply Hmain|done|]. intros k Hk.
      rewrite list_lookup_insert_ne; [done|]. intros ->. congruence.
Qed.

Lemma inv_main_step s p g' p' new :
  inv s → pcs s !! 0%nat = Some p → is_thread p = false →
  main_step true p (shared s) = Next (p', g', new) →
  thread_ok g' 0 p' ∧ length (threads g') = (length (threads (shared s)) + length new)%nat ∧
  (length (threads g') <= n)%nat ∧
  (∀ j q, new !! j = Some q → thread_ok g' (length (pcs s) + j) q) ∧
  (∀ k x, threads (shared s) !! k = Some x → threads g' !! k = Some x) ∧
  mutex g' = mutex (shared s) ∧ counter g' = counter (shared s) ∧ shown g' = shown (shared s) ∧
  is_thread p' = false ∧ tsum (λ p, Z.b2z (holds p)) new = 0 ∧ tsum (λ p, Z.b2z (counted p)) new = 0 ∧
  tsum (λ p, Z.b2z (printed p)) new = 0.
Proof.
  intros Hi Hp Ht He. pose proof (i_threads s Hi 0%nat p Hp) as Hok. pose proof (i_length s Hi) as Hlen.
  pose proof (i_count s Hi) as Hc.
  destruct p as [k|j|v|k|k|k v|k|k|k]; cbn in *; try done.
  - destruct (Nat.ltb_spec k n); simplify_eq/=.
    + rewrite length_app. cbn. split_and!; try done; try lia.
      * intros [|j] q Hq; [|done]. injection Hq as <-. rewrite Hlen, Nat.add_0_r. cbn.
        destruct Hok as [_ <-]. split_and!; [done| |done]. by rewrite lookup_app_r, Nat.sub_diag by lia.
      * intros j x Hx. by apply lookup_app_l_Some.
    + split_and!; try done; lia.
  - destruct (Nat.ltb_spec j n); simplify_eq/=.
    + destruct (threads (shared s) !! j) as [[[]|]|] eqn:Hj; simplify_eq/=. destruct Hok as (?&?&Hall). split_and!; try done; try lia.
      intros k Hk. destruct (decide (k = j)) as [->|]; [done|]. apply Hall. lia.
    + destruct Hok as (?&?&Hall). split_and!; try done; try lia. intros k Hk. apply Hall. lia.
Qed.

Lemma counter_inv_step i s s' : inv s → granted_step i s = Next s' → inv s' ∧ tot potential s' = tot potential s - 1.
Proof.
  intros Hi Hs. apply tstep_inv in Hs as (Ho & p & p' & new & Hp & He & Hpcs & Htot & Hnum). cbn [fst snd] in *.
  pose proof (exec_potential _ _ _ _ _ _ Hi Hp He) as Hpot. split; [|rewrite (Htot potential); lia].
  pose proof (i_length s Hi) as Hlen. pose proof (i_mutex s Hi) as Hm. pose proof (i_counter s Hi) as Hc.
  assert (Hlt : (i < length (pcs s))%nat) by by eapply lookup_lt_Some.
  assert (Hl' : length (pcs s') = (length (pcs s) + length new)%nat) by by rewrite Hpcs, length_app, length_insert.
  cbn [exec counting] in He. destruct (is_thread p) eqn:Ht.
  - destruct (inv_thread_step i s p _ p' new Hi Ho Hp Ht He) as (-> & Hpl & Hlt' & Hoth & Hmx & Hcn & Hsh).
    clear He Hpot Htot.
    split; [rewrite (Hnum holds); change (tsum _ []) with 0; clear - Hm Hmx; lia
           |rewrite (Hnum counted); change (tsum _ []) with 0; clear - Hc Hcn; lia
           |rewrite Hsh, (Hnum printed); change (tsum _ []) with 0; by rewrite Z.add_0_r
           |rewrite Hl', Hlt'; cbn [length]; lia| |].
    + rewrite Hpcs. apply places_step; done.
    + rewrite Hlt'. apply Hi.
  - assert (i = 0%nat) as ->.
    { rewrite (thread_number s i p Hi Hp) in Ht. apply bool_decide_eq_false in Ht. lia. }
    destruct (inv_main_step s p _ p' new Hi Hp Ht He) as (Hpl & Hln & Hn & Hnew & Hkeep & Hmx & Hcn & Hsh & Ht' & Hh0 & Hc0 & Hp0).
    assert (Hhp : ∀ q, is_thread q = false → holds q = false ∧ counted q = false ∧ printed q = false) by by intros [].
    destruct (Hhp p Ht) as (Hh1 & Hc1 & Hp1), (Hhp p' Ht') as (Hh2 & Hc2 & Hp2).
    clear He Hpot Htot.
    split; [rewrite (Hnum holds), Hh1, Hh2, Hh0, Hmx; clear - Hm; cbn; lia
           |rewrite (Hnum counted), Hc1, Hc2, Hc0, Hcn; clear - Hc; cbn; lia
           |rewrite (Hnum printed), Hp1, Hp2, Hp0, Hsh, (i_shown s Hi); cbn [Z.b2z]; by rewrite Z.sub_0_r, !Z.add_0_r
           |clear - Hlen Hln Hl'; lia| |done].
    rewrite Hpcs. apply places_step; try done. intros j q Hj Hq.
    eapply thread_ok_frame; [by eapply i_threads|done|intros ?? _; apply Hkeep|done].
Qed.

Lemma inv_run ls s s' :
  inv s → run granted_step ls s = Next s' → inv s' ∧ tot potential s' = tot potential s - Z.of_nat (length ls).
Proof.
  revert s. induction ls as [|i ls IH]; intros s Hi H; [injection H as ->; split; [done|cbn; lia]|].
  rewrite run_cons in H. destruct (granted_step i s) as [s1| |] eqn:Hs; [|done..].
  destruct (counter_inv_step i s s1 Hi Hs) as [Hi1 Hp1]. destruct (IH s1 Hi1 H) as [Hi' Hp']. split; [done|].
  rewrite Hp', Hp1. cbn [length]. lia.
Qed.

(** ** No deadlock, nothing undefined *)

Lemma flag_known s j :
  inv s → (j < length (threads (shared s)))%nat →
  ∃ p, pcs s !! S j = Some p ∧ is_thread p = true ∧ threads (shared s) !! j = Some (Some (ended_thread p)).
Proof.
  intros Hi Hj. destruct (lookup_lt_is_Some_2 (pcs s) (S j)) as [p Hp]; [rewrite (i_length s Hi); lia|].
  exists p. split_and!; [done|by rewrite (thread_number s (S j) p Hi Hp)|]. apply (i_threads s Hi (S j) p Hp).
Qed.

Lemma never_wrong i s u : Z.of_nat n <= INT_MAX → inv s → granted_step i s ≠ Wrong u.
Proof.
  intros Hn Hi H. apply tstep_wrong in H as (_ & p & Hp & He). cbn [fst snd exec counting] in *.
  pose proof (i_threads s Hi i p Hp) as Hok. destruct p as [k|j|v|k|k|k v|k|k|k]; cbn in He; try done.
  - by destruct (k <? n)%nat.
  - destruct (Nat.ltb_spec j n) as [Hj|]; [|done]. destruct i as [|i]; [|by destruct Hok]. destruct Hok as (_ & Hl & _).
    destruct (flag_known s j Hi) as (q & _ & _ & Hq); [lia|]. rewrite Hq in He. by destruct (ended_thread q).
  - by destruct (mutex (shared s)).
  - pose proof (counter_bound s Hi). pose proof (counter_bound_strict s i _ Hi Hp eq_refl eq_refl).
    case_decide as Hd; [done|]. apply Hd. destruct i as [|i]; [by destruct Hok|].
    destruct Hok as (_ & _ & ->). unfold is_int, INT_MAX, INT_MIN in *. lia.
  - destruct (mutex (shared s)) eqn:Hm; [done|]. pose proof (num_ge holds s i _ Hp) as Hh.
    rewrite (i_mutex s Hi), Hm in Hh. cbn in Hh. lia.
Qed.

Lemma next_step s i p :
  Z.of_nat n <= INT_MAX → inv s → process_over s = false → pcs s !! i = Some p → exec true p (shared s) ≠ Blocked →
  ∃ s', granted_step i s = Next s'.
Proof.
  intros Hn Hi Ho Hp Hb. destruct (granted_step i s) as [s'| |u] eqn:Hs; [by exists s'| |by apply never_wrong in Hs].
  unfold granted_step, tstep in Hs. cbn [fst snd] in Hs. rewrite Ho, Hp in Hs.
  destruct (exec true p (shared s)) as [[[? ?] ?]| |]; done.
Qed.

Lemma not_stuck s :
  Z.of_nat n <= INT_MAX → inv s → process_over s = false → ∃ i s', granted_step i s = Next s'.
Proof.
  intros Hn Hi Ho. destruct (mutex (shared s)) eqn:Hm.
  { destruct (num_pos holds s) as (i & p & Hp & Hh); [rewrite (i_mutex s Hi), Hm; cbn; lia|].
    exists i. apply (next_step s i p); try done. destruct p; try done; cbn; [by case_decide|by rewrite Hm]. }
  destruct (decide (0 < num (λ p, match p with T_lock _ => true | _ => false end) s)) as [Hl|Hl].
  { apply num_pos in Hl as (i & p & Hp & Hl). exists i. apply (next_step s i p); try done. destruct p; try done.
    cbn. by rewrite Hm. }
  assert (Hdone : ∀ j p, pcs s !! j = Some p → is_thread p = true → ended_thread p = true).
  { intros j p Hp Ht. pose proof (num_ge holds s j p Hp) as Hh. rewrite (i_mutex s Hi), Hm in Hh.
    pose proof (num_ge (λ p, match p with T_lock _ => true | _ => false end) s j p Hp) as Hl'.
    destruct p; cbn in *; try done; lia. }
  destruct (lookup_lt_is_Some_2 (pcs s) 0) as [p Hp]; [rewrite (i_length s Hi); lia|].
  exists 0%nat. apply (next_step s 0 p); try done. pose proof (i_threads s Hi 0%nat p Hp) as Hok.
  destruct p as [k|j|v| | | | | |]; cbn in *; try done; [by destruct (k <? n)%nat| |].
  - destruct (Nat.ltb_spec j n); [|done]. destruct Hok as (_ & Hl' & _).
    destruct (flag_known s j Hi) as (q & Hq & Ht & ->); [lia|]. by rewrite (Hdone _ _ Hq Ht).
  - unfold process_over in Ho. by rewrite Hp in Ho.
Qed.

(** Whether a thread has ended is known to main. *)
Lemma ended_flag s j p :
  inv s → pcs s !! S j = Some p → threads (shared s) !! j = Some (Some true) → ∃ k, p = T_done k.
Proof.
  intros Hi Hp Hf. destruct (i_threads s Hi (S j) p Hp) as (Hn & Hf' & _). rewrite Hf in Hf'.
  destruct p; try done. by eexists.
Qed.

(** An access of a thread is under the mutex; main reads the counter when the threads have ended. *)
Lemma no_race s i j p q :
  inv s → i ≠ j → pcs s !! i = Some p → pcs s !! j = Some q → ¬ (accesses p = true ∧ accesses q = true).
Proof.
  intros Hi Hij Hp Hq [Ha Hb].
  assert (Hmain : ∀ k x y, k ≠ 0%nat → pcs s !! 0%nat = Some x → pcs s !! k = Some y →
    accesses x = true → accesses y = true → False).
  { intros [|k] x y Hk Hx Hy H1 H2; [done|]. pose proof (i_threads s Hi 0%nat x Hx) as Hok.
    destruct x as [|m| | | | | | |]; try done. destruct Hok as (Hm & Hl & Hall). apply Nat.leb_le in H1.
    pose proof (i_length s Hi). pose proof (lookup_lt_Some _ _ _ Hy).
    destruct (ended_flag s k y Hi Hy) as [z ->]; [apply Hall; lia|done]. }
  destruct i as [|i]; [by apply (Hmain j p q)|]. destruct j as [|j]; [by apply (Hmain (S i) q p)|].
  apply Hij, (holds_once s _ _ p q); try done.
  - destruct (i_threads s Hi (S i) p Hp) as [Hn _]. by destruct p.
  - destruct (i_threads s Hi (S j) q Hq) as [Hn _]. by destruct q.
Qed.

(** When main has ended every thread has. *)
Lemma over_potential s :
  inv s → process_over s = true →
  pcs s !! 0%nat = Some (M_end (Z.of_nat n)) ∧ tot potential s = 0 ∧ num printed s = Z.of_nat n.
Proof.
  intros Hi Ho. unfold process_over in Ho. destruct (pcs s !! 0%nat) as [p|] eqn:Hp; [|done].
  destruct p as [| |v| | | | | |]; try done. clear Ho. destruct (i_threads s Hi 0%nat _ Hp) as (-> & Hl & Hall).
  pose proof (i_counter s Hi) as Hc. pose proof (i_length s Hi) as Hlen. rewrite Hl in Hlen.
  assert (Hd : ∀ j q, pcs s !! S j = Some q → ∃ k, q = T_done k).
  { intros j q Hq. pose proof (lookup_lt_Some _ _ _ Hq). apply (ended_flag s j q Hi Hq), Hall. lia. }
  assert (Hts : ∀ (ts : list pc), (∀ j q, ts !! j = Some q → ∃ k, q = T_done k) →
    tsum (λ p, Z.b2z (counted p)) ts = Z.of_nat (length ts) ∧ tsum potential ts = 0 ∧
    tsum (λ p, Z.b2z (printed p)) ts = Z.of_nat (length ts)).
  { induction ts as [|q ts IH]; intros H; [done|]. rewrite !tsum_cons. destruct (H 0%nat q eq_refl) as [k ->].
    destruct IH as (-> & -> & ->); [intros j; apply (H (S j))|]. cbn [length]. split_and!; cbn; lia. }
  unfold num, tot in *. destruct (pcs s) as [|m ts]; [done|]. injection Hp as ->. cbn [length] in Hlen.
  destruct (Hts ts) as (H1 & H2 & H3); [intros j; apply (Hd j)|]. rewrite tsum_cons in *. rewrite tsum_cons, H2, H3.
  split_and!; [|done|cbn; lia]. cbn. do 2 f_equal. rewrite Hc, H1. cbn. lia.
Qed.

Lemma counter_potential_nonneg s : inv s → 0 <= tot potential s.
Proof.
  intros Hi. pose proof (i_threads s Hi) as Hp. pose proof (i_length s Hi) as Hlen. unfold tot.
  destruct (pcs s) as [|m ts]; [done|]. rewrite tsum_cons.
  assert (0 <= potential m) by (pose proof (Hp 0%nat m eq_refl) as Hm; destruct m; cbn in *; lia).
  assert (Ht : ∀ j p, ts !! j = Some p → 0 <= potential p).
  { intros j p H1. destruct (Hp (S j) p H1) as [Hn _]. destruct p; try done; cbn; lia. }
  clear -H Ht. assert (0 <= tsum potential ts); [|lia]. clear H. induction ts as [|p ts IH]; [done|]. rewrite tsum_cons.
  pose proof (Ht 0%nat p eq_refl). specialize (IH (λ j, Ht (S j))). lia.
Qed.

End program.

(** C35: n threads that each load the counter, store the next value and, in mutex_example.c,
    print it, under the mutex.  When every pthread_create succeeds: no two threads, and neither
    main and a thread, are ever about to access the counter at the same time; nothing undefined
    happens (no overflow, no unlock of a free mutex, no join of an unknown thread); what has been
    printed is 1, 2, 3 and so on; every run has at most 6n + 2 steps, and n more when the threads
    print; a run can only stop after exactly that many, with main at its end and everything from 1 to
    n printed by the threads that print; and the counter that main finds is n: no update is lost. *)
Theorem counter_counts n prints ls s :
  Z.of_nat n <= INT_MAX → run (granted_step n prints) ls sys0 = Next s →
  let steps := ((6 + Nat.b2n prints) * n + 2)%nat in
  (∀ i j p q, i ≠ j → pcs s !! i = Some p → pcs s !! j = Some q → ¬ (accesses n p = true ∧ accesses n q = true)) ∧
  (∀ i u, granted_step n prints i s ≠ Wrong u) ∧
  (∃ k, shown (shared s) = seqZ 1 k) ∧
  (length ls <= steps)%nat ∧
  ((∀ i s', granted_step n prints i s ≠ Next s') →
   length ls = steps ∧ pcs s !! 0%nat = Some (M_end (Z.of_nat n)) ∧
   shown (shared s) = if prints then seqZ 1 (Z.of_nat n) else []) ∧
  (∀ v, pcs s !! 0%nat = Some (M_end v) → v = Z.of_nat n).
Proof.
  intros Hn Hrun steps. destruct (inv_run n prints ls sys0 s (inv_sys0 n prints) Hrun) as [Hi Hp].
  assert (H0 : tot (potential n prints) sys0 = Z.of_nat steps) by (unfold steps; destruct prints; cbn -[Nat.mul Z.mul]; lia).
  assert (Hnn : 0 <= tot (potential n prints) s) by by apply counter_potential_nonneg.
  split_and!.
  - intros i j p q. by apply (no_race n prints s).
  - intros i u. by apply never_wrong.
  - rewrite (i_shown n prints s Hi). destruct prints; [by eexists|by exists 0].
  - lia.
  - intros Hst. destruct (@process_over bool pc glob (counting n prints) s) eqn:Ho.
    + destruct (over_potential n prints s Hi Ho) as (Hm & Hz & Hpr). split_and!; [lia|done|].
      rewrite (i_shown n prints s Hi). destruct prints; [by rewrite Hpr|done].
    + destruct (not_stuck n prints s Hn Hi Ho) as (i & s' & Hs). by destruct (Hst i s').
  - intros v Hv. assert (Ho : @process_over bool pc glob (counting n prints) s = true) by (unfold process_over; by rewrite Hv).
    destruct (over_potential n prints s Hi Ho) as (Hm & _). congruence.
Qed.

(** The ten threads of pthread_join_example.c, all created before the first one runs. *)
Definition ten_threads : list nat :=
  replicate 11 0%nat ++ (seq 1 N_THREADS ≫= λ i, replicate 4 i) ++ replicate 11 0%nat.

(** The two threads of mutex_example.c; the second one waits for the mutex first. *)
Definition two_threads : list nat :=
  [0; 0; 0; 2; 2; 2; 2; 2; 1; 1; 1; 1; 1; 0; 0; 0]%nat.

Lemma counter_counts_witness :
  (∃ s, run (granted_step N_THREADS false) ten_threads sys0 = Next s ∧
    (∀ v, pcs s !! 0%nat = Some (M_end v) → v = 10) ∧ pcs s !! 0%nat = Some (M_end 10)) ∧
  (∃ s, run (granted_step 2 true) two_threads sys0 = Next s ∧
    (∃ k, shown (shared s) = seqZ 1 k) ∧ shown (shared s) = [1; 2]).
Proof.
  split; eexists; (split; [vm_compute; reflexivity|]); (split; [|reflexivity]).
  - refine (proj2 (proj2 (proj2 (proj2 (proj2 (counter_counts N_THREADS false ten_threads _ _ _)))))); [by vm_compute|vm_compute; reflexivity].
  - refine (proj1 (proj2 (proj2 (counter_counts 2 true two_threads _ _ _)))); [by vm_compute|vm_compute; reflexivity].
Defined.
