(* ===== verification/Timer.v ===== *)
(** * Three interval timers and their handlers: Linux/Signals/signal_timer_example.c

    The handlers run on top of main, and of each other: a signal is delivered between any two
    steps, also between the tests of check_received_signal, unless its own handler is running
    ([signal] blocks the signal for that time).  A timer that is set can expire at any time.
    The log lines are left out. *)

From stdpp Require Import functions.
From S2P Require Import Prelude CInt TransSys.

Open Scope Z_scope.

(** ITIMER_REAL sends SIGALRM, ITIMER_VIRTUAL SIGVTALRM and ITIMER_PROF SIGPROF: one name
    stands for the timer, its signal and the handler. *)
Inductive timer := ITIMER_REAL | ITIMER_VIRTUAL | ITIMER_PROF.

#[export] Instance timer_eq_dec : EqDecision timer.
Proof. solve_decision. Defined.

Record timeval := mk_timeval { tv_sec : Z; tv_usec : Z }.
Record itimerval := mk_itimerval { it_interval : timeval; it_value : timeval }.

Definition stop : itimerval := mk_itimerval (mk_timeval 0 0) (mk_timeval 0 0).

(** The values that setup_timer gives. *)
Definition setup_value (t : timer) : itimerval :=
  match t with
  | ITIMER_REAL => mk_itimerval (mk_timeval 5 0) (mk_timeval 5 0)
  | ITIMER_VIRTUAL => mk_itimerval (mk_timeval 2 0) (mk_timeval 2 0)
  | ITIMER_PROF => mk_itimerval (mk_timeval 1 0) (mk_timeval 1 0)
  end.

(** A timer with a value of zero is disarmed. *)
Definition armed (v : itimerval) : bool := negb ((tv_sec (it_value v) =? 0) && (tv_usec (it_value v) =? 0)).

(** At expiry the value starts again from the interval. *)
Definition expired (v : itimerval) : itimerval := mk_itimerval (it_interval v) (it_interval v).

(** Where a handler is; [H_test t] reads the flag of [t] in check_received_signal. *)
Inductive handler_pc := H_stop | H_set | H_test (t : timer) | H_done | H_return.

(** Where main is; [M_killed]: a signal without handler has ended the process. *)
Inductive main_pc :=
  | M_signal (t : timer) | M_setitimer (t : timer) | M_loop | M_getitimer (t : timer) | M_usleep
  | M_end | M_return | M_killed.

(** [frames]: the handlers that are running, the last one called first; [runs] counts the
    calls of each handler. *)
Record state := mk_state {
  main_at : main_pc;
  frames : list (timer * handler_pc);
  timers : timer → itimerval;
  pending : timer → bool;
  installed : timer → bool;
  receive : timer → bool;
  loop_is_done : bool;
  runs : timer → nat;
}.

Definition set_main p s :=
  mk_state p (frames s) (timers s) (pending s) (installed s) (receive s) (loop_is_done s) (runs s).
Definition set_frames f s :=
  mk_state (main_at s) f (timers s) (pending s) (installed s) (receive s) (loop_is_done s) (runs s).
Definition setitimer t v s :=
  mk_state (main_at s) (frames s) (<[t := v]> (timers s)) (pending s) (installed s) (receive s) (loop_is_done s) (runs s).
Definition set_pending t b s :=
  mk_state (main_at s) (frames s) (timers s) (<[t := b]> (pending s)) (installed s) (receive s) (loop_is_done s) (runs s).
Definition install t s :=
  mk_state (main_at s) (frames s) (timers s) (pending s) (<[t := true]> (installed s)) (receive s) (loop_is_done s) (runs s).
Definition set_receive t s :=
  mk_state (main_at s) (frames s) (timers s) (pending s) (installed s) (<[t := true]> (receive s)) (loop_is_done s) (runs s).
Definition set_done s :=
  mk_state (main_at s) (frames s) (timers s) (pending s) (installed s) (receive s) true (runs s).
Definition count_run t s :=
  mk_state (main_at s) (frames s) (timers s) (pending s) (installed s) (receive s) (loop_is_done s)
    (<[t := S (runs s t)]> (runs s)).

(** The order in which main sets the timers up, and in which the flags are tested. *)
Definition next_timer (t : timer) : option timer :=
  match t with
  | ITIMER_REAL => Some ITIMER_VIRTUAL
  | ITIMER_VIRTUAL => Some ITIMER_PROF
  | ITIMER_PROF => None
  end.

Definition check_received_signal (t : timer) (s : state) : handler_pc :=
  if receive s t then match next_timer t with Some t' => H_test t' | None => H_done end else H_return.

(** The handler of [t]; its setitimer is not tested for failure ([ok]). *)
Definition handle (ok : bool) (t : timer) (p : handler_pc) (fs : list (timer * handler_pc)) (s : state) : state :=
  match p with
  | H_stop => let s := if ok then setitimer t stop s else s in set_frames ((t, H_set) :: fs) s
  | H_set => set_frames ((t, H_test ITIMER_REAL) :: fs) (set_receive t s)
  | H_test u => set_frames ((t, check_received_signal u s) :: fs) s
  | H_done => set_frames ((t, H_return) :: fs) (set_done s)
  | H_return => set_frames fs s
  end.

Definition setup_signal_handler (t : timer) (s : state) : state :=
  set_main (match next_timer t with Some t' => M_signal t' | None => M_setitimer ITIMER_REAL end) (install t s).

(** The macros: a failure is logged, and ends the loop of main where a value is asked for. *)
Definition SET_TIMER (ok : bool) (t : timer) (v : itimerval) (s : state) : state :=
  if ok then setitimer t v s else s.
Definition GET_TIMER (ok : bool) (next : main_pc) : main_pc := if ok then next else M_end.

(** A failure is logged for ITIMER_REAL, and not seen for the other two. *)
Definition setup_timer (ok : bool) (t : timer) (s : state) : state :=
  set_main (match next_timer t with Some t' => M_setitimer t' | None => M_loop end)
    (SET_TIMER ok t (setup_value t) s).

Definition main_step (ok : bool) (s : state) : sres state :=
  match main_at s with
  | M_signal t => Next (setup_signal_handler t s)
  | M_setitimer t => Next (setup_timer ok t s)
  | M_loop => Next (set_main (if loop_is_done s then M_end else M_getitimer ITIMER_REAL) s)
  | M_getitimer t =>
      Next (set_main (GET_TIMER ok (match next_timer t with Some t' => M_getitimer t' | None => M_usleep end)) s)
  | M_usleep => Next (set_main M_loop s)
  | M_end => Next (set_main M_return s)
  | M_return | M_killed => Blocked
  end.

Definition over (s : state) : bool := match main_at s with M_return | M_killed => true | _ => false end.

(** A timer expires; a pending signal is delivered; the program goes on, where [ok] is the
    answer of setitimer or getitimer. *)
Inductive label := Expire (t : timer) | Deliver (t : timer) | Run (ok : bool).

Definition deliver (t : timer) (s : state) : state :=
  if installed s t
  then count_run t (set_frames ((t, H_stop) :: frames s) (set_pending t false s))
  else set_main M_killed s.

Definition step (l : label) (s : state) : sres state :=
  if over s then Blocked
  else
    match l with
    | Expire t =>
        if armed (timers s t) then Next (set_pending t true (setitimer t (expired (timers s t)) s)) else Blocked
    | Deliver t =>
        if pending s t && bool_decide (t ∉ (frames s).*1) then Next (deliver t s) else Blocked
    | Run ok =>
        match frames s with
        | (t, p) :: fs => Next (handle ok t p fs s)
        | [] => main_step ok s
        end
    end.

Definition state0 : state :=
  mk_state (M_signal ITIMER_REAL) [] (λ _, stop) (λ _, false) (λ _, false) (λ _, false) false (λ _, 0%nat).

(** Runs in which setitimer never fails. *)
Definition granted (l : label) (s : state) : bool :=
  match l with
  | Run false => match frames s, main_at s with [], M_getitimer _ => true | _, _ => false end
  | _ => true
  end.

Definition granted_step (l : label) (s : state) : sres state := if granted l s then step l s else Blocked.

Definition timer_reachable : state → Prop := reachable (λ s, s = state0) granted_step.

(** ** The invariant *)

Definition index (t : timer) : nat :=
  match t with ITIMER_REAL => 0 | ITIMER_VIRTUAL => 1 | ITIMER_PROF => 2 end.

(** main has installed the handler of [t]; main has set the timer [t] up. *)
Definition has_handler (p : main_pc) (t : timer) : bool :=
  match p with M_signal u => (index t <? index u)%nat | _ => true end.
Definition is_set (p : main_pc) (t : timer) : bool :=
  match p with M_signal _ => false | M_setitimer u => (index t <? index u)%nat | _ => true end.

(** What a handler knows at its place. *)
Definition frame_ok (s : state) (f : timer * handler_pc) : Prop :=
  match f.2 with
  | H_stop | H_set => True
  | H_test u => receive s f.1 = true ∧ ∀ u', (index u' < index u)%nat → receive s u' = true
  | H_done => ∀ u, receive s u = true
  | H_return => receive s f.1 = true
  end.

Definition before_set (p : handler_pc) : bool := match p with H_stop | H_set => true | _ => false end.
Definition checking (p : handler_pc) : bool := match p with H_test _ | H_done => true | _ => false end.

(** The signal of [t] has been received or is about to be. *)
Definition coming (s : state) (t : timer) : Prop :=
  receive s t = true ∨ (∃ p, (t, p) ∈ frames s ∧ before_set p = true) ∨ pending s t = true ∨ armed (timers s t) = true.

(** How often the handler of [t] has run, and may still run. *)
Definition runs_ok (s : state) (t : timer) : Prop :=
  if armed (timers s t) then (runs s t = 0%nat ∧ t ∉ (frames s).*1) ∨ (runs s t = 1%nat ∧ (t, H_stop) ∈ frames s)
  else (runs s t + Nat.b2n (pending s t) <= 2)%nat.

Record inv (s : state) : Prop := {
  i_alive : main_at s ≠ M_killed;
  i_nodup : NoDup (frames s).*1;
  i_done : loop_is_done s = true → ∀ t, receive s t = true;
  i_check : (∀ t, receive s t = true) → loop_is_done s = true ∨ ∃ t p, (t, p) ∈ frames s ∧ checking p = true;
  i_frames : ∀ f, f ∈ frames s → frame_ok s f;
  i_handlers : ∀ t, has_handler (main_at s) t = true → installed s t = true;
  i_unset : ∀ t, is_set (main_at s) t = false →
    armed (timers s t) = false ∧ pending s t = false ∧ runs s t = 0%nat ∧ receive s t = false ∧ t ∉ (frames s).*1;
  i_coming : ∀ t, is_set (main_at s) t = true → coming s t;
  i_runs : ∀ t, runs_ok s t;
  i_interval : ∀ t, armed (timers s t) = true → timers s t = setup_value t;
  i_stopped : ∀ t p, receive s t = true ∨ (t, p) ∈ frames s ∧ p ≠ H_stop → armed (timers s t) = false;
}.

Lemma fn_look {B} (f : timer → B) t u b : <[t := b]> f u = if decide (t = u) then b else f u.
Proof. done. Qed.

Lemma inv_state0 : inv state0.
Proof.
  split; try done; cbn.
  - constructor.
  - intros H. by specialize (H ITIMER_REAL).
  - intros f Hf. set_solver.
  - intros t _. split_and!; set_solver.
  - intros t. cbv. lia.
Qed.

Lemma inv_expire t s : inv s → armed (timers s t) = true → inv (set_pending t true (setitimer t (expired (timers s t)) s)).
Proof.
  intros Hi Ha. pose proof (i_interval s Hi t Ha) as Hv.
  assert (He : expired (timers s t) = timers s t) by (rewrite Hv; by destruct t).
  assert (Ht : ∀ u, <[t := expired (timers s t)]> (timers s) u = timers s u).
  { intros u. rewrite fn_look, He. by case_decide; subst. }
  assert (Hs : is_set (main_at s) t = true).
  { destruct (is_set (main_at s) t) eqn:H; [done|]. destruct (i_unset s Hi t H) as [H' _]. congruence. }
  split; cbn; try apply Hi.
  - intros u Hu. destruct (i_unset s Hi u Hu) as (?&?&?&?&?). rewrite Ht, fn_look. case_decide; [congruence|done].
  - intros u Hu. unfold coming. cbn. rewrite Ht, fn_look. case_decide; [auto|by apply (i_coming s Hi)].
  - intros u. pose proof (i_runs s Hi u) as Hr. unfold runs_ok in *. cbn. rewrite Ht, fn_look.
    destruct (armed (timers s u)) eqn:Hu; [done|]. case_decide; [congruence|done].
  - intros u. rewrite Ht. apply Hi.
  - intros u p Hu. rewrite Ht. by apply (i_stopped s Hi u p).
Qed.

Lemma inv_deliver t s : inv s → pending s t = true → t ∉ (frames s).*1 → inv (deliver t s).
Proof.
  intros Hi Hp Hf.
  assert (Hs : is_set (main_at s) t = true).
  { destruct (is_set (main_at s) t) eqn:H; [done|]. destruct (i_unset s Hi t H) as (_ & H' & _). congruence. }
  assert (Hin : installed s t = true).
  { apply (i_handlers s Hi). by destruct (main_at s). }
  unfold deliver. rewrite Hin. split; cbn; try apply Hi.
  - constructor; [done|apply Hi].
  - intros H. destruct (i_check s Hi H) as [|(u & p & Hu & Hc)]; [by left|]. right. exists u, p. split; [set_solver|done].
  - intros f [->|Hin']%elem_of_cons; [done|]. by apply (i_frames s Hi).
  - intros u Hu. destruct (i_unset s Hi u Hu) as (?&?&?&?&?). rewrite !fn_look. case_decide; [congruence|].
    split_and!; try done. set_solver.
  - intros u Hu. unfold coming. cbn. rewrite fn_look. case_decide as Htu; [subst; right; left; exists H_stop; set_solver|].
    destruct (i_coming s Hi u Hu) as [?|[(p&?&?)|[?|?]]]; [by left| |tauto..]. right. left. exists p. set_solver.
  - intros u. pose proof (i_runs s Hi u) as Hr. unfold runs_ok in *. cbn. rewrite !fn_look. case_decide as Htu; [subst u|].
    + rewrite Hp in Hr. destruct (armed (timers s t)); [|cbn in *; lia].
      destruct Hr as [[-> _]|[_ Hc]]; [right; split; [done|set_solver]|]. exfalso. apply Hf. by apply (list_elem_of_fmap_2 fst) in Hc.
    + destruct (armed (timers s u)); [|done]. set_solver.
  - intros u p [Hu|[[[= -> ->]|Hu]%elem_of_cons Hne]]; [by apply (i_stopped s Hi u p); left|done|].
    apply (i_stopped s Hi u p). by right.
Qed.

Lemma armed_stop : armed stop = false.
Proof. done. Qed.

(** A handler at its place [p] goes on to [p'] and changes nothing else. *)
Lemma inv_move t p p' fs s :
  inv s → frames s = (t, p) :: fs → before_set p = false → before_set p' = false →
  (checking p = true → checking p' = true ∨ loop_is_done s = true ∨ ∃ u, receive s u = false) →
  frame_ok s (t, p') → inv (set_frames ((t, p') :: fs) s).
Proof.
  intros Hi Hf Hb Hb' Hc Hok. pose proof (i_nodup s Hi) as Hnd. rewrite Hf in Hnd.
  split; cbn; try apply Hi; [done|..].
  - intros H. destruct (i_check s Hi H) as [|(u & q & Hu & Hq)]; [by left|]. rewrite Hf in Hu.
    apply elem_of_cons in Hu as [[= -> ->]|Hu]; [|right; exists u, q; split; [set_solver|done]].
    destruct (Hc Hq) as [?|[?|[v Hv]]]; [right; exists t, p'; set_solver|by left|by rewrite H in Hv].
  - intros f [->|Hin]%elem_of_cons; [done|]. apply (i_frames s Hi). rewrite Hf. set_solver.
  - intros u Hu. destruct (i_unset s Hi u Hu) as (?&?&?&?&Hnf). rewrite Hf in Hnf. split_and!; done.
  - intros u Hu. destruct (i_coming s Hi u Hu) as [?|[(q&Hq&Hbq)|[?|?]]]; unfold coming; cbn; [by left| |tauto..].
    rewrite Hf in Hq. apply elem_of_cons in Hq as [[= -> ->]|Hq]; [congruence|]. right. left. exists q. set_solver.
  - intros u. pose proof (i_runs s Hi u) as Hr. unfold runs_ok in *. cbn. destruct (armed (timers s u)); [|done].
    rewrite Hf in Hr. cbn in Hr. destruct Hr as [?|[? Hq]]; [by left|]. right. split; [done|].
    apply elem_of_cons in Hq as [[= -> <-]|Hq]; [done|]. set_solver.
  - intros u q [Hu|[[[= -> ->]|Hu]%elem_of_cons Hne]]; [by apply (i_stopped s Hi u q); left| |].
    + apply (i_stopped s Hi t p). right. rewrite Hf. split; [set_solver|]. by destruct p.
    + apply (i_stopped s Hi u q). right. rewrite Hf. split; [set_solver|done].
Qed.

Lemma inv_stop t fs s :
  inv s → frames s = (t, H_stop) :: fs → inv (set_frames ((t, H_set) :: fs) (setitimer t stop s)).
Proof.
  intros Hi Hf. pose proof (i_nodup s Hi) as Hnd. rewrite Hf in Hnd. apply NoDup_cons in Hnd as Hnd'.
  destruct Hnd' as [Hnt _]. cbn in Hnt. split; cbn; try apply Hi; [done|..].
  - intros H. destruct (i_check s Hi H) as [|(u & q & Hu & Hq)]; [by left|]. rewrite Hf in Hu. right.
    apply elem_of_cons in Hu as [[= -> ->]|Hu]; [done|]. exists u, q. split; [set_solver|done].
  - intros f [->|Hin]%elem_of_cons; [done|]. apply (i_frames s Hi). rewrite Hf. set_solver.
  - intros u Hu. destruct (i_unset s Hi u Hu) as (?&?&?&?&Hnf). rewrite Hf in Hnf. cbn in Hnf. rewrite fn_look.
    case_decide; [set_solver|done].
  - intros u Hu. unfold coming. cbn. rewrite fn_look. case_decide as Htu; [subst; right; left; exists H_set; set_solver|].
    destruct (i_coming s Hi u Hu) as [?|[(q&Hq&Hbq)|[?|?]]]; [by left| |tauto..].
    rewrite Hf in Hq. right. left. exists q. set_solver.
  - intros u. pose proof (i_runs s Hi u) as Hr. unfold runs_ok in *. cbn. rewrite fn_look, Hf in *. cbn in Hr. case_decide as Htu.
    + subst u. rewrite armed_stop. destruct (armed (timers s t)); [|done]. destruct Hr as [[_ Hr]|[-> _]]; [set_solver|].
      destruct (pending s t); cbn; lia.
    + destruct (armed (timers s u)); [|done]. set_solver.
  - intros u Hu. rewrite fn_look in *. case_decide; [done|]. by apply Hi.
  - intros u q Hu. rewrite fn_look. case_decide as Htu; [done|]. apply (i_stopped s Hi u q). rewrite Hf.
    destruct Hu as [?|[[[= -> ->]|Hu]%elem_of_cons Hne]]; [by left|done|]. right. set_solver.
Qed.

Lemma inv_set t fs s :
  inv s → frames s = (t, H_set) :: fs → inv (set_frames ((t, H_test ITIMER_REAL) :: fs) (set_receive t s)).
Proof.
  intros Hi Hf. pose proof (i_nodup s Hi) as Hnd. rewrite Hf in Hnd. apply NoDup_cons in Hnd as Hnd'.
  destruct Hnd' as [Hnt _]. cbn in Hnt.
  assert (Hmono : ∀ u, receive s u = true → <[t := true]> (receive s) u = true).
  { intros u Hu. rewrite fn_look. by case_decide. }
  split; cbn; try apply Hi; [done|..].
  - intros Hd u. by apply Hmono, (i_done s Hi).
  - intros _. right. exists t, (H_test ITIMER_REAL). set_solver.
  - intros f [->|Hin]%elem_of_cons; [split; [cbn; rewrite fn_look; by case_decide|cbn; lia]|].
    assert (Hok : frame_ok s f) by (apply (i_frames s Hi); rewrite Hf; set_solver).
    destruct f as [u [| |v| |]]; cbn in *; try done; [destruct Hok|..]; eauto.
  - intros u Hu. destruct (i_unset s Hi u Hu) as (?&?&?&?&Hnf).
    rewrite Hf in Hnf. cbn in Hnf. rewrite fn_look. case_decide; [set_solver|done].
  - intros u Hu. unfold coming. cbn. rewrite fn_look. case_decide as Htu; [by left|].
    destruct (i_coming s Hi u Hu) as [?|[(q&Hq&Hbq)|[?|?]]]; [by left| |tauto..].
    rewrite Hf in Hq. right. left. exists q. set_solver.
  - intros u. pose proof (i_runs s Hi u) as Hr. unfold runs_ok in *. cbn. rewrite Hf in Hr. cbn in Hr.
    destruct (armed (timers s u)); [|done]. destruct Hr as [?|[? Hq]]; [by left|]. right. set_solver.
  - intros u q Hu. destruct (decide (u = t)) as [->|Hut].
    + apply (i_stopped s Hi t H_set). rewrite Hf. right. set_solver.
    + apply (i_stopped s Hi u q). rewrite Hf. rewrite fn_look in Hu. rewrite decide_False in Hu by done.
      destruct Hu as [?|[[[= -> ->]|Hu]%elem_of_cons Hne]]; [by left|done|]. right. set_solver.
Qed.

Lemma inv_set_done s : inv s → (∀ u, receive s u = true) → inv (set_done s).
Proof. intros Hi Hall. split; cbn; try apply Hi; [done|by left]. Qed.

Lemma inv_pop t fs s : inv s → frames s = (t, H_return) :: fs → inv (set_frames fs s).
Proof.
  intros Hi Hf. pose proof (i_nodup s Hi) as Hnd. rewrite Hf in Hnd. apply NoDup_cons in Hnd as [Hnt Hnd]. cbn in Hnt.
  split; cbn; try apply Hi; [done|..].
  - intros H. destruct (i_check s Hi H) as [|(u & q & Hu & Hq)]; [by left|]. rewrite Hf in Hu. right.
    apply elem_of_cons in Hu as [[= -> ->]|Hu]; [done|]. by exists u, q.
  - intros f Hin. apply (i_frames s Hi). rewrite Hf. set_solver.
  - intros u Hu. destruct (i_unset s Hi u Hu) as (?&?&?&?&Hnf). rewrite Hf in Hnf. set_solver.
  - intros u Hu. unfold coming. cbn. destruct (i_coming s Hi u Hu) as [?|[(q&Hq&Hbq)|[?|?]]]; [by left| |tauto..].
    rewrite Hf in Hq. apply elem_of_cons in Hq as [[= -> ->]|Hq]; [done|]. right. left. by exists q.
  - intros u. pose proof (i_runs s Hi u) as Hr. unfold runs_ok in *. cbn. rewrite Hf in Hr. cbn in Hr.
    destruct (armed (timers s u)); [|done]. set_solver.
  - intros u q Hu. apply (i_stopped s Hi u q). rewrite Hf. destruct Hu as [?|[? ?]]; [by left|right; set_solver].
Qed.

Lemma inv_handle t p fs s : inv s → frames s = (t, p) :: fs → inv (handle true t p fs s).
Proof.
  intros Hi Hf. assert (Hok : frame_ok s (t, p)) by (apply (i_frames s Hi); rewrite Hf; set_solver).
  destruct p as [| |u| |]; cbn [handle].
  - by apply inv_stop.
  - by apply inv_set.
  - destruct Hok as [Ht Hu]. cbn in Ht, Hu. unfold check_received_signal. destruct (receive s u) eqn:Hr.
    + assert (Hall : ∀ v, (index v <= index u)%nat → receive s v = true).
      { intros v Hv. destruct (decide (index v = index u)) as [He|He]; [|apply Hu; lia].
        by destruct u, v. }
      eapply inv_move; try done; [by destruct u|intros _; left; by destruct u|].
      destruct u; cbn; [split; [done|]..|]; intros v **; apply Hall; destruct v; cbn in *; lia.
    + eapply inv_move; try done. intros _. right. right. by exists u.
  - eapply inv_move; try done; [by apply inv_set_done|..]; cbn; auto.
  - by apply (inv_pop t).
Qed.

Lemma inv_main_move p s :
  inv s → p ≠ M_killed → (∀ t, is_set (main_at s) t = true ∧ is_set p t = true) → inv (set_main p s).
Proof.
  intros Hi Hp Hset. split; cbn; try apply Hi; [done|..].
  - intros t _. apply (i_handlers s Hi). destruct (Hset t) as [H _]. by destruct (main_at s).
  - intros t Ht. destruct (Hset t) as [_ H]. congruence.
  - intros t _. apply (i_coming s Hi). apply Hset.
Qed.

Lemma inv_signal t s : inv s → main_at s = M_signal t → inv (setup_signal_handler t s).
Proof.
  intros Hi Hm. unfold setup_signal_handler.
  assert (Hu : ∀ u, armed (timers s u) = false ∧ pending s u = false ∧ runs s u = 0%nat ∧ receive s u = false ∧ u ∉ (frames s).*1).
  { intros u. apply (i_unset s Hi). by rewrite Hm. }
  split; cbn; try apply Hi; [by destruct t| |done|].
  - intros u Hu'. rewrite fn_look. case_decide as Htu; [done|]. apply (i_handlers s Hi). rewrite Hm.
    destruct t, u; done.
  - intros u. by destruct t, u.
Qed.

Lemma inv_setitimer t s : inv s → main_at s = M_setitimer t → inv (setup_timer true t s).
Proof.
  intros Hi Hm. unfold setup_timer.
  assert (Hd : main_at (setup_timer true t s) = match next_timer t with Some t' => M_setitimer t' | None => M_loop end) by done.
  assert (Ht : armed (timers s t) = false ∧ pending s t = false ∧ runs s t = 0%nat ∧ receive s t = false ∧ t ∉ (frames s).*1).
  { apply (i_unset s Hi). rewrite Hm. by destruct t. }
  assert (Ha : armed (setup_value t) = true) by by destruct t.
  split; cbn; try apply Hi; [by destruct t|..].
  - intros u _. apply (i_handlers s Hi). by rewrite Hm.
  - intros u Hu. rewrite fn_look. destruct (decide (t = u)) as [<-|Htu]; [by destruct t|].
    apply (i_unset s Hi). rewrite Hm. by destruct t, u.
  - intros u Hu. unfold coming. cbn. rewrite fn_look. destruct (decide (t = u)) as [<-|Htu]; [by right; right; right|].
    apply (i_coming s Hi). rewrite Hm. by destruct t, u.
  - intros u. unfold runs_ok. cbn. rewrite fn_look. destruct (decide (t = u)) as [<-|Htu]; [|apply (i_runs s Hi)].
    rewrite Ha. left. split; apply Ht.
  - intros u Hu. rewrite fn_look in *. destruct (decide (t = u)) as [<-|Htu]; [done|]. by apply Hi.
  - intros u q Hu. rewrite fn_look. destruct (decide (t = u)) as [<-|Htu]; [|by apply (i_stopped s Hi u q)].
    destruct Ht as (_&_&_&Hr&Hnf). destruct Hu as [Hu|[Hu _]]; [congruence|]. by apply (list_elem_of_fmap_2 fst) in Hu.
Qed.

Lemma inv_main ok s s' :
  inv s → main_step ok s = Next s' → match main_at s with M_setitimer _ => ok = true | _ => True end → inv s'.
Proof.
  intros Hi Hs Hok. unfold main_step in Hs. destruct (main_at s) as [t|t| |t| | | |] eqn:Hm; simplify_eq.
  - by apply inv_signal.
  - by apply inv_setitimer.
  - apply inv_main_move; [done|by destruct (loop_is_done s)|rewrite Hm; by destruct (loop_is_done s)].
  - apply inv_main_move; [done|by destruct ok, t|rewrite Hm; by destruct ok, t].
  - apply inv_main_move; [done|done|by rewrite Hm].
  - apply inv_main_move; [done|done|by rewrite Hm].
Qed.

Lemma inv_step l s s' : inv s → granted_step l s = Next s' → inv s'.
Proof.
  intros Hi Hs. unfold granted_step in Hs. destruct (granted l s) eqn:Hg; [|done]. unfold step in Hs.
  destruct (over s); [done|]. destruct l as [t|t|ok].
  - destruct (armed (timers s t)) eqn:Ha; simplify_eq. by apply inv_expire.
  - destruct (pending s t) eqn:Hp; [|done]. cbn in Hs. case_bool_decide; simplify_eq. by apply inv_deliver.
  - destruct (frames s) as [|[t p] fs] eqn:Hf.
    + eapply inv_main; [done..|]. destruct ok; [by destruct (main_at s)|]. cbn in Hg. rewrite Hf in Hg. by destruct (main_at s).
    + destruct ok; [|cbn in Hg; by rewrite Hf in Hg]. simplify_eq. by apply inv_handle.
Qed.

Lemma inv_reachable s : timer_reachable s → inv s.
Proof.
  apply (invariant_reachable _ _ inv); [by intros ? ->; apply inv_state0|].
  intros l s1 s2 _. apply inv_step.
Qed.

(** ** The end of the program *)

(** The steps that are left once loop_is_done is set: of main, of a handler, of a signal. *)
Definition main_left (p : main_pc) : nat :=
  match p with
  | M_return | M_killed => 0 | M_end => 1 | M_loop => 2 | M_usleep => 3
  | M_getitimer ITIMER_PROF => 4 | M_getitimer ITIMER_VIRTUAL => 5 | M_getitimer ITIMER_REAL => 6
  | M_signal _ | M_setitimer _ => 0
  end.

Definition handler_left (f : timer * handler_pc) : nat :=
  match f.2 with
  | H_stop => 7 | H_set => 6 | H_test ITIMER_REAL => 5 | H_test ITIMER_VIRTUAL => 4 | H_test ITIMER_PROF => 3
  | H_done => 2 | H_return => 1
  end.

Definition pending_left (s : state) : nat :=
  8 * (Nat.b2n (pending s ITIMER_REAL) + Nat.b2n (pending s ITIMER_VIRTUAL) + Nat.b2n (pending s ITIMER_PROF)).

Definition left_over (s : state) : nat :=
  main_left (main_at s) + sum_list_with handler_left (frames s) + pending_left s.

(** The flag stays set, and main is in its loop. *)
Definition finishing (s : state) : Prop := inv s ∧ loop_is_done s = true.

Lemma finishing_set s t : finishing s → is_set (main_at s) t = true.
Proof.
  intros [Hi Hd]. destruct (is_set (main_at s) t) eqn:H; [done|].
  destruct (i_unset s Hi t H) as (_&_&_&Hr&_). by rewrite (i_done s Hi Hd) in Hr.
Qed.

Lemma handle_done t p fs s : loop_is_done s = true → loop_is_done (handle true t p fs s) = true.
Proof. by destruct p. Qed.

Lemma handle_left t p fs s :
  frames s = (t, p) :: fs → (left_over (handle true t p fs s) < left_over s)%nat.
Proof.
  intros Hf. unfold left_over, pending_left. rewrite Hf. destruct p as [| |u| |]; cbn; try lia.
  unfold check_received_signal, handler_left. cbn. destruct (receive s u), u; cbn; lia.
Qed.

Lemma deliver_left t s :
  installed s t = true → pending s t = true → (left_over (deliver t s) < left_over s)%nat.
Proof.
  intros Hin Hp. unfold deliver. rewrite Hin. unfold left_over, pending_left. cbn.
  rewrite !fn_look. destruct t; rewrite Hp; repeat case_decide; try done; cbn; lia.
Qed.

Lemma finishing_step l s s' :
  finishing s → granted_step l s = Next s' → finishing s' ∧ (left_over s' < left_over s)%nat.
Proof.
  intros Hf Hs. pose proof Hf as [Hi Hd]. pose proof (inv_step l s s' Hi Hs) as Hi'. unfold granted_step in Hs.
  destruct (granted l s) eqn:Hg; [|done]. unfold step in Hs. destruct (over s); [done|]. destruct l as [t|t|ok].
  - exfalso. assert (Ha : armed (timers s t) = false) by (apply (i_stopped s Hi t H_stop); left; by apply (i_done s Hi)).
    by rewrite Ha in Hs.
  - destruct (pending s t) eqn:Hp; [|done]. cbn in Hs. case_bool_decide; simplify_eq.
    assert (Hin : installed s t = true).
    { apply (i_handlers s Hi). pose proof (finishing_set s t Hf). by destruct (main_at s). }
    split; [|by apply deliver_left]. split; [done|]. unfold deliver. by rewrite Hin.
  - destruct (frames s) as [|[t p] fs] eqn:Hfr.
    + pose proof (finishing_set s ITIMER_PROF Hf) as Hset. unfold main_step in Hs. unfold left_over, finishing, pending_left.
      destruct (main_at s) as [t|t| |t| | | |] eqn:Hm; simplify_eq; cbn; rewrite ?Hd; cbn;
        try (by destruct t); rewrite ?Hd in Hi'; (split; [done|]); try lia. destruct ok, t; cbn; lia.
    + destruct ok; [|cbn in Hg; by rewrite Hfr in Hg]. simplify_eq. split; [|by apply handle_left].
      split; [done|]. by apply handle_done.
Qed.

Lemma finishing_run ls s s' : finishing s → run granted_step ls s = Next s' → finishing s'.
Proof.
  revert s. induction ls as [|l ls IH]; intros s Hf H; [by injection H as <-|].
  rewrite run_cons in H. destruct (granted_step l s) as [s1| |] eqn:Hl; [|done..].
  apply (IH s1); [|done]. by apply (finishing_step l s).
Qed.

(** At most three handlers run at a time, each with at most 7 steps left. *)
Lemma left_over_bound s : inv s → (left_over s <= 51)%nat.
Proof.
  intros Hi. unfold left_over.
  assert (Hl : (length (frames s) <= 3)%nat).
  { rewrite <- (length_fmap fst). change 3%nat with (length [ITIMER_REAL; ITIMER_VIRTUAL; ITIMER_PROF]).
    apply submseteq_length, NoDup_submseteq; [apply Hi|]. intros [] _; set_solver. }
  assert (Hs : (sum_list_with handler_left (frames s) <= 7 * length (frames s))%nat).
  { clear. induction (frames s) as [|[t p] fs IH]; [done|]. cbn. destruct p as [| |[]| |]; cbn; lia. }
  assert (main_left (main_at s) <= 6)%nat by (destruct (main_at s) as [| | |[]| | | |]; cbn; lia).
  unfold pending_left. destruct (pending s ITIMER_REAL), (pending s ITIMER_VIRTUAL), (pending s ITIMER_PROF); cbn; lia.
Qed.

Lemma finishing_stops s : finishing s → (∀ l s', granted_step l s ≠ Next s') → main_at s = M_return.
Proof.
  intros Hf Hst. pose proof Hf as [Hi _]. destruct (over s) eqn:Ho.
  { unfold over in Ho. pose proof (i_alive s Hi). by destruct (main_at s). }
  exfalso. specialize (Hst (Run true)). unfold granted_step, granted, step in Hst. rewrite Ho in Hst.
  destruct (frames s) as [|[t p] fs]; [|by eapply Hst]. unfold main_step, over in *.
  destruct (main_at s); try done; by eapply Hst.
Qed.

(** A signal can be delivered at most twice. *)
Lemma runs_twice s t : inv s → (runs s t <= 2)%nat.
Proof.
  intros Hi. pose proof (i_runs s Hi t) as H. unfold runs_ok in H. destruct (armed (timers s t)); [|lia].
  destruct H as [[-> _]|[-> _]]; lia.
Qed.

(** ** What the program does *)

(** C22: the signal program loses no signal: as long as setitimer does not fail, and however
    the handlers interrupt main and each other, main is never killed by a signal; loop_is_done
    is set only when all three signals have been received, so when main leaves its loop through
    the test; and once main is in its loop with no handler running and no signal pending,
    loop_is_done is set or some timer is still running, to the value main gave it. *)
Theorem timer_no_lost_signal s :
  timer_reachable s →
  main_at s ≠ M_killed ∧
  (loop_is_done s = true → ∀ t, receive s t = true) ∧
  (frames s = [] → (∀ t, pending s t = false) → (∀ t, is_set (main_at s) t = true) →
   loop_is_done s = true ∨ ∃ t, receive s t = false ∧ timers s t = setup_value t).
Proof.
  intros Hr%inv_reachable. split_and!; [by apply Hr..|]. intros Hf Hp Hset.
  assert (Hc : ∀ t, receive s t = true ∨ receive s t = false ∧ timers s t = setup_value t).
  { intros t. destruct (i_coming s Hr t (Hset t)) as [?|[(q&Hq&_)|[H|H]]]; [by left|rewrite Hf in Hq; set_solver|by rewrite Hp in H|].
    destruct (receive s t); [by left|]. right. split; [done|]. by apply (i_interval s Hr). }
  destruct (Hc ITIMER_REAL) as [H1|?]; [|by right; eexists].
  destruct (Hc ITIMER_VIRTUAL) as [H2|?]; [|by right; eexists].
  destruct (Hc ITIMER_PROF) as [H3|?]; [|by right; eexists].
  left. destruct (i_check s Hr) as [|(t & p & Ht & _)]; [by intros []|done|]. rewrite Hf in Ht. set_solver.
Qed.

(** C23: each handler is called at most twice, although its timer has an interval: the second
    time when the timer expires once more before the first call has stopped it.  And once
    loop_is_done is set the program ends: whatever the signals still pending, every run from
    there has at most 51 steps and can only stop when main has returned. *)
Theorem timer_ends s ls s' :
  timer_reachable s →
  (∀ t, (runs s t <= 2)%nat) ∧
  (loop_is_done s = true → run granted_step ls s = Next s' →
   (length ls <= 51)%nat ∧ ((∀ l s'', granted_step l s' ≠ Next s'') → main_at s' = M_return)).
Proof.
  intros Hi%inv_reachable. split; [intros t; by apply runs_twice|]. intros Hd Hrun.
  assert (Hf : finishing s) by done.
  pose proof (measure_bounds granted_step finishing left_over finishing_step ls s s' Hf Hrun) as Hm.
  split; [pose proof (left_over_bound s Hi); lia|]. intros Hst.
  apply (finishing_stops s'); [|done]. by apply (finishing_run ls s).
Qed.

(** All three timers expire at once: the handler of SIGPROF runs on top of the two
    others; the first one, which finishes last, sets loop_is_done. *)
Definition schedule : list label :=
  replicate 6 (Run true) ++ [Run true; Expire ITIMER_REAL; Expire ITIMER_VIRTUAL; Expire ITIMER_PROF;
    Deliver ITIMER_REAL; Run true; Deliver ITIMER_VIRTUAL; Run true; Deliver ITIMER_PROF]
  ++ replicate 12 (Run true).

Definition state_after (ls : list label) (s : state) : state :=
  match run granted_step ls s with Next s' => s' | _ => s end.

Lemma run_state_after ls s :
  match run granted_step ls s with Next _ => true | _ => false end = true → run granted_step ls s = Next (state_after ls s).
Proof. unfold state_after. by destruct (run granted_step ls s). Qed.

Definition all_received : state := state_after schedule state0.

Lemma schedule_reachable : timer_reachable all_received.
Proof.
  apply (run_reachable _ _ schedule state0); [by apply reachable_init|]. apply run_state_after. vm_compute. reflexivity.
Qed.

Lemma timer_no_lost_signal_witness :
  timer_reachable all_received ∧ loop_is_done all_received = true ∧ ∀ t, receive all_received t = true.
Proof.
  split; [exact schedule_reachable|]. assert (Hd : loop_is_done all_received = true) by (vm_compute; reflexivity).
  split; [exact Hd|]. refine (proj1 (proj2 (timer_no_lost_signal all_received schedule_reachable)) Hd).
Defined.

(** The handler returns, and main goes on to its end. *)
Lemma timer_ends_witness :
  loop_is_done all_received = true ∧ main_at (state_after (replicate 7 (Run true)) all_received) = M_return ∧
  (length (replicate 7 (Run true)) <= 51)%nat.
Proof.
  assert (Hd : loop_is_done all_received = true) by (vm_compute; reflexivity).
  split_and!; [exact Hd|vm_compute; reflexivity|].
  refine (proj1 (proj2 (timer_ends all_received _ _ schedule_reachable) Hd (run_state_after _ _ _))).
  vm_compute. reflexivity.
Defined.
