(* ===== verification/Posix.v ===== *)
(** * Files and file descriptors

    What the file examples of the repository use of POSIX: descriptors refer to open file
    descriptions, which hold the position and are shared by duplicates; the files are byte
    sequences with a mode.  An [answer] of the environment says whether a call is carried out
    in full, for at most so many bytes, or fails; every call takes the next one. *)

From stdpp Require Import strings.
From S2P Require Import Prelude CInt.

Open Scope Z_scope.

Inductive answer := A_full | A_upto (n : nat) | A_fail.

#[export] Instance answer_eq_dec : EqDecision answer.
Proof. solve_decision. Defined.

Record file := mk_file { mode : Z; data : list byte }.

(** An open file description. *)
Record description := mk_description {
  path : string;
  pos : Z;
  readable : bool;
  writable : bool;
}.

(** [fds]: the descriptions that the descriptors refer to; descriptions are only ever added.
    [umask]: the permissions that a new file does not get. *)
Record os := mk_os {
  files : gmap string file;
  descriptions : list description;
  fds : list (option nat);
  answers : nat → answer;
  calls : nat;
  umask : Z;
}.

Definition set_files f s := mk_os f (descriptions s) (fds s) (answers s) (calls s) (umask s).
Definition set_descriptions d s := mk_os (files s) d (fds s) (answers s) (calls s) (umask s).
Definition set_fds l s := mk_os (files s) (descriptions s) l (answers s) (calls s) (umask s).
Definition set_umask m s := mk_os (files s) (descriptions s) (fds s) (answers s) (calls s) m.

Definition next_answer : cM os answer := λ s,
  Done (answers s (calls s)) (mk_os (files s) (descriptions s) (fds s) (answers s) (S (calls s)) (umask s)).

Definition O_RDONLY : Z := 0.
Definition O_WRONLY : Z := 1.
Definition O_RDWR : Z := 2.
Definition O_ACCMODE : Z := 3.
Definition O_CREAT : Z := 64.
Definition O_EXCL : Z := 128.
Definition O_TRUNC : Z := 512.
Definition O_APPEND : Z := 1024.
Definition O_NONBLOCK : Z := 2048.

Definition flag (flags bit : Z) : bool := negb (Z.land flags bit =? 0).
Definition wants_read (flags : Z) : bool := negb (Z.land flags O_ACCMODE =? O_WRONLY).
Definition wants_write (flags : Z) : bool := negb (Z.land flags O_ACCMODE =? O_RDONLY).

(** The process owns its files and is not privileged. *)
Definition permitted (flags : Z) (f : file) : bool :=
  (negb (wants_read flags) || flag (mode f) 256) && (negb (wants_write flags) || flag (mode f) 128).

(** The mode of a file that is created with the mode argument [md]. *)
Definition created_mode (md um : Z) : Z := Z.land (Z.land md 4095) (Z.lnot um).

(** The lowest free descriptor from [m] on. *)
Fixpoint lowest_free (m : nat) (l : list (option nat)) : nat :=
  match l with
  | [] => m
  | x :: l' =>
      match m with
      | O => match x with None => O | Some _ => S (lowest_free O l') end
      | S m' => S (lowest_free m' l')
      end
  end.

Definition set_fd (i : nat) (x : option nat) (l : list (option nat)) : list (option nat) :=
  <[i := x]> (l ++ replicate (S i - length l) None).

(** A new description, on the lowest free descriptor. *)
Definition new_fd (d : description) : cM os Z :=
  s ← get;
  let i := lowest_free 0 (fds s) in
  put (set_fds (set_fd i (Some (length (descriptions s))) (fds s)) (set_descriptions (descriptions s ++ [d]) s));;
  mret (Z.of_nat i).

Definition open (name : string) (flags md : Z) : cM os Z :=
  a ← next_answer;
  s ← get;
  match a, files s !! name with
  | A_fail, _ => mret (-1)
  | _, Some f =>
      if flag flags O_CREAT && flag flags O_EXCL then mret (-1)
      else if permitted flags f then
        put (if flag flags O_TRUNC && wants_write flags then set_files (<[name := mk_file (mode f) []]> (files s)) s else s);;
        new_fd (mk_description name 0 (wants_read flags) (wants_write flags))
      else mret (-1)
  | _, None =>
      if flag flags O_CREAT then
        put (set_files (<[name := mk_file (created_mode md (umask s)) []]> (files s)) s);;
        new_fd (mk_description name 0 (wants_read flags) (wants_write flags))
      else mret (-1)
  end.

Definition creat (name : string) (md : Z) : cM os Z := open name (Z.lor (Z.lor O_CREAT O_WRONLY) O_TRUNC) md.

(** The description of a descriptor, with its number. *)
Definition lookup_fd (fd : Z) (s : os) : option (nat * description) :=
  if fd <? 0 then None
  else
    match fds s !! Z.to_nat fd with
    | Some (Some i) => match descriptions s !! i with Some d => Some (i, d) | None => None end
    | _ => None
    end.

Definition close (fd : Z) : cM os Z :=
  s ← get;
  match lookup_fd fd s with
  | Some _ => put (set_fds (<[Z.to_nat fd := None]> (fds s)) s);; mret 0
  | None => mret (-1)
  end.

Definition content (name : string) (s : os) : list byte :=
  match files s !! name with Some f => data f | None => [] end.

Definition seek (i : nat) (d : description) (p : Z) : cM os unit :=
  modify (λ s, set_descriptions (<[i := mk_description (path d) p (readable d) (writable d)]> (descriptions s)) s).

(** How many of [n] bytes an answer lets through; at least one, if there is one. *)
Definition limit (a : answer) (n : nat) : nat :=
  match a with A_upto k => (S k) `min` n | _ => n end.

(** The bytes read and their number, [-1] for a failure. *)
Definition read (fd : Z) (n : nat) : cM os (Z * list byte) :=
  a ← next_answer;
  s ← get;
  match a, lookup_fd fd s with
  | A_fail, _ | _, None => mret (-1, [])
  | _, Some (i, d) =>
      if readable d then
        let rest := drop (Z.to_nat (pos d)) (content (path d) s) in
        let got := take (limit a (n `min` length rest)) rest in
        seek i d (pos d + Z.of_nat (length got));;
        mret (Z.of_nat (length got), got)
      else mret (-1, [])
  end.

Definition SSIZE_MAX : Z := 2 ^ 63 - 1.

(** [l] with [d] written at position [p]; a gap is filled with zeros. *)
Definition write_at (p : nat) (d l : list byte) : list byte :=
  splice p d (l ++ replicate (p - length l) Byte.x00).

(** A count above SSIZE_MAX is refused. *)
Definition write (fd : Z) (buf : list byte) (count : Z) : cM os Z :=
  a ← next_answer;
  s ← get;
  match a, lookup_fd fd s with
  | A_fail, _ | _, None => mret (-1)
  | _, Some (i, d) =>
      if writable d && (count <=? SSIZE_MAX) then
        check (count <=? Z.of_nat (length buf)) OutOfBounds;;
        let out := take (limit a (Z.to_nat count)) buf in
        match files s !! path d with
        | Some f => put (set_files (<[path d := mk_file (mode f) (write_at (Z.to_nat (pos d)) out (data f))]> (files s)) s)
        | None => mret tt
        end;;
        seek i d (pos d + Z.of_nat (length out));;
        mret (Z.of_nat (length out))
      else mret (-1)
  end.

(** The places lseek can count from: the position, or the next data at or after an offset.
    A file without holes is data up to its end. *)
Inductive whence := SEEK_CUR | SEEK_DATA.

Definition lseek (fd off : Z) (w : whence) : cM os Z :=
  s ← get;
  match lookup_fd fd s with
  | None => mret (-1)
  | Some (i, d) =>
      let p := match w with SEEK_CUR => pos d + off | SEEK_DATA => off end in
      let bad := match w with
        | SEEK_CUR => p <? 0
        | SEEK_DATA => (p <? 0) || (Z.of_nat (length (content (path d) s)) <=? p) end in
      if bad then mret (-1) else seek i d p;; mret p
  end.

(** At most so many descriptors. *)
Definition OPEN_MAX : Z := 1024.

(** [fcntl(fd, F_DUPFD, m)]: another descriptor, not below [m], for the same description. *)
Definition dup_fd (fd m : Z) : cM os Z :=
  s ← get;
  match lookup_fd fd s with
  | None => mret (-1)
  | Some (i, d) =>
      if (0 <=? m) && (Z.of_nat (lowest_free (Z.to_nat m) (fds s)) <? OPEN_MAX) then
        let j := lowest_free (Z.to_nat m) (fds s) in
        put (set_fds (set_fd j (Some i) (fds s)) s);;
        mret (Z.of_nat j)
      else mret (-1)
  end.

(** A process at its start: the three standard descriptors refer to the terminal; [um] is the umask
    that it inherits. *)
Definition tty : description := mk_description "/dev/tty" 0 true true.

Definition os0 (um : Z) (fs : gmap string file) (a : nat → answer) : os :=
  mk_os fs [tty] [Some 0%nat; Some 0%nat; Some 0%nat] a 0 um.

(** ** What the calls do *)

Definition tick (s : os) : os := mk_os (files s) (descriptions s) (fds s) (answers s) (S (calls s)) (umask s).

Definition moved (i : nat) (d : description) (n : nat) (s : os) : os :=
  set_descriptions (<[i := mk_description (path d) (pos d + Z.of_nat n) (readable d) (writable d)]> (descriptions s)) s.

(** What a read of [n] bytes gets. *)
Definition gets_now (n : nat) (d : description) (s : os) : list byte :=
  let rest := drop (Z.to_nat (pos d)) (content (path d) s) in
  take (limit (answers s (calls s)) (n `min` length rest)) rest.

Lemma read_ok fd n s i d :
  answers s (calls s) ≠ A_fail → lookup_fd fd s = Some (i, d) → readable d = true →
  read fd n s = Done (Z.of_nat (length (gets_now n d s)), gets_now n d s) (moved i d (length (gets_now n d s)) (tick s)).
Proof.
  intros Ha Hfd Hr. unfold read, next_answer, get, mbind, cM_bind. cbn [answers calls].
  change (lookup_fd fd (mk_os _ _ _ _ _ _)) with (lookup_fd fd s). rewrite Hfd, Hr.
  destruct (answers s (calls s)) eqn:He; [..|done]; unfold gets_now; rewrite He; reflexivity.
Qed.

Lemma read_failed fd n s :
  answers s (calls s) = A_fail ∨ lookup_fd fd s = None → read fd n s = Done (-1, []) (tick s).
Proof.
  intros H. unfold read, next_answer, get, mbind, cM_bind. cbn [answers calls].
  change (lookup_fd fd (mk_os _ _ _ _ _ _)) with (lookup_fd fd s).
  destruct H as [H|H]; [by rewrite H|]. rewrite H. by destruct (answers s (calls s)).
Qed.

Lemma write_ok fd buf count s i d f :
  answers s (calls s) ≠ A_fail → lookup_fd fd s = Some (i, d) → writable d = true →
  files s !! path d = Some f → count <= Z.of_nat (length buf) → count <= SSIZE_MAX →
  let out := take (limit (answers s (calls s)) (Z.to_nat count)) buf in
  write fd buf count s =
    Done (Z.of_nat (length out))
      (moved i d (length out)
        (set_files (<[path d := mk_file (mode f) (write_at (Z.to_nat (pos d)) out (data f))]> (files s)) (tick s))).
Proof.
  intros Ha Hfd Hw Hf Hc Hs out. unfold write, next_answer, get, mbind, cM_bind. cbn [answers calls].
  change (lookup_fd fd (mk_os _ _ _ _ _ _)) with (lookup_fd fd s). rewrite Hfd, Hw.
  apply Z.leb_le in Hc, Hs. rewrite Hs. cbn [andb]. unfold out.
  destruct (answers s (calls s)) eqn:He; [..|done]; rewrite Hc; cbn; rewrite Hf; reflexivity.
Qed.

(** A failure, an invalid descriptor, or a count as large as a converted -1: no effect. *)
Lemma write_failed fd buf count s :
  answers s (calls s) = A_fail ∨ lookup_fd fd s = None ∨ SSIZE_MAX < count →
  write fd buf count s = Done (-1) (tick s).
Proof.
  intros H. unfold write, next_answer, get, mbind, cM_bind. cbn [answers calls].
  change (lookup_fd fd (mk_os _ _ _ _ _ _)) with (lookup_fd fd s).
  destruct H as [H|[H|H]]; [by rewrite H|rewrite H; by destruct (answers s (calls s))|].
  apply Z.leb_gt in H. rewrite H. destruct (answers s (calls s)), (lookup_fd fd s) as [[i d]|]; try done;
    by rewrite andb_false_r.
Qed.

Lemma limit_le a n : (limit a n <= n)%nat.
Proof. destruct a; unfold limit; lia. Qed.

(** A file grows at its end. *)
Lemma write_at_end d l : write_at (length l) d l = l ++ d.
Proof.
  unfold write_at, splice. rewrite Nat.sub_diag. cbn [replicate]. rewrite app_nil_r, (take_ge l) by done.
  rewrite (drop_ge l) by lia. by rewrite app_nil_r.
Qed.

(** The lowest free descriptor when there is no gap. *)
Lemma lowest_free_used m (l : list (option nat)) :
  (∀ x, x ∈ l → x ≠ None) → lowest_free m l = max (length l) m.
Proof.
  revert m. induction l as [|x l IH]; intros m H; [cbn; lia|]. cbn.
  assert (Hl : ∀ y, y ∈ l → y ≠ None) by (intros y Hy; apply H; set_solver).
  destruct m as [|m].
  - destruct x as [i|]; [|by destruct (H None); [set_solver|]]. rewrite IH by done. lia.
  - rewrite IH by done. lia.
Qed.

Lemma set_fd_look i x l : (length l <= i)%nat → set_fd i x l !! i = Some x.
Proof.
  intros H. unfold set_fd. apply list_lookup_insert_eq. rewrite length_app, length_replicate. lia.
Qed.

Lemma set_fd_other i j x l : (length l <= i)%nat → (j < length l)%nat → set_fd i x l !! j = l !! j.
Proof.
  intros H Hj. unfold set_fd. rewrite list_lookup_insert_ne by lia. by apply lookup_app_l.
Qed.

Lemma set_fd_end x l : set_fd (length l) x l = l ++ [x].
Proof.
  unfold set_fd. replace (S (length l) - length l)%nat with 1%nat by lia. cbn.
  by rewrite <- (Nat.add_0_r (length l)), insert_app_r.
Qed.
