(* ===== verification/StreamTests.v ===== *)
(** * Positions and kinds of streams: FileIO/file_pointer_test.c, FileIO/buff_type_test.c and
      Linux/File/src/fmemopen.c

    A stream over a file with its position, the block that the program reads into, and what is
    logged.  The printed internals of the FILE structure belong to the C library: its fields are
    inputs, and lines that only show addresses are left out. *)

From stdpp Require Import strings.
From Stdlib Require Import String.
From S2P Require Import Prelude CInt Format Posix.

Open Scope Z_scope.

Definition EXIT_SUCCESS : Z := 0.
Definition EXIT_FAILURE : Z := 1.

(** ** FileIO/file_pointer_test.c *)

Module FilePointer.

Inductive whence := SEEK_SET | SEEK_CUR | SEEK_END | SEEK_HOLE | SEEK_DATA.

(** The lines of main, with the number of the step. *)
Inductive event :=
  | E_size (size : Z)
  | E_fseek (step off : Z) (w : whence) (ret : Z)
  | E_fread (step ret : Z)
  | E_content (shown : list byte)
  | E_fgets (step : Z) (shown : list byte).

(** [buffer]: the block of malloc, [None] where nothing was stored. *)
Record state := mk_state {
  content : list byte;
  pos : Z;
  buffer : list (option byte);
  steps : Z;
  events : list event;
}.

Definition set_pos p s := mk_state (content s) p (buffer s) (steps s) (events s).
Definition set_buffer b s := mk_state (content s) (pos s) b (steps s) (events s).

Definition log (e : event) : cM state unit :=
  modify (λ s, mk_state (content s) (pos s) (buffer s) (steps s) (events s ++ [e])).

(** [steps++] as the argument of a line. *)
Definition log_step (e : Z → event) : cM state unit :=
  s ← get;
  n ← int_add (steps s) 1;
  modify (λ s, mk_state (content s) (pos s) (buffer s) n (events s ++ [e (n - 1)])).

Section program.
(** Whether fseek takes the two positions that Linux adds. *)
Context (holes : bool).

(** A file without holes is data up to its end, with a hole behind it. *)
Definition target (off : Z) (w : whence) (s : state) : option Z :=
  let size := Z.of_nat (length (content s)) in
  match w with
  | SEEK_SET => Some off
  | SEEK_CUR => Some (pos s + off)
  | SEEK_END => Some (size + off)
  | SEEK_HOLE => if holes && (off <? size) then Some size else None
  | SEEK_DATA => if holes && (off <? size) then Some off else None
  end.

Definition fseek (off : Z) (w : whence) : cM state Z :=
  s ← get;
  match target off w s with
  | Some p => if p <? 0 then mret (-1) else put (set_pos p s);; mret 0
  | None => mret (-1)
  end.

Definition unread (s : state) : list byte := drop (Z.to_nat (pos s)) (content s).

(** [fread(buffer, sizeof(char), n, fp)]. *)
Definition fread (n : nat) : cM state Z :=
  s ← get;
  let got := take n (unread s) in
  check (n <=? length (buffer s))%nat OutOfBounds;;
  put (set_pos (pos s + Z.of_nat (length got)) (set_buffer (splice 0 (Some <$> got) (buffer s)) s));;
  mret (Z.of_nat (length got)).

(** Up to [n] bytes, not behind the end of the line. *)
Fixpoint line (n : nat) (l : list byte) : list byte :=
  match n, l with
  | S n, c :: l => if Byte.eqb c Byte.x0a then [c] else c :: line n l
  | _, _ => []
  end.

(** [fgets(buffer, n, fp)]: [false] is NULL, for a stream at its end. *)
Definition fgets (n : nat) : cM state bool :=
  s ← get;
  match line (n - 1) (unread s) with
  | [] => mret false
  | l =>
      check (n <=? length (buffer s))%nat OutOfBounds;;
      put (set_pos (pos s + Z.of_nat (length l)) (set_buffer (splice 0 (Some <$> (l ++ [Byte.x00])) (buffer s)) s));;
      mret true
  end.

(** The string in the block: what printf reads of it. *)
Fixpoint shown (b : list (option byte)) : cM state (list byte) :=
  match b with
  | [] => undef OutOfBounds
  | None :: _ => undef Uninitialised
  | Some c :: b => if Byte.eqb c Byte.x00 then mret [] else (l ← shown b; mret (c :: l))
  end.

Definition print_buffer_content (end_ : Z) : cM state unit :=
  let end_ := if end_ <? 0 then 0 else end_ in
  s ← get;
  check (end_ <? Z.of_nat (length (buffer s))) OutOfBounds;;
  let b := <[Z.to_nat end_ := Some Byte.x00]> (buffer s) in
  put (set_buffer b s);;
  l ← shown b;
  log (E_content l).

(** The size in [st], which lstat leaves as it was when it fails. *)
Definition get_file_size (lstat_ok : bool) : cM state Z :=
  s ← get;
  check lstat_ok Uninitialised;;
  mret (Z.of_nat (length (content s))).

(** A seek with its line. *)
Definition seek (off : Z) (w : whence) : cM state unit :=
  retval ← fseek off w; log_step (λ n, E_fseek n off w retval).

Definition read16 : cM state unit :=
  retval ← fread 16; log_step (λ n, E_fread n retval);; print_buffer_content 16.

(** Lines 128-138; the program is built with _GNU_SOURCE. *)
Definition probe : cM state unit := seek 50 SEEK_HOLE;; seek 50 SEEK_DATA.

(** A null pointer for the string of the line is undefined. *)
Definition last_line : cM state unit :=
  get_val ← fgets 16;
  check get_val NullDeref;;
  s ← get;
  l ← shown (buffer s);
  log_step (λ n, E_fgets n l).

(** From the open stream on. *)
Definition body (lstat_ok : bool) : cM state unit :=
  fsize ← get_file_size lstat_ok;
  log (E_size fsize);;
  seek 0 SEEK_SET;;
  seek 8 SEEK_SET;;
  seek (-8) SEEK_SET;;
  seek 0 SEEK_END;;
  seek (-8) SEEK_END;;
  seek 4 SEEK_SET;;
  seek 4 SEEK_CUR;;
  seek 0 SEEK_SET;;
  read16;;
  probe;;
  read16;;
  last_line.

(** [memory], [file]: the answers of malloc and fopen; what main returns and logs. *)
Definition main (memory : bool) (file : option (list byte)) (lstat_ok : bool) : outcome state Z :=
  if memory then
    match file with
    | None => Done 0 (mk_state [] 0 (replicate 128 None) 0 [])
    | Some c => (body lstat_ok;; mret 0) (mk_state c 0 (replicate 128 None) 0 [])
    end
  else Done EXIT_FAILURE (mk_state [] 0 [] 0 []).

(** ** What it shows *)

Lemma log_step_ok e s :
  is_int (steps s + 1) →
  log_step e s = Done tt (mk_state (content s) (pos s) (buffer s) (steps s + 1) (events s ++ [e (steps s)])).
Proof.
  intros Hi. unfold log_step, int_add, int_result. crun. rewrite decide_True by done. crun.
  by replace (steps s + 1 - 1) with (steps s) by lia.
Qed.

Lemma seek_ok off w p s :
  target off w s = Some p → 0 <= p → is_int (steps s + 1) →
  seek off w s = Done tt (mk_state (content s) p (buffer s) (steps s + 1) (events s ++ [E_fseek (steps s) off w 0])).
Proof.
  intros Ht Hp Hi. unfold seek. rewrite (bind_done _ _ _ 0 (set_pos p s)); [by apply log_step_ok|].
  unfold fseek. crun. rewrite Ht. by rewrite (proj2 (Z.ltb_ge _ _)).
Qed.

Lemma seek_fails off w s :
  target off w s = None ∨ (∃ p, target off w s = Some p ∧ p < 0) → is_int (steps s + 1) →
  seek off w s = Done tt (mk_state (content s) (pos s) (buffer s) (steps s + 1) (events s ++ [E_fseek (steps s) off w (-1)])).
Proof.
  intros Ht Hi. unfold seek. rewrite (bind_done _ _ _ (-1) s); [by apply log_step_ok|].
  unfold fseek. crun. destruct Ht as [->|(p & -> & Hp)]; [done|]. by rewrite (proj2 (Z.ltb_lt _ _)).
Qed.

Lemma shown_string l b s : no_nul l = true → shown ((Some <$> l) ++ Some Byte.x00 :: b) s = Done l s.
Proof.
  induction l as [|c l IH]; intros Hn; [done|]. cbn in *. apply andb_true_iff in Hn as [Hc%negb_true_iff Hn].
  rewrite Hc. by rewrite (bind_done _ _ _ _ _ (IH Hn)).
Qed.

Lemma shown_unset l b s : no_nul l = true → shown ((Some <$> l) ++ None :: b) s = Undef Uninitialised.
Proof.
  induction l as [|c l IH]; intros Hn; [done|]. cbn in *. apply andb_true_iff in Hn as [Hc%negb_true_iff Hn].
  rewrite Hc. by rewrite (bind_undef _ _ _ _ (IH Hn)).
Qed.

(** A read of sixteen bytes that are there. *)
Lemma read16_ok s :
  0 <= pos s → (Z.to_nat (pos s) + 16 <= length (content s))%nat → length (buffer s) = 128%nat →
  no_nul (take 16 (unread s)) = true → is_int (steps s + 1) →
  ∃ b, length b = 128%nat ∧
    read16 s = Done tt (mk_state (content s) (pos s + 16) b (steps s + 1)
                 (events s ++ [E_fread (steps s) 16; E_content (take 16 (unread s))])).
Proof.
  intros Hp Hlen Hb Hn Hi. unfold read16. set (got := take 16 (unread s)) in *.
  assert (Hgot : length got = 16%nat) by (unfold got, unread; rewrite length_take, length_drop; lia).
  set (b1 := splice 0 (Some <$> got) (buffer s)).
  assert (Hb1 : length b1 = 128%nat) by (unfold b1; rewrite length_splice; rewrite ?length_fmap; lia).
  set (s1 := set_pos (pos s + 16) (set_buffer b1 s)).
  assert (Hr : fread 16 s = Done 16 s1).
  { unfold fread. crun. rewrite Hb. cbn -[take splice]. fold got. rewrite Hgot. reflexivity. }
  rewrite (bind_done _ _ _ _ _ Hr). clear Hr. assert (His : is_int (steps s1 + 1)) by done.
  rewrite (bind_done _ _ _ _ _ (log_step_ok _ s1 His)).
  assert (Hb2 : <[16%nat := Some Byte.x00]> b1 = (Some <$> got) ++ Some Byte.x00 :: drop 17 b1).
  { unfold b1, splice. rewrite take_0, app_nil_l, length_fmap, Hgot.
    rewrite insert_app_r_alt by (rewrite length_fmap; lia). rewrite length_fmap, Hgot, Nat.sub_diag.
    destruct (drop (0 + 16) (buffer s)) as [|x r] eqn:Hd.
    { apply (f_equal length) in Hd. rewrite length_drop, Hb in Hd. cbn in Hd. lia. }
    cbn. rewrite drop_app_ge by (rewrite length_fmap; lia). rewrite length_fmap, Hgot. reflexivity. }
  exists (<[16%nat := Some Byte.x00]> b1). split; [by rewrite length_insert|].
  unfold print_buffer_content. cbn [buffer]. crun. cbn [buffer s1 set_pos set_buffer]. rewrite Hb1.
  change (16 <? 0) with false. change (16 <? Z.of_nat 128) with true. cbv iota. crun.
  change (Z.to_nat 16) with 16%nat. rewrite Hb2. rewrite shown_string by done.
  unfold log. crun. cbn. by rewrite <- app_assoc.
Qed.

Lemma no_nul_line n l : no_nul l = true → no_nul (line n l) = true.
Proof.
  revert l. induction n as [|n IH]; intros [|c l] H; try done. cbn in *. apply andb_true_iff in H as [Hc H].
  destruct (Byte.eqb c Byte.x0a); cbn; rewrite Hc; [done|]. by apply IH.
Qed.

Lemma length_line n l : (length (line n l) <= n)%nat.
Proof. revert l. induction n as [|n IH]; intros [|c l]; cbn; try lia. destruct (Byte.eqb c Byte.x0a); cbn; [lia|]. specialize (IH l). lia. Qed.

Lemma no_nul_drop n l : no_nul l = true → no_nul (drop n l) = true.
Proof. intros H. rewrite <- (take_drop n l), no_nul_app in H. by apply andb_true_iff in H as [_ ?]. Qed.

(** A seek in front of a sequence. *)
Ltac go_seek p :=
  match goal with |- context [mbind _ (seek ?off ?w) ?s] =>
    rewrite (bind_done _ _ _ _ _ (seek_ok off w p s ltac:(reflexivity) ltac:(lia) ltac:(done)))
  end; cbn [content pos buffer steps events app].

Ltac go_fail :=
  match goal with |- context [mbind _ (seek ?off ?w) ?s] =>
    rewrite (bind_done _ _ _ _ _ (seek_fails off w s ltac:(first [by left | right; eexists; split; [reflexivity|lia]]) ltac:(done)))
  end; cbn [content pos buffer steps events app].

(** The rest of main behind the second read. *)
Lemma last_line_ok s :
  length (buffer s) = 128%nat → no_nul (unread s) = true → unread s ≠ [] → is_int (steps s + 1) →
  ∃ s', last_line s = Done tt s' ∧
    events s' = events s ++ [E_fgets (steps s) (line 15 (unread s))].
Proof.
  intros Hb Hn Hne Hi. pose proof (length_line 15 (unread s)) as Hll. pose proof (no_nul_line 15 _ Hn) as Hnl.
  destruct (line 15 (unread s)) as [|c l] eqn:Hl.
  { destruct (unread s) as [|x r]; [done|]. cbn in Hl. by destruct (Byte.eqb x Byte.x0a). }
  set (b := splice 0 (Some <$> (c :: l) ++ [Byte.x00]) (buffer s)).
  set (s1 := set_pos (pos s + Z.of_nat (length (c :: l))) (set_buffer b s)).
  assert (Hg : fgets 16 s = Done true s1).
  { unfold fgets. crun. change (16 - 1)%nat with 15%nat. rewrite Hl, Hb. reflexivity. }
  unfold last_line. rewrite (bind_done _ _ _ _ _ Hg). unfold check. rewrite bind_ret, bind_get. cbn [buffer s1 set_pos set_buffer].
  assert (Hs : shown b s1 = Done (c :: l) s1).
  { unfold b, splice. rewrite take_0, app_nil_l, fmap_app, <- app_assoc. by apply shown_string. }
  rewrite (bind_done _ _ _ _ _ Hs). rewrite log_step_ok by done. by eexists.
Qed.

(** Where the second read begins. *)
Definition second : nat := if holes then 50 else 16.

Lemma probe_ok s :
  pos s = 16 → 50 < Z.of_nat (length (content s)) → 0 <= steps s < 100 →
  let h := if holes then 0 else -1 in
  probe s
  = Done tt (mk_state (content s) (Z.of_nat second) (buffer s) (steps s + 1 + 1)
      ((events s ++ [E_fseek (steps s) 50 SEEK_HOLE h]) ++ [E_fseek (steps s + 1) 50 SEEK_DATA h])).
Proof.
  intros Hp Hlen Hs h. subst h. unfold probe, second.
  assert (Ht : ∀ p e, target 50 SEEK_HOLE (mk_state (content s) p (buffer s) e (events s))
    = if holes then Some (Z.of_nat (length (content s))) else None) by (intros; unfold target; cbn; rewrite (proj2 (Z.ltb_lt _ _)) by lia; by destruct holes).
  assert (Hd : ∀ p b e ev, target 50 SEEK_DATA (mk_state (content s) p b e ev) = if holes then Some 50 else None)
    by (intros; unfold target; cbn; rewrite (proj2 (Z.ltb_lt _ _)) by lia; by destruct holes).
  destruct s as [c p b e ev]. cbn [content pos buffer steps events] in *. subst p.
  assert (Hi : is_int (e + 1) ∧ is_int (e + 1 + 1)) by (int_unfold; lia). destruct Hi as [Hi1 Hi2].
  destruct holes.
  - rewrite (bind_done _ _ _ _ _ (seek_ok 50 SEEK_HOLE (Z.of_nat (length c)) (mk_state c 16 b e ev) (Ht _ _) ltac:(lia) Hi1)).
    cbn [content pos buffer steps events]. by rewrite (seek_ok 50 SEEK_DATA 50 _ (Hd _ _ _ _) ltac:(lia) Hi2).
  - rewrite (bind_done _ _ _ _ _ (seek_fails 50 SEEK_HOLE (mk_state c 16 b e ev) (or_introl (Ht _ _)) Hi1)).
    cbn [content pos buffer steps events]. by rewrite (seek_fails 50 SEEK_DATA _ (or_introl (Hd _ _ _ _)) Hi2).
Qed.

(** What the test of the file positions logs: only the seek before the beginning fails, and it
    leaves the position; the reads show the first sixteen bytes, and those at 50, where SEEK_DATA
    has brought the stream, or, without these positions, the next sixteen; the last line is the
    rest of the text line from there on, fifteen bytes at most. *)
Theorem file_pointer_reads c :
  no_nul c = true → (67 <= length c)%nat →
  ∃ s, main true (Some c) true = Done 0 s ∧
    let h := if holes then 0 else -1 in
    events s =
      [E_size (Z.of_nat (length c)); E_fseek 0 0 SEEK_SET 0; E_fseek 1 8 SEEK_SET 0; E_fseek 2 (-8) SEEK_SET (-1);
       E_fseek 3 0 SEEK_END 0; E_fseek 4 (-8) SEEK_END 0; E_fseek 5 4 SEEK_SET 0; E_fseek 6 4 SEEK_CUR 0;
       E_fseek 7 0 SEEK_SET 0; E_fread 8 16; E_content (take 16 c); E_fseek 9 50 SEEK_HOLE h; E_fseek 10 50 SEEK_DATA h;
       E_fread 11 16; E_content (take 16 (drop second c)); E_fgets 12 (line 15 (drop (second + 16) c))].
Proof.
  intros Hn Hlen. set (n := Z.of_nat (length c)). set (b0 := replicate 128 (None : option byte)).
  assert (Hn67 : 67 <= n) by lia.
  unfold main. fold b0. unfold body. rewrite !bind_assoc.
  rewrite (bind_done _ _ _ n (mk_state c 0 b0 0 [])) by done.
  rewrite !bind_assoc, (bind_done _ _ _ tt (mk_state c 0 b0 0 [E_size n])) by done.
  rewrite !bind_assoc. go_seek 0. rewrite !bind_assoc. go_seek 8. rewrite !bind_assoc. go_fail.
  rewrite !bind_assoc. go_seek (n + 0). rewrite !bind_assoc. go_seek (n + -8).
  rewrite !bind_assoc. go_seek 4. rewrite !bind_assoc. go_seek (4 + 4). rewrite !bind_assoc. go_seek 0.
  set (ev := (_ : list event)).
  destruct (read16_ok (mk_state c 0 b0 8 ev)) as (b1 & Hb1 & Hr1); [done|cbn; lia|done|by apply no_nul_take|done|].
  rewrite !bind_assoc, (bind_done _ _ _ _ _ Hr1). cbn [content pos buffer steps events unread drop].
  set (ev1 := ev ++ _). rewrite !bind_assoc.
  rewrite (bind_done _ _ _ _ _ (probe_ok (mk_state c (0 + 16) b1 (8 + 1) ev1) ltac:(done) ltac:(cbn; lia) ltac:(cbn; lia))). rewrite !bind_assoc.
  cbn [content pos buffer steps events]. set (ev2 := (ev1 ++ _) ++ _).
  assert (Hsec : (second = 16 ∨ second = 50)%nat) by (unfold second; destruct holes; lia).
  destruct (read16_ok (mk_state c (Z.of_nat second) b1 (8 + 1 + 1 + 1) ev2)) as (b2 & Hb2 & Hr2);
    [cbn; lia|cbn; rewrite Nat2Z.id; lia|done|by apply no_nul_take, no_nul_drop|done|].
  rewrite (bind_done _ _ _ _ _ Hr2). cbn [content pos buffer steps events unread].
  set (ev3 := ev2 ++ _). set (s3 := mk_state c (Z.of_nat second + 16) b2 (8 + 1 + 1 + 1 + 1) ev3).
  destruct (last_line_ok s3) as (s4 & Hrun & Hev); [done|by apply no_nul_drop| |done|].
  { unfold unread. cbn. intros Hd%(f_equal length). rewrite length_drop in Hd. cbn in Hd. lia. }
  rewrite (bind_done _ _ _ _ _ Hrun). exists s4. split; [done|]. rewrite Hev.
  assert (Hun : unread s3 = drop (second + 16) c).
  { unfold unread, s3. cbn [content pos]. f_equal. lia. }
  rewrite Hun. unfold s3. cbn [events steps]. unfold ev3, ev2, ev1, ev, unread. cbn [content pos app].
  rewrite Nat2Z.id. reflexivity.
Qed.

(** Every seek logs a line and leaves some position. *)
Lemma seek_any off w s :
  is_int (steps s + 1) →
  ∃ p ev, seek off w s = Done tt (mk_state (content s) p (buffer s) (steps s + 1) ev).
Proof.
  intros Hi. destruct (target off w s) as [p|] eqn:Ht; [destruct (decide (0 <= p))|]; eexists _, _.
  - by apply (seek_ok off w p).
  - apply seek_fails; [|done]. right. exists p. split; [done|lia].
  - apply seek_fails; [by left|done].
Qed.

Lemma read16_short s :
  pos s = 0 → (length (content s) < 16)%nat → no_nul (content s) = true → buffer s = replicate 128 None →
  is_int (steps s + 1) → read16 s = Undef Uninitialised.
Proof.
  intros Hp Hlen Hn Hb Hi. unfold read16. set (c := content s) in *.
  set (s1 := set_pos (0 + Z.of_nat (length c)) (set_buffer ((Some <$> c) ++ replicate (128 - length c) None) s)).
  assert (Hr : fread 16 s = Done (Z.of_nat (length c)) s1).
  { unfold fread, unread. crun. rewrite Hb, Hp. cbn -[take splice replicate drop]. fold c. rewrite drop_0, take_ge by lia.
    unfold s1, splice. rewrite take_0, app_nil_l, length_fmap, drop_replicate. reflexivity. }
  rewrite (bind_done _ _ _ _ _ Hr). clear Hr. assert (His : is_int (steps s1 + 1)) by done.
  rewrite (bind_done _ _ _ _ _ (log_step_ok _ s1 His)).
  unfold print_buffer_content. cbn [buffer]. crun. cbn [buffer s1 set_pos set_buffer].
  rewrite length_app, length_fmap, length_replicate.
  replace (length c + (128 - length c))%nat with 128%nat by lia.
  change (16 <? 0) with false. change (16 <? Z.of_nat 128) with true. cbv iota. crun.
  change (Z.to_nat 16) with 16%nat. rewrite insert_app_r_alt by (rewrite length_fmap; lia). rewrite length_fmap.
  destruct (16 - length c)%nat as [|k] eqn:Hk; [lia|]. destruct (128 - length c)%nat as [|m] eqn:Hm; [lia|].
  cbn [replicate insert list_insert]. by rewrite shown_unset.
Qed.

(** With fewer than sixteen bytes in the file the program shows bytes that were never
    written: the count that fread returns is logged and not used. *)
Theorem file_pointer_short c :
  no_nul c = true → (length c < 16)%nat → main true (Some c) true = Undef Uninitialised.
Proof.
  intros Hn Hlen. unfold main. apply bind_undef. unfold body.
  set (b0 := replicate 128 (None : option byte)). set (n := Z.of_nat (length c)).
  rewrite (bind_done _ _ _ n (mk_state c 0 b0 0 [])) by done.
  rewrite (bind_done _ _ _ tt (mk_state c 0 b0 0 [E_size n])) by done.
  do 7 (match goal with |- (mbind _ (seek ?off ?w)) ?s = _ =>
    let H := fresh in destruct (seek_any off w s ltac:(done)) as (? & ? & H);
    rewrite (bind_done _ _ _ _ _ H); clear H end; cbn [content pos buffer steps events]).
  match goal with |- (mbind _ (seek 0 SEEK_SET)) ?s = _ =>
    rewrite (bind_done _ _ _ _ _ (seek_ok 0 SEEK_SET 0 s ltac:(reflexivity) ltac:(lia) ltac:(done))) end.
  apply bind_undef. by apply read16_short.
Qed.

End program.

(** A line of text, with the positions of Linux and without them. *)
Definition lorem : list byte := lit "The standard Lorem Ipsum passage, used since the 1500s, and more of it in one line.".

Lemma file_pointer_reads_witness :
  ∃ s, main true true (Some lorem) true = Done 0 s ∧
    events s !! 14%nat = Some (E_content (lit "500s, and more o")) ∧ events s !! 15%nat = Some (E_fgets 12 (lit "f it in one lin")).
Proof.
  destruct (file_pointer_reads true lorem) as (s & Hs & Hev); [vm_compute; reflexivity|vm_compute; lia|].
  cbv zeta in Hev. exists s. split; [done|]. rewrite Hev. split; vm_compute; reflexivity.
Defined.

Lemma file_pointer_short_witness : main false true (Some (lit "short")) true = Undef Uninitialised.
Proof. refine (file_pointer_short false (lit "short") _ _); [reflexivity|vm_compute; lia]. Defined.

End FilePointer.

(** ** Linux/File/src/fmemopen.c *)

Module MemStream.

Definition zeros (n : nat) : list byte := replicate n Byte.x00.

(** The literal, with the zero at its end. *)
Definition mem_stream : list byte :=
  lit "Hello, this is a memory stream!" ++ zeros 8 ++ [Byte.x0a] ++
  zeros 24 ++ [Byte.x0a] ++
  lit "Also, it is a sparse file with holes." ++ [Byte.x0a] ++
  zeros 12 ++ lit "Just check for the follwing" ++ [Byte.x0a] ++
  lit "test" ++ [Byte.x00].

Definition stream_len : Z := 148.

(** [granted]: fmemopen's answer.  A memory stream has no descriptor: fileno returns -1.  The
    value: what main returns, and the numbers it prints. *)
Definition main (granted : bool) : cM os (Z * list Z) :=
  if granted then
    check (stream_len <=? Z.of_nat (length mem_stream)) OutOfBounds;;
    let fd := -1 in
    off1 ← lseek fd 10 Posix.SEEK_CUR;
    off2 ← lseek fd 10 Posix.SEEK_CUR;
    mret (EXIT_SUCCESS, [stream_len; fd; off1; off2])
  else mret (EXIT_FAILURE, [stream_len]).

(** The size given to fmemopen is the size of the literal, to the byte; both calls of lseek
    fail, whatever files are open, and the program reports success. *)
Theorem fmemopen_prints s :
  Z.of_nat (length mem_stream) = stream_len ∧
  main true s = Done (EXIT_SUCCESS, [148; -1; -1; -1]) s ∧ main false s = Done (EXIT_FAILURE, [148]) s.
Proof. split_and!; [vm_compute; reflexivity|reflexivity..]. Qed.

End MemStream.

(** ** FileIO/buff_type_test.c *)

Module BuffType.

(** The fields of a FILE that the program reads. *)
Record file := mk_file { flags : Z; buf_base : Z; buf_end : Z }.

Inductive kind := Unbuffered | LineBuffered | FullyBuffered.

(** A line of main: the questions to the user, the reports of errors, and what pr_stdio prints. *)
Inductive event :=
  | E_prompt
  | E_getchar_error
  | E_one_line
  | E_stdio (name : string) (k : kind) (size : Z)
  | E_fopen_error
  | E_getc_error.

Section program.
(** The bits of the C library. *)
Context (IO_UNBUFFERED IO_LINE_BUF : Z).

Definition classify (fp : file) : kind :=
  if negb (Z.land (flags fp) IO_UNBUFFERED =? 0) then Unbuffered
  else if negb (Z.land (flags fp) IO_LINE_BUF =? 0) then LineBuffered
  else FullyBuffered.

Definition log (e : event) : cM (list event) unit := modify (λ l, l ++ [e]).

Definition pr_stdio (name : string) (fp : option file) : cM (list event) unit :=
  match fp with
  | Some fp => log (E_stdio name (classify fp) (buf_end fp - buf_base fp))
  | None => undef NullDeref
  end.

(** fgetc on a stream: whether there was a byte; a null pointer is undefined. *)
Definition fgetc (fp : option file) (answer : bool) : cM (list event) bool :=
  match fp with Some _ => mret answer | None => undef NullDeref end.

(** The streams are inputs, as they are when they are printed; [got], [opened] and [byte]: the
    answers of getchar, fopen and fgetc. *)
Definition main (stdin stdout stderr : file) (got : bool) (opened : option file) (byte : bool) : cM (list event) Z :=
  log E_prompt;;
  (if got then mret tt else log E_getchar_error);;
  log E_one_line;;
  pr_stdio "stdin" (Some stdin);;
  pr_stdio "stdout" (Some stdout);;
  pr_stdio "stderr" (Some stderr);;
  match opened with Some _ => mret tt | None => log E_fopen_error end;;
  c ← fgetc opened byte;
  (if c : bool then mret tt else log E_getc_error);;
  pr_stdio "test.txt" opened;;
  mret 0.

(** With the file the program prints the four streams, each with one kind; without it, after
    having reported that, it reads from the null pointer. *)
Theorem buff_type_prints stdin stdout stderr got opened byte :
  match opened with
  | Some fp => ∃ l, main stdin stdout stderr got opened byte [] = Done 0 l ∧
      omap (λ e, match e with E_stdio n k _ => Some (n, k) | _ => None end) l
      = [("stdin", classify stdin); ("stdout", classify stdout); ("stderr", classify stderr); ("test.txt", classify fp)]%string
  | None => main stdin stdout stderr got opened byte [] = Undef NullDeref
  end.
Proof. destruct opened as [fp|]; destruct got, byte; first [by eexists | reflexivity]. Qed.

End program.
End BuffType.
