(* ===== verification/FileOps.v ===== *)
(** * The file examples: POSIX_File/*.c, Linux/File/src/lseek.c and FileIO/ptr_struct_file.c

    Each main runs on the descriptors of [Posix]; what it prints is part of the result where
    it shows what the program learned.  [argv] is the list of all arguments, the name of the
    program included. *)

From stdpp Require Import strings.
From S2P Require Import Prelude CInt Libc Format Posix.

Open Scope Z_scope.

Definition EXIT_SUCCESS : Z := 0.
Definition EXIT_FAILURE : Z := 1.

(** ** POSIX_File/posix_cp_example.c *)

Module Cp.

(** [do { num = read(fd_src, buf, 128); write(fd_des, buf, num); } while (num == 128);] *)
Fixpoint copy_loop (fuel : nat) (fd_src fd_des : Z) : cM os unit :=
  match fuel with
  | O => out_of_fuel
  | S fuel =>
      '(num, buf) ← read fd_src 128;
      write fd_des buf (to_size num);;
      if num =? 128 then copy_loop fuel fd_src fd_des else mret tt
  end.

Definition main (fuel : nat) (argv : list string) : cM os Z :=
  match argv with
  | [_; src; des] =>
      fd_src ← open src O_RDONLY 0;
      if fd_src =? -1 then exit EXIT_FAILURE
      else
        fd_des ← open des (Z.lor (Z.lor O_CREAT O_EXCL) O_WRONLY) 420;
        copy_loop fuel fd_src fd_des;;
        close fd_src;;
        close fd_des;;
        mret EXIT_SUCCESS
  | _ => exit EXIT_FAILURE
  end.

End Cp.

(** ** POSIX_File/fcntl_dup_fd.c *)

Module Dup.

Definition content : list byte := lit "hello world!" ++ [Byte.x0a].

(** fcntl is called without its third argument: [garbage] is what it finds there.  The result
    of main with the four numbers it prints. *)
Definition main (garbage : Z) : cM os (Z * list Z) :=
  fd_creat ← creat "tmp3" 420;
  if fd_creat =? -1 then exit EXIT_FAILURE
  else
    close fd_creat;;
    fd_open ← open "tmp3" (Z.lor O_WRONLY O_CREAT) 420;
    if fd_open =? -1 then exit EXIT_FAILURE
    else
      fd_dup ← dup_fd fd_open garbage;
      n1 ← write fd_open content (Z.of_nat (length content));
      n2 ← write fd_dup content (Z.of_nat (length content));
      close fd_open;;
      close fd_dup;;
      mret (0, [fd_open; fd_dup; n1; n2]).

End Dup.

(** ** POSIX_File/posix_open_example.c *)

Module Open.

(** The parenthesis closes the call before the mode, which the comma operator makes the left
    side of the test; [garbage] is what open finds as mode. *)
Definition main (garbage : Z) : cM os (Z * list Z) :=
  fd_open ← open "lorem.txt" O_RDONLY 0;
  if fd_open =? -1 then exit EXIT_FAILURE
  else
    fd_open_create ← open "./tmp1" (Z.lor O_CREAT O_EXCL) garbage;
    if 420 =? -1 then exit EXIT_FAILURE
    else
      fd_create ← creat "./tmp2" 420;
      if fd_create =? -1 then exit EXIT_FAILURE
      else
        close fd_open;;
        close fd_create;;
        close fd_open_create;;
        mret (0, [fd_open; fd_open_create; fd_create]).

End Open.

(** ** POSIX_File/create_no_writefile.c *)

Module NoWrite.

(** [strlen(content)+1]: with the final zero. *)
Definition content : list byte := lit "test message!" ++ [Byte.x0a; Byte.x00].

Definition main (argv : list string) : cM os Z :=
  match argv !! 1%nat with
  | None => undef NullDeref
  | Some name =>
      fd ← open name (Z.lor O_CREAT O_WRONLY) 0;
      write fd content (Z.of_nat (length content));;
      close fd;;
      mret 0
  end.

End NoWrite.

(** ** POSIX_File/fcntl_example.c *)

Module GetFl.

(** The access mode that is printed, and the two marks; [F_GETFL] is the answer of fcntl. *)
Inductive mode_text := read_only | write_only | read_write | unknown_mode.

Definition main (F_GETFL : Z → Z) (argv : list string) : cM unit (Z * (mode_text * bool * bool)) :=
  match argv with
  | [_; arg] =>
      fd ← atoi_c arg;
      let val := F_GETFL fd in
      if val <? 0 then exit EXIT_FAILURE
      else
        let accmode := Z.land val O_ACCMODE in
        let text :=
          if accmode =? O_RDONLY then read_only
          else if accmode =? O_WRONLY then write_only
          else if accmode =? O_RDWR then read_write
          else unknown_mode in
        mret (0, (text, flag val O_APPEND, flag val O_NONBLOCK))
  | _ => exit EXIT_FAILURE
  end.

End GetFl.

(** ** Linux/File/src/lseek.c *)

Module Seek.

Definition is_nul (b : byte) : bool := match b with Byte.x00 => true | _ => false end.

Fixpoint until_nul (l : list byte) : list byte :=
  match l with
  | [] => []
  | b :: l => if is_nul b then [] else b :: until_nul l
  end.

(** [printf("%s")] of an array of which the first bytes are [buf] and the others were never
    written: what it prints. *)
Definition print_string (buf : list byte) : cM os (list byte) :=
  check (existsb is_nul buf) Uninitialised;;
  mret (until_nul buf).

Definition main (argv : list string) : cM os (Z * list Z * list byte) :=
  match argv !! 1%nat with
  | None => mret (EXIT_FAILURE, [], [])
  | Some file =>
      fd ← open file O_RDONLY 0;
      if fd <? 0 then mret (EXIT_FAILURE, [], [])
      else
        s1 ← lseek fd 10 SEEK_CUR;
        s2 ← lseek fd 10 SEEK_CUR;
        s3 ← lseek fd 10 SEEK_CUR;
        s4 ← lseek fd (-50) SEEK_CUR;
        s5 ← lseek fd 1000000 SEEK_DATA;
        s6 ← lseek fd 100 SEEK_DATA;
        s7 ← lseek fd 0 SEEK_DATA;
        '(nr, buf) ← read fd 20;
        out ← print_string buf;
        mret (EXIT_SUCCESS, [s1; s2; s3; s4; s5; s6; s7; nr], out)
  end.

End Seek.

(** ** FileIO/ptr_struct_file.c *)

Module Stdio.

Definition RBUF_SIZE : nat := 10.
Definition WBUF_SIZE : nat := 128.

(** [rbuffer] is the array that fread fills and, since setvbuf, the buffer of the stream
    fp_src: its bytes from [ptr] to [end_] are read ahead.  [rest] is what the stream has not
    read of its file yet, [des] what was written to fp_des. *)
Record state := mk_state {
  rbuffer : list byte;
  ptr : nat;
  end_ : nat;
  rest : list byte;
  des : list byte;
}.

(** The C library reads as much as fits into the buffer size that setvbuf was told. *)
Definition underflow : cM state nat :=
  s ← get;
  let got := take WBUF_SIZE (rest s) in
  check (length got <=? length (rbuffer s))%nat OutOfBounds;;
  put (mk_state (splice 0 got (rbuffer s)) 0 (length got) (drop WBUF_SIZE (rest s)) (des s));;
  mret (length got).

(** [fread(rbuffer, 1, want, fp_src)], of which [off] bytes are done. *)
Fixpoint fread (fuel : nat) (off want : nat) : cM state nat :=
  match fuel with
  | O => out_of_fuel
  | S fuel =>
      if (want =? 0)%nat then mret off
      else
        s ← get;
        if (end_ s <=? ptr s)%nat then
          n ← underflow;
          if (n =? 0)%nat then mret off else fread fuel off want
        else
          let m := ((end_ s - ptr s) `min` want)%nat in
          check (off + m <=? length (rbuffer s))%nat OutOfBounds;;
          put (mk_state (splice off (slice (ptr s) m (rbuffer s)) (rbuffer s)) (ptr s + m) (end_ s) (rest s) (des s));;
          fread fuel (off + m) (want - m)
  end.

Definition memset0 : cM state unit :=
  modify (λ s, mk_state (replicate RBUF_SIZE Byte.x00) (ptr s) (end_ s) (rest s) (des s)).

Definition fwrite (n : nat) : cM state unit :=
  s ← get;
  check (n <=? length (rbuffer s))%nat OutOfBounds;;
  put (mk_state (rbuffer s) (ptr s) (end_ s) (rest s) (des s ++ take n (rbuffer s))).

(** [do { ... } while (i == RBUF_SIZE);] *)
Fixpoint copy_loop (fuel : nat) : cM state unit :=
  match fuel with
  | O => out_of_fuel
  | S fuel =>
      memset0;;
      i ← fread (3 * RBUF_SIZE) 0 RBUF_SIZE;
      fwrite i;;
      if (i =? RBUF_SIZE)%nat then copy_loop fuel else mret tt
  end.

(** The files by name, and whether the two calls of fopen are granted; the second one empties
    the target.  A missing argument is a null pointer for fopen. *)
Definition main (fuel : nat) (argv : list string) (granted1 granted2 : bool) :
    cM (gmap string (list byte)) Z := λ fs,
  match argv !! 1%nat with
  | None => Undef NullDeref
  | Some src =>
      match fs !! src with
      | None => Exited EXIT_FAILURE fs
      | Some _ =>
          if negb granted1 then Exited EXIT_FAILURE fs
          else
            match argv !! 2%nat with
            | None => Undef NullDeref
            | Some target =>
                if negb granted2 then Exited EXIT_FAILURE fs
                else
                  let fs := <[target := []]> fs in
                  match copy_loop fuel (mk_state (replicate RBUF_SIZE Byte.x00) 0 0 (default [] (fs !! src)) []) with
                  | Done _ s => Done 0 (<[target := des s]> fs)
                  | Undef u => Undef u
                  | Exited c _ => Exited c fs
                  | NoFuel => NoFuel
                  end
            end
      end
  end.

End Stdio.
