(* ===== verification/FileOpsProps.v ===== *)
(** * What the file examples do *)

From stdpp Require Import strings.
From S2P Require Import Prelude CInt Libc Format Posix FileOps.

Open Scope Z_scope.

#[local] Arguments Z.of_nat : simpl never.
#[local] Arguments Z.to_nat : simpl never.

(** ** Copying *)

(** What a call answered by [a] lets through of the bytes [d]. *)
Definition piece (a : answer) (d : list byte) : list byte :=
  match a with A_full => d | A_upto k => take (S k) d | A_fail => [] end.

Lemma take_limit a d : a ≠ A_fail → take (limit a (length d)) d = piece a d.
Proof. destruct a as [|k|]; intros H; [by apply take_ge| |done]. cbn [limit piece]. by rewrite <- take_take, (take_ge d). Qed.

Lemma length_piece a d : (length (piece a d) <= length d)%nat.
Proof. destruct a; cbn [piece]; [done|rewrite length_take; lia|cbn; lia]. Qed.

Section cp.
Context (um : Z) (fs : gmap string file) (a : nat → answer) (src des : string) (f : file).
Hypothesis Hsrc : fs !! src = Some f.
Hypothesis Hdes : fs !! des = None.
Let D := data f.

(** Between two rounds of the loop: the first [p] bytes are read, [out] is written. *)
Definition copying (p : nat) (out : list byte) (n : nat) : os :=
  mk_os (<[des := mk_file (created_mode 420 um) out]> fs)
    [tty; mk_description src (Z.of_nat p) true false; mk_description des (Z.of_nat (length out)) false true]
    [Some 0; Some 0; Some 0; Some 1; Some 2]%nat a n um.

(** What the [i]th read gets when those before it were complete, and what is written of it; the
    reads and writes are the calls from number 2 on. *)
Definition chunk (i : nat) : list byte := piece (a (2 * i + 2)%nat) (slice (128 * i) 128 D).
Definition written (i : nat) : list byte := piece (a (2 * i + 3)%nat) (chunk i).

Lemma src_des : src ≠ des.
Proof. intros ->. congruence. Qed.

Lemma copying_src p out n : content src (copying p out n) = D.
Proof. unfold content, copying. cbn. rewrite lookup_insert_ne by (intros H; by apply src_des). by rewrite Hsrc. Qed.

(** One round, whatever the answers. *)
Lemma copy_round p out n :
  let c := piece (a n) (slice p 128 D) in
  ∃ num s1 w,
    read 3 128 (copying p out n) = Done (num, c) s1 ∧
    write 4 c (to_size num) s1 = Done w (copying (p + length c) (out ++ piece (a (S n)) c) (S (S n))) ∧
    (num = 128 ↔ length c = 128%nat).
Proof.
  intros c. destruct (decide (a n = A_fail)) as [Hr|Hr].
  - assert (Hc : c = []) by (unfold c; by rewrite Hr). rewrite Hc.
    exists (-1), (tick (copying p out n)), (-1). split_and!; [by apply read_failed; left| |done].
    rewrite write_failed by (right; right; by vm_compute). cbn [length]. rewrite Nat.add_0_r.
    replace (out ++ piece (a (S n)) []) with out by (destruct (a (S n)); by rewrite ?app_nil_r). done.
  - assert (H3 : lookup_fd 3 (copying p out n) = Some (1%nat, mk_description src (Z.of_nat p) true false)) by reflexivity.
    assert (Hg : gets_now 128 (mk_description src (Z.of_nat p) true false) (copying p out n) = c).
    { unfold gets_now, c. cbn [pos path]. rewrite copying_src, Nat2Z.id.
      change (answers (copying p out n) (calls (copying p out n))) with (a n).
      rewrite <- (take_limit (a n)) by done. unfold slice. rewrite length_take, take_take. f_equal.
      pose proof (limit_le (a n) (128 `min` length (drop p D))). lia. }
    pose proof (read_ok 3 128 (copying p out n) 1 _ Hr H3 eq_refl) as Hread. rewrite Hg in Hread.
    assert (Hl : (length c <= 128)%nat).
    { unfold c. etransitivity; [apply length_piece|]. unfold slice. rewrite length_take. lia. }
    destruct (decide (a (S n) = A_fail)) as [Hw|Hw].
    + exists (Z.of_nat (length c)), (moved 1 (mk_description src (Z.of_nat p) true false) (length c) (tick (copying p out n))), (-1).
      split_and!; [done| |lia]. rewrite write_failed by (by left). rewrite Hw. cbn [piece]. rewrite app_nil_r.
      unfold copying, moved, set_descriptions, tick. cbn -[Z.of_nat]. by rewrite Nat2Z.inj_add.
    + eexists (Z.of_nat (length c)), _, _. split_and!; [exact Hread| |lia].
      rewrite to_size_id by (unfold SIZE_MAX; lia).
      rewrite (write_ok 4 _ _ _ 2 (mk_description des (Z.of_nat (length out)) false true) (mk_file (created_mode 420 um) out));
        [|done|reflexivity|done|cbn; by rewrite lookup_insert_eq|lia|unfold SSIZE_MAX; lia].
      change (answers (moved _ _ _ _) (calls (moved _ _ _ _))) with (a (S n)).
      rewrite Nat2Z.id, take_limit by done. f_equal.
      unfold copying, moved, set_files, set_descriptions, tick. cbn -[Z.of_nat Z.to_nat write_at].
      rewrite Nat2Z.id, write_at_end, insert_insert_eq, length_app, !Nat2Z.inj_add. reflexivity.
Qed.

(** The loop from round [i] on ends with a round that got fewer than 128 bytes. *)
Lemma copy_loop_rounds fuel i out :
  (128 * i <= length D)%nat → (length D < 128 * (i + fuel))%nat →
  ∃ t p n, (i <= t)%nat ∧ (∀ j, (i <= j < t)%nat → length (chunk j) = 128%nat) ∧ (length (chunk t) < 128)%nat ∧
    Cp.copy_loop fuel 3 4 (copying (128 * i) out (2 * i + 2)) =
      Done tt (copying p (out ++ (seq i (S t - i) ≫= written)) n).
Proof.
  revert i out. induction fuel as [|fuel IH]; intros i out Hi Hf; [lia|].
  destruct (copy_round (128 * i) out (2 * i + 2)) as (num & s1 & w & Hr & Hw & Hn). fold (chunk i) in Hr, Hw, Hn.
  replace (S (S (2 * i + 2))) with (2 * S i + 2)%nat in Hw by lia.
  replace (S (2 * i + 2)) with (2 * i + 3)%nat in Hw by lia. fold (written i) in Hw.
  cbn [Cp.copy_loop]. cstep Hr. cbn beta iota. cstep Hw.
  assert (Hl : (length (chunk i) <= 128 `min` (length D - 128 * i))%nat).
  { unfold chunk. etransitivity; [apply length_piece|]. unfold slice. rewrite length_take, length_drop. lia. }
  destruct (Z.eqb_spec num 128) as [He|He].
  - apply Hn in He. rewrite He. replace (128 * i + 128)%nat with (128 * S i)%nat by lia.
    destruct (IH (S i) (out ++ written i)) as (t & p & n & Ht & Hfull & Hlast & ->); [lia|lia|].
    exists t, p, n. split_and!; [lia| |done|].
    + intros j Hj. destruct (decide (j = i)) as [->|]; [done|]. apply Hfull. lia.
    + replace (S t - i)%nat with (S (S t - S i)) by lia. cbn [seq mbind list_bind]. by rewrite <- app_assoc.
  - exists i, (128 * i + length (chunk i))%nat, (2 * S i + 2)%nat. split_and!; [done|lia| |].
    + assert (length (chunk i) ≠ 128%nat) by tauto. lia.
    + replace (S i - i)%nat with 1%nat by lia. cbn [seq mbind list_bind]. by rewrite app_nil_r.
Qed.

(** The slices of the rounds before [m]. *)
Lemma slices_take m : (seq 0 m ≫= λ i, slice (128 * i) 128 D) = take (128 * m) D.
Proof.
  induction m as [|m IH]; [done|]. rewrite seq_S, bind_app, IH. cbn [mbind list_bind].
  rewrite app_nil_r. unfold slice. replace (128 * S m)%nat with (128 * m + 128)%nat by lia. cbn [Nat.add].
  by rewrite take_take_drop.
Qed.

Lemma concat_shorter (g h : nat → list byte) n :
  (∀ i, (length (g i) <= length (h i))%nat) →
  (length (seq 0 n ≫= g) <= length (seq 0 n ≫= h))%nat ∧
  ((seq 0 n ≫= g) = (seq 0 n ≫= h) → ∀ i, (i < n)%nat → g i = h i).
Proof.
  intros Hle. induction n as [|n [IHl IHe]]; [split; [done|lia]|].
  rewrite !seq_S, !bind_app, !length_app. cbn [mbind list_bind Nat.add]. rewrite !app_nil_r. pose proof (Hle n). split; [lia|].
  intros He i Hi. assert (Hlen : length (seq 0 n ≫= g) = length (seq 0 n ≫= h)).
  { apply (f_equal length) in He. rewrite !length_app in He. unfold mbind in *. lia. }
  apply app_inj_1 in He as [He1 He2]; [|done]. destruct (decide (i = n)) as [->|]; [done|]. apply IHe; [done|lia].
Qed.

(** The target is the source when nothing was lost, and only then. *)
Lemma copied_whole t :
  (length (chunk t) < 128)%nat →
  (seq 0 (S t) ≫= written) = D ↔ ∀ i, (i <= t)%nat → written i = slice (128 * i) 128 D.
Proof.
  intros Hlast. destruct (concat_shorter written (λ i, slice (128 * i) 128 D) (S t)) as [Hle Heq].
  { intros i. unfold written, chunk. etransitivity; [apply length_piece|apply length_piece]. }
  rewrite slices_take in Hle, Heq. split.
  - intros He i Hi. apply Heq; [|lia]. rewrite He in Hle |- *. symmetry. apply take_ge.
    rewrite length_take in Hle. lia.
  - intros H. transitivity (take (128 * S t) D).
    + rewrite <- slices_take. apply Forall_bind_ext, Forall_forall. intros i Hi%elem_of_seq. apply H. lia.
    + apply take_ge. pose proof (length_piece (a (2 * t + 3)%nat) (chunk t)) as Hp. fold (written t) in Hp.
      rewrite (H t ltac:(lia)) in Hp. unfold slice in Hp. rewrite length_take, length_drop in Hp. lia.
Qed.

End cp.

(** C37: the copy program on an existing readable source and a new target, whatever the reads and
    the writes do: it returns EXIT_SUCCESS, with a new target beside the files there were, of mode 0644
    without the bits of the umask.  It makes t + 1 rounds, of which the last is the first one that gets
    fewer than 128 bytes, be it at the end of the file, by a short read or by a failing one, and
    the target holds what the writes of these rounds let through.  So the target is the source
    exactly when in each of these rounds the whole next slice of the source was read and
    written; in all other cases, too, the program reports success. *)
Theorem cp_copies um fs a fuel cp src des f :
  fs !! src = Some f → fs !! des = None → flag (mode f) 256 = true →
  a 0%nat ≠ A_fail → a 1%nat ≠ A_fail → (length (data f) < 128 * fuel)%nat →
  ∃ t s, Cp.main fuel [cp; src; des] (os0 um fs a) = Done EXIT_SUCCESS s ∧
    let got i := piece (a (2 * i + 2)%nat) (slice (128 * i) 128 (data f)) in
    let put i := piece (a (2 * i + 3)%nat) (got i) in
    let out := seq 0 (S t) ≫= put in
    (∀ i, (i < t)%nat → length (got i) = 128%nat) ∧ (length (got t) < 128)%nat ∧
    files s = <[des := mk_file (Z.land 420 (Z.lnot um)) out]> fs ∧
    (out = data f ↔ ∀ i, (i <= t)%nat → put i = slice (128 * i) 128 (data f)).
Proof.
  intros Hs Hd Hm H0 H1 Hf.
  assert (Ho1 : open src O_RDONLY 0 (os0 um fs a) =
    Done 3 (mk_os fs [tty; mk_description src 0 true false] [Some 0; Some 0; Some 0; Some 1]%nat a 1 um)).
  { unfold open, next_answer, get, mbind, cM_bind. cbn. rewrite Hs. unfold permitted. rewrite Hm. by destruct (a 0%nat). }
  assert (Ho2 : open des (Z.lor (Z.lor O_CREAT O_EXCL) O_WRONLY) 420
      (mk_os fs [tty; mk_description src 0 true false] [Some 0; Some 0; Some 0; Some 1]%nat a 1 um) =
    Done 4 (copying um fs a src des 0 [] 2)).
  { unfold open, next_answer, get, mbind, cM_bind. cbn. rewrite Hd. by destruct (a 1%nat). }
  destruct (copy_loop_rounds um fs a src des f Hs Hd fuel 0 []) as (t & p & n & _ & Hfull & Hlast & Hc); [lia|lia|].
  exists t. eexists. unfold Cp.main. cstep Ho1. change (3 =? -1) with false. cbn iota. cstep Ho2. cstep Hc.
  split; [reflexivity|]. cbn zeta. split_and!; [intros i Hi; apply Hfull; lia|done|by rewrite Nat.sub_0_r|].
  by apply (copied_whole a f t).
Qed.

(** With no descriptor for the target the loop only reads. *)
Lemma copy_loop_nowhere um fs a src f fuel p n :
  fs !! src = Some f → (p <= length (data f))%nat → (length (data f) - p < 128 * fuel)%nat →
  let s p n := mk_os fs [tty; mk_description src (Z.of_nat p) true false] [Some 0; Some 0; Some 0; Some 1]%nat a n um in
  ∃ k n', Cp.copy_loop fuel 3 (-1) (s p n) = Done tt (s k n').
Proof.
  intros Hs Hp Hf s. revert p n Hp Hf. induction fuel as [|fuel IH]; intros p n Hp Hf; [lia|].
  cbn [Cp.copy_loop]. destruct (decide (a n = A_fail)) as [Ha|Ha].
  - pose proof (read_failed 3 128 (s p n) (or_introl Ha)) as Hr. cstep Hr. cbn beta iota.
    rewrite (bind_done _ _ _ (-1) (tick (tick (s p n)))) by (apply write_failed; by right; left).
    exists p, (S (S n)). reflexivity.
  - pose proof (read_ok 3 128 (s p n) 1 (mk_description src (Z.of_nat p) true false) Ha eq_refl eq_refl) as Hr.
    set (g := gets_now _ _ _) in Hr.
    assert (Hl : (p + length g <= length (data f))%nat).
    { unfold g, gets_now, content. cbn [files s path pos]. rewrite Hs, length_take, Nat2Z.id, length_drop. lia. }
    assert (Hm : moved 1 (mk_description src (Z.of_nat p) true false) (length g) (tick (s p n)) = s (p + length g)%nat (S n)).
    { unfold moved, tick, set_descriptions, s. cbn -[Z.of_nat]. by rewrite Nat2Z.inj_add. }
    rewrite Hm in Hr. cstep Hr. cbn beta iota.
    rewrite (bind_done _ _ _ (-1) (tick (s (p + length g)%nat (S n)))) by (apply write_failed; by right; left).
    destruct (Z.eqb_spec (Z.of_nat (length g)) 128) as [He|He].
    + apply (IH (p + length g)%nat (S (S n))); lia.
    + eexists _, (S (S n)). reflexivity.
Qed.

(** The copy program on an existing target: the second open fails, which is not tested;
    whatever the reads return, nothing is changed and the result is EXIT_SUCCESS. *)
Theorem cp_existing_target um fs a fuel cp src des f g :
  fs !! src = Some f → fs !! des = Some g → flag (mode f) 256 = true → a 0%nat ≠ A_fail →
  (length (data f) < 128 * fuel)%nat →
  ∃ s, Cp.main fuel [cp; src; des] (os0 um fs a) = Done EXIT_SUCCESS s ∧ files s = fs.
Proof.
  intros Hs Hd Hm H0 Hf.
  assert (Ho1 : open src O_RDONLY 0 (os0 um fs a) =
    Done 3 (mk_os fs [tty; mk_description src 0 true false] [Some 0; Some 0; Some 0; Some 1]%nat a 1 um)).
  { unfold open, next_answer, get, mbind, cM_bind. cbn. rewrite Hs. unfold permitted. rewrite Hm. by destruct (a 0%nat). }
  assert (Ho2 : open des (Z.lor (Z.lor O_CREAT O_EXCL) O_WRONLY) 420
      (mk_os fs [tty; mk_description src 0 true false] [Some 0; Some 0; Some 0; Some 1]%nat a 1 um) =
    Done (-1) (mk_os fs [tty; mk_description src 0 true false] [Some 0; Some 0; Some 0; Some 1]%nat a 2 um)).
  { unfold open, next_answer, get, mbind, cM_bind. cbn. rewrite Hd. by destruct (a 1%nat). }
  destruct (copy_loop_nowhere um fs a src f fuel 0 2 Hs) as (k & n & Hc); [lia|lia|].
  eexists. unfold Cp.main. cstep Ho1. change (3 =? -1) with false. cbn iota. cstep Ho2. cstep Hc.
  split; reflexivity.
Qed.

Definition digits_file : file := mk_file 420 (lit "0123456789").
Definition one_file : gmap string file := {["a"%string := digits_file]}.

(** The write of the first of two rounds fails. *)
Definition long_file : file := mk_file 420 (replicate 130 Byte.x61).
Definition second_write_only (i : nat) : answer := if (i =? 3)%nat then A_fail else A_full.

Lemma cp_copies_witness :
  let fs := {["a"%string := long_file]} in
  let a := second_write_only in
  ∃ t s, Cp.main 2 ["cp"; "a"; "b"]%string (os0 18 fs a) = Done EXIT_SUCCESS s ∧
    let got i := piece (a (2 * i + 2)%nat) (slice (128 * i) 128 (data long_file)) in
    let put i := piece (a (2 * i + 3)%nat) (got i) in
    let out := seq 0 (S t) ≫= put in
    (∀ i, (i < t)%nat → length (got i) = 128%nat) ∧ (length (got t) < 128)%nat ∧
    files s = <["b"%string := mk_file (Z.land 420 (Z.lnot 18)) out]> fs ∧
    (out = data long_file ↔ ∀ i, (i <= t)%nat → put i = slice (128 * i) 128 (data long_file)).
Proof.
  intros fs a. refine (cp_copies 18 fs a 2 "cp" "a" "b" long_file _ _ _ _ _ _); try done. cbn. lia.
Defined.

(** What the witness's target holds: the two bytes of the second round. *)
Example cp_lossy :
  match Cp.main 2 ["cp"; "a"; "b"]%string (os0 18 {["a"%string := long_file]} second_write_only) with
  | Done r s => r = EXIT_SUCCESS ∧ files s !! "b"%string = Some (mk_file 420 [Byte.x61; Byte.x61])
  | _ => False
  end.
Proof. vm_compute. by split. Qed.

Lemma cp_existing_target_witness :
  ∃ s, Cp.main 1 ["cp"; "a"; "a"]%string (os0 18 one_file (λ _, A_full)) = Done EXIT_SUCCESS s ∧ files s = one_file.
Proof.
  refine (cp_existing_target 18 one_file (λ _, A_full) 1 "cp" "a" "a" digits_file digits_file _ _ _ _ _); try done. cbn. lia.
Defined.

(** ** The other examples *)

Section dup.
Context (um : Z) (fs : gmap string file) (f : file).
Hypothesis Hf : fs !! "tmp3"%string = Some f.
Hypothesis Hm : flag (mode f) 128 = true.

(** The system with the text [d] in the file and the position [p] in the open description. *)
Definition opened (d : list byte) (p : Z) (l : list (option nat)) (n : nat) : os :=
  mk_os (<["tmp3"%string := mk_file (mode f) d]> fs)
    [tty; mk_description "tmp3" 0 false true; mk_description "tmp3" p false true] l (λ _, A_full) n um.

Definition used : list (option nat) := [Some 0; Some 0; Some 0; Some 2]%nat.

Lemma dup_starts garbage :
  Dup.main garbage (os0 um fs (λ _, A_full)) =
  (fd_dup ← dup_fd 3 garbage;
   n1 ← write 3 Dup.content (Z.of_nat (length Dup.content));
   n2 ← write fd_dup Dup.content (Z.of_nat (length Dup.content));
   close 3;; close fd_dup;; mret (0, [3; fd_dup; n1; n2])) (opened [] 0 used 2).
Proof.
  set (fs' := <["tmp3"%string := mk_file (mode f) []]> fs).
  assert (H1 : creat "tmp3" 420 (os0 um fs (λ _, A_full)) =
    Done 3 (mk_os fs' [tty; mk_description "tmp3" 0 false true] [Some 0; Some 0; Some 0; Some 1]%nat (λ _, A_full) 1 um)).
  { unfold creat, open, next_answer, get, put, mbind, cM_bind. cbn -[fs']. rewrite Hf. unfold permitted. rewrite Hm. reflexivity. }
  assert (H2 : open "tmp3" (Z.lor O_WRONLY O_CREAT) 420
      (mk_os fs' [tty; mk_description "tmp3" 0 false true] [Some 0; Some 0; Some 0; None]%nat (λ _, A_full) 1 um) =
    Done 3 (opened [] 0 used 2)).
  { unfold open, next_answer, get, put, mbind, cM_bind. cbn -[fs'].
    assert (fs' !! "tmp3"%string = Some (mk_file (mode f) [])) as -> by (unfold fs'; by rewrite lookup_insert_eq).
    unfold permitted. cbn -[fs']. rewrite Hm. reflexivity. }
  unfold Dup.main. cstep H1. change (3 =? -1) with false. cbn iota.
  rewrite (bind_done (close 3) _ _ 0
    (mk_os fs' [tty; mk_description "tmp3" 0 false true] [Some 0; Some 0; Some 0; None]%nat (λ _, A_full) 1 um)) by reflexivity.
  cstep H2. reflexivity.
Qed.

(** A write of the text through a descriptor of the shared description. *)
Lemma write_shared fd d l n :
  lookup_fd fd (opened d (Z.of_nat (length d)) l n) = Some (2%nat, mk_description "tmp3" (Z.of_nat (length d)) false true) →
  write fd Dup.content (Z.of_nat (length Dup.content)) (opened d (Z.of_nat (length d)) l n) =
  Done 13 (opened (d ++ Dup.content) (Z.of_nat (length (d ++ Dup.content))) l (S n)).
Proof.
  intros Hl.
  rewrite (write_ok fd _ _ _ 2 (mk_description "tmp3" (Z.of_nat (length d)) false true) (mk_file (mode f) d)); [|done|exact Hl|done|cbn; by rewrite lookup_insert_eq|done|done].
  unfold opened, moved, set_files, set_descriptions, tick. cbn -[Z.of_nat Z.to_nat Dup.content write_at].
  rewrite !Nat2Z.id, (take_ge Dup.content) by done. rewrite write_at_end, insert_insert_eq.
  rewrite length_app, Nat2Z.inj_add. reflexivity.
Qed.

End dup.

(** fcntl_dup_fd.c: the duplicate shares the position of the descriptor, so the second
    write continues after the first and the file holds the text twice, whatever it held before;
    this takes a third argument for fcntl, which the call leaves out: with an unusable value in
    its place the duplicate is -1 and the text is there once. *)
Theorem dup_shares_position um fs f garbage :
  fs !! "tmp3"%string = Some f → flag (mode f) 128 = true →
  ∃ r s, Dup.main garbage (os0 um fs (λ _, A_full)) = Done (0, r) s ∧
    files s = <["tmp3"%string := mk_file (mode f)
      (if (0 <=? garbage) && (garbage <? OPEN_MAX) then Dup.content ++ Dup.content else Dup.content)]> fs.
Proof.
  intros Hf Hm. rewrite (dup_starts um fs f Hf Hm).
  assert (Hlow : lowest_free (Z.to_nat garbage) used = max 4 (Z.to_nat garbage)).
  { apply lowest_free_used. intros x Hx ->. unfold used in Hx. set_solver. }
  assert (Hdup : dup_fd 3 garbage (opened um fs f [] 0 used 2) =
    if (0 <=? garbage) && (garbage <? OPEN_MAX)
    then let j := max 4 (Z.to_nat garbage) in Done (Z.of_nat j) (opened um fs f [] 0 (set_fd j (Some 2%nat) used) 2)
    else Done (-1) (opened um fs f [] 0 used 2)).
  { unfold dup_fd, get, put, mbind, cM_bind. change (lookup_fd 3 _) with (Some (2%nat, mk_description "tmp3" 0 false true)).
    cbn beta iota. change (fds _) with used. rewrite Hlow.
    assert (((0 <=? garbage) && (Z.of_nat (max 4 (Z.to_nat garbage)) <? OPEN_MAX)) = ((0 <=? garbage) && (garbage <? OPEN_MAX))) as ->.
    { unfold OPEN_MAX. destruct (Z.leb_spec 0 garbage); [cbn|done].
      destruct (Z.ltb_spec garbage 1024), (Z.ltb_spec (Z.of_nat (max 4 (Z.to_nat garbage))) 1024); lia. }
    by destruct ((0 <=? garbage) && (garbage <? OPEN_MAX)). }
  destruct ((0 <=? garbage) && (garbage <? OPEN_MAX)).
  - set (j := max 4 (Z.to_nat garbage)) in *. set (l := set_fd j (Some 2%nat) used) in *. cstep Hdup.
    assert (H3 : ∀ d n, lookup_fd 3 (opened um fs f d (Z.of_nat (length d)) l n) =
      Some (2%nat, mk_description "tmp3" (Z.of_nat (length d)) false true)).
    { intros d n. unfold lookup_fd. cbn -[Z.of_nat]. unfold l. rewrite set_fd_other by (cbn; lia). reflexivity. }
    assert (Hj : ∀ d n, lookup_fd (Z.of_nat j) (opened um fs f d (Z.of_nat (length d)) l n) =
      Some (2%nat, mk_description "tmp3" (Z.of_nat (length d)) false true)).
    { intros d n. unfold lookup_fd. cbn -[Z.of_nat]. destruct (Z.ltb_spec (Z.of_nat j) 0); [lia|].
      rewrite Nat2Z.id. unfold l. rewrite set_fd_look by (cbn; lia). reflexivity. }
    pose proof (write_shared um fs f 3 [] l 2 (H3 [] 2%nat)) as Hw1. cstep Hw1.
    pose proof (write_shared um fs f (Z.of_nat j) ([] ++ Dup.content) l 3 (Hj ([] ++ Dup.content) 3%nat)) as Hw2. cstep Hw2.
    unfold close, get, put, mret, cM_ret, mbind, cM_bind. rewrite H3. 
    destruct (lookup_fd (Z.of_nat j) _) as [[? ?]|]; eexists _, _; (split; [reflexivity|]); reflexivity.
  - cstep Hdup. pose proof (write_shared um fs f 3 [] used 2 eq_refl) as Hw1. cstep Hw1.
    rewrite (bind_done _ _ _ _ _ (write_failed (-1) _ _ _ (or_intror (or_introl eq_refl)))).
    eexists _, _. split; reflexivity.
Qed.

Lemma dup_shares_position_witness :
  ∃ r s, Dup.main 0 (os0 18 {["tmp3"%string := digits_file]} (λ _, A_full)) = Done (0, r) s ∧
    files s = <["tmp3"%string := mk_file 420 (Dup.content ++ Dup.content)]> {["tmp3"%string := digits_file]}.
Proof.
  refine (dup_shares_position 18 {["tmp3"%string := digits_file]} digits_file 0 _ _); reflexivity.
Defined.

(** *** FileIO/ptr_struct_file.c *)

Lemma splice_same {A} n (l : list A) : (n <= length l)%nat → splice 0 (slice 0 n l) l = l.
Proof.
  intros H. unfold splice, slice. rewrite drop_0, take_0, length_take. cbn. rewrite Nat.min_l by done. apply take_drop.
Qed.

Lemma underflow_done rb p e d des :
  (length d <= 10)%nat → length rb = 10%nat →
  Stdio.underflow (Stdio.mk_state rb p e d des) =
    Done (length d) (Stdio.mk_state (splice 0 d rb) 0 (length d) [] des).
Proof.
  intros Hd Hr. unfold Stdio.underflow, get, put, mbind, cM_bind. cbn [Stdio.rest Stdio.rbuffer Stdio.des].
  rewrite take_ge, drop_ge by (unfold Stdio.WBUF_SIZE; lia).
  destruct (Nat.leb_spec (length d) (length rb)); [done|lia].
Qed.

(** At the end of the file nothing more comes. *)
Lemma fread_end fuel off want rb p e des :
  (0 < fuel)%nat → (e <= p)%nat → length rb = 10%nat →
  ∃ p' e', Stdio.fread fuel off want (Stdio.mk_state rb p e [] des) = Done off (Stdio.mk_state rb p' e' [] des) ∧ (e' <= p')%nat.
Proof.
  intros Hf He Hr. destruct fuel as [|fuel]; [lia|]. cbn [Stdio.fread]. destruct (want =? 0)%nat; [by exists p, e|].
  rewrite bind_get. cbn [Stdio.end_ Stdio.ptr].
  destruct (Nat.leb_spec e p); [|lia]. pose proof (underflow_done rb p e [] des ltac:(cbn; lia) Hr) as Hu. cstep Hu.
  exists 0%nat, 0%nat. split; [|done]. cbn. unfold splice. by rewrite take_0, drop_0.
Qed.

(** A file that fits into the array is read in one go. *)
Lemma fread_small fuel d des rb :
  (3 < fuel)%nat → (0 < length d <= 10)%nat → length rb = 10%nat →
  ∃ p e rb', Stdio.fread fuel 0 10 (Stdio.mk_state rb 0 0 d des) = Done (length d) (Stdio.mk_state rb' p e [] des) ∧
    take (length d) rb' = d ∧ length rb' = 10%nat ∧ (e <= p)%nat.
Proof.
  intros Hf Hd Hr. destruct fuel as [|[|fuel]]; [lia..|]. set (rb1 := splice 0 d rb).
  assert (Hr1 : length rb1 = 10%nat) by (unfold rb1; rewrite length_splice; lia).
  assert (Ht : take (length d) rb1 = d).
  { unfold rb1. rewrite <- (Nat.add_0_l (length d)). rewrite take_splice by lia. by rewrite take_0. }
  cbn [Stdio.fread]. change (10 =? 0)%nat with false. cbn iota.
  rewrite bind_get. cbn [Stdio.end_ Stdio.ptr]. change (0 <=? 0)%nat with true. cbn iota.
  pose proof (underflow_done rb 0 0 d des ltac:(lia) Hr) as Hu. cstep Hu.
  destruct (Nat.eqb_spec (length d) 0); [lia|]. fold rb1.
  rewrite bind_get. cbn [Stdio.end_ Stdio.ptr].
  destruct (Nat.leb_spec (length d) 0); [lia|]. rewrite Nat.sub_0_r, Nat.min_l by lia. cbn [Stdio.rbuffer Stdio.rest Stdio.des].
  rewrite (bind_done (check _ _) _ _ tt (Stdio.mk_state rb1 0 (length d) [] des)).
  2:{ unfold check. destruct (Nat.leb_spec (0 + length d) (length rb1)); [done|lia]. }
  rewrite bind_put, splice_same by lia.
  destruct (fread_end fuel (0 + length d) (10 - length d) rb1 (0 + length d) (length d) des) as (p & e & He & Hpe); [lia..|done|].
  exists p, e, rb1. by rewrite He.
Qed.

Lemma fwrite_done n rb p e des :
  (n <= length rb)%nat → Stdio.fwrite n (Stdio.mk_state rb p e [] des) = Done tt (Stdio.mk_state rb p e [] (des ++ take n rb)).
Proof.
  intros H. unfold Stdio.fwrite, get, put, mbind, cM_bind. cbn [Stdio.rbuffer]. unfold check.
  by destruct (Nat.leb_spec n (length rb)); [|lia].
Qed.

Lemma copy_loop_end fuel rb p e des :
  (0 < fuel)%nat → (e <= p)%nat → ∃ s, Stdio.copy_loop fuel (Stdio.mk_state rb p e [] des) = Done tt s ∧ Stdio.des s = des.
Proof.
  intros Hf He. destruct fuel as [|fuel]; [lia|]. cbn [Stdio.copy_loop].
  rewrite (bind_done Stdio.memset0 _ _ tt (Stdio.mk_state (replicate 10 Byte.x00) p e [] des)) by done.
  destruct (fread_end (3 * Stdio.RBUF_SIZE) 0 Stdio.RBUF_SIZE (replicate 10 Byte.x00) p e des) as (p' & e' & Hr & _); [cbn; lia|done|done|].
  cstep Hr. rewrite (bind_done _ _ _ _ _ (fwrite_done 0 _ p' e' des ltac:(cbn; lia))). cbn. eexists. split; [done|].
  cbn. apply app_nil_r.
Qed.

Lemma copy_loop_small fuel d :
  (1 < fuel)%nat → (length d <= 10)%nat →
  ∃ s, Stdio.copy_loop fuel (Stdio.mk_state (replicate 10 Byte.x00) 0 0 d []) = Done tt s ∧ Stdio.des s = d.
Proof.
  intros Hf Hd. destruct d as [|b d'] eqn:Hdd; [by apply copy_loop_end; lia|]. rewrite <- Hdd in *.
  assert (Hpos : (0 < length d)%nat) by (rewrite Hdd; cbn; lia). clear Hdd. destruct fuel as [|fuel]; [lia|]. cbn [Stdio.copy_loop].
  rewrite (bind_done Stdio.memset0 _ _ tt (Stdio.mk_state (replicate 10 Byte.x00) 0 0 d [])) by done.
  destruct (fread_small (3 * Stdio.RBUF_SIZE) d [] (replicate 10 Byte.x00)) as (p & e & rb & Hr & Ht & Hl & Hpe); [cbn; lia|lia|done|].
  change (Stdio.fread _ 0 Stdio.RBUF_SIZE) with (Stdio.fread (3 * Stdio.RBUF_SIZE) 0 10). cstep Hr.
  rewrite (bind_done _ _ _ _ _ (fwrite_done (length d) rb p e [] ltac:(lia))). rewrite Ht.
  destruct (length d =? Stdio.RBUF_SIZE)%nat; [by apply copy_loop_end; lia|]. by eexists.
Qed.

Lemma fread_overflow fuel d :
  (0 < fuel)%nat → (10 < length d)%nat →
  Stdio.fread fuel 0 10 (Stdio.mk_state (replicate 10 Byte.x00) 0 0 d []) = Undef OutOfBounds.
Proof.
  intros Hf Hd. destruct fuel as [|fuel]; [lia|]. cbn [Stdio.fread].
  change (10 =? 0)%nat with false. cbn iota. rewrite bind_get. cbn [Stdio.end_ Stdio.ptr].
  change (0 <=? 0)%nat with true. cbn iota. apply bind_undef.
  unfold Stdio.underflow. rewrite bind_get. cbn [Stdio.rest Stdio.rbuffer]. rewrite length_take.
  apply bind_undef. unfold check.
  destruct (Nat.leb_spec (Stdio.WBUF_SIZE `min` length d) (length (replicate 10 Byte.x00))) as [H|H]; [|done].
  rewrite length_replicate in H. unfold Stdio.WBUF_SIZE in H. lia.
Qed.

(** C38: ptr_struct_file.c copies a file of at most ten bytes to another file; a longer file is
    read past the end of the array [rbuffer], because setvbuf was told 128 bytes for an array
    of ten; and a file copied to itself is emptied. *)
Theorem ptr_struct_copies fs fuel prog src target d :
  fs !! src = Some d → (1 < fuel)%nat →
  Stdio.main fuel [prog; src; target] true true fs =
    if decide (src = target) then Done 0 (<[target := []]> fs)
    else if decide (length d <= 10)%nat then Done 0 (<[target := d]> fs)
    else Undef OutOfBounds.
Proof.
  intros Hs Hf. unfold Stdio.main. cbn [lookup list_lookup negb]. rewrite Hs. case_decide as He.
  - subst. rewrite lookup_insert_eq. cbn [default from_option].
    destruct (copy_loop_small fuel [] Hf) as (s & Hc & Hdes); [cbn; lia|]. change Stdio.RBUF_SIZE with 10%nat. unfold id. rewrite Hc, Hdes.
    by rewrite insert_insert_eq.
  - rewrite lookup_insert_ne by done. rewrite Hs. cbn [default from_option]. change Stdio.RBUF_SIZE with 10%nat. unfold id. case_decide as Hl.
    + destruct (copy_loop_small fuel d Hf Hl) as (s & Hc & Hdes). rewrite Hc, Hdes. by rewrite insert_insert_eq.
    + destruct fuel as [|fuel]; [lia|]. cbn [Stdio.copy_loop].
      rewrite (bind_done Stdio.memset0 _ _ tt (Stdio.mk_state (replicate 10 Byte.x00) 0 0 d [])) by done.
      rewrite (bind_undef _ _ _ OutOfBounds); [done|]. apply fread_overflow; [cbn|]; lia.
Qed.

Lemma ptr_struct_copies_witness :
  Stdio.main 2 ["ptr"; "a"; "b"]%string true true {["a"%string := lit "0123456789"]} =
  Done 0 (<["b"%string := lit "0123456789"]> {["a"%string := lit "0123456789"]}).
Proof.
  refine (ptr_struct_copies {["a"%string := lit "0123456789"]} 2 "ptr" "a" "b" (lit "0123456789") _ _); [reflexivity|lia].
Defined.

(** *** posix_open_example.c and lseek.c *)

(** The system after a file was opened for reading, at position [p]. *)
Definition reading (um : Z) (fs : gmap string file) (name : string) (p : Z) (n : nat) : os :=
  mk_os fs [tty; mk_description name p true false] [Some 0; Some 0; Some 0; Some 1]%nat (λ _, A_full) n um.

Lemma open_reading um fs name f :
  fs !! name = Some f → flag (mode f) 256 = true → open name O_RDONLY 0 (os0 um fs (λ _, A_full)) = Done 3 (reading um fs name 0 1).
Proof.
  intros Hf Hm. unfold open, next_answer, get, mbind, cM_bind. cbn. rewrite Hf. unfold permitted. by rewrite Hm.
Qed.

(** A failure to create ./tmp1, because it exists, is not seen: main goes on with the
    descriptor -1 and returns 0. *)
Lemma open_test_ineffective um fs f g h garbage :
  fs !! "lorem.txt"%string = Some f → flag (mode f) 256 = true →
  fs !! "./tmp1"%string = Some g → fs !! "./tmp2"%string = Some h → flag (mode h) 128 = true →
  ∃ s, Open.main garbage (os0 um fs (λ _, A_full)) = Done (0, [3; -1; 4]) s ∧
    files s = <["./tmp2"%string := mk_file (mode h) []]> fs.
Proof.
  intros Hf Hm Hg Hh Hmh. unfold Open.main. pose proof (open_reading um fs _ f Hf Hm) as Ho. cstep Ho.
  change (3 =? -1) with false. cbn iota.
  rewrite (bind_done _ _ _ (-1) (reading um fs "lorem.txt" 0 2)).
  2:{ unfold open, next_answer, get, mbind, cM_bind. cbn. by rewrite Hg. }
  change (420 =? -1) with false. cbn iota.
  rewrite (bind_done _ _ _ 4 (mk_os (<["./tmp2"%string := mk_file (mode h) []]> fs)
    [tty; mk_description "lorem.txt" 0 true false; mk_description "./tmp2" 0 false true]
    [Some 0; Some 0; Some 0; Some 1; Some 2]%nat (λ _, A_full) 3 um)).
  2:{ unfold creat, open, next_answer, get, put, mbind, cM_bind. cbn. rewrite Hh. unfold permitted. by rewrite Hmh. }
  eexists. split; reflexivity.
Qed.

Lemma lseek_reading um fs name p off w n :
  lseek 3 off w (reading um fs name p n) =
    (let q := match w with SEEK_CUR => p + off | SEEK_DATA => off end in
     if (q <? 0) || match w with SEEK_CUR => false | SEEK_DATA => Z.of_nat (length (content name (reading um fs name p n))) <=? q end
     then Done (-1) (reading um fs name p n) else Done q (reading um fs name q n)).
Proof.
  unfold lseek. rewrite bind_get. change (lookup_fd 3 _) with (Some (1%nat, mk_description name p true false)).
  cbn beta iota. destruct w; cbn [pos path]; [rewrite orb_false_r|]; by case_match.
Qed.

(** The program of lseek.c on a file of more than 20 bytes, and at most a million: the offset that would
    be negative and the data past the end are refused, the others are reported; the last call
    goes back to the start; then 20 bytes are read, and what is printed are those before the
    first zero: without a zero among them the print runs into bytes that were never written. *)
Theorem lseek_reports um fs prog name f :
  fs !! name = Some f → flag (mode f) 256 = true → 20 < Z.of_nat (length (data f)) <= 1000000 →
  Seek.main [prog; name] (os0 um fs (λ _, A_full)) =
    if existsb Seek.is_nul (take 20 (data f))
    then Done (EXIT_SUCCESS, [10; 20; 30; -1; -1; if 100 <? Z.of_nat (length (data f)) then 100 else -1; 0; 20],
           Seek.until_nul (take 20 (data f))) (reading um fs name 20 2)
    else Undef Uninitialised.
Proof.
  intros Hf Hm Hl. unfold Seek.main. cbn [lookup list_lookup]. pose proof (open_reading um fs _ f Hf Hm) as Ho. cstep Ho.
  change (3 <? 0) with false. cbn iota.
  assert (Hc : ∀ p n, content name (reading um fs name p n) = data f) by (intros p n; unfold content; cbn; by rewrite Hf).
  assert (Hs : ∀ p off w n q, lseek 3 off w (reading um fs name p n) = q → (lseek 3 off w (reading um fs name p n) = q)) by done. clear Hs.
  rewrite (bind_done _ _ _ 10 (reading um fs name 10 1)) by by rewrite lseek_reading.
  rewrite (bind_done _ _ _ 20 (reading um fs name 20 1)) by by rewrite lseek_reading.
  rewrite (bind_done _ _ _ 30 (reading um fs name 30 1)) by by rewrite lseek_reading.
  rewrite (bind_done _ _ _ (-1) (reading um fs name 30 1)) by by rewrite lseek_reading.
  rewrite (bind_done _ _ _ (-1) (reading um fs name 30 1)).
  2:{ rewrite lseek_reading, Hc. cbn zeta. destruct (Z.leb_spec (Z.of_nat (length (data f))) 1000000); [done|lia]. }
  set (q := if 100 <? Z.of_nat (length (data f)) then 100 else -1).
  rewrite (bind_done _ _ _ q (reading um fs name (if 100 <? Z.of_nat (length (data f)) then 100 else 30) 1)).
  2:{ rewrite lseek_reading, Hc. cbn zeta. unfold q.
      destruct (Z.leb_spec (Z.of_nat (length (data f))) 100), (Z.ltb_spec 100 (Z.of_nat (length (data f)))); done || lia. }
  rewrite (bind_done _ _ _ 0 (reading um fs name 0 1)).
  2:{ rewrite lseek_reading, Hc. cbn zeta. destruct (Z.leb_spec (Z.of_nat (length (data f))) 0); [lia|done]. }
  assert (Hg : gets_now 20 (mk_description name 0 true false) (reading um fs name 0 1) = take 20 (data f)).
  { unfold gets_now. cbn [pos path]. rewrite Hc. change (Z.to_nat 0) with 0%nat. rewrite drop_0. cbn [answers reading limit].
    by rewrite Nat.min_l by lia. }
  assert (Hn : length (take 20 (data f)) = 20%nat) by (rewrite length_take; lia).
  pose proof (read_ok 3 20 (reading um fs name 0 1) 1 (mk_description name 0 true false) ltac:(done) eq_refl eq_refl) as Hr.
  rewrite Hg, Hn in Hr. cstep Hr. cbn beta iota. unfold Seek.print_string, check, undef, mret, cM_ret, mbind, cM_bind.
  destruct (existsb Seek.is_nul (take 20 (data f))); reflexivity.
Qed.

Lemma lseek_reports_witness :
  let f := mk_file 420 (replicate 5 Byte.x41 ++ replicate 100 Byte.x00) in
  Seek.main ["lseek"; "a"]%string (os0 18 {["a"%string := f]} (λ _, A_full)) =
  Done (EXIT_SUCCESS, [10; 20; 30; -1; -1; 100; 0; 20], replicate 5 Byte.x41) (reading 18 {["a"%string := f]} "a" 20 2).
Proof.
  intros f. refine (lseek_reports 18 {["a"%string := f]} "lseek" "a" f _ _ _); [reflexivity|reflexivity|vm_compute; split; congruence].
Defined.

(** create_no_writefile.c writes its text with the final zero into a file that nobody may
    open any more: the second run writes nothing. *)
Lemma no_write_twice um prog name a :
  let written := {[name := mk_file 0 NoWrite.content]} in
  a 0%nat ≠ A_fail → a 1%nat = A_full →
  (∃ s, NoWrite.main [prog; name] (os0 um ∅ a) = Done 0 s ∧ files s = written) ∧
  ∀ b, ∃ s', NoWrite.main [prog; name] (os0 um written b) = Done 0 s' ∧ files s' = written.
Proof.
  intros written H0 H1. split.
  2:{ intros b. unfold NoWrite.main. cbn [lookup list_lookup].
    rewrite (bind_done _ _ _ (-1) (tick (os0 um written b))).
    2:{ unfold open, next_answer, get, mbind, cM_bind. cbn -[written]. unfold written. rewrite lookup_singleton_eq.
      by destruct (b 0%nat). }
    rewrite (bind_done _ _ _ _ _ (write_failed (-1) _ _ _ (or_intror (or_introl eq_refl)))).
    eexists. split; reflexivity. }
  set (fs1 := {[name := mk_file 0 []]} : gmap string file).
  set (s3 := mk_os fs1 [tty; mk_description name 0 false true] [Some 0; Some 0; Some 0; Some 1]%nat a 1 um).
  assert (Ho : open name (Z.lor O_CREAT O_WRONLY) 0 (os0 um ∅ a) = Done 3 s3).
  { unfold open, next_answer, get, mbind, cM_bind. cbn -[fs1]. rewrite lookup_empty. by destruct (a 0%nat). }
  unfold NoWrite.main. cbn [lookup list_lookup]. cstep Ho.
  assert (Ha : answers s3 (calls s3) ≠ A_fail) by (cbn; by rewrite H1).
  pose proof (write_ok 3 NoWrite.content (Z.of_nat (length NoWrite.content)) s3 1 (mk_description name 0 false true) (mk_file 0 [])
    Ha eq_refl eq_refl (lookup_singleton_eq _ _) ltac:(done) ltac:(done)) as Hw.
  cbn [answers calls s3] in Hw. rewrite H1 in Hw. cstep Hw. eexists. split; [reflexivity|].
  exact (insert_singleton_eq name _ _).
Qed.
