(* ===== verification/Standalone.v ===== *)
(** * A server and a client in one process: Linux/Socket/tcp_standalone.c

    Two pools of one worker each, seen through the specification of [ThpoolSpec]; the jobs run
    on the workers, and the TCP connection is what both ends share.  The log lines are left
    out.  All states of the program are checked, with every answer of the environment. *)

From S2P Require Import Prelude CInt TransSys Explore ThpoolSpec.

(** The functions given to thpool_add_work; the argument is the socket of the pool's side. *)
Inductive job := create_socket | socket_server | socket_client.

#[export] Instance job_eq_dec : EqDecision job.
Proof. solve_decision. Defined.

(** A [socket_instance *]: not allocated yet, NULL, or an object whose [fd] is indeterminate
    or the answer of socket(): a descriptor or -1. *)
Inductive instance := S_none | S_null | S_inst (fd : option bool).

(** Where the worker of a pool is; [b]: the value read from [sock->fd] is a descriptor. *)
Inductive worker_pc :=
  | W_idle
  | W_create
  | V_start | V_setsockopt (b : bool) | V_bind | V_listen | V_accept | V_read | V_send | V_free
  | K_start | K_connect (b : bool) | K_send | K_free.

Inductive main_pc :=
  | M_malloc1 | M_malloc2 | M_init1 | M_init2 | M_add1 | M_add2 | M_wait1 | M_wait2 | M_add3 | M_add4
  | M_wait3 | M_wait4 | M_destroy1 | M_destroy2 | M_end.

#[export] Instance instance_eq_dec : EqDecision instance.
Proof. solve_decision. Defined.
#[export] Instance worker_pc_eq_dec : EqDecision worker_pc.
Proof. solve_decision. Defined.
#[export] Instance main_pc_eq_dec : EqDecision main_pc.
Proof. solve_decision. Defined.
#[export] Instance apool_eq_dec : EqDecision (apool job).
Proof. solve_decision. Defined.

(** One side: its socket, its pool (NULL or there) and its worker. *)
Record side := mk_side {
  sock : instance;
  pool : option (apool job);
  at_ : worker_pc;
}.

#[export] Instance side_eq_dec : EqDecision side.
Proof. solve_decision. Defined.

(** [listening]: the server listens on the port; [connected]: the client's connection is
    established; [sent]: the client's greeting is on its way; [failed]: some call has failed so
    far that the environment could have granted. *)
Record state := mk_state {
  main_at : main_pc;
  server : side;
  client : side;
  listening : bool;
  connected : bool;
  sent : bool;
  failed : bool;
}.

#[export] Instance state_eq_dec : EqDecision state.
Proof. solve_decision. Defined.

Definition set_main p s := mk_state p (server s) (client s) (listening s) (connected s) (sent s) (failed s).
Definition set_server v s := mk_state (main_at s) v (client s) (listening s) (connected s) (sent s) (failed s).
Definition set_client v s := mk_state (main_at s) (server s) v (listening s) (connected s) (sent s) (failed s).
Definition set_listening s := mk_state (main_at s) (server s) (client s) true (connected s) (sent s) (failed s).
Definition set_connected s := mk_state (main_at s) (server s) (client s) (listening s) true (sent s) (failed s).
Definition set_sent s := mk_state (main_at s) (server s) (client s) (listening s) (connected s) true (failed s).
Definition set_failed s := mk_state (main_at s) (server s) (client s) (listening s) (connected s) (sent s) true.

Definition set_sock k v := mk_side k (pool v) (at_ v).
Definition set_pool p v := mk_side (sock v) p (at_ v).
Definition set_at p v := mk_side (sock v) (pool v) p.

(** ** main *)

(** [malloc(sizeof(socket_instance))] and thpool_init(1). *)
Definition malloc_sock (ok : bool) (v : side) : side := set_sock (if ok then S_inst None else S_null) v.
Definition thpool_init (ok : bool) (v : side) : side := set_pool (if ok then Some apool0 else None) v.

(** Without memory for the job thpool_add_work returns -1, which main does not look at. *)
Definition thpool_add_work (ok : bool) (j : job) (v : side) : sres side :=
  if ok then
    match pool v with
    | Some p => Next (set_pool (Some (submit j p)) v)
    | None => Wrong NullDeref
    end
  else Next v.

Definition thpool_wait (v : side) : sres unit :=
  match pool v with
  | Some p => if all_done p then Next tt else Blocked
  | None => Next tt
  end.

Definition main_step (ok : bool) (s : state) : sres state :=
  match main_at s with
  | M_malloc1 => Next (set_main M_malloc2 (set_server (malloc_sock ok (server s)) s))
  | M_malloc2 => Next (set_main M_init1 (set_client (malloc_sock ok (client s)) s))
  | M_init1 => Next (set_main M_init2 (set_server (thpool_init ok (server s)) s))
  | M_init2 => Next (set_main M_add1 (set_client (thpool_init ok (client s)) s))
  | M_add1 => v ← thpool_add_work ok create_socket (server s); Next (set_main M_add2 (set_server v s))
  | M_add2 => v ← thpool_add_work ok create_socket (client s); Next (set_main M_wait1 (set_client v s))
  | M_wait1 => thpool_wait (server s);; Next (set_main M_wait2 s)
  | M_wait2 => thpool_wait (client s);; Next (set_main M_add3 s)
  | M_add3 => v ← thpool_add_work ok socket_server (server s); Next (set_main M_add4 (set_server v s))
  | M_add4 => v ← thpool_add_work ok socket_client (client s); Next (set_main M_wait3 (set_client v s))
  | M_wait3 => thpool_wait (server s);; Next (set_main M_wait4 s)
  | M_wait4 => thpool_wait (client s);; Next (set_main M_destroy1 s)
  | M_destroy1 => Next (set_main M_destroy2 s)
  | M_destroy2 => Next (set_main M_end s)
  | M_end => Blocked
  end.

(** The statements of main that can fail. *)
Definition main_fallible (p : main_pc) : bool :=
  match p with
  | M_malloc1 | M_malloc2 | M_init1 | M_init2 | M_add1 | M_add2 | M_add3 | M_add4 => true
  | _ => false
  end.

(** ** The jobs *)

(** The worker is back in thread_do, the job done. *)
Definition job_done (j : job) (v : side) : side :=
  mk_side (sock v) (p ← pool v; finish j p) W_idle.

(** thread_do takes a job. *)
Definition begin (j : job) : worker_pc :=
  match j with create_socket => W_create | socket_server => V_start | socket_client => K_start end.

Definition take_job (v : side) : sres side :=
  match p ← pool v; start 1 p with
  | Some (j, p) => Next (mk_side (sock v) (Some p) (begin j))
  | None => Blocked
  end.

(** [sock->fd = socket(...)]. *)
Definition do_create_socket (ok : bool) (v : side) : sres side :=
  match sock v with
  | S_inst _ => Next (job_done create_socket (set_sock (S_inst (Some ok)) v))
  | _ => Wrong NullDeref
  end.

(** [int fd = sock->fd]. *)
Definition read_fd (v : side) : sres bool :=
  match sock v with
  | S_inst (Some b) => Next b
  | S_inst None => Wrong Uninitialised
  | _ => Wrong NullDeref
  end.

(** socket_server, line by line; a call on a descriptor that is -1 fails.  The results of read
    and send are not looked at.  [free(greetings)] frees a string literal. *)
Definition do_server (ok : bool) (s : state) : sres state :=
  let v := server s in
  let go p s := Next (set_server (set_at p v) s) in
  let return_ := Next (set_server (job_done socket_server v) s) in
  match at_ v with
  | V_start => b ← read_fd v; go (V_setsockopt b) s
  | V_setsockopt b => if b && ok then go V_bind s else return_
  | V_bind => if ok then go V_listen s else return_
  | V_listen => if ok then go V_accept (set_listening s) else return_
  | V_accept => if ok then (if connected s then go V_read s else Blocked) else return_
  | V_read => if ok then (if sent s then go V_send s else Blocked) else go V_send s
  | V_send => go V_free s
  | V_free => Wrong InvalidFree
  | _ => Blocked
  end.

(** socket_client; connect is refused while nobody listens.  Nothing after [free(greetings)],
    which frees a string literal, is reached. *)
Definition do_client (ok : bool) (s : state) : sres state :=
  let v := client s in
  let go p s := Next (set_client (set_at p v) s) in
  let return_ := Next (set_client (job_done socket_client v) s) in
  match at_ v with
  | K_start => b ← read_fd v; go (K_connect b) s
  | K_connect b => if b && ok && listening s then go K_send (set_connected s) else return_
  | K_send => go K_free (if ok then set_sent s else s)
  | K_free => Wrong InvalidFree
  | _ => Blocked
  end.

Definition server_step (ok : bool) (s : state) : sres state :=
  match at_ (server s) with
  | W_idle => v ← take_job (server s); Next (set_server v s)
  | W_create => v ← do_create_socket ok (server s); Next (set_server v s)
  | _ => do_server ok s
  end.

Definition client_step (ok : bool) (s : state) : sres state :=
  match at_ (client s) with
  | W_idle => v ← take_job (client s); Next (set_client v s)
  | W_create => v ← do_create_socket ok (client s); Next (set_client v s)
  | _ => do_client ok s
  end.

Definition worker_fallible (p : worker_pc) : bool :=
  match p with
  | W_create | V_setsockopt _ | V_bind | V_listen | V_accept | V_read | V_send | K_connect _ | K_send => true
  | _ => false
  end.

(** ** The program *)

Inductive who := Main | Server | Client.

Definition label : Type := who * bool.

Definition fallible (w : who) (s : state) : bool :=
  match w with
  | Main => main_fallible (main_at s)
  | Server => worker_fallible (at_ (server s))
  | Client => worker_fallible (at_ (client s))
  end.

Definition move (w : who) (ok : bool) (s : state) : sres state :=
  match w with Main => main_step ok s | Server => server_step ok s | Client => client_step ok s end.

(** A step, with the answer of the environment to its call. *)
Definition step (l : label) (s : state) : sres state :=
  if bool_decide (main_at s = M_end) then Blocked
  else
    let (w, ok) := l in
    if ok then move w true s
    else if fallible w s then s' ← move w false s; Next (set_failed s') else Blocked.

Definition side0 : side := mk_side S_none None W_idle.
Definition state0 : state := mk_state M_malloc1 side0 side0 false false false false.

Definition reachable_state : state → Prop := reachable (λ s, s = state0) step.

(** ** All states *)

Definition labels : list label :=
  [(Main, true); (Main, false); (Server, true); (Server, false); (Client, true); (Client, false)].

Lemma standalone_labels l s s' : step l s = Next s' → l ∈ labels.
Proof. intros _. destruct l as [[] []]; set_solver. Qed.

Definition states : list state := closure step labels 100 [state0] [state0].

(** Steps whose calls are granted. *)
Definition granted_step (w : who) (s : state) : sres state := step (w, true) s.

Definition everyone : list who := [Main; Server; Client].

(** The steps that are left, at most, without failures. *)
Definition main_left (p : main_pc) : nat :=
  match p with
  | M_malloc1 => 62 | M_malloc2 => 61 | M_init1 => 60 | M_init2 => 59 | M_add1 => 58 | M_add2 => 45
  | M_wait1 => 32 | M_wait2 => 31 | M_add3 => 30 | M_add4 => 17 | M_wait3 => 4 | M_wait4 => 3
  | M_destroy1 => 2 | M_destroy2 => 1 | M_end => 0
  end.

Definition worker_left (p : worker_pc) : nat :=
  match p with
  | W_idle => 0 | W_create => 1
  | V_start => 8 | V_setsockopt _ => 7 | V_bind => 6 | V_listen => 5 | V_accept => 4 | V_read => 3 | V_send => 2
  | V_free => 1
  | K_start => 4 | K_connect _ => 3 | K_send => 2 | K_free => 1
  end.

Definition side_left (v : side) : nat :=
  worker_left (at_ v) + match pool v with Some p => 12 * length (queue p) | None => 0 end.

Definition potential (s : state) : nat :=
  main_left (main_at s) + side_left (server s) + side_left (client s).

(** The server waits for a connection that will not come. *)
Definition hangs (s : state) : bool :=
  bool_decide (main_at s = M_wait3 ∧ at_ (server s) = V_accept ∧ connected s = false ∧ at_ (client s) = W_idle).

Definition frees_literal (s : state) : bool := bool_decide (at_ (server s) = V_free ∨ at_ (client s) = K_free).

Definition moves_on (s : state) (w : who) : bool := match granted_step w s with Next _ => true | _ => false end.

Definition good (s : state) : bool :=
  (failed s || negb (bool_decide (main_at s = M_end))) &&
  (failed s || forallb (λ w,
     match granted_step w s with
     | Next s' => (potential s' <? potential s)%nat && negb (failed s')
     | Wrong u => bool_decide (u = InvalidFree)
     | Blocked => true
     end) everyone) &&
  (failed s || existsb (moves_on s) everyone || frees_literal s || hangs s).

Lemma standalone_good s : reachable_state s → good s = true.
Proof. apply (all_states step labels standalone_labels states). by vm_compute. Qed.

Definition fine (s : state) : Prop := reachable_state s ∧ failed s = false.

Lemma fine_step w s s' : fine s → granted_step w s = Next s' → fine s' ∧ (potential s' < potential s)%nat.
Proof.
  intros [Hr Hf] Hs. assert (Hr' : reachable_state s') by by eapply reachable_step.
  pose proof (standalone_good s Hr) as Hg. unfold good in Hg. rewrite Hf in Hg. cbn [orb] in Hg.
  apply andb_true_iff in Hg as [Hg _]. apply andb_true_iff in Hg as [_ Hg].
  rewrite forallb_forall in Hg. specialize (Hg w ltac:(destruct w; cbn; auto)). rewrite Hs in Hg.
  apply andb_true_iff in Hg as [Hp Hn]. apply negb_true_iff in Hn. apply Nat.ltb_lt in Hp. by split; [split|].
Qed.

Lemma fine_run ls s s' : fine s → run granted_step ls s = Next s' → fine s'.
Proof.
  revert s. induction ls as [|w ls IH]; intros s Hf H; [by injection H as <-|].
  rewrite run_cons in H. destruct (granted_step w s) as [s1| |] eqn:Hl; [|done..].
  apply (IH s1); [|done]. by apply (fine_step w s).
Qed.

(** C24: the program with server and client in one process never completes its exchange.  When
    main reaches its end, some call has failed.  Without a failing call every run has at most 62
    steps, no interleaving reads an unset descriptor, and a run can only stop where the server or
    the client is about to free a string literal, the only undefined step, or with main waiting
    for the server, the server waiting in accept, and the client gone: it had tried to connect
    before the server listened. *)
Theorem standalone_never_completes :
  (∀ s, reachable_state s → main_at s = M_end → failed s = true) ∧
  ∀ ls s, run granted_step ls state0 = Next s →
    (length ls <= 62)%nat ∧ (∀ w u, granted_step w s = Wrong u → u = InvalidFree) ∧
    ((∀ w s', granted_step w s ≠ Next s') →
     at_ (server s) = V_free ∨ at_ (client s) = K_free ∨
     main_at s = M_wait3 ∧ at_ (server s) = V_accept ∧ connected s = false ∧ at_ (client s) = W_idle).
Proof.
  split.
  - intros s Hr He. pose proof (standalone_good s Hr) as Hg. unfold good in Hg. destruct (failed s); [done|].
    rewrite bool_decide_true in Hg by done. done.
  - intros ls s Hrun. assert (H0 : fine state0) by (split; [by apply reachable_init|done]).
    pose proof (fine_run ls state0 s H0 Hrun) as [Hr Hf].
    pose proof (measure_bounds granted_step fine potential fine_step ls state0 s H0 Hrun) as Hm.
    change (potential state0) with 62%nat in Hm. pose proof (standalone_good s Hr) as Hg. unfold good in Hg. rewrite Hf in Hg.
    cbn [orb] in Hg. apply andb_true_iff in Hg as [Hg Hstop]. apply andb_true_iff in Hg as [_ Hg].
    rewrite forallb_forall in Hg. split_and!; [lia| |].
    + intros w u Hw. specialize (Hg w ltac:(destruct w; cbn; auto)). rewrite Hw in Hg. by apply bool_decide_eq_true in Hg.
    + intros Hst. apply orb_true_iff in Hstop as [Hstop|Hh]; [apply orb_true_iff in Hstop as [Hn|Hfr]|].
      * apply existsb_exists in Hn as (w & _ & Hn). unfold moves_on in Hn.
        destruct (granted_step w s) as [s'| |] eqn:Hw; [|done..]. by destruct (Hst w s').
      * apply bool_decide_eq_true in Hfr. tauto.
      * apply bool_decide_eq_true in Hh. tauto.
Qed.

(** The client is faster: its connection is refused, and the server waits for ever. *)
Definition refused : list who :=
  replicate 6 Main ++ [Server; Server; Client; Client] ++ replicate 4 Main ++ replicate 3 Client ++ replicate 5 Server.

Definition stuck_state : state := match run granted_step refused state0 with Next s => s | _ => state0 end.

Lemma refused_stuck w s' : granted_step w stuck_state ≠ Next s'.
Proof. destruct w; vm_compute; discriminate. Qed.

Lemma standalone_never_completes_witness :
  hangs stuck_state = true ∧
  (at_ (server stuck_state) = V_free ∨ at_ (client stuck_state) = K_free ∨
   main_at stuck_state = M_wait3 ∧ at_ (server stuck_state) = V_accept ∧ connected stuck_state = false ∧
   at_ (client stuck_state) = W_idle).
Proof.
  split; [vm_compute; reflexivity|].
  refine (proj2 (proj2 (proj2 standalone_never_completes refused stuck_state _)) refused_stuck).
  vm_compute. reflexivity.
Defined.
