(* ===== verification/Pointers.v ===== *)
(** * The pointer examples: Pointers/*.c, four of Miscs/*.c, GDB/bug.c and Valgrind/*.c

    A memory of blocks, each an automatic variable or a heap block, with the bytes, and the
    pointers, that were stored in it.  Of what the programs print, the integers. *)

From S2P Require Import Prelude CInt.

Open Scope Z_scope.

(** ** The memory *)

Inductive kind := Auto | Heap.

#[export] Instance kind_eq_dec : EqDecision kind.
Proof. solve_decision. Defined.

(** NULL, an indeterminate pointer, or the byte at an offset of a block. *)
Inductive ptr := Null | Junk | At (b : positive) (off : Z).

(** A cell: never written, a byte, or the cell where a pointer is stored. *)
Inductive cell := Unset | Byte (x : byte) | Pointer (p : ptr).

Record block := mk_block { block_kind : kind; live : bool; cells : list cell }.

(** [grants]: the answers of malloc. *)
Record mem := mk_mem {
  blocks : gmap positive block;
  next_block : positive;
  grants : list bool;
}.

Definition alloc (k : kind) (cs : list cell) : cM mem ptr := λ m,
  Done (At (next_block m) 0)
    (mk_mem (<[next_block m := mk_block k true cs]> (blocks m)) (Pos.succ (next_block m)) (grants m)).

Definition malloc (n : nat) : cM mem ptr := λ m,
  match grants m with
  | false :: gs => Done Null (mk_mem (blocks m) (next_block m) gs)
  | _ => alloc Heap (replicate n Unset) (mk_mem (blocks m) (next_block m) (tail (grants m)))
  end.

(** [free]: nothing for NULL; undefined for what malloc has not returned, or twice. *)
Definition free (p : ptr) : cM mem unit :=
  match p with
  | Null => mret tt
  | Junk => undef Uninitialised
  | At b off =>
      m ← get;
      match blocks m !! b with
      | None => undef InvalidFree
      | Some x =>
          match block_kind x with
          | Heap =>
              check (off =? 0) InvalidFree;;
              check (live x) DoubleFree;;
              put (mk_mem (<[b := mk_block Heap false (cells x)]> (blocks m)) (next_block m) (grants m))
          | _ => undef InvalidFree
          end
      end
  end.

(** The live block of a pointer, with the offset. *)
Definition deref (p : ptr) : cM mem (positive * block * nat) :=
  match p with
  | Null => undef NullDeref
  | Junk => undef Uninitialised
  | At b off =>
      m ← get;
      match blocks m !! b with
      | None => undef UseAfterFree
      | Some x => check (live x) UseAfterFree;; check (0 <=? off) OutOfBounds;; mret (b, x, Z.to_nat off)
      end
  end.

Definition store (p : ptr) (cs : list cell) : cM mem unit :=
  '(b, x, i) ← deref p;
  check (i + length cs <=? length (cells x))%nat OutOfBounds;;
  modify (λ m, mk_mem (<[b := mk_block (block_kind x) (live x) (splice i cs (cells x))]> (blocks m)) (next_block m) (grants m)).

Definition load (p : ptr) (n : nat) : cM mem (list cell) :=
  '(b, x, i) ← deref p;
  check (i + n <=? length (cells x))%nat OutOfBounds;;
  mret (slice i n (cells x)).

(** An [int], and a pointer, in memory. *)
Definition int_cells (z : Z) : list cell := Byte <$> int_bytes z.
Definition byte_of (c : cell) : option byte := match c with Byte x => Some x | _ => None end.

Definition load_int (p : ptr) : cM mem Z :=
  cs ← load p 4;
  match mapM byte_of cs with
  | Some bs => mret (bytes_int bs)
  | None => undef Uninitialised
  end.

Definition load_ptr (p : ptr) : cM mem ptr :=
  cs ← load p 1;
  match cs with
  | [Pointer q] => mret q
  | _ => undef Uninitialised
  end.

Definition add (p : ptr) (n : Z) : ptr := match p with At b off => At b (off + n) | _ => p end.

Definition mem0 (gs : list bool) : mem := mk_mem ∅ 1 gs.

(** ** Pointers/free_pointer.c *)

Module FreePointer.

Definition free_pointer_correctly (p : ptr) : cM mem unit :=
  tmp_ptr ← load_ptr p;
  free tmp_ptr;;
  store p [Pointer Null].

(** Whether main reports that [ptr] is NULL. *)
Definition main : cM mem (Z * bool) :=
  value ← alloc Auto (int_cells 5);
  p ← alloc Auto [Pointer value];
  free_pointer_correctly p;;
  q ← load_ptr p;
  mret (0, match q with Null => true | _ => false end).

End FreePointer.

(** ** Pointers/copy_data_to_pointer_position.c *)

Module CopyData.

(** The local [buf_t]: what its four members hold. *)
Record buf_t := mk_buf { data : ptr; ptr_ : ptr; capacity : Z; size : Z }.

Definition EXIT_FAILURE : Z := 1.

(** The round of the loop for [i], and the rounds to come; the numbers that are printed. *)
Fixpoint copy (n : nat) (i : Z) (buf : buf_t) : cM mem (list Z) :=
  match n with
  | O => mret []
  | S n =>
      store (ptr_ buf) (int_cells i);;
      copied ← load_int (ptr_ buf);
      rest ← copy n (i + 1) (mk_buf (data buf) (add (ptr_ buf) 4) (capacity buf) (size buf));
      mret (copied :: rest)
  end.

(** [sizeof(buf_t)] is 24: the structure itself is a heap block whose bytes are not looked at. *)
Definition main : cM mem (Z * list Z) :=
  b ← malloc 24;
  match b with
  | Null => mret (EXIT_FAILURE, [])
  | _ =>
      d ← malloc (4 * 10);
      match d with
      | Null => mret (EXIT_FAILURE, [])
      | _ => out ← copy 10 0 (mk_buf d d (4 * 10) 0); mret (0, out)
      end
  end.

End CopyData.

(** ** Pointers/double_pointer_ops.c *)

Module DoublePointer.

Definition try_assign_double_pointer (single_ptr double_ptr : ptr) : cM mem unit :=
  store double_ptr [Pointer single_ptr].

(** The value that is printed, if any. *)
Definition main : cM mem (Z * option Z) :=
  value ← alloc Auto (int_cells 5);
  double_ptr ← malloc 1;
  try_assign_double_pointer value double_ptr;;
  p ← load_ptr double_ptr;
  out ← match p with Null => mret None | _ => v ← load_int p; mret (Some v) end;
  free double_ptr;;
  mret (0, out).

End DoublePointer.

(** ** Miscs/free.c *)

Module FreeStack.

Definition main : cM mem (Z * list Z) :=
  num ← alloc Auto (int_cells 8);
  lost ← malloc 4;
  let ptr := num in
  v ← load_int num;
  w ← load_int ptr;
  free ptr;;
  x ← load_int num;
  mret (0, [v; w; x]).

End FreeStack.

(** ** Miscs/func_arg_ptr.c *)

Module ArgPtr.

Definition bar (ptr foo_ : ptr) : cM mem unit :=
  store ptr (int_cells 3);;
  store foo_ (int_cells 5).

Definition main : cM mem (Z * list Z) :=
  foo_t ← malloc 4;
  store foo_t (int_cells 6);;
  num ← alloc Auto (int_cells 8);
  a ← load_int num; b ← load_int num; c ← load_int foo_t;
  bar num foo_t;;
  d ← load_int num; e ← load_int num; f ← load_int foo_t;
  mret (0, [a; b; c; d; e; f]).

End ArgPtr.

(** ** Miscs/array_ptr.c *)

Module ArrayPtr.

Definition a : list Z := [1; 2; 3; 4; 5].

(** [i[a]] is [*(i + a)]; the addresses that are printed besides are left out. *)
Fixpoint print (n : nat) (i : Z) (p : ptr) : cM mem (list Z) :=
  match n with
  | O => mret []
  | S n => v ← load_int (add p (4 * i)); rest ← print n (i + 1) p; mret (v :: rest)
  end.

Definition main : cM mem (Z * list Z) :=
  p ← alloc Auto (mjoin (int_cells <$> a));
  out ← print 5 0 p;
  c ← malloc (4 * 10);
  mret (0, out).

End ArrayPtr.

(** ** Miscs/size_t_op.c: the three numbers. *)

Module SizeT.

Definition main : Z * list Z := (0, [to_size (-1); to_size (10 - 100)]).

End SizeT.

(** ** GDB/bug.c *)

Module Bug.

(** [gets(string)] into a pointer that was never set. *)
Definition main (line : list byte) : cM mem (Z * list cell) :=
  let string := Junk in
  store string ((Byte <$> line) ++ [Byte Byte.x00]);;
  out ← load string (length line);
  mret (0, out).

End Bug.

(** ** Valgrind/oob_test.c *)

Module PastEnd.

Definition len : Z := 5.

(** [for (i = 0; i < len; i++) p++;] *)
Fixpoint advance (n : nat) (p : ptr) : ptr := match n with O => p | S n => advance n (add p 4) end.

Definition main : cM mem (Z * Z) :=
  ptr ← malloc (Z.to_nat (4 * len));
  let p := advance (Z.to_nat len) ptr in
  store p (int_cells 5);;
  v ← load_int p;
  mret (0, v).

End PastEnd.

(** ** Valgrind/no_init_test.c *)

Module NoInit.

(** Whether "x is zero" is printed. *)
Definition main : cM mem (Z * bool) :=
  x ← alloc Auto (replicate 4 Unset);
  v ← load_int x;
  mret (0, v =? 0).

End NoInit.

(** ** What the examples do *)

Section free_pointer.
Context (m : mem) (pb b : positive) (k : kind) (y : block).

(** [p] is a variable that holds a pointer to the start of block [b]. *)
Hypothesis Hx : blocks m !! pb = Some (mk_block k true [Pointer (At b 0)]).
Hypothesis Hy : blocks m !! b = Some y.
Hypothesis Hpb : pb ≠ b.

Let p := At pb 0.

Lemma load_var : load_ptr p m = Done (At b 0) m.
Proof.
  unfold load_ptr, load, deref, p. unfold mbind, cM_bind, get, check, mret, cM_ret. by rewrite Hx.
Qed.

(** The memory after the call. *)
Definition freed : mem :=
  mk_mem (<[pb := mk_block k true [Pointer Null]]> (<[b := mk_block Heap false (cells y)]> (blocks m)))
    (next_block m) (grants m).

Lemma free_heap :
  block_kind y = Heap → live y = true → FreePointer.free_pointer_correctly p m = Done tt freed.
Proof.
  intros Hk Hl. unfold FreePointer.free_pointer_correctly. cstep load_var.
  assert (Hfree : free (At b 0) m =
    Done tt (mk_mem (<[b := mk_block Heap false (cells y)]> (blocks m)) (next_block m) (grants m))).
  { unfold free, mbind, cM_bind, get, check, put, mret, cM_ret. by rewrite Hy, Hk, Hl. }
  cstep Hfree. unfold store, deref, p, mbind, cM_bind, get, check, modify, mret, cM_ret. cbn [blocks].
  rewrite lookup_insert_ne by done. by rewrite Hx.
Qed.

Lemma free_other :
  block_kind y ≠ Heap → FreePointer.free_pointer_correctly p m = Undef InvalidFree.
Proof.
  intros Hk. unfold FreePointer.free_pointer_correctly. cstep load_var. apply bind_undef.
  unfold free, mbind, cM_bind, get. rewrite Hy. by destruct (block_kind y).
Qed.

Lemma load_freed : load_ptr p freed = Done Null freed.
Proof.
  unfold load_ptr, load, deref, p, mbind, cM_bind, get, check, mret, cM_ret. unfold freed at 1. cbn [blocks].
  by rewrite lookup_insert_eq.
Qed.

Lemma store_null : store p [Pointer Null] freed = Done tt freed.
Proof.
  unfold store, deref, p, mbind, cM_bind, get, check, modify, mret, cM_ret. unfold freed at 1. cbn [blocks].
  rewrite lookup_insert_eq. cbn. unfold freed. change (Z.to_nat 0) with 0%nat. cbn. by rewrite insert_insert_eq.
Qed.

Lemma freed_again : FreePointer.free_pointer_correctly p freed = Done tt freed.
Proof.
  unfold FreePointer.free_pointer_correctly. cstep load_freed.
  rewrite (bind_done (free Null) _ _ tt freed) by done. apply store_null.
Qed.

Lemma freed_alias n : load (At b 0) n freed = Undef UseAfterFree.
Proof.
  unfold load, deref, mbind, cM_bind, get, check, undef, freed. cbn [blocks].
  rewrite lookup_insert_ne by done. by rewrite lookup_insert_eq.
Qed.

End free_pointer.

(** free_pointer_correctly on a variable that points to a heap block frees the block and
    sets the variable to NULL, so that calling it again has no effect, while another copy of the
    pointer dangles; on a variable that points to anything else, as main does with the address of
    a local, its call of free is undefined. *)
Theorem free_pointer_correctly_spec m pb b k y :
  blocks m !! pb = Some (mk_block k true [Pointer (At b 0)]) → blocks m !! b = Some y → live y = true → pb ≠ b →
  if decide (block_kind y = Heap)
  then ∃ m', FreePointer.free_pointer_correctly (At pb 0) m = Done tt m' ∧
    load_ptr (At pb 0) m' = Done Null m' ∧ FreePointer.free_pointer_correctly (At pb 0) m' = Done tt m' ∧
    ∀ n, load (At b 0) n m' = Undef UseAfterFree
  else FreePointer.free_pointer_correctly (At pb 0) m = Undef InvalidFree.
Proof.
  intros Hx Hy Hyl Hne. case_decide as Hk; [|by eapply free_other].
  exists (freed m pb b k y). split_and!.
  - by apply free_heap.
  - apply load_freed.
  - by apply freed_again.
  - intros n. by apply freed_alias.
Qed.

Definition heap_var : mem :=
  mk_mem {[1%positive := mk_block Auto true [Pointer (At 2 0)]; 2%positive := mk_block Heap true [Unset]]} 3 [].

Lemma free_pointer_correctly_spec_witness :
  ∃ m', FreePointer.free_pointer_correctly (At 1 0) heap_var = Done tt m' ∧
    load_ptr (At 1 0) m' = Done Null m' ∧ FreePointer.free_pointer_correctly (At 1 0) m' = Done tt m' ∧
    ∀ n, load (At 2 0) n m' = Undef UseAfterFree.
Proof.
  refine (free_pointer_correctly_spec heap_var 1 2 Auto (mk_block Heap true [Unset]) _ _ _ _);
    try reflexivity. discriminate.
Defined.

(** The programs, for every sequence of answers of malloc. *)
Lemma free_pointer_main gs : FreePointer.main (mem0 gs) = Undef InvalidFree.
Proof. reflexivity. Qed.

Lemma free_stack_main gs : FreeStack.main (mem0 gs) = Undef InvalidFree.
Proof. by destruct gs as [|[] gs]. Qed.

Lemma bug_main line gs : Bug.main line (mem0 gs) = Undef Uninitialised.
Proof. reflexivity. Qed.

Lemma double_pointer_main gs :
  (∃ m, DoublePointer.main (mem0 gs) = Done (0, Some 5) m) ∨ head gs = Some false ∧ DoublePointer.main (mem0 gs) = Undef NullDeref.
Proof. destruct gs as [|[] gs]; [left; by eexists|left; by eexists|by right]. Qed.

Lemma arg_ptr_main gs :
  (∃ m, ArgPtr.main (mem0 gs) = Done (0, [8; 8; 6; 3; 3; 5]) m) ∨ head gs = Some false ∧ ArgPtr.main (mem0 gs) = Undef NullDeref.
Proof. destruct gs as [|[] gs]; [left; by eexists|left; by eexists|by right]. Qed.

Lemma array_ptr_main gs : ∃ m, ArrayPtr.main (mem0 gs) = Done (0, ArrayPtr.a) m.
Proof. destruct gs as [|[] gs]; by eexists. Qed.

Lemma size_t_main : SizeT.main = (0, [SIZE_MAX; SIZE_MAX - 89]).
Proof. by vm_compute. Qed.

(** The ten integers are in the buffer one after the other; without memory main gives up, and
    the first block is never freed. *)
Lemma copy_data_main gs :
  CopyData.main (mem0 gs) =
    match gs with
    | false :: gs => Done (1, []) (mem0 gs)
    | true :: false :: gs => Done (1, []) (mk_mem {[1%positive := mk_block Heap true (replicate 24 Unset)]} 2 gs)
    | _ => Done (0, seqZ 0 10)
        (mk_mem {[2%positive := mk_block Heap true (mjoin (int_cells <$> seqZ 0 10)); 1%positive := mk_block Heap true (replicate 24 Unset)]}
          3 (drop 2 gs))
    end.
Proof. destruct gs as [|[] [|[] gs]]; reflexivity. Qed.

(** The deliberate errors: a store one element behind the block, or through the null pointer
    when malloc fails, and a test of a variable that was never set. *)
Lemma valgrind_mains gs :
  PastEnd.main (mem0 gs) = Undef (match gs with false :: _ => NullDeref | _ => OutOfBounds end) ∧
  NoInit.main (mem0 gs) = Undef Uninitialised.
Proof. split; [by destruct gs as [|[] gs]|reflexivity]. Qed.
