(* ===== verification/Daemon.v ===== *)
(** * The daemon: Linux/Daemon/simple_daemon.c

    main up to its end, with the answers of fork, setsid and chdir and the signals as inputs; the
    handler runs between any two statements once it is installed. *)

From stdpp Require Import strings.
From S2P Require Import Prelude CInt Posix.

Open Scope Z_scope.

Definition SIGINT : Z := 2.
Definition SIGSEGV : Z := 11.
Definition SIGTERM : Z := 15.

(** What is sent to the system log. *)
Inductive message := Sending | Receiving_SIGINT | Started | Running | Terminated.

#[export] Instance message_eq_dec : EqDecision message.
Proof. solve_decision. Defined.

(** [caught]: the signals that have the handler; it runs with all of them blocked. *)
Record daemon := mk_daemon {
  caught : list Z;
  keep_alive : Z;
  log : list message;
  sys : os;
}.

Definition syslog (m : message) : cM daemon unit := modify (λ s, mk_daemon (caught s) (keep_alive s) (log s ++ [m]) (sys s)).

Definition on_os {A} (m : cM os A) : cM daemon A := λ s,
  match m (sys s) with
  | Done a o => Done a (mk_daemon (caught s) (keep_alive s) (log s) o)
  | Undef u => Undef u
  | Exited c o => Exited c (mk_daemon (caught s) (keep_alive s) (log s) o)
  | NoFuel => NoFuel
  end.

(** The cases of the switch fall through to the last one. *)
Definition signal_handler (sig : Z) : cM daemon unit :=
  syslog Sending;;
  (if sig =? SIGINT then syslog Receiving_SIGINT else mret tt);;
  modify (λ s, mk_daemon (caught s) 0 (log s) (sys s)).

Definition catch_signal : cM daemon unit :=
  modify (λ s, mk_daemon [SIGINT; SIGSEGV; SIGTERM] (keep_alive s) (log s) (sys s)).

(** The signals that arrive at a point, one after the other; one without the handler ends the
    process. *)
Fixpoint arrive (sigs : list Z) : cM daemon unit :=
  match sigs with
  | [] => mret tt
  | sig :: sigs =>
      s ← get;
      (if decide (sig ∈ caught s) then signal_handler sig else exit (128 + sig));;
      arrive sigs
  end.

(** The descriptors are opened with 0, 1 and 2 for flags. *)
Definition redirect : cM daemon unit :=
  on_os (open "/dev/null" 0 0);; on_os (open "/dev/null" 1 0);; on_os (open "/dev/null" 2 0);; mret tt.

(** [while (keep_alive) { ...; break; }]: [sig 5] arrives during the sleep. *)
Definition big_loop (sig : nat → list Z) : cM daemon unit :=
  s ← get;
  if keep_alive s =? 0 then mret tt
  else syslog Running;; arrive (sig 5%nat).

(** [pid], [sid], [dir]: the answers of fork, setsid and chdir; [sig i]: the signals that arrive
    at the [i]th point after catch_signal. *)
Definition main (pid sid dir : Z) (sig : nat → list Z) : cM daemon Z :=
  if pid <? 0 then exit 1
  else if 0 <? pid then exit 0
  else
    on_os (modify (set_umask 0));;
    catch_signal;;
    arrive (sig 0%nat);;
    if sid <? 0 then exit 1
    else
      arrive (sig 1%nat);;
      if dir <? 0 then exit 1
      else
        arrive (sig 2%nat);;
        redirect;;
        arrive (sig 3%nat);;
        syslog Started;;
        arrive (sig 4%nat);;
        big_loop sig;;
        arrive (sig 6%nat);;
        syslog Terminated;;
        mret 0.

Definition daemon0 (um : Z) (fs : gmap string file) (a : nat → answer) : daemon := mk_daemon [] 1 [] (os0 um fs a).

(** ** What it does *)

(** What the handler logs. *)
Definition logged (sigs : list Z) : list message :=
  sigs ≫= λ sig, if sig =? SIGINT then [Sending; Receiving_SIGINT] else [Sending].

Definition alive_after (k : Z) (sigs : list Z) : Z := match sigs with [] => k | _ => 0 end.

Lemma arrive_done sigs c k l o :
  Forall (λ sig, sig ∈ c) sigs →
  arrive sigs (mk_daemon c k l o) = Done tt (mk_daemon c (alive_after k sigs) (l ++ logged sigs) o).
Proof.
  revert k l. induction sigs as [|sig sigs IH]; intros k l Hc; [cbn; by rewrite app_nil_r|].
  apply Forall_cons in Hc as [Hs Hc].
  assert (Hh : signal_handler sig (mk_daemon c k l o) = Done tt (mk_daemon c 0 (l ++ logged [sig]) o)).
  { unfold signal_handler, syslog, modify, mbind, cM_bind, mret, cM_ret, logged. cbn.
    destruct (sig =? SIGINT); cbn; by rewrite <- ?app_assoc. }
  cbn [arrive]. rewrite bind_get. cbn [caught]. rewrite decide_True by done. cstep Hh.
  rewrite IH, <- app_assoc by done. unfold logged. cbn. rewrite app_nil_r. by destruct sigs.
Qed.

(** The descriptors after the three calls of open: the standard ones are what they were. *)
Definition after_open (fs : gmap string file) (a : nat → answer) : os :=
  mk_os fs [tty; mk_description "/dev/null" 0 true false; mk_description "/dev/null" 0 false true;
            mk_description "/dev/null" 0 true true] [Some 0; Some 0; Some 0; Some 1; Some 2; Some 3]%nat a 3 0.

Lemma open_null fs a f fl ds l n um :
  fs !! "/dev/null"%string = Some f → a n ≠ A_fail → permitted fl f = true →
  flag fl O_CREAT = false → flag fl O_TRUNC = false → (∀ x, x ∈ l → x ≠ None) →
  open "/dev/null" fl 0 (mk_os fs ds l a n um) =
    Done (Z.of_nat (length l))
      (mk_os fs (ds ++ [mk_description "/dev/null" 0 (wants_read fl) (wants_write fl)]) (l ++ [Some (length ds)]) a (S n) um).
Proof.
  intros Hf Ha Hp Hc Ht Hl. unfold open, next_answer, get, put, mbind, cM_bind, mret, cM_ret. cbn [answers calls files].
  rewrite Hf, Hc, Ht, Hp. unfold new_fd, get, put, mbind, cM_bind, mret, cM_ret. cbn [fds set_fds set_descriptions].
  rewrite lowest_free_used, Nat.max_0_r by done. rewrite set_fd_end. by destruct (a n).
Qed.

Lemma redirect_done fs a f c k l :
  fs !! "/dev/null"%string = Some f → flag (mode f) 256 = true → flag (mode f) 128 = true →
  (∀ i, a i ≠ A_fail) →
  redirect (mk_daemon c k l (os0 0 fs a)) = Done tt (mk_daemon c k l (after_open fs a)).
Proof.
  intros Hf Hr Hw Ha. assert (Hp : ∀ fl, permitted fl f = true) by (intros fl; unfold permitted; by rewrite Hr, Hw, !orb_true_r).
  unfold redirect, on_os, mbind, cM_bind, os0. cbn [sys].
  rewrite (open_null fs a f) by (first [done|intros x Hx ->; set_solver]). cbn [sys keep_alive log app length].
  rewrite (open_null fs a f) by (first [done|intros x Hx ->; set_solver]). cbn [sys keep_alive log app length].
  rewrite (open_null fs a f) by (first [done|intros x Hx ->; set_solver]). reflexivity.
Qed.

(** The daemon: the child, once in its session and in the root directory, logs that it
    started, runs its loop once, unless a signal has arrived before the test, and logs that it
    terminated, whatever signals of those it catches arrive and when; and its standard input, output and error are
    not redirected: /dev/null is opened three times, on new descriptors. *)
Theorem daemon_runs_once um fs a f sid dir sig :
  fs !! "/dev/null"%string = Some f → flag (mode f) 256 = true → flag (mode f) 128 = true →
  (∀ i, a i ≠ A_fail) → 0 <= sid → 0 <= dir →
  (∀ i, Forall (λ s, s ∈ [SIGINT; SIGSEGV; SIGTERM]) (sig i)) →
  let early := sig 0%nat ++ sig 1%nat ++ sig 2%nat ++ sig 3%nat ++ sig 4%nat in
  ∃ k, main 0 sid dir sig (daemon0 um fs a) =
    Done 0 (mk_daemon [SIGINT; SIGSEGV; SIGTERM] k
      (logged (sig 0%nat ++ sig 1%nat ++ sig 2%nat ++ sig 3%nat) ++ [Started] ++ logged (sig 4%nat) ++
       (match early with [] => Running :: logged (sig 5%nat) | _ => [] end) ++ logged (sig 6%nat) ++ [Terminated])
      (after_open fs a)).
Proof.
  intros Hf Hr Hw Ha Hs Hd Hsig early. unfold main, daemon0. change (0 <? 0) with false. cbn iota.
  rewrite (bind_done (on_os (modify (set_umask 0))) _ (mk_daemon [] 1 [] (os0 um fs a)) tt (mk_daemon [] 1 [] (os0 0 fs a)) eq_refl).
  rewrite (bind_done catch_signal _ _ _ _ eq_refl). cbn [caught keep_alive log sys].
  rewrite (bind_done _ _ _ _ _ (arrive_done _ _ _ _ _ (Hsig _))). destruct (Z.ltb_spec sid 0); [lia|].
  rewrite (bind_done _ _ _ _ _ (arrive_done _ _ _ _ _ (Hsig _))). destruct (Z.ltb_spec dir 0); [lia|].
  rewrite (bind_done _ _ _ _ _ (arrive_done _ _ _ _ _ (Hsig _))).
  rewrite (bind_done _ _ _ _ _ (redirect_done fs a f _ _ _ Hf Hr Hw Ha)).
  rewrite (bind_done _ _ _ _ _ (arrive_done _ _ _ _ _ (Hsig _))).
  rewrite (bind_done (syslog Started) _ _ _ _ eq_refl). cbn [caught keep_alive log sys].
  rewrite (bind_done _ _ _ _ _ (arrive_done _ _ _ _ _ (Hsig _))).
  set (k := alive_after _ (sig 4%nat)). set (l := _ ++ logged (sig 4%nat)).
  assert (Hloop : big_loop sig (mk_daemon [SIGINT; SIGSEGV; SIGTERM] k l (after_open fs a)) =
    Done tt (mk_daemon [SIGINT; SIGSEGV; SIGTERM] (match early with [] => alive_after k (sig 5%nat) | _ => k end)
      (l ++ match early with [] => Running :: logged (sig 5%nat) | _ => [] end) (after_open fs a))).
  { unfold big_loop. rewrite bind_get. cbn [keep_alive]. unfold early, k.
    destruct (sig 0%nat), (sig 1%nat), (sig 2%nat), (sig 3%nat), (sig 4%nat); cbn [alive_after app];
      try (change (0 =? 0) with true; cbn iota; by rewrite app_nil_r).
    change (1 =? 0) with false. cbn iota. rewrite (bind_done (syslog Running) _ _ _ _ eq_refl). cbn [caught keep_alive log sys].
    by rewrite arrive_done, <- app_assoc by apply Hsig. }
  cstep Hloop. rewrite (bind_done _ _ _ _ _ (arrive_done _ _ _ _ _ (Hsig _))).
  rewrite (bind_done (syslog Terminated) _ _ _ _ eq_refl). cbn [caught keep_alive log sys].
  eexists. unfold l, mret, cM_ret, logged. rewrite !bind_app, <- !app_assoc. reflexivity.
Qed.

Definition null_file : gmap string file := {["/dev/null"%string := mk_file 438 []]}.

(** A SIGTERM while the daemon sleeps. *)
Lemma daemon_runs_once_witness :
  ∃ k, main 0 7 0 (λ i, if (i =? 5)%nat then [SIGTERM] else []) (daemon0 18 null_file (λ _, A_full)) =
    Done 0 (mk_daemon [SIGINT; SIGSEGV; SIGTERM] k [Started; Running; Sending; Terminated] (after_open null_file (λ _, A_full))).
Proof.
  refine (daemon_runs_once 18 null_file (λ _, A_full) (mk_file 438 []) 7 0 (λ i, if (i =? 5)%nat then [SIGTERM] else []) _ _ _ _ _ _ _);
    try reflexivity; try done. intros i. destruct (i =? 5)%nat; [|constructor]. apply Forall_singleton. set_solver.
Defined.
