(* ===== verification/Greetings.v ===== *)
(** * Greetings: Linux/Socket/tcp_server.c with tcp_client.c, and Miscs/hello_pthread.c

    Two small concurrent programs of which all states are checked: the server and the client as
    two processes over one TCP connection, and main with its two threads. *)

From S2P Require Import Prelude CInt TransSys Explore.

Inductive answer := Granted | Fails.

#[export] Instance answer_dec : EqDecision answer.
Proof. solve_decision. Defined.

(** ** The two processes *)

Module Tcp.

Inductive text := Hello_from_server | Hello_from_client | Hello_message_sent | Empty.

Inductive server_pc :=
  | V_socket | V_setsockopt | V_bind | V_listen | V_accept | V_read | V_print | V_send | V_sent | V_exit (code : Z).

Inductive client_pc :=
  | K_socket | K_inet_pton | K_connect | K_send | K_sent | K_read | K_print | K_exit (code : Z).

#[export] Instance text_dec : EqDecision text.
Proof. solve_decision. Defined.
#[export] Instance server_pc_dec : EqDecision server_pc.
Proof. solve_decision. Defined.
#[export] Instance client_pc_dec : EqDecision client_pc.
Proof. solve_decision. Defined.

(** [server_fd]: the answer of the server's socket() is a descriptor; [buffer]s as strings;
    [to_server] and [to_client]: what is on its way; what each process has printed. *)
Record state := mk_state {
  server_at : server_pc;
  client_at : client_pc;
  server_fd : bool;
  listening : bool;
  connected : bool;
  server_buffer : text;
  client_buffer : text;
  to_server : text;
  to_client : text;
  server_out : list text;
  client_out : list text;
}.

#[export] Instance state_dec : EqDecision state.
Proof. solve_decision. Defined.

Definition go_server p s := mk_state p (client_at s) (server_fd s) (listening s) (connected s) (server_buffer s)
  (client_buffer s) (to_server s) (to_client s) (server_out s) (client_out s).
Definition go_client p s := mk_state (server_at s) p (server_fd s) (listening s) (connected s) (server_buffer s)
  (client_buffer s) (to_server s) (to_client s) (server_out s) (client_out s).
Definition set_server_fd b s := mk_state (server_at s) (client_at s) b (listening s) (connected s) (server_buffer s)
  (client_buffer s) (to_server s) (to_client s) (server_out s) (client_out s).
Definition set_listening s := mk_state (server_at s) (client_at s) (server_fd s) true (connected s) (server_buffer s)
  (client_buffer s) (to_server s) (to_client s) (server_out s) (client_out s).
Definition server_exits code s := mk_state (V_exit code) (client_at s) (server_fd s) false (connected s) (server_buffer s)
  (client_buffer s) (to_server s) (to_client s) (server_out s) (client_out s).
Definition set_connected s := mk_state (server_at s) (client_at s) (server_fd s) (listening s) true (server_buffer s)
  (client_buffer s) (to_server s) (to_client s) (server_out s) (client_out s).
Definition server_reads s := mk_state (server_at s) (client_at s) (server_fd s) (listening s) (connected s) (to_server s)
  (client_buffer s) Empty (to_client s) (server_out s) (client_out s).
Definition client_reads s := mk_state (server_at s) (client_at s) (server_fd s) (listening s) (connected s)
  (server_buffer s) (to_client s) (to_server s) Empty (server_out s) (client_out s).
Definition server_sends m s := mk_state (server_at s) (client_at s) (server_fd s) (listening s) (connected s)
  (server_buffer s) (client_buffer s) (to_server s) m (server_out s) (client_out s).
Definition client_sends m s := mk_state (server_at s) (client_at s) (server_fd s) (listening s) (connected s)
  (server_buffer s) (client_buffer s) m (to_client s) (server_out s) (client_out s).
Definition server_prints m s := mk_state (server_at s) (client_at s) (server_fd s) (listening s) (connected s)
  (server_buffer s) (client_buffer s) (to_server s) (to_client s) (server_out s ++ [m]) (client_out s).
Definition client_prints m s := mk_state (server_at s) (client_at s) (server_fd s) (listening s) (connected s)
  (server_buffer s) (client_buffer s) (to_server s) (to_client s) (server_out s) (client_out s ++ [m]).

(** A failing socket() answers -1, which the server compares with 0; its later calls on that
    descriptor fail.  The greetings are shorter than the buffers, which start as zeros: what a
    read brings is a string.  A read blocks until there are data or the peer is gone.  With the
    server its listening socket is gone.  Each process sends once: a peer that is gone makes this send
    fail or its bytes be lost, and SIGPIPE needs a second one. *)
Definition tcp_server (a : answer) (s : state) : sres state :=
  let ok := bool_decide (a = Granted) && server_fd s in
  match server_at s with
  | V_socket => Next (go_server V_setsockopt (set_server_fd (bool_decide (a = Granted)) s))
  | V_setsockopt => Next (if ok then go_server V_bind s else server_exits 1 s)
  | V_bind => Next (if ok then go_server V_listen s else server_exits 1 s)
  | V_listen => Next (if ok then go_server V_accept (set_listening s) else server_exits 1 s)
  | V_accept =>
      if ok then (if connected s then Next (go_server V_read s) else Blocked) else Next (server_exits 1 s)
  | V_read =>
      if ok then
        match to_server s, client_at s with
        | Empty, K_exit _ => Next (go_server V_print s)
        | Empty, _ => Blocked
        | _, _ => Next (go_server V_print (server_reads s))
        end
      else Next (go_server V_print s)
  | V_print => Next (go_server V_send (server_prints (server_buffer s) s))
  | V_send => Next (go_server V_sent (if ok then server_sends Hello_from_server s else s))
  | V_sent => Next (server_exits 0 (server_prints Hello_message_sent s))
  | V_exit _ => Blocked
  end.

Definition tcp_client (a : answer) (s : state) : sres state :=
  let ok := bool_decide (a = Granted) in
  match client_at s with
  | K_socket => Next (go_client (if ok then K_inet_pton else K_exit (-1)) s)
  | K_inet_pton => Next (go_client K_connect s)
  | K_connect => Next (if ok && listening s then go_client K_send (set_connected s) else go_client (K_exit (-1)) s)
  | K_send => Next (go_client K_sent (if ok then client_sends Hello_from_client s else s))
  | K_sent => Next (go_client K_read (client_prints Hello_message_sent s))
  | K_read =>
      if ok then
        match to_client s, server_at s with
        | Empty, V_exit _ => Next (go_client K_print s)
        | Empty, _ => Blocked
        | _, _ => Next (go_client K_print (client_reads s))
        end
      else Next (go_client K_print s)
  | K_print => Next (go_client (K_exit 0) (client_prints (client_buffer s) s))
  | K_exit _ => Blocked
  end.

Inductive process := Server | Client.

Definition step (l : process * answer) (s : state) : sres state :=
  match l.1 with Server => tcp_server l.2 s | Client => tcp_client l.2 s end.

Definition state0 : state := mk_state V_socket K_socket false false false Empty Empty Empty Empty [] [].

Definition tcp_reachable : state → Prop := reachable (λ s, s = state0) step.

Definition labels : list (process * answer) := [(Server, Granted); (Server, Fails); (Client, Granted); (Client, Fails)].

Lemma tcp_labels l s s' : step l s = Next s' → l ∈ labels.
Proof. intros _. destruct l as [[] []]; set_solver. Qed.

Definition states : list state := closure step labels 60 [state0] [state0].

(** Each process moves on at each step. *)
Definition server_left (p : server_pc) : nat :=
  match p with
  | V_socket => 9 | V_setsockopt => 8 | V_bind => 7 | V_listen => 6 | V_accept => 5 | V_read => 4 | V_print => 3
  | V_send => 2 | V_sent => 1 | V_exit _ => 0
  end.
Definition client_left (p : client_pc) : nat :=
  match p with
  | K_socket => 7 | K_inet_pton => 6 | K_connect => 5 | K_send => 4 | K_sent => 3 | K_read => 2 | K_print => 1
  | K_exit _ => 0
  end.
Definition potential (s : state) : nat := server_left (server_at s) + client_left (client_at s).

(** The exchange is complete; the connection was refused and the server waits for another. *)
Definition complete (s : state) : Prop :=
  server_at s = V_exit 0 ∧ client_at s = K_exit 0 ∧
  server_out s = [Hello_from_client; Hello_message_sent] ∧ client_out s = [Hello_message_sent; Hello_from_server].
Definition refused (s : state) : Prop :=
  server_at s = V_accept ∧ client_at s = K_exit (-1) ∧ connected s = false.

#[export] Instance complete_dec s : Decision (complete s).
Proof. unfold complete. apply _. Defined.
#[export] Instance refused_dec s : Decision (refused s).
Proof. unfold refused. apply _. Defined.

Definition granted_step (p : process) (s : state) : sres state := step (p, Granted) s.

Definition granted_labels : list process := [Server; Client].

Lemma granted_all p s s' : granted_step p s = Next s' → p ∈ granted_labels.
Proof. intros _. destruct p; set_solver. Qed.

Definition can_move (s : state) : bool :=
  existsb (λ p, match granted_step p s with Next _ => true | _ => false end) granted_labels.

Definition good (s : state) : bool :=
  forallb (λ l, match step l s with
    | Next s' => (potential s' <? potential s)%nat
    | Blocked => true
    | Wrong _ => false
    end) labels.

Lemma tcp_good s : tcp_reachable s → good s = true.
Proof. apply (all_states step labels tcp_labels states). by vm_compute. Qed.

(** Without failing calls. *)
Definition granted_good (s : state) : bool :=
  can_move s || bool_decide (complete s) || bool_decide (refused s).

Lemma tcp_granted_good s : reachable (λ s, s = state0) granted_step s → granted_good s = true.
Proof. apply (all_states granted_step granted_labels granted_all (closure granted_step granted_labels 60 [state0] [state0])). by vm_compute. Qed.

(** C36: the server and the client: whatever calls fail, every run has at most 16 steps and
    nothing undefined; without failing calls a run stops only when each process has printed the
    other's greeting and returned 0, or with the server in accept and the client gone, because
    it tried to connect before the server listened; so once the connection is established the
    exchange is completed. *)
Theorem tcp_exchange :
  (∀ ls s, run step ls state0 = Next s → (length ls <= 16)%nat ∧ ∀ l u, step l s ≠ Wrong u) ∧
  (∀ ls s, run granted_step ls state0 = Next s → (∀ p s', granted_step p s ≠ Next s') →
   complete s ∨ refused s) ∧
  (∀ ls s, run granted_step ls state0 = Next s → (∀ p s', granted_step p s ≠ Next s') → connected s = true → complete s).
Proof.
  assert (Hstop : ∀ ls s, run granted_step ls state0 = Next s → (∀ p s', granted_step p s ≠ Next s') →
    complete s ∨ refused s).
  { intros ls s Hrun Hst. assert (Hr : reachable (λ s, s = state0) granted_step s).
    { eapply run_reachable; [by apply reachable_init|exact Hrun]. }
    pose proof (tcp_granted_good s Hr) as Hg. unfold granted_good in Hg.
    apply orb_true_iff in Hg as [Hg|Hg%bool_decide_eq_true]; [|by right].
    apply orb_true_iff in Hg as [Hg|Hg%bool_decide_eq_true]; [|by left]. exfalso.
    apply existsb_exists in Hg as (p & _ & Hp). destruct (granted_step p s) as [s'| |] eqn:Hs; [|done..].
    by apply (Hst p s'). }
  split_and!; [|done|].
  - intros ls s Hrun. assert (H0 : tcp_reachable state0) by by apply reachable_init.
    assert (Hstep : ∀ l s s', tcp_reachable s → step l s = Next s' → tcp_reachable s' ∧ (potential s' < potential s)%nat).
    { intros l s1 s2 Hr Hs. split; [by eapply reachable_step|]. pose proof (tcp_good s1 Hr) as Hg.
      unfold good in Hg. rewrite forallb_forall in Hg. specialize (Hg l ltac:(apply list_elem_of_In; by eapply tcp_labels)).
      rewrite Hs in Hg. by apply Nat.ltb_lt. }
    pose proof (measure_bounds step tcp_reachable potential Hstep ls state0 s H0 Hrun) as Hm.
    change (potential state0) with 16%nat in Hm. split; [lia|]. intros l u Hs.
    assert (Hr : tcp_reachable s) by by eapply run_reachable.
    pose proof (tcp_good s Hr) as Hg. unfold good in Hg. rewrite forallb_forall in Hg.
    specialize (Hg l ltac:(destruct l as [[] []]; cbn; auto)). by rewrite Hs in Hg.
  - intros ls s Hrun Hst Hc. destruct (Hstop ls s Hrun Hst) as [?|(_ & _ & Hn)]; [done|congruence].
Qed.

(** The client starts when the server listens. *)
Definition schedule : list process :=
  replicate 4 Server ++ replicate 5 Client ++ replicate 5 Server ++ replicate 2 Client.
Definition final : state := match run granted_step schedule state0 with Next s => s | _ => state0 end.

Lemma tcp_exchange_witness : connected final = true ∧ complete final.
Proof.
  split; [vm_compute; reflexivity|].
  refine (proj2 (proj2 tcp_exchange) schedule final _ _ _);
    [vm_compute; reflexivity|intros [] s'; vm_compute; discriminate|vm_compute; reflexivity].
Defined.

End Tcp.

(** ** main and its two threads *)

Module Hello.

Inductive main_pc :=
  | M_create1 | M_create2 | M_join1 | M_join2 | M_print1 | M_print2 | M_end.
Inductive thread := T_none | T_print | T_end.

#[export] Instance main_pc_dec : EqDecision main_pc.
Proof. solve_decision. Defined.
#[export] Instance thread_dec : EqDecision thread.
Proof. solve_decision. Defined.

(** [iret2]: the second pthread_create succeeded; [out]: the threads that have printed. *)
Record state := mk_state {
  main_at : main_pc;
  thread1 : thread;
  thread2 : thread;
  out : list bool;
}.

#[export] Instance state_dec : EqDecision state.
Proof. solve_decision. Defined.

(** A thread that has printed its message: the first one is [true]. *)
Definition print_message_function (first : bool) (s : state) : sres state :=
  match (if first then thread1 s else thread2 s) with
  | T_print =>
      Next (mk_state (main_at s) (if first then T_end else thread1 s) (if first then thread2 s else T_end) (out s ++ [first]))
  | _ => Blocked
  end.

Definition join (t : thread) : sres unit :=
  match t with T_none => Wrong Uninitialised | T_print => Blocked | T_end => Next tt end.

(** After the second pthread_create it is the result of the first one that is tested again. *)
Definition main_step (a : answer) (s : state) : sres state :=
  match main_at s, a with
  | M_create1, Granted => Next (mk_state M_create2 T_print (thread2 s) (out s))
  | M_create1, Fails => Next (mk_state M_end T_none (thread2 s) (out s))
  | M_create2, Granted => Next (mk_state M_join1 (thread1 s) T_print (out s))
  | M_create2, Fails => Next (mk_state M_join1 (thread1 s) T_none (out s))
  | M_join1, _ => join (thread1 s);; Next (mk_state M_join2 (thread1 s) (thread2 s) (out s))
  | M_join2, _ => join (thread2 s);; Next (mk_state M_print1 (thread1 s) (thread2 s) (out s))
  | M_print1, _ => Next (mk_state M_print2 (thread1 s) (thread2 s) (out s))
  | M_print2, _ => Next (mk_state M_end (thread1 s) (thread2 s) (out s))
  | M_end, _ => Blocked
  end.

Inductive label := Main (a : answer) | Thread (first : bool).

Definition step (l : label) (s : state) : sres state :=
  if decide (main_at s = M_end) then Blocked
  else match l with Main a => main_step a s | Thread b => print_message_function b s end.

Definition state0 : state := mk_state M_create1 T_none T_none [].

Definition hello_reachable : state → Prop := reachable (λ s, s = state0) step.

Definition labels : list label := [Main Granted; Main Fails; Thread true; Thread false].

Lemma hello_labels l s s' : step l s = Next s' → l ∈ labels.
Proof. intros _. destruct l as [[]|[]]; set_solver. Qed.

(** When main ends after its joins both threads have printed once; the only undefined step is
    the second join, after the second creation has failed. *)
Definition good (s : state) : bool :=
  (negb (bool_decide (main_at s = M_end)) || bool_decide (out s = [true; false] ∨ out s = [false; true] ∨ thread1 s = T_none)) &&
  forallb (λ l, match step l s with
    | Wrong _ => bool_decide (main_at s = M_join2 ∧ thread2 s = T_none ∧ out s = [true])
    | _ => true
    end) labels.

Lemma hello_good s : hello_reachable s → good s = true.
Proof. apply (all_states step labels hello_labels (closure step labels 20 [state0] [state0])). by vm_compute. Qed.

Lemma second_failure_unseen : ∃ ls s, run step ls state0 = Next s ∧ step (Main Granted) s = Wrong Uninitialised.
Proof.
  exists [Main Granted; Main Fails; Thread true; Main Granted]. eexists. split; [vm_compute; reflexivity|reflexivity].
Qed.

End Hello.
